(** * tpl01-lambda: the postfix AST, its parser, and the type unifier/printer

    A shallow embedding of [parse.c], [type.c] and [lambda.h].

    - C strings are [string]s read up to their first NUL; a [const char *]
      into the source is the suffix it points at, so [*z] is the head of
      the suffix (NUL when it is empty) and [z + 1] is its tail.
    - [uint32_t]/[int32_t] values are [Z] with the wrap-around written out.
    - [Type *] pointers into [TypeTree.types] are slot indices, [NULL] is
      [None].
    - Functions that can terminate the process return an [outcome]. *)

From Stdlib Require Import ZArith Lia Ascii String.
From stdpp Require Import base list strings.

Local Open Scope string_scope.
Local Open Scope list_scope.
Local Open Scope Z_scope.

(** ** Outcomes of a run *)

(** The fatal exits of the program, one per [DIE_IF]/[DIE_LCOV_EXCL_LINE]
    call site (named after its message) and one for [assert]. *)
Inductive Fatal : Type :=
| EmptyPostfix        (* "An empty AST is postfix." *)
| EmptyRoot           (* "Empty AST has no root" *)
| NodeCapacity        (* "BUG: %s is using %lu Ast nodes, only %d are alloced" *)
| BadErrorLoc         (* "Creating error at invalid source loc %ld" *)
| BadToken            (* "Bad token %u." *)
| BadDepth            (* "Bad depth %u." *)
| BadLambdaCall       (* "bad call to %s." *)
| HugeArg             (* "Huge arg parsed %lu nodes, why no ENOMEM?" *)
| UnusedBytes         (* "Unused bytes after program source: '%.*s...'" *)
| BadTypeId           (* "Upacking Ast node %u with bad type id %u" *)
| OverbigToken        (* "Overbig token %u" *)
| AssertFailed.       (* assert(...) *)

(** Behaviour the C standard leaves undefined: an access outside an array. *)
Inductive UB : Type :=
| BindingIndex        (* binding_depths[token] / bindings[val] out of range *)
| NodeIndex           (* nodes[idx] out of range *)
| SlotIndex           (* types[idx] out of range, or a NULL slot pointer *)
| StackIndex.         (* Unparser.stack[depth] out of range *)

(** Modelled from the spec: [untestable.h] is not part of the sources; its
    [DIE_IF] and [DIE_LCOV_EXCL_LINE] are the fatal, process-terminating
    exits of the spec's section 7 ([Die]), [realloc_or_die] never fails
    here, and [DBG] prints nothing.  [Undefined] marks an out-of-range
    access, [OutOfFuel] an exhausted recursion budget of the model. *)
Inductive outcome (A : Type) : Type :=
| Ok (a : A)
| Die (f : Fatal)
| Undefined (u : UB)
| OutOfFuel.
Arguments Ok {A} a.
Arguments Die {A} f.
Arguments Undefined {A} u.
Arguments OutOfFuel {A}.

Definition obind {A B} (m : outcome A) (k : A → outcome B) : outcome B :=
  match m with
  | Ok a => k a
  | Die f => Die f
  | Undefined u => Undefined u
  | OutOfFuel => OutOfFuel
  end.

(** State-and-exit monad: the state is whatever the C function mutates
    through its first pointer argument. *)
Definition St (S A : Type) : Type := S → outcome (A * S).

Definition ret {S A} (a : A) : St S A := λ s, Ok (a, s).
Definition bind {S A B} (m : St S A) (k : A → St S B) : St S B :=
  λ s, match m s with
       | Ok (a, s') => k a s'
       | Die f => Die f
       | Undefined u => Undefined u
       | OutOfFuel => OutOfFuel
       end.
Definition die {S A} (f : Fatal) : St S A := λ _, Die f.
Definition undefined {S A} (u : UB) : St S A := λ _, Undefined u.
Definition get {S} : St S S := λ s, Ok (s, s).
Definition put {S} (s : S) : St S unit := λ _, Ok (tt, s).
(** [DIE_IF(cond, msg)] *)
Definition DIE_IF {S} (cond : bool) (f : Fatal) : St S unit :=
  if cond then die f else ret tt.

Notation "'let*' x ':=' m 'in' k" := (bind m (λ x, k))
  (at level 10, x pattern, m at level 100, k at level 200).

(** ** lambda.h: the AST nodes *)

Inductive AstNodeType : Type := ANT_VAR | ANT_CALL | ANT_BOUND | ANT_LAMBDA.

(** Modelled from the spec: [lambda.h] as shipped declares only the tags
    [ANT_VAR] and [ANT_CALL] and the union members [VAR] and [CALL];
    [parse.c] also stores [ANT_BOUND] (with a [BOUND.depth] member) and
    [ANT_LAMBDA].  Following the spec's data model they are two further
    variants of the tagged union, distinct from the declared ones. *)
Inductive AstNode : Type :=
| Var (token : Z)
| Call (arg_size : Z)
| Bound (depth : Z)
| Lambda.

Definition node_type (n : AstNode) : AstNodeType :=
  match n with
  | Var _ => ANT_VAR
  | Call _ => ANT_CALL
  | Bound _ => ANT_BOUND
  | Lambda => ANT_LAMBDA
  end.

Definition u32 (x : Z) : Z := x mod 2 ^ 32.
Definition i32 (x : Z) : Z :=
  let y := u32 x in if 2 ^ 31 <=? y then y - 2 ^ 32 else y.
Definition INT32_MAX : Z := 2 ^ 31 - 1.

(** [ast_unpack(nodes, idx, &val)]: the tag and the decoded value.  The
    [switch] has cases for [ANT_CALL] and [ANT_VAR] only. *)
Definition ast_unpack (nodes : list AstNode) (idx : Z)
  : outcome (AstNodeType * Z) :=
  if idx <? 0 then Undefined NodeIndex else
  match nodes !! Z.to_nat idx with
  | None => Undefined NodeIndex
  | Some n =>
    match n with
    | Call arg_size => Ok (ANT_CALL, u32 (idx - arg_size - 1))
    | Var token => Ok (ANT_VAR, token)
    | _ => Die BadTypeId
    end
  end.

Definition ast_arg_idx (nodes : list AstNode) (call_idx : Z) : Z :=
  i32 (call_idx - 1).

(** ** parse.c: the AST store *)

Record SyntaxError : Type := mkSyntaxError {
  loc : Z;            (* offset of the error in the source *)
  msg : string        (* the formatted message, without the
                         "name:loc: Syntax error: " prefix and the final '.' *)
}.

Record Ast : Type := mkAst {
  zname : string;
  zsrc : string;
  error : list SyntaxError;      (* newest first, as the [prev] links *)
  zsrc_len : Z;
  nnodes_alloced : Z;
  current_depth : Z;
  binding_depths : list Z;       (* 26 entries *)
  nodes : list AstNode           (* the first [nnodes] slots *)
}.

Definition nnodes (ast : Ast) : Z := Z.of_nat (length (nodes ast)).

(** Stores to single members of [*ast]. *)
Definition set_error (ast : Ast) (e : list SyntaxError) : Ast :=
  mkAst (zname ast) (zsrc ast) e (zsrc_len ast) (nnodes_alloced ast)
        (current_depth ast) (binding_depths ast) (nodes ast).
Definition set_current_depth_ (ast : Ast) (d : Z) : Ast :=
  mkAst (zname ast) (zsrc ast) (error ast) (zsrc_len ast) (nnodes_alloced ast)
        d (binding_depths ast) (nodes ast).
Definition set_binding_depths (ast : Ast) (b : list Z) : Ast :=
  mkAst (zname ast) (zsrc ast) (error ast) (zsrc_len ast) (nnodes_alloced ast)
        (current_depth ast) b (nodes ast).
Definition set_nodes (ast : Ast) (l : list AstNode) : Ast :=
  mkAst (zname ast) (zsrc ast) (error ast) (zsrc_len ast) (nnodes_alloced ast)
        (current_depth ast) (binding_depths ast) l.

Definition Parser (A : Type) : Type := St Ast A.

Definition ast_postfix (ast : Ast) : outcome (list AstNode * Z) :=
  let n := nnodes ast in
  if n =? 0 then Die EmptyPostfix else Ok (nodes ast, n).

(** [ast_root]: the index of the last node. *)
Definition ast_root : Parser Z := λ ast,
  let n := nnodes ast in
  if n =? 0 then Die EmptyRoot else Ok (n - 1, ast).

(** [ast_node_alloc(ast, 1)] with the caller's store [*pn = node] into the
    fresh slot folded in; returns the index of that slot. *)
Definition ast_node_alloc (node : AstNode) : Parser Z := λ ast,
  let u := nnodes ast in
  let nu := u + 1 in
  if nnodes_alloced ast <? nu then Die NodeCapacity
  else Ok (u, set_nodes ast (nodes ast ++ [node])).

(** [zloc - ast->zsrc] for a pointer [zloc] into the source. *)
Definition src_offset (ast : Ast) (zloc : string) : Z :=
  Z.of_nat (String.length (zsrc ast)) - Z.of_nat (String.length zloc).

Definition add_syntax_error (zloc : string) (m : string) : Parser unit :=
  λ ast,
  let n := src_offset ast zloc in
  if zsrc_len ast <? n then Die BadErrorLoc
  else Ok (tt, set_error ast (mkSyntaxError n m :: error ast)).

(** [report_syntax_errors] returns the number of recorded errors. *)
Definition report_syntax_errors (ast : Ast) : Z :=
  Z.of_nat (length (error ast)).

(** ** parse.c: lexing *)

Definition NUL : ascii := "000"%char.

(** [*z] *)
Definition deref (z : string) : ascii :=
  match z with
  | EmptyString => NUL
  | String c _ => c
  end.

(** [z + 1] *)
Definition next (z : string) : string :=
  match z with
  | EmptyString => EmptyString
  | String _ z' => z'
  end.

Fixpoint strlen (z : string) : nat :=
  match z with
  | EmptyString => O
  | String c z' => if Ascii.eqb c NUL then O else S (strlen z')
  end.

Definition code (c : ascii) : Z := Z.of_N (N_of_ascii c).

Definition is_white (ch : ascii) : bool :=
  Ascii.eqb ch " " || Ascii.eqb ch "009" || Ascii.eqb ch "010".

Fixpoint eat_white (z0 : string) : string :=
  match z0 with
  | String ch z' => if is_white ch then eat_white z' else z0
  | EmptyString => z0
  end.

Definition idx_from_letter (c : ascii) : Z := (code c - code "a") mod 256.
Definition idx_from_digit (c : ascii) : Z := (code c - code "0") mod 256.

(** The loop that advances [z] past a run of lowercase letters. *)
Fixpoint skip_letters (z : string) : string :=
  match z with
  | String c z' => if idx_from_letter c <? 26 then skip_letters z' else z
  | EmptyString => z
  end.

Fixpoint skip_digits (z : string) : string :=
  match z with
  | String c z' => if idx_from_digit c <? 10 then skip_digits z' else z
  | EmptyString => z
  end.

(** ["%.*s"] with precision [z - z0] applied to [z0]. *)
Definition span (z0 z : string) : string :=
  substring 0 (String.length z0 - String.length z) z0.

Definition lex_varname (z0 : string) : Parser (Z * string) :=
  let idx := idx_from_letter (deref z0) in
  if 26 <=? idx then ret (-1, z0)
  else
    let z := next z0 in
    if 26 <=? idx_from_letter (deref z) then ret (idx, z)
    else
      let z := skip_letters z in
      let* _ := add_syntax_error z0
        ("Multi-byte varnames aren't allowed.  '" +:+ span z0 z +:+ "'") in
      ret (idx, z).

Definition lex_int (z0 : string) : Parser (Z * string) :=
  let idx := idx_from_digit (deref z0) in
  if 10 <=? idx then ret (-1, z0)
  else
    let z := next z0 in
    if 10 <=? idx_from_digit (deref z) then ret (idx, z)
    else
      let z := skip_digits z in
      let* _ := add_syntax_error z0
        ("Multi-digit nums aren't allowed.  '" +:+ span z0 z +:+ "'") in
      ret (idx, z).

(** ** parse.c: emitting nodes *)

Definition push_varname (token : Z) : Parser unit :=
  let* _ := DIE_IF (code "z" <? token + code "a") BadToken in
  let* _ := ast_node_alloc (Var (u32 token)) in
  ret tt.

Definition push_bound (depth : Z) : Parser unit :=
  let* _ := DIE_IF (depth <? 0) BadDepth in
  let* _ := ast_node_alloc (Bound (u32 depth)) in
  ret tt.

(** [ast->binding_depths[token]] as an rvalue. *)
Definition read_binding (token : Z) : Parser Z := λ ast,
  if token <? 0 then Undefined BindingIndex
  else match binding_depths ast !! Z.to_nat token with
       | Some d => Ok (d, ast)
       | None => Undefined BindingIndex
       end.

Definition push_var (token : Z) : Parser unit :=
  let* _ := DIE_IF (code "z" <? token + code "a") BadToken in
  let* bdepth := read_binding token in
  let* ast := get in
  if bdepth =? 0 then push_varname token
  else push_bound (i32 (current_depth ast - bdepth)).

(** ** parse.c: the recursive-descent parser *)

(** [ast->current_depth = d] *)
Definition set_current_depth (d : Z) : Parser unit := λ ast,
  Ok (tt, set_current_depth_ ast d).

(** [*binding = v], where [binding] is [ast->binding_depths + token] when
    [token >= 0] and the address of the local [sink] otherwise. *)
Definition write_binding (token : Z) (v : Z) : Parser unit := λ ast,
  if token <? 0 then Ok (tt, ast)
  else if token <? Z.of_nat (length (binding_depths ast))
  then Ok (tt, set_binding_depths ast
                 (<[Z.to_nat token := v]> (binding_depths ast)))
  else Undefined BindingIndex.

(** [parse_lambda], with the recursive call to [parse_non_call_expr]
    passed in as [pnce]. *)
Definition parse_lambda_ (pnce : string → Parser (option string))
    (z0 : string) : Parser (option string) :=
  let* _ := DIE_IF (negb (Ascii.eqb (deref z0) "[")) BadLambdaCall in
  let zE := eat_white (next z0) in
  let* (token, zE) := lex_varname zE in
  let zE := eat_white zE in
  let* zE :=
    (if Ascii.eqb (deref zE) "]" then ret (next zE)
     else
       let n := (String.length z0 - String.length zE
                 + (if Ascii.eqb (deref zE) NUL then 0 else 1))%nat in
       let* _ := add_syntax_error z0
         ("Lambda '" +:+ substring 0 n z0 +:+ "' doesn't end in ']'") in
       ret zE) in
  let* ast := get in
  let inner_depth := u32 (current_depth ast + 1) in
  let* prev_bound := (if 0 <=? token then read_binding token else ret 0) in
  let* _ := set_current_depth inner_depth in
  let* _ := write_binding token inner_depth in
  let zbody := zE in
  let* zE := pnce zE in
  match zE with
  | None =>
    let* _ := add_syntax_error zbody "Expected lambda body" in
    ret None
  | Some zE =>
    let* body := ast_root in
    let* _ := write_binding token prev_bound in
    let* _ := set_current_depth (u32 (inner_depth - 1)) in
    let* _ := push_varname token in
    let* pn := ast_node_alloc Lambda in
    let* _ := DIE_IF (negb (pn - body =? 2)) AssertFailed in
    ret (Some zE)
  end.

(** The [while] loop of [parse_expr]: [None] is its [return NULL],
    [Some z] leaves the loop with the first operand parsed up to [z]. *)
Fixpoint parse_expr_while (pnce : string → Parser (option string))
    (n : nat) (z0 z1 : string) : Parser (option string) :=
  match n with
  | O => λ _, OutOfFuel
  | S n =>
    let* z := pnce z1 in
    match z with
    | Some z => ret (Some z)
    | None =>
      let* ast := get in
      let* _ := (if error ast is [] then add_syntax_error z0 "Expected expr"
                 else ret tt) in
      if Ascii.eqb (deref z1) NUL then ret None
      else parse_expr_while pnce n z0 (eat_white (next z1))
    end
  end.

(** The [for (;;)] loop of [parse_expr]. *)
Fixpoint parse_expr_for (pnce : string → Parser (option string))
    (n : nat) (z : string) : Parser (option string) :=
  match n with
  | O => λ _, OutOfFuel
  | S n =>
    let* func := ast_root in
    let z := eat_white z in
    let* z1 := pnce z in
    let* root := ast_root in
    let arg_size := (root - func) mod 2 ^ 64 in
    match z1 with
    | None => ret (Some z)
    | Some z1 =>
      let* _ := DIE_IF (INT32_MAX <? arg_size) HugeArg in
      let* _ := ast_node_alloc (Call (u32 arg_size)) in
      parse_expr_for pnce n z1
    end
  end.

Definition parse_expr_ (pnce : string → Parser (option string))
    (n : nat) (z0 : string) : Parser (option string) :=
  let z1 := eat_white z0 in
  let* z := parse_expr_while pnce n z0 z1 in
  match z with
  | None => ret None
  | Some z => parse_expr_for pnce n z
  end.

(** [fuel] bounds the nesting of the mutual recursion and the number of
    iterations of each loop; [parse] supplies enough of it. *)
Fixpoint parse_non_call_expr (fuel : nat) (z0 : string)
  : Parser (option string) :=
  match fuel with
  | O => λ _, OutOfFuel
  | S fuel =>
    let* (token, zE) := lex_varname z0 in
    if 0 <=? token then
      let* _ := push_var token in
      ret (Some zE)
    else
      let* (token, zE) := lex_int z0 in
      if 0 <=? token then
        let* token :=
          (if token =? 0 then
             let* _ := add_syntax_error z0 "0 is an invalid debrujin index" in
             ret (token + 1)
           else ret token) in
        let* _ := push_bound (token - 1) in
        ret (Some zE)
      else if Ascii.eqb (deref z0) "(" then
        let* zE := parse_expr_ (parse_non_call_expr fuel) fuel (next z0) in
        match zE with
        | Some zE' =>
          if Ascii.eqb (deref zE') ")" then ret (Some (next zE'))
          else
            let* _ := add_syntax_error z0 "Unmatched '('" in
            ret zE
        | None =>
          let* _ := add_syntax_error z0 "Unmatched '('" in
          ret None
        end
      else if Ascii.eqb (deref z0) "[" then
        parse_lambda_ (parse_non_call_expr fuel) z0
      else ret None
  end.

Definition parse_lambda (fuel : nat) : string → Parser (option string) :=
  parse_lambda_ (parse_non_call_expr fuel).

Definition parse_expr (fuel : nat) : string → Parser (option string) :=
  parse_expr_ (parse_non_call_expr fuel) fuel.

Definition new_ast (zname zsrc : string) : Ast :=
  let n := Z.of_nat (strlen zsrc) + 8 in
  mkAst zname zsrc [] (u32 n) (u32 n) 0 (replicate 26 0) [].

Definition parse (zname zsrc : string) : outcome Ast :=
  match parse_expr (S (String.length zsrc)) zsrc (new_ast zname zsrc) with
  | Ok (zE, ast) =>
    match zE with
    | Some zE =>
      if Ascii.eqb (deref zE) NUL then Ok ast else Die UnusedBytes
    | None => Ok ast
    end
  | Die f => Die f
  | Undefined u => Undefined u
  | OutOfFuel => OutOfFuel
  end.

(** ** type.c: type slots and the union-find *)

Definition MAX_TOKS : Z := 26.
Definition MAX_DEPTH : Z := 16.

(** [struct Type]; the pointers are slot indices into [TypeTree.types]. *)
Record Type_ : Type := mkType {
  master_t : nat;
  arg_t : option nat;
  ret_t : option nat
}.

Record TypeTree : Type := mkTypeTree {
  postfix : list AstNode;
  size : Z;
  bindings : list (option nat);      (* MAX_TOKS entries *)
  types : list Type_
}.

(** The functions below take [Type *types = ttree->types] and work on the
    slot array alone. *)
Definition Slots (A : Type) : Type := St (list Type_) A.

(** [types[i]] as an rvalue. *)
Definition read_slot (i : nat) : Slots Type_ := λ ts,
  match ts !! i with
  | Some t => Ok (t, ts)
  | None => Undefined SlotIndex
  end.

(** [types[i] = t] *)
Definition write_slot (i : nat) (t : Type_) : Slots unit := λ ts,
  if (i <? length ts)%nat then Ok (tt, <[i := t]> ts)
  else Undefined SlotIndex.

(** [types[i].master_t = types + m] *)
Definition write_master (i m : nat) : Slots unit :=
  let* t := read_slot i in
  write_slot i (mkType m (arg_t t) (ret_t t)).

(** [p - types] for a slot pointer [p]. *)
Definition slot_of (p : option nat) : Slots nat :=
  match p with
  | Some i => ret i
  | None => undefined SlotIndex
  end.

Fixpoint pmasterise (fuel : nat) (t : nat) : Slots nat :=
  match fuel with
  | O => λ _, OutOfFuel
  | S fuel =>
    let* ty := read_slot t in
    let m := master_t ty in
    if (m =? t)%nat then ret t
    else
      let* r := pmasterise fuel m in
      let* _ := write_master t r in
      ret r
  end.

(** The recursion of [pmasterise] follows the master chain, which visits
    each slot at most once unless it is cyclic. *)
Definition masterise (idx : nat) : Slots nat := λ ts,
  pmasterise (S (length ts)) idx ts.

(** The first loop of [print_typename]: unwrap [Call] nodes to their
    callee, counting; returns the final [val] and the count [k]. *)
Fixpoint print_typename_unwrap (exprs : list AstNode) (n : nat)
    (val : Z) (k : nat) : outcome (Z * nat) :=
  match n with
  | O => OutOfFuel
  | S n =>
    obind (ast_unpack exprs val) (λ '(ty, val'),
      match ty with
      | ANT_CALL => print_typename_unwrap exprs n val' (S k)
      | _ => Ok (val', k)
      end)
  end.

(** [fputc(c, oot)] with [c] converted to [unsigned char]. *)
Definition fputc (c : Z) (out : string) : string :=
  out +:+ String (ascii_of_N (Z.to_N (c mod 256))) EmptyString.

Definition fputs (s : string) (out : string) : string := out +:+ s.

(** [while (k--) fputc(c, oot);] *)
Fixpoint fputc_times (k : nat) (c : Z) (out : string) : string :=
  match k with
  | O => out
  | S k => fputc_times k c (fputc c out)
  end.

Definition print_typename (out : string) (exprs : list AstNode) (idx : Z)
  : outcome string :=
  obind (print_typename_unwrap exprs (S (length exprs)) (u32 idx) O)
    (λ '(val, k), Ok (fputc_times k (code "r") (fputc (val + code "A") out))).

Fixpoint unify (fuel : nat) (ia ib : nat) : Slots unit :=
  match fuel with
  | O => λ _, OutOfFuel
  | S fuel =>
    if (ia =? ib)%nat then ret tt
    else
      let* ia := masterise ia in
      let* ib := masterise ib in
      let* a := read_slot ia in
      let* b := read_slot ib in
      if negb (bool_decide (is_Some (arg_t a))) && bool_decide (is_Some (arg_t b))
      then
        let* _ := write_slot ia (mkType ia (arg_t b) (ret_t b)) in
        let* _ := write_slot ib (mkType ia None None) in
        let* _ := masterise ib in
        ret tt
      else
        let* _ := write_master ib ia in
        let* _ := masterise ib in
        if negb (bool_decide (is_Some (arg_t b))) then ret tt
        else
          let* a_arg := slot_of (arg_t a) in
          let* b_arg := slot_of (arg_t b) in
          let* _ := unify fuel a_arg b_arg in
          let* a_ret := slot_of (ret_t a) in
          let* b_ret := slot_of (ret_t b) in
          unify fuel a_ret b_ret
  end.

(** Every call of [unify] that recurses merges two classes first, so the
    nesting is bounded by the number of slots. *)
Definition unify_top (ia ib : nat) : Slots unit := λ ts,
  unify (S (length ts)) ia ib ts.

Definition coerce_to_fun_type (exprs : list AstNode) (ifun icall : Z)
  : Slots unit :=
  let* _ := DIE_IF (negb (ifun <? icall)) AssertFailed in
  let iarg := u32 (ast_arg_idx exprs icall) in
  let iret := icall in
  let* ifun := masterise (Z.to_nat ifun) in
  let* fun_ := read_slot ifun in
  if bool_decide (is_Some (arg_t fun_)) then
    let* fun_arg := slot_of (arg_t fun_) in
    let* _ := unify_top fun_arg (Z.to_nat iarg) in
    let* fun_ret := slot_of (ret_t fun_) in
    unify_top fun_ret (Z.to_nat icall)
  else
    let* marg := masterise (Z.to_nat iarg) in
    let* t := read_slot ifun in
    let* _ := write_slot ifun (mkType (master_t t) (Some marg) (ret_t t)) in
    let* mret := masterise (Z.to_nat iret) in
    let* t := read_slot ifun in
    write_slot ifun (mkType (master_t t) (arg_t t) (Some mret)).

Definition Solver (A : Type) : Type := St TypeTree A.

(** Run a function of the slot array on [ttree->types]. *)
Definition on_types {A} (m : Slots A) : Solver A := λ tt_,
  match m (types tt_) with
  | Ok (a, ts) => Ok (a, mkTypeTree (postfix tt_) (size tt_) (bindings tt_) ts)
  | Die f => Die f
  | Undefined u => Undefined u
  | OutOfFuel => OutOfFuel
  end.

(** [ttree->bindings[val]] as an rvalue. *)
Definition read_type_binding (val : Z) : Solver (option nat) := λ tt_,
  match bindings tt_ !! Z.to_nat val with
  | Some b => Ok (b, tt_)
  | None => Undefined BindingIndex
  end.

(** [ttree->bindings[val] = types + k] *)
Definition write_type_binding (val : Z) (k : nat) : Solver unit := λ tt_,
  if val <? Z.of_nat (length (bindings tt_))
  then Ok (tt, mkTypeTree (postfix tt_) (size tt_)
                          (<[Z.to_nat val := Some k]> (bindings tt_)) (types tt_))
  else Undefined BindingIndex.

(** The body of the [for] loop of [solve_types] at index [k]. *)
Definition solve_types_step (k : Z) : Solver unit :=
  let* ttree := get in
  let exprs := postfix ttree in
  match ast_unpack exprs k with
  | Ok (ANT_VAR, val) =>
    let* _ := DIE_IF (MAX_TOKS <? val) OverbigToken in
    let* b := read_type_binding val in
    match b with
    | Some first =>
      let* t := on_types (read_slot first) in
      on_types (write_slot (Z.to_nat k) t)
    | None => write_type_binding val (Z.to_nat k)
    end
  | Ok (ANT_CALL, val) => on_types (coerce_to_fun_type exprs val k)
  | Ok (_, _) => ret tt
  | Die f => die f
  | Undefined u => undefined u
  | OutOfFuel => λ _, OutOfFuel
  end.

(** [for (int k = k0; k < size; k++)], with [n] iterations left. *)
Fixpoint solve_types_from (n : nat) (k : Z) : Solver unit :=
  match n with
  | O => ret tt
  | S n =>
    let* _ := solve_types_step k in
    solve_types_from n (k + 1)
  end.

Definition solve_types : Solver unit :=
  let* ttree := get in
  solve_types_from (Z.to_nat (size ttree)) 0.

Definition build_type_tree (ast : Ast) : outcome TypeTree :=
  obind (ast_postfix ast) (λ '(postfix, size),
    let tree :=
      mkTypeTree postfix size (replicate (Z.to_nat MAX_TOKS) None)
                 (imap (λ k _, mkType k None None) postfix) in
    obind (solve_types tree) (λ '(_, tree), Ok tree)).

(** ** type.c: the printer *)

Record Unparser : Type := mkUnparser {
  oot : string;                      (* what has been written to the stream *)
  exprs : list AstNode;
  unp_types : list Type_;            (* the [types] member *)
  depth : Z;
  stack : list (option nat)          (* MAX_DEPTH entries *)
}.

Definition Printer (A : Type) : Type := St Unparser A.

Definition on_unp_types {A} (m : Slots A) : Printer A := λ unp,
  match m (unp_types unp) with
  | Ok (a, ts) =>
    Ok (a, mkUnparser (oot unp) (exprs unp) ts (depth unp) (stack unp))
  | Die f => Die f
  | Undefined u => Undefined u
  | OutOfFuel => OutOfFuel
  end.

Definition emit (f : string → string) : Printer unit := λ unp,
  Ok (tt, mkUnparser (f (oot unp)) (exprs unp) (unp_types unp) (depth unp)
                     (stack unp)).

Definition set_depth (d : Z) : Printer unit := λ unp,
  Ok (tt, mkUnparser (oot unp) (exprs unp) (unp_types unp) d (stack unp)).

(** [while (k--) if (unp->stack[k] == type) return false;]: [Some true]
    when [type] is found below [k], [None] when the scan reads outside the
    array. *)
Fixpoint stack_scan (stack : list (option nat)) (k : nat) (type : nat)
  : option bool :=
  match k with
  | O => Some false
  | S k =>
    match stack !! k with
    | None => None
    | Some p => if bool_decide (p = Some type) then Some true
                else stack_scan stack k type
    end
  end.

Definition unparse_push (type : nat) : Printer bool :=
  let* t := on_unp_types (read_slot type) in
  let* _ := DIE_IF (negb (type =? master_t t)%nat) AssertFailed in
  let* unp := get in
  let depth := depth unp in
  match stack_scan (stack unp) (Z.to_nat depth) type with
  | None => undefined StackIndex
  | Some true => ret false
  | Some false =>
    if depth <? Z.of_nat (length (stack unp)) then
      let* _ := put (mkUnparser (oot unp) (exprs unp) (unp_types unp)
                       (u32 (depth + 1))
                       (<[Z.to_nat depth := Some type]> (stack unp))) in
      ret true
    else undefined StackIndex
  end.

Definition unparse_pop : Printer unit :=
  let* unp := get in
  let depth := i32 (depth unp) - 1 in
  let* _ := DIE_IF (negb (0 <=? depth)) AssertFailed in
  set_depth (u32 depth).

Fixpoint unparse_type_ (fuel : nat) (t : nat) : Printer unit :=
  match fuel with
  | O => λ _, OutOfFuel
  | S fuel =>
    let* idx := on_unp_types (masterise t) in
    let t := idx in
    let* unp := get in
    match print_typename (oot unp) (exprs unp) (Z.of_nat idx) with
    | Ok out =>
      let* _ := emit (λ _, out) in
      let* t0 := on_unp_types (read_slot t) in
      let* ty := on_unp_types (read_slot (master_t t0)) in
      if negb (bool_decide (is_Some (arg_t ty))) then ret tt
      else
        let* pushed := unparse_push t in
        if negb pushed then ret tt
        else
          let* _ := emit (fputs "=(") in
          let* arg := on_unp_types (slot_of (arg_t ty)) in
          let* _ := unparse_type_ fuel arg in
          let* _ := emit (fputc (code " ")) in
          let* ret_ := on_unp_types (slot_of (ret_t ty)) in
          let* _ := unparse_type_ fuel ret_ in
          let* _ := emit (fputc (code ")")) in
          unparse_pop
    | Die f => die f
    | Undefined u => undefined u
    | OutOfFuel => λ _, OutOfFuel
    end
  end.

(** [unparse_type]: a fresh [Unparser] on the shared slot array.  Each
    nested call of [unparse_type_] follows a successful push, so the
    nesting is bounded by the stack. *)
Definition unparse_type (out : string) (tree : TypeTree) (t : nat)
  : outcome (string * TypeTree) :=
  let unp := mkUnparser out (postfix tree) (types tree) 0
                        (replicate (Z.to_nat MAX_DEPTH) None) in
  obind (unparse_type_ (S (Z.to_nat MAX_DEPTH)) t unp) (λ '(_, unp),
    Ok (oot unp, mkTypeTree (postfix tree) (size tree) (bindings tree)
                            (unp_types unp))).

(** The loop of [act_type] from slot [k], with [n] iterations left. *)
Fixpoint act_type_from (n : nat) (k : nat) (out : string) (ttree : TypeTree)
  : outcome string :=
  match n with
  | O => Ok out
  | S n =>
    obind (unparse_type out ttree k) (λ '(out, ttree),
      act_type_from n (S k) (fputc (code "010") out) ttree)
  end.

(** [act_type]: what is written to [oot]. *)
Definition act_type (out : string) (ast : Ast) : outcome string :=
  obind (build_type_tree ast) (λ ttree,
    act_type_from (Z.to_nat (size ttree)) 0 out ttree).

(** ** The unparse pass *)

(** Modelled from the spec: [act_unparse] is declared in [lambda.h] but its
    source is absent.  README.md lists it as the recursive [unparse]: a
    variable prints its letter, a call prints ['('], the callee, [' '], the
    argument and [')'], any other tag is fatal.  The callee and argument
    are located as the comment on [AstCall] in [lambda.h] says, through
    [ast_unpack] and [ast_arg_idx]. *)
Fixpoint unparse (fuel : nat) (exprs : list AstNode) (root : Z)
    (out : string) : outcome string :=
  match fuel with
  | O => OutOfFuel
  | S fuel =>
    obind (ast_unpack exprs root) (λ '(ty, val),
      match ty with
      | ANT_VAR => Ok (fputc (val + code "a") out)
      | ANT_CALL =>
        obind (unparse fuel exprs val (fputc (code "(") out)) (λ out,
        obind (unparse fuel exprs (ast_arg_idx exprs root)
                       (fputc (code " ") out)) (λ out,
        Ok (fputc (code ")") out)))
      | _ => Die BadTypeId
      end)
  end.

(** Modelled from the spec: [act_unparse] prints the program from its root,
    the last node of [ast_postfix]; the line break after the expression is
    left out. *)
Definition act_unparse (out : string) (ast : Ast) : outcome string :=
  obind (ast_postfix ast) (λ '(exprs, size),
    unparse (S (length exprs)) exprs (size - 1) out).

(** ** Expression trees and their postfix layout *)

(** The tree a node sequence stands for; [parse.c] never builds it, it
    only names what the slots of the AST store encode. *)
Inductive expr : Type :=
| EVar (token : Z)
| EBound (depth : Z)
| ELambda (body : expr) (name : Z)
| ECall (f a : expr).

(** Post-order storage: callee, argument, then the [Call] with the size of
    the argument; body, bound name, then the [Lambda] marker. *)
Fixpoint flatten (e : expr) : list AstNode :=
  match e with
  | EVar t => [Var t]
  | EBound d => [Bound d]
  | ELambda b t => flatten b ++ [Var t; Lambda]
  | ECall f a => flatten f ++ flatten a ++ [Call (Z.of_nat (length (flatten a)))]
  end.

(** The first slot of the subtree whose root is slot [idx], computed with
    the arithmetic the code uses to find children: the callee of a [Call]
    is at [idx - arg_size - 1] ([ast_unpack]) and the body of a [Lambda]
    two slots before it ([parse_lambda]).  The range of node [idx] is
    [[subtree_first idx, idx]]. *)
Fixpoint subtree_first_ (nodes : list AstNode) (n : nat) (idx : Z)
  : option Z :=
  match n with
  | O => None
  | S n =>
    if idx <? 0 then None
    else match nodes !! Z.to_nat idx with
         | None => None
         | Some (Call arg_size) => subtree_first_ nodes n (idx - arg_size - 1)
         | Some Lambda => subtree_first_ nodes n (idx - 2)
         | Some _ => Some idx
         end
  end.

Definition subtree_first (nodes : list AstNode) (idx : Z) : option Z :=
  subtree_first_ nodes (S (Z.to_nat idx)) idx.

(** The slots [[first, last]] of a node sequence. *)
Definition slots_between (nodes : list AstNode) (first last : Z)
  : list AstNode :=
  take (Z.to_nat (last + 1 - first)) (drop (Z.to_nat first) nodes).

(** Application-only programs over the 26 letters, and their fully
    parenthesised text. *)
Fixpoint app_only (e : expr) : bool :=
  match e with
  | EVar t => (0 <=? t) && (t <? 26)
  | ECall f a => app_only f && app_only a
  | _ => false
  end.

Definition letter (t : Z) : ascii := ascii_of_N (Z.to_N ((t + code "a") mod 256)).

Fixpoint canon (e : expr) : string :=
  match e with
  | EVar t => String (letter t) EmptyString
  | ECall f a => "(" +:+ canon f +:+ " " +:+ canon a +:+ ")"
  | _ => EmptyString
  end.

Definition all_white (z : string) : bool :=
  forallb is_white (list_ascii_of_string z).

(** What [parse.c] can store: letter tokens for variables, the token
    [(uint32_t)-1] only for the name slot of a lambda, depths and argument
    sizes within [int32_t]. *)
Fixpoint wf_expr (e : expr) : Prop :=
  match e with
  | EVar t => 0 ≤ t < 26
  | EBound d => 0 ≤ d ≤ INT32_MAX
  | ELambda b t => wf_expr b ∧ (0 ≤ t < 26 ∨ t = 4294967295)
  | ECall f a => wf_expr f ∧ wf_expr a ∧ Z.of_nat (length (flatten a)) ≤ INT32_MAX
  end.

(** The effect of a parsing function on the node sequence: a successful
    call appends one complete subtree, a failed one appends nothing. *)
Definition grows (ast ast' : Ast) (r : option string) : Prop :=
  nnodes_alloced ast' = nnodes_alloced ast
  ∧ match r with
    | Some _ => (∃ e, wf_expr e ∧ nodes ast' = nodes ast ++ flatten e)
                ∧ nnodes ast' ≤ nnodes_alloced ast'
    | None => nodes ast' = nodes ast
    end.

(** [nnodes_alloced] is a [uint32_t]. *)
Definition grows_spec (p : string → Parser (option string)) : Prop :=
  ∀ z0 ast r ast',
    nnodes_alloced ast < 2 ^ 32 → p z0 ast = Ok (r, ast') → grows ast ast' r.

(** No letter is bound: the state of the binding environment outside any
    lambda. *)
Definition free_alphabet (ast : Ast) : Prop :=
  ∀ t, 0 ≤ t < 26 → binding_depths ast !! Z.to_nat t = Some 0.

(** ** Union-find classes of a slot array *)

(** [reach ts i r h]: following [master_t] from slot [i] arrives, after
    [h] hops, at the representative [r], a slot that is its own master. *)
Inductive reach (ts : list Type_) : nat → nat → nat → Prop :=
| reach_root i t :
    ts !! i = Some t → master_t t = i → reach ts i i O
| reach_step i t r h :
    ts !! i = Some t → master_t t ≠ i → reach ts (master_t t) r h →
    reach ts i r (S h).

(** The number of representatives among the slots of [ts], which sit at
    indices [base], [base + 1], ... *)
Fixpoint count_roots (base : nat) (ts : list Type_) : nat :=
  match ts with
  | [] => O
  | t :: ts => ((if (master_t t =? base)%nat then 1 else 0)
                + count_roots (S base) ts)%nat
  end.

Definition roots (ts : list Type_) : nat := count_roots O ts.

(** A slot is unbound or a function type whose components are slots
    below [K]. *)
Definition slot_ok (K : nat) (t : Type_) : Prop :=
  match arg_t t, ret_t t with
  | Some a, Some r => (a < K)%nat ∧ (r < K)%nat
  | None, None => True
  | _, _ => False
  end.

(** The slots below [K] only refer to slots below [K]; the slots from
    [K] on are as [build_type_tree] initialised them. *)
Definition masters_ok (K : nat) (ts : list Type_) : Prop :=
  (K ≤ length ts)%nat
  ∧ (∀ i t, ts !! i = Some t → (i < K)%nat → (master_t t < K)%nat)
  ∧ (∀ j, (K ≤ j)%nat → (j < length ts)%nat →
       ts !! j = Some (mkType j None None)).

Definition fields_ok (K : nat) (ts : list Type_) : Prop :=
  ∀ i t, ts !! i = Some t → (i < K)%nat → slot_ok K t.

(** Every master chain ends, and is short enough for the recursion
    budget of [masterise]: each merge makes chains longer by at most one
    and removes a representative. *)
Definition wf_masters (ts : list Type_) : Prop :=
  ∀ i, (i < length ts)%nat →
    ∃ r h, reach ts i r h ∧ (h + roots ts ≤ length ts)%nat.

(** [ts'] is [ts] after path compression: same classes, same function
    structure, chains no longer than before. *)
Definition compresses (ts ts' : list Type_) : Prop :=
  length ts' = length ts
  ∧ roots ts' = roots ts
  ∧ (∀ j t, ts !! j = Some t →
       ∃ t', ts' !! j = Some t' ∧ arg_t t' = arg_t t ∧ ret_t t' = ret_t t)
  ∧ (∀ j t, ts !! j = Some t → master_t t = j → ts' !! j = Some t)
  ∧ (∀ j r h, reach ts j r h → ∃ h', (h' ≤ h)%nat ∧ reach ts' j r h').

(** The state of the slot array between two steps of the unifier. *)
Definition slots_inv (K : nat) (ts : list Type_) : Prop :=
  masters_ok K ts ∧ fields_ok K ts ∧ wf_masters ts.

(** The state of the unifier before the node at index [k] is visited. *)
Definition tree_inv (k : nat) (ttree : TypeTree) : Prop :=
  slots_inv k (types ttree)
  ∧ length (types ttree) = length (postfix ttree)
  ∧ length (bindings ttree) = 26%nat
  ∧ (∀ v f, bindings ttree !! v = Some (Some f) → (f < k)%nat).

(** The tokens [parse.c] stores in [Var] nodes. *)
Definition token_ok (n : AstNode) : Prop :=
  match n with
  | Var t => 0 ≤ t < 26 ∨ t = 4294967295
  | _ => True
  end.

(** The tags [ast_unpack] has a case for. *)
Definition unpackable (n : AstNode) : bool :=
  match node_type n with
  | ANT_VAR | ANT_CALL => true
  | _ => false
  end.

(** The state of the printer on the solved types of the tree [e]. *)
Definition unp_inv (e : expr) (unp : Unparser) : Prop :=
  slots_inv (length (flatten e)) (unp_types unp)
  ∧ length (unp_types unp) = length (flatten e)
  ∧ exprs unp = flatten e
  ∧ 0 ≤ depth unp ≤ MAX_DEPTH
  ∧ length (stack unp) = Z.to_nat MAX_DEPTH.

(** The text of the self-application example. *)
Definition newline : string := String "010" EmptyString.

(** ** Runs that stay within the program *)

(** [wp F m Q]: the run [m] ends in a result that satisfies [Q], or in a
    fatal exit of the program that is one of [F]; it neither accesses an
    array outside its bounds nor exhausts the recursion budget of the
    model. *)
Definition wp {S A} (F : Fatal → Prop) (m : outcome (A * S))
    (Q : A → S → Prop) : Prop :=
  match m with
  | Ok (a, s) => Q a s
  | Die f => F f
  | Undefined _ | OutOfFuel => False
  end.

(** The fatal exits the parsing functions can take. *)
Definition parser_exit (f : Fatal) : Prop := f = NodeCapacity ∨ f = BadDepth.

(** The binding environment has its 26 entries, [current_depth] is a
    [uint32_t], every offset into the source is at most [zsrc_len], and
    the node count is within the capacity, which is within [int32_t]. *)
Definition env_ok (ast : Ast) : Prop :=
  length (binding_depths ast) = 26%nat
  ∧ 0 ≤ current_depth ast < 2 ^ 32
  ∧ Z.of_nat (String.length (zsrc ast)) ≤ zsrc_len ast
  ∧ nnodes ast ≤ nnodes_alloced ast ≤ INT32_MAX.

(** What every parsing function keeps of [*ast]: the source and the
    capacity are fixed, syntax errors and nodes are only added. *)
Definition parser_keeps (ast ast' : Ast) : Prop :=
  env_ok ast'
  ∧ zname ast' = zname ast ∧ zsrc ast' = zsrc ast
  ∧ zsrc_len ast' = zsrc_len ast
  ∧ nnodes_alloced ast' = nnodes_alloced ast
  ∧ (∃ new, error ast' = new ++ error ast)
  ∧ (∃ more, nodes ast' = nodes ast ++ more).

(** Moreover the binding environment is the same again unless a syntax
    error was recorded. *)
Definition parser_step (ast ast' : Ast) : Prop :=
  parser_keeps ast ast'
  ∧ (error ast' = error ast →
     binding_depths ast' = binding_depths ast
     ∧ current_depth ast' = current_depth ast).

(** The result of a parsing function on the text [z]: a returned position
    lies strictly after [z], and then the AST has a root. *)
Definition advances (z : string) (ast' : Ast) (r : option string) : Prop :=
  ∀ zE, r = Some zE →
    (String.length zE < String.length z)%nat ∧ nodes ast' ≠ [].

(** ** Classes of type slots *)

(** Two slots have the same representative: they stand for one type. *)
Definition same_class (ts : list Type_) (i j : nat) : Prop :=
  ∃ r h h', reach ts i r h ∧ reach ts j r h'.

(** The type of slot [i] is the function type from the type of slot [a]
    to the type of slot [r]: the representative of [i] has its [arg_t]
    in the class of [a] and its [ret_t] in the class of [r]. *)
Definition fun_type (ts : list Type_) (i a r : nat) : Prop :=
  ∃ m h t A R, reach ts i m h ∧ ts !! m = Some t
    ∧ arg_t t = Some A ∧ ret_t t = Some R
    ∧ same_class ts A a ∧ same_class ts R r.

(** What the unifier does to the slots: classes are only merged, and a
    function type stays the function type it was. *)
Definition refines (ts ts' : list Type_) : Prop :=
  (∀ i j, same_class ts i j → same_class ts' i j)
  ∧ (∀ i a r, fun_type ts i a r → fun_type ts' i a r).

(** The typing constraints of the nodes below [k] hold in [ttree]: the
    callee of every call is a function from the type of the argument to
    the type of the call, and every variable has the type of the first
    occurrence of its name. *)
Definition typed_upto (nodes : list AstNode) (k : nat) (ttree : TypeTree)
  : Prop :=
  (∀ i s, (i < k)%nat → nodes !! i = Some (Call s) →
     fun_type (types ttree) (Z.to_nat (Z.of_nat i - s - 1)) (i - 1) i)
  ∧ (∀ i t, (i < k)%nat → nodes !! i = Some (Var t) →
       ∃ f, bindings ttree !! Z.to_nat t = Some (Some f)
            ∧ same_class (types ttree) i f).

(** ** The names of types *)

(** The variable at the head of an application, and the number of
    applications above it. *)
Fixpoint head_token (e : expr) : Z :=
  match e with
  | EVar t => t
  | ECall f _ => head_token f
  | _ => 0
  end.

Fixpoint spine (e : expr) : nat :=
  match e with
  | ECall f _ => S (spine f)
  | _ => O
  end.

(** The decimal digit of a de Bruijn index. *)
Definition digit (n : Z) : ascii :=
  ascii_of_N (Z.to_N ((n + code "0") mod 256)).

(** ** What a run of the printer keeps *)

(** A text without a line break. *)
Definition no_newline (s : string) : bool :=
  forallb (λ c, negb (Ascii.eqb c "010")) (list_ascii_of_string s).

(** The stream is only appended to, and the text appended stays on the
    current line. *)
Definition extends (out out' : string) : Prop :=
  ∃ s, out' = out +:+ s ∧ no_newline s = true.

(** Every slot keeps its representative. *)
Definition same_classes (ts ts' : list Type_) : Prop :=
  ∀ j m h, reach ts j m h → ∃ h', reach ts' j m h'.

(** The state of the printer after printing a type, against the state
    before: the depth is the same, the entries of the stack below it are
    untouched, the stream was appended to and the classes of the slots
    are the same. *)
Definition printer_keeps (unp unp' : Unparser) : Prop :=
  depth unp' = depth unp
  ∧ exprs unp' = exprs unp
  ∧ (∀ j, Z.of_nat j < depth unp → stack unp' !! j = stack unp !! j)
  ∧ extends (oot unp) (oot unp')
  ∧ same_classes (unp_types unp) (unp_types unp').

(** Lines, each followed by its line break. *)
Fixpoint unlines (lines : list string) : string :=
  match lines with
  | [] => EmptyString
  | l :: ls => l +:+ newline +:+ unlines ls
  end.

(** ** Juxtaposition *)

(** The text of arguments written after a callee, each after one space,
    and the tree of applying a callee to them in turn. *)
Fixpoint juxtapose (args : list expr) : string :=
  match args with
  | [] => EmptyString
  | a :: rest => String " " (canon a +:+ juxtapose rest)
  end.

Definition left_nest (f : expr) (args : list expr) : expr :=
  fold_left ECall args f.

(** ** Application-only source text *)

(** The source texts of application-only programs: an operand is a letter
    or a parenthesised application, and an application is an operand
    followed by further operands, each after a run of white space.  White
    space may follow ['('] and precede [')']. *)
Inductive atom : Type :=
| AVar (t : Z)
| AGroup (w1 : string) (head : atom) (args : tail) (w2 : string)
with tail : Type :=
| TNil
| TCons (w : string) (a : atom) (rest : tail).

Scheme atom_tail_rec := Induction for atom Sort Prop
  with tail_atom_rec := Induction for tail Sort Prop.

Combined Scheme atom_tail_ind from atom_tail_rec, tail_atom_rec.

Definition is_name (a : atom) : bool :=
  match a with AVar _ => true | AGroup _ _ _ _ => false end.

Definition is_empty (w : string) : bool :=
  match w with EmptyString => true | String _ _ => false end.

(** The characters of an operand, and of the operands after the first. *)
Fixpoint text (a : atom) : string :=
  match a with
  | AVar t => String (letter t) EmptyString
  | AGroup w1 h args w2 =>
    String "(" (w1 +:+ text h +:+ text_args args +:+ w2 +:+ ")")
  end
with text_args (l : tail) : string :=
  match l with
  | TNil => EmptyString
  | TCons w a l => w +:+ text a +:+ text_args l
  end.

(** The expression an operand denotes: an application takes its operands
    from left to right, each result being the callee of the next. *)
Fixpoint tree (a : atom) : expr :=
  match a with
  | AVar t => EVar t
  | AGroup _ h args _ => tree_args (tree h) args
  end
with tree_args (f : expr) (l : tail) : expr :=
  match l with
  | TNil => f
  | TCons _ a l => tree_args (ECall f (tree a)) l
  end.

(** Well-formed text: names are the 26 letters, the gaps hold only white
    space, and two letters are never adjacent ([after_name] tells whether
    the operand before the gap is a letter). *)
Fixpoint valid (a : atom) : bool :=
  match a with
  | AVar t => (0 <=? t) && (t <? 26)
  | AGroup w1 h args w2 =>
    all_white w1 && valid h && valid_args (is_name h) args && all_white w2
  end
with valid_args (after_name : bool) (l : tail) : bool :=
  match l with
  | TNil => true
  | TCons w a l =>
    all_white w && negb (after_name && is_name a && is_empty w)
    && valid a && valid_args (is_name a) l
  end.

(** A whole program: an application with white space around it. *)
Definition program_text (w1 : string) (h : atom) (args : tail)
    (w2 : string) : string :=
  w1 +:+ text h +:+ text_args args +:+ w2.

(** Where the [for] loop of [parse_expr] ends: at a character that starts
    no operand and is not white space. *)
Definition stops (rest : string) : Prop :=
  26 ≤ idx_from_letter (deref rest) ∧ 10 ≤ idx_from_digit (deref rest)
  ∧ deref rest ≠ "("%char ∧ deref rest ≠ "["%char
  ∧ is_white (deref rest) = false.

(** ** Slot arrays that print alike *)

(** Two slot arrays with the same classes and the same function
    structure: slot by slot the same representative and the same
    argument and result fields.  Path compression keeps an array in this
    relation with itself. *)
Definition same_types (ts ts' : list Type_) : Prop :=
  length ts = length ts'
  ∧ (∀ j t t', ts !! j = Some t → ts' !! j = Some t' →
       arg_t t = arg_t t' ∧ ret_t t = ret_t t')
  ∧ same_classes ts ts' ∧ same_classes ts' ts.

(** Two printers at the same point of an expansion. *)
Definition printers_agree (unp unp' : Unparser) : Prop :=
  depth unp = depth unp' ∧ stack unp = stack unp'
  ∧ same_types (unp_types unp) (unp_types unp').

(** The part of [unparse_type_] that follows [print_typename], for the
    representative [t] whose slot holds [ty]. *)
Definition unparse_type_rest (fuel : nat) (t : nat) (ty : Type_)
  : Printer unit :=
  if negb (bool_decide (is_Some (arg_t ty))) then ret tt
  else
    let* pushed := unparse_push t in
    if negb pushed then ret tt
    else
      let* _ := emit (fputs "=(") in
      let* arg := on_unp_types (slot_of (arg_t ty)) in
      let* _ := unparse_type_ fuel arg in
      let* _ := emit (fputc (code " ")) in
      let* ret_ := on_unp_types (slot_of (ret_t ty)) in
      let* _ := unparse_type_ fuel ret_ in
      let* _ := emit (fputc (code ")")) in
      unparse_pop.
(** * Properties *)

(** ** The monad *)

Lemma bind_Ok {S A B} (m : St S A) (k : A → St S B) (s : S) (r : B * S) :
  bind m k s = Ok r ↔ ∃ a s', m s = Ok (a, s') ∧ k a s' = Ok r.
Proof.
  unfold bind. split.
  - destruct (m s) as [[a s']| | |]; try discriminate. eauto.
  - intros (a & s' & -> & ?). done.
Qed.

Lemma bind_eq {S A B} (m : St S A) (k : A → St S B) (s s' : S) (a : A) :
  m s = Ok (a, s') → bind m k s = k a s'.
Proof. unfold bind. by intros ->. Qed.

Lemma DIE_IF_Ok {S} (c : bool) (f : Fatal) (s s' : S) (u : unit) :
  DIE_IF c f s = Ok (u, s') ↔ c = false ∧ s' = s.
Proof.
  unfold DIE_IF, die, ret. destruct c; split; try discriminate.
  - by intros [? _].
  - intros [= <- <-]. done.
  - intros [_ ->]. by destruct u.
Qed.

Lemma DIE_IF_false {S} (f : Fatal) (s : S) : DIE_IF false f s = Ok (tt, s).
Proof. done. Qed.

(** Split [H : (let* x := m in k) s = Ok r] into the run of [m] and the
    run of the continuation. *)
Tactic Notation "bind_inv" hyp(H) :=
  let a := fresh "a" in
  let s := fresh "ast" in
  let E := fresh "E" in
  apply bind_Ok in H as (a & s & E & H).
Tactic Notation "bind_inv" hyp(H) "as" simple_intropattern(a)
    simple_intropattern(s) ident(E) :=
  apply bind_Ok in H as (a & s & E & H).

(** ** Characters *)

Lemma u32_small (x : Z) : 0 ≤ x < 2 ^ 32 → u32 x = x.
Proof. intros. unfold u32. by apply Z.mod_small. Qed.

Lemma u32_nonneg (x : Z) : 0 ≤ u32 x.
Proof. unfold u32. apply Z.mod_pos_bound. lia. Qed.

Lemma eat_white_all_white (z : string) : all_white z = true → eat_white z = EmptyString.
Proof.
  unfold all_white. induction z as [|c z IH]; simpl; [done|].
  intros [Hc Hz]%andb_prop. rewrite Hc. auto.
Qed.

(** ** Lexing *)

Lemma lex_varname_miss (z0 : string) (ast : Ast) :
  26 ≤ idx_from_letter (deref z0) → lex_varname z0 ast = Ok ((-1, z0), ast).
Proof.
  intros H. unfold lex_varname.
  by destruct (Z.leb_spec 26 (idx_from_letter (deref z0))); [|lia].
Qed.

Lemma lex_int_miss (z0 : string) (ast : Ast) :
  10 ≤ idx_from_digit (deref z0) → lex_int z0 ast = Ok ((-1, z0), ast).
Proof.
  intros H. unfold lex_int.
  by destruct (Z.leb_spec 10 (idx_from_digit (deref z0))); [|lia].
Qed.

Lemma lex_int_single (z0 : string) (ast : Ast) :
  idx_from_digit (deref z0) < 10 →
  10 ≤ idx_from_digit (deref (next z0)) →
  lex_int z0 ast = Ok ((idx_from_digit (deref z0), next z0), ast).
Proof.
  intros H1 H2. unfold lex_int.
  destruct (Z.leb_spec 10 (idx_from_digit (deref z0))); [lia|].
  by destruct (Z.leb_spec 10 (idx_from_digit (deref (next z0)))); [|lia].
Qed.

Lemma lex_varname_single (z0 : string) (ast : Ast) :
  idx_from_letter (deref z0) < 26 →
  26 ≤ idx_from_letter (deref (next z0)) →
  lex_varname z0 ast = Ok ((idx_from_letter (deref z0), next z0), ast).
Proof.
  intros H1 H2. unfold lex_varname.
  destruct (Z.leb_spec 26 (idx_from_letter (deref z0))); [lia|].
  by destruct (Z.leb_spec 26 (idx_from_letter (deref (next z0)))); [|lia].
Qed.

(** At the end of the source nothing is parsed and nothing changes. *)
Lemma parse_non_call_expr_nul (fuel : nat) (ast : Ast) :
  parse_non_call_expr (S fuel) EmptyString ast = Ok (None, ast).
Proof. reflexivity. Qed.

(** ** C10: empty and all-whitespace sources *)

(** C10: for an empty or all-whitespace source, [parse] returns an AST with
    no nodes and exactly one recorded syntax error, "Expected expr"; on
    that AST [ast_postfix] and [ast_root] take their fatal exit, and so
    does [act_type], whatever has been written before. *)
Theorem parse_blank_source (name src : string) :
  all_white src = true →
  ∃ ast, parse name src = Ok ast
    ∧ nodes ast = []
    ∧ error ast = [mkSyntaxError 0 "Expected expr"]
    ∧ report_syntax_errors ast = 1
    ∧ ast_postfix ast = Die EmptyPostfix
    ∧ ast_root ast = Die EmptyRoot
    ∧ ∀ out, act_type out ast = Die EmptyPostfix.
Proof.
  intros Hw.
  assert (Hlt : (u32 (Z.of_nat (strlen src) + 8) <? 0) = false).
  { apply Z.ltb_ge, u32_nonneg. }
  unfold parse, parse_expr, parse_expr_.
  rewrite (eat_white_all_white _ Hw).
  cbn [parse_expr_while]. unfold bind.
  rewrite parse_non_call_expr_nul.
  unfold get, add_syntax_error, src_offset, new_ast.
  cbn [error zsrc zsrc_len]. rewrite Z.sub_diag, Hlt.
  cbn. eexists. split; [reflexivity|]. cbn. done.
Qed.

Lemma parse_blank_source_witness :
  ∃ ast, parse "prog" (String " " (String "009" (String "010" EmptyString))) = Ok ast
    ∧ nodes ast = []
    ∧ error ast = [mkSyntaxError 0 "Expected expr"]
    ∧ report_syntax_errors ast = 1
    ∧ ast_postfix ast = Die EmptyPostfix
    ∧ ast_root ast = Die EmptyRoot
    ∧ ∀ out, act_type out ast = Die EmptyPostfix.
Proof. apply parse_blank_source. reflexivity. Defined.

(** ** The AST store *)

Lemma add_syntax_error_ok (zloc m : string) (ast : Ast) :
  src_offset ast zloc ≤ zsrc_len ast →
  add_syntax_error zloc m ast
  = Ok (tt, set_error ast (mkSyntaxError (src_offset ast zloc) m :: error ast)).
Proof.
  intros H. unfold add_syntax_error.
  by destruct (Z.ltb_spec (zsrc_len ast) (src_offset ast zloc)); [lia|].
Qed.

Lemma ast_node_alloc_ok (node : AstNode) (ast : Ast) :
  nnodes ast < nnodes_alloced ast →
  ast_node_alloc node ast = Ok (nnodes ast, set_nodes ast (nodes ast ++ [node])).
Proof.
  intros H. unfold ast_node_alloc.
  by destruct (Z.ltb_spec (nnodes_alloced ast) (nnodes ast + 1)); [lia|].
Qed.

Lemma push_bound_ok (d : Z) (ast : Ast) :
  0 ≤ d → nnodes ast < nnodes_alloced ast →
  push_bound d ast = Ok (tt, set_nodes ast (nodes ast ++ [Bound (u32 d)])).
Proof.
  intros Hd Hn. unfold push_bound, bind.
  destruct (Z.ltb_spec d 0); [lia|]. rewrite DIE_IF_false.
  by rewrite ast_node_alloc_ok.
Qed.

Lemma push_varname_ok (token : Z) (ast : Ast) :
  token ≤ 25 → nnodes ast < nnodes_alloced ast →
  push_varname token ast = Ok (tt, set_nodes ast (nodes ast ++ [Var (u32 token)])).
Proof.
  intros Ht Hn. unfold push_varname, bind.
  destruct (Z.ltb_spec (code "z") (token + code "a")) as [H|_].
  { change (code "z") with 122 in H. change (code "a") with 97 in H. lia. }
  rewrite DIE_IF_false. by rewrite ast_node_alloc_ok.
Qed.

(** ** C7: the index digit 0 *)

(** C7: in front of anything but a further digit, the digit [0] is parsed
    as the digit [1] is: one character is consumed, the node emitted is
    [Bound 0], and the caller gets the position after the digit and goes
    on; the only difference is the syntax error recorded for [0]. *)
Theorem zero_index_parsed_as_one (fuel : nat) (rest : string) (ast : Ast) :
  10 ≤ idx_from_digit (deref rest) →
  nnodes ast < nnodes_alloced ast →
  src_offset ast (String "0" rest) ≤ zsrc_len ast →
  let err := mkSyntaxError (src_offset ast (String "0" rest))
                           "0 is an invalid debrujin index" in
  parse_non_call_expr (S fuel) (String "0" rest) ast
  = Ok (Some rest,
        set_nodes (set_error ast (err :: error ast)) (nodes ast ++ [Bound 0]))
  ∧ parse_non_call_expr (S fuel) (String "1" rest) ast
    = Ok (Some rest, set_nodes ast (nodes ast ++ [Bound 0])).
Proof.
  intros Hrest Hcap Hloc err.
  assert (Hv0 : 26 ≤ idx_from_letter (deref (String "0" rest)))
    by (vm_compute; discriminate).
  assert (Hv1 : 26 ≤ idx_from_letter (deref (String "1" rest)))
    by (vm_compute; discriminate).
  split.
  - cbn [parse_non_call_expr]. unfold bind at 1.
    rewrite (lex_varname_miss _ _ Hv0).
    change (0 <=? -1) with false. cbv iota. unfold bind at 1.
    rewrite lex_int_single; [|vm_compute; done|exact Hrest].
    change (idx_from_digit (deref (String "0" rest))) with 0.
    change (next (String "0" rest)) with rest.
    change (0 <=? 0) with true. change (0 =? 0) with true. cbv iota.
    unfold bind. rewrite (add_syntax_error_ok _ _ _ Hloc).
    unfold ret. rewrite push_bound_ok; [reflexivity|lia|exact Hcap].
  - cbn [parse_non_call_expr]. unfold bind at 1.
    rewrite (lex_varname_miss _ _ Hv1).
    change (0 <=? -1) with false. cbv iota. unfold bind at 1.
    rewrite lex_int_single; [|vm_compute; done|exact Hrest].
    change (idx_from_digit (deref (String "1" rest))) with 1.
    change (next (String "1" rest)) with rest.
    change (0 <=? 1) with true. change (1 =? 0) with false. cbv iota.
    unfold bind, ret. rewrite push_bound_ok; [reflexivity|lia|exact Hcap].
Qed.

Lemma zero_index_parsed_as_one_witness :
  let ast := new_ast "prog" "0 x" in
  parse_non_call_expr 1 "0 x" ast
  = Ok (Some " x",
        set_nodes (set_error ast [mkSyntaxError 0 "0 is an invalid debrujin index"])
                  [Bound 0])
  ∧ parse_non_call_expr 1 "1 x" ast = Ok (Some " x", set_nodes ast [Bound 0]).
Proof.
  apply (zero_index_parsed_as_one 0 " x" (new_ast "prog" "0 x"));
    [vm_compute; discriminate | reflexivity | vm_compute; discriminate].
Defined.

(** ** What each parser primitive does to the node sequence *)

Lemma ast_node_alloc_inv (node : AstNode) (ast ast' : Ast) (u : Z) :
  ast_node_alloc node ast = Ok (u, ast') →
  u = nnodes ast ∧ ast' = set_nodes ast (nodes ast ++ [node])
  ∧ nnodes ast < nnodes_alloced ast.
Proof.
  unfold ast_node_alloc.
  destruct (Z.ltb_spec (nnodes_alloced ast) (nnodes ast + 1)); [done|].
  intros [= <- <-]. repeat split; lia.
Qed.

Lemma add_syntax_error_inv (zloc m : string) (ast ast' : Ast) (u : unit) :
  add_syntax_error zloc m ast = Ok (u, ast') →
  ast' = set_error ast (mkSyntaxError (src_offset ast zloc) m :: error ast).
Proof.
  unfold add_syntax_error.
  destruct (zsrc_len ast <? src_offset ast zloc); [done|]. by intros [= _ <-].
Qed.

Lemma push_varname_inv (token : Z) (ast ast' : Ast) (u : unit) :
  push_varname token ast = Ok (u, ast') →
  token ≤ 25 ∧ ast' = set_nodes ast (nodes ast ++ [Var (u32 token)])
  ∧ nnodes ast < nnodes_alloced ast.
Proof.
  unfold push_varname. intros H. bind_inv H.
  apply DIE_IF_Ok in E as [Hc ->]. bind_inv H.
  apply ast_node_alloc_inv in E as (_ & -> & Hlt). injection H as <-.
  split; [|done]. apply Z.ltb_ge in Hc.
  change (code "z") with 122 in Hc. change (code "a") with 97 in Hc. lia.
Qed.

Lemma push_bound_inv (d : Z) (ast ast' : Ast) (u : unit) :
  push_bound d ast = Ok (u, ast') →
  0 ≤ d ∧ ast' = set_nodes ast (nodes ast ++ [Bound (u32 d)])
  ∧ nnodes ast < nnodes_alloced ast.
Proof.
  unfold push_bound. intros H. bind_inv H.
  apply DIE_IF_Ok in E as [Hc ->]. bind_inv H.
  apply ast_node_alloc_inv in E as (_ & -> & Hlt). injection H as <-.
  split; [|done]. by apply Z.ltb_ge in Hc.
Qed.

Lemma read_binding_inv (token d : Z) (ast ast' : Ast) :
  read_binding token ast = Ok (d, ast') →
  ast' = ast ∧ 0 ≤ token ∧ binding_depths ast !! Z.to_nat token = Some d.
Proof.
  unfold read_binding. destruct (Z.ltb_spec token 0); [done|].
  destruct (binding_depths ast !! Z.to_nat token) eqn:E; [|done].
  by intros [= <- <-].
Qed.

Lemma write_binding_inv (token v : Z) (ast ast' : Ast) (u : unit) :
  write_binding token v ast = Ok (u, ast') →
  nodes ast' = nodes ast ∧ error ast' = error ast
  ∧ current_depth ast' = current_depth ast
  ∧ nnodes_alloced ast' = nnodes_alloced ast
  ∧ zsrc_len ast' = zsrc_len ast ∧ zsrc ast' = zsrc ast.
Proof.
  unfold write_binding. destruct (token <? 0); [by intros [= _ <-]|].
  destruct (token <? _); [|done]. by intros [= _ <-].
Qed.

(** The token of [lex_varname] is a letter index or [-1]; the state only
    gains syntax errors. *)
Lemma lex_varname_inv (z0 z : string) (token : Z) (ast ast' : Ast) :
  lex_varname z0 ast = Ok ((token, z), ast') →
  (nodes ast' = nodes ast ∧ nnodes_alloced ast' = nnodes_alloced ast)
  ∧ (token = -1 ∧ z = z0 ∧ ast' = ast ∧ 26 ≤ idx_from_letter (deref z0)
     ∨ 0 ≤ token < 26 ∧ token = idx_from_letter (deref z0)).
Proof.
  unfold lex_varname.
  assert (Hidx : ∀ c, 0 ≤ idx_from_letter c).
  { intros c. unfold idx_from_letter. apply Z.mod_pos_bound. lia. }
  destruct (Z.leb_spec 26 (idx_from_letter (deref z0))).
  { intros [= <- <- <-]. split; [done|]. by left. }
  destruct (Z.leb_spec 26 (idx_from_letter (deref (next z0)))).
  { intros [= <- <- <-]. split; [done|]. right. split; [|done].
    split; [apply Hidx|done]. }
  intros H1. bind_inv H1. apply add_syntax_error_inv in E as ->.
  injection H1 as <- <- <-. split; [done|]. right. split; [|done].
  split; [apply Hidx|done].
Qed.

Lemma lex_int_inv (z0 z : string) (token : Z) (ast ast' : Ast) :
  lex_int z0 ast = Ok ((token, z), ast') →
  (nodes ast' = nodes ast ∧ nnodes_alloced ast' = nnodes_alloced ast)
  ∧ (token = -1 ∧ z = z0 ∧ ast' = ast ∨ 0 ≤ token < 10).
Proof.
  unfold lex_int.
  assert (Hidx : ∀ c, 0 ≤ idx_from_digit c).
  { intros c. unfold idx_from_digit. apply Z.mod_pos_bound. lia. }
  destruct (Z.leb_spec 10 (idx_from_digit (deref z0))).
  { intros [= <- <- <-]. split; [done|]. by left. }
  destruct (Z.leb_spec 10 (idx_from_digit (deref (next z0)))).
  { intros [= <- <- <-]. split; [done|]. right. split; [apply Hidx|done]. }
  intros H1. bind_inv H1. apply add_syntax_error_inv in E as ->.
  injection H1 as <- <- <-. split; [done|]. right.
  split; [apply Hidx|done].
Qed.

(** ** The parser appends whole subtrees *)

Lemma flatten_nonempty (e : expr) : (0 < length (flatten e))%nat.
Proof.
  destruct e; simpl; rewrite ?length_app; simpl; lia.
Qed.

Lemma ast_root_inv (ast ast' : Ast) (i : Z) :
  ast_root ast = Ok (i, ast') → ast' = ast ∧ i = nnodes ast - 1 ∧ 0 < nnodes ast.
Proof.
  unfold ast_root. destruct (Z.eqb_spec (nnodes ast) 0); [done|].
  intros [= <- <-]. unfold nnodes in *. repeat split; lia.
Qed.

Lemma i32_small (x : Z) : 0 ≤ x ≤ INT32_MAX → i32 x = x.
Proof.
  unfold INT32_MAX. intros H. unfold i32. rewrite u32_small by lia.
  destruct (Z.leb_spec (2 ^ 31) x); lia.
Qed.

Lemma push_var_inv (token : Z) (ast ast' : Ast) (u : unit) :
  0 ≤ token →
  push_var token ast = Ok (u, ast') →
  ∃ e, wf_expr e ∧ ast' = set_nodes ast (nodes ast ++ flatten e)
    ∧ nnodes ast < nnodes_alloced ast
    ∧ length (flatten e) = 1%nat
    ∧ ∃ d, binding_depths ast !! Z.to_nat token = Some d
        ∧ e = (if d =? 0 then EVar token
               else EBound (i32 (current_depth ast - d))).
Proof.
  intros Ht. unfold push_var. intros H.
  bind_inv H as ? s1 E. apply DIE_IF_Ok in E as [Hc ->].
  bind_inv H as d s1 E. apply read_binding_inv in E as (-> & _ & Hb).
  bind_inv H as ? ? E. injection E as <- <-.
  apply Z.ltb_ge in Hc.
  change (code "z") with 122 in Hc. change (code "a") with 97 in Hc.
  destruct (Z.eqb_spec d 0) as [->|Hne].
  - apply push_varname_inv in H as (_ & -> & Hlt).
    exists (EVar token). rewrite u32_small by lia. simpl.
    split; [lia|]. split; [done|]. split; [done|]. split; [done|].
    exists 0. done.
  - apply push_bound_inv in H as (Hd & -> & Hlt).
    pose proof (Hd' := Hd). unfold i32 in Hd'.
    set (y := u32 (current_depth ast - d)) in *.
    assert (0 ≤ y < 2 ^ 32) by (apply Z.mod_pos_bound; lia).
    destruct (Z.leb_spec (2 ^ 31) y) as [Hy|Hy]; [lia|].
    exists (EBound (i32 (current_depth ast - d))).
    assert (Hi : i32 (current_depth ast - d) = y).
    { unfold i32. fold y. destruct (Z.leb_spec (2 ^ 31) y); [lia|done]. }
    rewrite Hi, u32_small by lia. simpl.
    split; [unfold INT32_MAX; lia|]. split; [done|].
    split; [done|]. split; [done|].
    exists d. split; [done|]. destruct (Z.eqb_spec d 0); [done|].
    by rewrite Hi.
Qed.

Section parser_grows.
Variable pnce : string → Parser (option string).
Hypothesis pnce_grows : grows_spec pnce.

Lemma parse_lambda_grows : grows_spec (parse_lambda_ pnce).
Proof.
  intros z0 ast r ast' Hcap. unfold parse_lambda_. intros H.
  bind_inv H as ? ? E. apply DIE_IF_Ok in E as [_ ->].
  bind_inv H as [token zE] s1 E.
  apply lex_varname_inv in E as [[Hn Hc] Htok].
  bind_inv H as zE2 s2 E.
  assert (Hn1 : nodes s2 = nodes s1 ∧ nnodes_alloced s2 = nnodes_alloced s1).
  { destruct (Ascii.eqb _ "]"); [by injection E as <- <-|].
    bind_inv E as ? ? E0. apply add_syntax_error_inv in E0 as ->.
    by injection E as <- <-. }
  destruct Hn1 as [Hn1 Hc1].
  clear E. bind_inv H as ? ? E. injection E as <- <-.
  bind_inv H as prev s3 E.
  assert (s3 = s2) as ->.
  { destruct (0 <=? token); [by apply read_binding_inv in E as [-> _]|].
    by injection E as <- <-. }
  clear E. bind_inv H as ? s4 E. injection E as <- <-.
  bind_inv H as ? s5 E.
  apply write_binding_inv in E as (Hn2 & _ & _ & Hc2 & _).
  cbn [set_current_depth_ nodes nnodes_alloced] in Hn2, Hc2.
  bind_inv H as r' s6 E. apply pnce_grows in E; [|congruence].
  destruct E as [Hc3 E]. destruct r' as [zE'|].
  - destruct E as [(body & Hwf & Hb) _].
    bind_inv H as ? ? E. apply ast_root_inv in E as (-> & -> & _).
    bind_inv H as ? s7 E.
    apply write_binding_inv in E as (Hn3 & _ & _ & Hc4 & _).
    bind_inv H as ? s8 E. injection E as <- <-.
    bind_inv H as ? s9 E. apply push_varname_inv in E as (Ht & -> & _).
    bind_inv H as ? s10 E.
    apply ast_node_alloc_inv in E as (-> & -> & Hlt).
    bind_inv H as ? ? E. apply DIE_IF_Ok in E as [_ ->].
    injection H as <- <-.
    split; [cbn [set_nodes set_current_depth_ nnodes_alloced]; congruence|].
    split.
    + exists (ELambda body (u32 token)). split.
      * split; [done|]. destruct Htok as [(-> & _)|[Hr _]].
        -- by right.
        -- left. by rewrite u32_small by lia.
      * cbn [set_nodes set_current_depth_ nodes flatten].
        rewrite Hn3, Hb, Hn2, Hn1, Hn.
        rewrite <- !(assoc_L (++)). done.
    + unfold nnodes, set_nodes, set_current_depth_ in *.
      cbn [nodes nnodes_alloced] in *. rewrite !length_app in *.
      cbn [length] in *. lia.
  - bind_inv H as ? ? E0. apply add_syntax_error_inv in E0 as ->.
    injection H as <- <-. unfold grows.
    cbn [set_error nodes nnodes_alloced]. split; congruence.
Qed.

Lemma parse_expr_while_grows (n : nat) (z0 : string) :
  grows_spec (parse_expr_while pnce n z0).
Proof.
  induction n as [|n IH]; intros z1 ast r ast' Hcap; [done|].
  cbn [parse_expr_while]. intros H.
  bind_inv H as r1 s1 E. apply pnce_grows in E; [|done].
  destruct r1 as [z|].
  { by injection H as <- <-. }
  bind_inv H as ? ? E0. injection E0 as <- <-.
  bind_inv H as ? s2 E0.
  assert (Hn : nodes s2 = nodes s1 ∧ nnodes_alloced s2 = nnodes_alloced s1).
  { destruct (error s1); [|by injection E0 as <- <-].
    by apply add_syntax_error_inv in E0 as ->. }
  destruct Hn as [Hn Hc]. destruct E as [Hc1 E].
  destruct (Ascii.eqb (deref z1) NUL).
  - injection H as <- <-. split; congruence.
  - apply IH in H; [|congruence]. destruct H as [Hc2 H].
    split; [congruence|]. destruct r; by rewrite <- E, <- Hn.
Qed.

(** Each round of the [for] loop turns the tree parsed so far into the
    callee of a [Call] whose [arg_size] is the size of the argument. *)
Lemma parse_expr_for_grows (n : nat) (z : string) (ast ast' : Ast)
    (r : option string) (pre : list AstNode) (f : expr) :
  nnodes_alloced ast < 2 ^ 32 → nnodes ast ≤ nnodes_alloced ast →
  wf_expr f → nodes ast = pre ++ flatten f →
  parse_expr_for pnce n z ast = Ok (r, ast') →
  nnodes_alloced ast' = nnodes_alloced ast
  ∧ nnodes ast' ≤ nnodes_alloced ast'
  ∧ is_Some r ∧ ∃ e, wf_expr e ∧ nodes ast' = pre ++ flatten e.
Proof.
  revert z ast f.
  induction n as [|n IH]; intros z ast f Hcap Hbd Hwf Hf; [done|].
  cbn [parse_expr_for]. intros H.
  bind_inv H as ? ? E. apply ast_root_inv in E as (-> & -> & Hpos).
  bind_inv H as r1 s1 E. apply pnce_grows in E; [|done].
  destruct E as [Hc E].
  bind_inv H as ? ? E0. apply ast_root_inv in E0 as (-> & -> & Hpos').
  destruct r1 as [z1|].
  - destruct E as [(a & Hwfa & Ha) _].
    bind_inv H as ? ? E. apply DIE_IF_Ok in E as [Hsz ->].
    bind_inv H as ? s2 E. apply ast_node_alloc_inv in E as (_ & -> & Hlt).
    apply Z.ltb_ge in Hsz.
    assert (Hlen : nnodes s1 - 1 - (nnodes ast - 1)
                   = Z.of_nat (length (flatten a))).
    { unfold nnodes. rewrite Ha, length_app. lia. }
    rewrite Hlen in *.
    assert (Hsmall : 0 ≤ Z.of_nat (length (flatten a)) < 2 ^ 32).
    { unfold nnodes in Hlt. rewrite Ha, length_app in Hlt. lia. }
    rewrite Z.mod_small in Hsz by lia.
    rewrite Z.mod_small in H by lia.
    rewrite u32_small in H by done.
    apply (IH _ _ (ECall f a)) in H.
    + destruct H as (Hc' & H). cbn [set_nodes nnodes_alloced] in Hc'.
      split; [congruence|done].
    + cbn [set_nodes nnodes_alloced]. congruence.
    + unfold nnodes in *. cbn [set_nodes nodes nnodes_alloced].
      rewrite length_app. simpl. lia.
    + by simpl.
    + cbn [set_nodes nodes flatten]. rewrite Ha, Hf.
      by rewrite <- !(assoc_L (++)).
  - injection H as <- <-. split; [done|].
    split; [unfold nnodes in *; rewrite E, Hc; lia|].
    split; [done|]. exists f. by rewrite E.
Qed.

Lemma parse_expr_grows (n : nat) : grows_spec (parse_expr_ pnce n).
Proof.
  intros z0 ast r ast' Hcap. unfold parse_expr_. intros H.
  bind_inv H as r1 s1 E. apply parse_expr_while_grows in E; [|done].
  destruct r1 as [z|]; [|by injection H as <- <-].
  destruct E as (Hc & (f & Hwf & Hf) & Hbd).
  apply (parse_expr_for_grows _ _ _ _ _ (nodes ast) f) in H;
    [|congruence|done..].
  destruct H as (Hc' & Hbd' & [z' ->] & e & Hwfe & He).
  split; [congruence|]. split; [by exists e|done].
Qed.
End parser_grows.

Lemma parse_non_call_expr_grows (fuel : nat) :
  grows_spec (parse_non_call_expr fuel).
Proof.
  induction fuel as [|fuel IH]; intros z0 ast r ast' Hcap; [done|].
  cbn [parse_non_call_expr]. intros H.
  bind_inv H as [token zE] s1 E.
  apply lex_varname_inv in E as [[Hn Hc] Htok].
  destruct (Z.leb_spec 0 token) as [Hpos|Hneg].
  { bind_inv H as ? s2 E.
    apply push_var_inv in E as (e & Hwf & -> & Hlt & Hone & _); [|done].
    injection H as <- <-. split; [done|]. split.
    - exists e. cbn [set_nodes nodes]. by rewrite Hn.
    - unfold nnodes in *. cbn [set_nodes nodes nnodes_alloced].
      rewrite length_app, Hone. lia. }
  destruct Htok as [(-> & -> & -> & _)|[? _]]; [|lia]. clear Hn Hc.
  bind_inv H as [token' zE'] s2 E.
  apply lex_int_inv in E as [[Hn Hc] Htok].
  destruct (Z.leb_spec 0 token') as [Hpos|Hneg'].
  { bind_inv H as tk s3 E.
    assert ((nodes s3 = nodes s2 ∧ nnodes_alloced s3 = nnodes_alloced s2)
            ∧ 1 ≤ tk ≤ 10) as [[Hn1 Hc1] Ha].
    { destruct Htok as [(-> & _)|Hr]; [lia|].
      destruct (Z.eqb_spec token' 0) as [->|].
      - bind_inv E as ? ? E0. apply add_syntax_error_inv in E0 as ->.
        injection E as <- <-. split; [done|lia].
      - injection E as <- <-. split; [done|lia]. }
    clear E. bind_inv H as ? s4 E.
    apply push_bound_inv in E as (_ & -> & Hlt).
    injection H as <- <-.
    split; [cbn [set_nodes nnodes_alloced]; congruence|]. split.
    - exists (EBound (tk - 1)).
      rewrite u32_small by lia. cbn [set_nodes nodes flatten wf_expr].
      unfold INT32_MAX. split; [lia|]. by rewrite Hn1, Hn.
    - unfold nnodes in *. cbn [set_nodes nodes nnodes_alloced].
      rewrite length_app. simpl. lia. }
  destruct Htok as [(-> & -> & ->)|?]; [|lia]. clear Hn Hc.
  destruct (Ascii.eqb (deref z0) "(").
  { bind_inv H as r1 s3 E. apply (parse_expr_grows _ IH) in E; [|done].
    destruct r1 as [zE1|].
    - destruct (Ascii.eqb (deref zE1) ")").
      + by injection H as <- <-.
      + bind_inv H as ? ? E0. apply add_syntax_error_inv in E0 as ->.
        by injection H as <- <-.
    - bind_inv H as ? ? E0. apply add_syntax_error_inv in E0 as ->.
      by injection H as <- <-. }
  destruct (Ascii.eqb (deref z0) "[").
  { by apply (parse_lambda_grows _ IH) in H. }
  by injection H as <- <-.
Qed.

(** Every AST that [parse] returns is empty or the postfix layout of one
    expression tree. *)
Lemma parse_flatten (name src : string) (ast : Ast) :
  parse name src = Ok ast →
  (nodes ast = [] ∨ ∃ e, wf_expr e ∧ nodes ast = flatten e)
  ∧ Z.of_nat (length (nodes ast)) < 2 ^ 32.
Proof.
  unfold parse, parse_expr.
  destruct (parse_expr_ _ _ _ _) as [[r ast']| | |] eqn:E; try done.
  apply (parse_expr_grows _ (parse_non_call_expr_grows _)) in E.
  2:{ cbn. apply Z.mod_pos_bound. lia. }
  intros Hr. assert (ast' = ast) as ->.
  { destruct r as [zE|]; [|by injection Hr].
    destruct (Ascii.eqb _ _); [by injection Hr|done]. }
  destruct E as [Hc E]. cbn [new_ast nodes nnodes_alloced] in E, Hc.
  assert (Hu : u32 (Z.of_nat (strlen src) + 8) < 2 ^ 32)
    by (apply Z.mod_pos_bound; lia).
  destruct r as [z|].
  - destruct E as [E Hbd]. split; [by right|]. unfold nnodes in Hbd. lia.
  - rewrite E. split; [by left|]. simpl. lia.
Qed.

(** ** The postfix layout *)

Lemma subtree_first_unfold (l : list AstNode) (n i : nat) (x : AstNode) :
  l !! i = Some x →
  subtree_first_ l (S n) (Z.of_nat i)
  = match x with
    | Call arg_size => subtree_first_ l n (Z.of_nat i - arg_size - 1)
    | Lambda => subtree_first_ l n (Z.of_nat i - 2)
    | _ => Some (Z.of_nat i)
    end.
Proof.
  intros Hx. cbn [subtree_first_].
  destruct (Z.ltb_spec (Z.of_nat i) 0); [lia|].
  by rewrite Nat2Z.id, Hx.
Qed.

(** The core of the layout: inside the slots of a flattened tree, the
    subtree rooted at any slot [i] is itself a flattened tree occupying
    [[a, i]]; at the last slot it is the whole tree. *)
Lemma subtree_first_flatten (e : expr) (pre post : list AstNode) (n i : nat) :
  (length pre ≤ i < length pre + length (flatten e))%nat → (i < n)%nat →
  ∃ (a : nat) (e' : expr),
    subtree_first_ (pre ++ flatten e ++ post) n (Z.of_nat i) = Some (Z.of_nat a)
    ∧ (length pre ≤ a ≤ i)%nat
    ∧ (∃ pre' post', pre ++ flatten e ++ post = pre' ++ flatten e' ++ post'
                     ∧ length pre' = a ∧ (a + length (flatten e') = S i)%nat)
    ∧ ((S i = length pre + length (flatten e))%nat → a = length pre ∧ e' = e).
Proof.
  revert pre post n i.
  induction e as [t|d|b IHb t|f IHf a IHa]; intros pre post n i Hi Hn.
  - (* a variable *)
    simpl in Hi. assert (i = length pre) as -> by lia.
    destruct n as [|n]; [lia|].
    rewrite (subtree_first_unfold _ _ _ (Var t))
      by (by apply list_lookup_middle).
    exists (length pre), (EVar t).
    split; [done|]. split; [lia|]. split; [|done].
    exists pre, post. simpl. split; [done|]. lia.
  - (* a bound variable *)
    simpl in Hi. assert (i = length pre) as -> by lia.
    destruct n as [|n]; [lia|].
    rewrite (subtree_first_unfold _ _ _ (Bound d))
      by (by apply list_lookup_middle).
    exists (length pre), (EBound d).
    split; [done|]. split; [lia|]. split; [|done].
    exists pre, post. simpl. split; [done|]. lia.
  - (* a lambda: body, name slot, marker *)
    cbn [flatten] in *. rewrite length_app in Hi. cbn [length] in Hi.
    destruct (decide (i < length pre + length (flatten b))%nat) as [Hb|Hb].
    { rewrite <- (assoc_L (++) (flatten b)).
      destruct (IHb pre ([Var t; Lambda] ++ post) n i) as
        (a' & e' & Hs & Hr & Hsub & _); [lia|lia|].
      exists a', e'. split; [done|]. split; [lia|]. split; [done|].
      intros Hl. rewrite ?length_app in Hl. simpl in Hl. lia. }
    destruct (decide (i = length pre + length (flatten b))%nat) as [->|Hv].
    { destruct n as [|n]; [lia|].
      rewrite (subtree_first_unfold _ _ _ (Var t)).
      2:{ rewrite <- (assoc_L (++) (flatten b)), (assoc_L (++) pre).
          apply list_lookup_middle. by rewrite length_app. }
      exists (length pre + length (flatten b))%nat, (EVar t).
      split; [done|]. split; [lia|]. split.
      - exists (pre ++ flatten b), ([Lambda] ++ post).
        rewrite <- !(assoc_L (++)). rewrite length_app. simpl.
        split; [done|]. lia.
      - intros Hl. rewrite ?length_app in Hl. simpl in Hl. lia. }
    assert (i = S (length pre + length (flatten b))) as -> by lia.
    destruct n as [|n]; [lia|].
    rewrite (subtree_first_unfold _ _ _ Lambda).
    2:{ replace (pre ++ (flatten b ++ [Var t; Lambda]) ++ post)
          with ((pre ++ flatten b ++ [Var t]) ++ Lambda :: post)
          by (by rewrite <- !(assoc_L (++))).
        apply list_lookup_middle. rewrite !length_app. simpl. lia. }
    pose proof (flatten_nonempty b) as Hne.
    replace (Z.of_nat (S (length pre + length (flatten b))) - 2)
      with (Z.of_nat (length pre + length (flatten b) - 1)) by lia.
    rewrite <- (assoc_L (++) (flatten b)).
    destruct (IHb pre ([Var t; Lambda] ++ post) n
                (length pre + length (flatten b) - 1)%nat) as
      (a' & e' & Hs & Hr & _ & Hlast); [lia|lia|].
    destruct Hlast as [-> ->]; [lia|].
    exists (length pre), (ELambda b t).
    split; [done|]. split; [lia|]. split; [|done].
    exists pre, post. cbn [flatten]. rewrite length_app. simpl.
    rewrite <- !(assoc_L (++)). split; [done|]. lia.
  - (* a call: callee, argument, Call *)
    cbn [flatten] in *. rewrite !length_app in Hi. cbn [length] in Hi.
    destruct (decide (i < length pre + length (flatten f))%nat) as [Hf|Hf].
    { rewrite <- (assoc_L (++) (flatten f)).
      destruct (IHf pre ((flatten a ++ [Call (Z.of_nat (length (flatten a)))])
                         ++ post) n i) as
        (a' & e' & Hs & Hr & Hsub & _); [lia|lia|].
      exists a', e'. split; [done|]. split; [lia|]. split; [done|].
      intros Hl. rewrite ?length_app in Hl. simpl in Hl. lia. }
    destruct (decide (i < length pre + length (flatten f)
                          + length (flatten a))%nat) as [Ha|Ha].
    { replace (pre ++ (flatten f ++ flatten a
                       ++ [Call (Z.of_nat (length (flatten a)))]) ++ post)
        with ((pre ++ flatten f) ++ flatten a
              ++ ([Call (Z.of_nat (length (flatten a)))] ++ post))
        by (by rewrite <- !(assoc_L (++))).
      destruct (IHa (pre ++ flatten f)
                    ([Call (Z.of_nat (length (flatten a)))] ++ post) n i) as
        (a' & e' & Hs & Hr & Hsub & _);
        [rewrite length_app; lia|lia|].
      rewrite length_app in Hr.
      exists a', e'. split; [done|]. split; [lia|]. split; [done|].
      intros Hl. rewrite ?length_app in Hl. simpl in Hl. lia. }
    assert (i = length pre + length (flatten f) + length (flatten a))%nat
      as -> by lia.
    destruct n as [|n]; [lia|].
    rewrite (subtree_first_unfold _ _ _ (Call (Z.of_nat (length (flatten a))))).
    2:{ replace (pre ++ (flatten f ++ flatten a
                         ++ [Call (Z.of_nat (length (flatten a)))]) ++ post)
          with ((pre ++ flatten f ++ flatten a)
                ++ Call (Z.of_nat (length (flatten a))) :: post)
          by (by rewrite <- !(assoc_L (++))).
        apply list_lookup_middle. rewrite !length_app. lia. }
    pose proof (flatten_nonempty f) as Hne.
    replace (Z.of_nat (length pre + length (flatten f) + length (flatten a))
             - Z.of_nat (length (flatten a)) - 1)
      with (Z.of_nat (length pre + length (flatten f) - 1)) by lia.
    rewrite <- (assoc_L (++) (flatten f)).
    destruct (IHf pre ((flatten a ++ [Call (Z.of_nat (length (flatten a)))])
                       ++ post) n
                (length pre + length (flatten f) - 1)%nat) as
      (a' & e' & Hs & Hr & _ & Hlast); [lia|lia|].
    destruct Hlast as [-> ->]; [lia|].
    exists (length pre), (ECall f a).
    split; [done|]. split; [lia|]. split; [|done].
    exists pre, post. cbn [flatten]. rewrite !length_app. simpl.
    rewrite <- !(assoc_L (++)). split; [done|]. lia.
Qed.

Lemma subtree_first_spec (e : expr) (pre post : list AstNode) (i : Z) :
  Z.of_nat (length pre) ≤ i < Z.of_nat (length pre + length (flatten e)) →
  ∃ (a : Z) (e' : expr),
    subtree_first (pre ++ flatten e ++ post) i = Some a
    ∧ Z.of_nat (length pre) ≤ a ≤ i
    ∧ (∃ pre' post', pre ++ flatten e ++ post = pre' ++ flatten e' ++ post'
                     ∧ Z.of_nat (length pre') = a
                     ∧ a + Z.of_nat (length (flatten e')) = i + 1)
    ∧ (i + 1 = Z.of_nat (length pre + length (flatten e)) →
       a = Z.of_nat (length pre) ∧ e' = e).
Proof.
  intros Hi. unfold subtree_first.
  destruct (subtree_first_flatten e pre post (S (Z.to_nat i)) (Z.to_nat i))
    as (a & e' & Hs & Hr & (pre' & post' & Hl & Hp & Hlen) & Hlast);
    [lia|lia|].
  rewrite Z2Nat.id in Hs by lia.
  exists (Z.of_nat a), e'. split; [done|]. split; [lia|]. split.
  - exists pre', post'. split; [done|]. lia.
  - intros Hw. destruct Hlast as [-> ->]; [lia|done].
Qed.

Lemma flatten_root (e : expr) :
  ∃ l x, flatten e = l ++ [x]
    ∧ match e with
      | EVar t => x = Var t
      | EBound d => x = Bound d
      | ELambda _ _ => x = Lambda
      | ECall _ a => x = Call (Z.of_nat (length (flatten a)))
      end.
Proof.
  destruct e as [t|d|b t|f a]; simpl.
  - by exists [], (Var t).
  - by exists [], (Bound d).
  - exists (flatten b ++ [Var t]), Lambda. by rewrite <- (assoc_L (++)).
  - exists (flatten f ++ flatten a), (Call (Z.of_nat (length (flatten a)))).
    by rewrite <- (assoc_L (++)).
Qed.

Lemma slots_between_middle (pre mid post : list AstNode) (a i : Z) :
  Z.of_nat (length pre) = a → a + Z.of_nat (length mid) = i + 1 →
  slots_between (pre ++ mid ++ post) a i = mid.
Proof.
  intros Ha Hi. unfold slots_between.
  replace (Z.to_nat a) with (length pre) by lia.
  replace (Z.to_nat (i + 1 - a)) with (length mid) by lia.
  rewrite drop_app_length. by rewrite take_app_length.
Qed.

(** The layout facts for the slots of one flattened tree. *)
Lemma flatten_layout (e : expr) :
  let l := flatten e in
  (∀ i, 0 ≤ i < Z.of_nat (length l) →
     ∃ a e', subtree_first l i = Some a ∧ 0 ≤ a ≤ i
             ∧ slots_between l a i = flatten e')
  ∧ (∀ i s, 0 ≤ i → l !! Z.to_nat i = Some (Call s) →
       1 ≤ s ≤ i - 1
       ∧ subtree_first l (i - 1) = Some (i - s)
       ∧ ∃ c, subtree_first l (i - 1 - s) = Some c
              ∧ subtree_first l i = Some c ∧ 0 ≤ c ≤ i - 1 - s)
  ∧ (∀ i j a b, subtree_first l i = Some a → subtree_first l j = Some b →
       0 ≤ i < j → j < Z.of_nat (length l) → i < b ∨ b ≤ a).
Proof.
  intros l. subst l.
  assert (Hnil : flatten e = [] ++ flatten e ++ []) by (by rewrite app_nil_r).
  split; [|split].
  - intros i Hi. rewrite Hnil.
    destruct (subtree_first_spec e [] [] i)
      as (a & e' & Hs & Hr & (pre' & post' & Hl & Hp & Hlen) & _);
      [simpl; lia|].
    exists a, e'. split; [done|]. split; [simpl in Hr; lia|].
    rewrite Hl. by apply slots_between_middle.
  - intros i s Hi Hcall.
    assert (Hlt : i < Z.of_nat (length (flatten e))).
    { apply lookup_lt_Some in Hcall. lia. }
    rewrite Hnil in Hcall |- *.
    destruct (subtree_first_spec e [] [] i)
      as (c & e' & Hs & Hr & (pre' & post' & Hl & Hp & Hlen) & _);
      [simpl; lia|].
    (* the subtree rooted at [i] is a call *)
    destruct (flatten_root e') as (l' & x & Hroot & Hx).
    assert (Hxi : ([] ++ flatten e ++ []) !! Z.to_nat i = Some x).
    { rewrite Hl, Hroot, <- (assoc_L (++)), (assoc_L (++) pre').
      apply list_lookup_middle. rewrite Hroot, length_app in Hlen.
      rewrite length_app. simpl in Hlen. lia. }
    rewrite Hcall in Hxi. injection Hxi as <-.
    destruct e' as [t|d|b t|f a]; try done. injection Hx as ->.
    cbn [flatten] in Hl, Hlen. rewrite !length_app in Hlen.
    cbn [length] in Hlen.
    pose proof (flatten_nonempty f). pose proof (flatten_nonempty a).
    split; [lia|]. rewrite Hl. split.
    + replace (pre' ++ (flatten f ++ flatten a
                 ++ [Call (Z.of_nat (length (flatten a)))]) ++ post')
        with ((pre' ++ flatten f) ++ flatten a
              ++ ([Call (Z.of_nat (length (flatten a)))] ++ post'))
        by (by rewrite <- !(assoc_L (++))).
      destruct (subtree_first_spec a (pre' ++ flatten f)
                  ([Call (Z.of_nat (length (flatten a)))] ++ post') (i - 1))
        as (a' & e'' & Hs' & _ & _ & Hlast);
        [rewrite length_app; lia|].
      rewrite Hs'. destruct Hlast as [-> _]; rewrite length_app; [lia|].
      f_equal. lia.
    + exists c. rewrite <- (assoc_L (++) (flatten f)).
      destruct (subtree_first_spec f pre'
                  ((flatten a ++ [Call (Z.of_nat (length (flatten a)))])
                   ++ post') (i - 1 - Z.of_nat (length (flatten a))))
        as (a' & e'' & Hs' & _ & _ & Hlast); [lia|].
      rewrite Hs'. destruct Hlast as [-> _]; [lia|].
      rewrite (assoc_L (++) (flatten f)), <- Hl. subst c.
      split; [done|]. split; [done|]. lia.
  - intros i j a b Ha Hb Hij Hj.
    destruct (decide (i < b)) as [|Hib]; [by left|right].
    rewrite Hnil in Ha, Hb.
    destruct (subtree_first_spec e [] [] j)
      as (b' & e' & Hs & Hr & (pre' & post' & Hl & Hp & Hlen) & _);
      [simpl; lia|].
    rewrite Hb in Hs. injection Hs as <-.
    rewrite Hl in Ha.
    destruct (subtree_first_spec e' pre' post' i)
      as (a' & e'' & Hs & Hr' & _); [lia|].
    rewrite Ha in Hs. injection Hs as <-. lia.
Qed.

(** ** C1: the postfix layout of parsed programs *)

(** C1: the nodes of every AST returned by [parse] are in post-order:
    the subtree rooted at any slot [i] occupies the contiguous slots
    [[a, i]] and these slots are themselves a complete flattened tree;
    for a [Call] at slot [i] with argument size [s], the argument subtree
    has its root at [i - 1] and spans [[i - s, i - 1]], the callee subtree
    has its root at [i - 1 - s] and starts where the subtree of the call
    starts; and the ranges of two slots are disjoint or nested. *)
Theorem parse_postfix_layout (name src : string) (ast : Ast) :
  parse name src = Ok ast →
  let l := nodes ast in
  (l = [] ∨ ∃ e, wf_expr e ∧ l = flatten e)
  ∧ (∀ i, 0 ≤ i < Z.of_nat (length l) →
       ∃ a e', subtree_first l i = Some a ∧ 0 ≤ a ≤ i
               ∧ slots_between l a i = flatten e')
  ∧ (∀ i s, 0 ≤ i → l !! Z.to_nat i = Some (Call s) →
       1 ≤ s ≤ i - 1
       ∧ subtree_first l (i - 1) = Some (i - s)
       ∧ ∃ c, subtree_first l (i - 1 - s) = Some c
              ∧ subtree_first l i = Some c ∧ 0 ≤ c ≤ i - 1 - s)
  ∧ (∀ i j a b, subtree_first l i = Some a → subtree_first l j = Some b →
       0 ≤ i < j → j < Z.of_nat (length l) → i < b ∨ b ≤ a).
Proof.
  intros Hp l. subst l.
  destruct (parse_flatten _ _ _ Hp) as [[Hnil|(e & Hwf & He)] _].
  - rewrite Hnil. split; [by left|]. split; [|split].
    + simpl. lia.
    + intros i s _ Hl. by rewrite lookup_nil in Hl.
    + simpl. lia.
  - rewrite He. split; [right; by exists e|]. apply flatten_layout.
Qed.

Lemma parse_postfix_layout_witness :
  let ast := set_nodes (new_ast "prog" "x (y z)")
                       [Var 23; Var 24; Var 25; Call 1; Call 3] in
  let l := nodes ast in
  (l = [] ∨ ∃ e, wf_expr e ∧ l = flatten e)
  ∧ (∀ i, 0 ≤ i < Z.of_nat (length l) →
       ∃ a e', subtree_first l i = Some a ∧ 0 ≤ a ≤ i
               ∧ slots_between l a i = flatten e')
  ∧ (∀ i s, 0 ≤ i → l !! Z.to_nat i = Some (Call s) →
       1 ≤ s ≤ i - 1
       ∧ subtree_first l (i - 1) = Some (i - s)
       ∧ ∃ c, subtree_first l (i - 1 - s) = Some c
              ∧ subtree_first l i = Some c ∧ 0 ≤ c ≤ i - 1 - s)
  ∧ (∀ i j a b, subtree_first l i = Some a → subtree_first l j = Some b →
       0 ≤ i < j → j < Z.of_nat (length l) → i < b ∨ b ≤ a).
Proof.
  apply (parse_postfix_layout "prog" "x (y z)"). vm_compute. reflexivity.
Defined.

(** ** C9: a lambda without a parameter name *)

Lemma ast_unpack_Var (l : list AstNode) (k t : Z) :
  0 ≤ k → l !! Z.to_nat k = Some (Var t) → ast_unpack l k = Ok (ANT_VAR, t).
Proof.
  intros Hk Hl. unfold ast_unpack.
  destruct (Z.ltb_spec k 0); [lia|]. by rewrite Hl.
Qed.

Lemma ast_unpack_Call (l : list AstNode) (k s : Z) :
  0 ≤ k → l !! Z.to_nat k = Some (Call s) →
  ast_unpack l k = Ok (ANT_CALL, u32 (k - s - 1)).
Proof.
  intros Hk Hl. unfold ast_unpack.
  destruct (Z.ltb_spec k 0); [lia|]. by rewrite Hl.
Qed.




(** ** C3: a repeated free variable copies the slot of its first occurrence *)

(** C3: when the node at [k] is a [Var] whose name already has a first
    occurrence [first], the step of the pass stores in slot [k] the
    contents slot [first] has at that moment, all three members, and
    changes nothing else; a later store to slot [first] leaves what slot
    [k] holds as it is.  The copied [master_t] is the reference through
    which slot [k] still reaches the class of [first]. *)
Theorem repeated_name_copies_slot (ttree : TypeTree) (k val : Z)
    (first : nat) (t : Type_) :
  0 ≤ k → 0 ≤ val ≤ MAX_TOKS →
  postfix ttree !! Z.to_nat k = Some (Var val) →
  bindings ttree !! Z.to_nat val = Some (Some first) →
  types ttree !! first = Some t →
  (Z.to_nat k < length (types ttree))%nat →
  first ≠ Z.to_nat k →
  let types' := <[Z.to_nat k := t]> (types ttree) in
  solve_types_step k ttree
  = Ok (tt, mkTypeTree (postfix ttree) (size ttree) (bindings ttree) types')
  ∧ types' !! Z.to_nat k = Some t
  ∧ types' !! first = Some t
  ∧ (∀ j, j ≠ Z.to_nat k → types' !! j = types ttree !! j)
  ∧ (∀ v, <[first := v]> types' !! Z.to_nat k = Some t).
Proof.
  intros Hk Hval Hnode Hbind Hfirst Hlen Hne types'.
  split.
  - unfold solve_types_step, bind, get.
    rewrite (ast_unpack_Var _ _ _ Hk Hnode).
    destruct (Z.ltb_spec MAX_TOKS val); [lia|]. rewrite DIE_IF_false.
    unfold read_type_binding. rewrite Hbind.
    unfold on_types, read_slot. rewrite Hfirst.
    unfold write_slot. cbn [types].
    destruct (Nat.ltb_spec (Z.to_nat k) (length (types ttree))); [done|lia].
  - subst types'. split; [by apply list_lookup_insert_eq|].
    split; [by rewrite list_lookup_insert_ne|].
    split; [intros j Hj; by rewrite list_lookup_insert_ne|].
    intros v. rewrite list_lookup_insert_ne by done.
    by apply list_lookup_insert_eq.
Qed.

Lemma repeated_name_copies_slot_witness :
  let ttree := mkTypeTree [Var 23; Var 23; Call 1] 3
                 (<[23%nat := Some 0%nat]> (replicate 26 None))
                 [mkType 0 None None; mkType 1 None None; mkType 2 None None] in
  let types' := [mkType 0 None None; mkType 0 None None; mkType 2 None None] in
  solve_types_step 1 ttree
  = Ok (tt, mkTypeTree (postfix ttree) (size ttree) (bindings ttree) types')
  ∧ types' !! Z.to_nat 1 = Some (mkType 0 None None)
  ∧ types' !! 0%nat = Some (mkType 0 None None)
  ∧ (∀ j, j ≠ Z.to_nat 1 → types' !! j = types ttree !! j)
  ∧ (∀ v, <[0%nat := v]> types' !! Z.to_nat 1 = Some (mkType 0 None None)).
Proof.
  apply (repeated_name_copies_slot
           (mkTypeTree [Var 23; Var 23; Call 1] 3
              (<[23%nat := Some 0%nat]> (replicate 26 None))
              [mkType 0 None None; mkType 1 None None; mkType 2 None None])
           1 23 0 (mkType 0 None None));
    first [reflexivity | vm_compute; intuition discriminate | vm_compute; lia
          | discriminate].
Defined.

(** In [x x] the second [x] keeps the snapshot of the then unbound first
    slot, while the first slot is later shaped into a function type. *)
Example snapshot_in_self_application :
  obind (parse "prog" "x x") (λ ast,
    obind (build_type_tree ast) (λ ttree, Ok (types ttree)))
  = Ok [mkType 0 (Some 0%nat) (Some 2%nat); mkType 0 None None;
        mkType 2 None None].
Proof. vm_compute. reflexivity. Qed.

(** ** C2: the printer's expansion stack *)

(** A push onto a full stack is a store past the end of [stack]: there is
    no capacity check in [unparse_push], so no fatal exit is taken. *)
Lemma unparse_push_full (type : nat) (unp : Unparser) (t : Type_) :
  unp_types unp !! type = Some t → master_t t = type →
  depth unp = MAX_DEPTH → length (stack unp) = Z.to_nat MAX_DEPTH →
  stack_scan (stack unp) (Z.to_nat MAX_DEPTH) type = Some false →
  unparse_push type unp = Undefined StackIndex.
Proof.
  intros Ht Hm Hd Hlen Hscan. unfold unparse_push, bind, on_unp_types.
  unfold read_slot. rewrite Ht, Hm, Nat.eqb_refl.
  cbn [negb DIE_IF ret get unp_types depth stack]. rewrite Hd, Hscan, Hlen.
  reflexivity.
Qed.

(** C2 (what the code does): a program that applies a variable to
    seventeen arguments gives that variable a type nested seventeen deep;
    printing it pushes a seventeenth slot, which [unparse_push] stores at
    [stack[16]], outside the array, instead of terminating the run.  With
    sixteen arguments everything fits and the types are printed. *)
Theorem printer_stack_unguarded :
  obind (parse "prog" "a b c d e f g h i j k l m n o p q r") (act_type EmptyString)
  = Undefined StackIndex
  ∧ (∃ out, obind (parse "prog" "a b c d e f g h i j k l m n o p q")
                  (act_type EmptyString) = Ok out)
  ∧ (∀ type unp t,
       unp_types unp !! type = Some t → master_t t = type →
       depth unp = MAX_DEPTH → length (stack unp) = Z.to_nat MAX_DEPTH →
       stack_scan (stack unp) (Z.to_nat MAX_DEPTH) type = Some false →
       unparse_push type unp = Undefined StackIndex).
Proof.
  split; [vm_compute; reflexivity|].
  split; [eexists; vm_compute; reflexivity|].
  apply unparse_push_full.
Qed.

(** ** C4: binding resolution *)

(** The rule itself: a name bound at depth [d > 0] is emitted as
    [Bound (current_depth - d)], a name without binding as a free [Var]. *)
Lemma push_var_resolves (token d : Z) (ast : Ast) :
  0 ≤ token ≤ 25 →
  binding_depths ast !! Z.to_nat token = Some d →
  0 ≤ d ≤ current_depth ast → current_depth ast ≤ INT32_MAX →
  nnodes ast < nnodes_alloced ast →
  push_var token ast
  = Ok (tt, set_nodes ast
              (nodes ast ++ [if d =? 0 then Var token
                             else Bound (current_depth ast - d)])).
Proof.
  intros Ht Hb Hd Hmax Hcap. unfold push_var, bind.
  destruct (Z.ltb_spec (code "z") (token + code "a")) as [H|_].
  { change (code "z") with 122 in H. change (code "a") with 97 in H. lia. }
  rewrite DIE_IF_false. unfold read_binding.
  destruct (Z.ltb_spec token 0); [lia|]. rewrite Hb. cbn [get].
  destruct (Z.eqb_spec d 0) as [->|Hne].
  - rewrite push_varname_ok by lia. by rewrite u32_small by lia.
  - rewrite i32_small by lia. rewrite push_bound_ok by lia.
    rewrite u32_small; [done|]. unfold INT32_MAX in *. lia.
Qed.

(** Without white space between [']'] and the body the two programs of
    the claim are encoded as it says. *)
Example binding_without_space :
  obind (parse "prog" "[x]x") (λ ast, Ok (nodes ast, error ast))
  = Ok ([Bound 0; Var 23; Lambda], [])
  ∧ obind (parse "prog" "[x][y]x") (λ ast, Ok (nodes ast, error ast))
    = Ok ([Bound 1; Var 24; Lambda; Var 23; Lambda], []).
Proof. split; vm_compute; reflexivity. Qed.

(** C4 (what the code does): [parse_lambda] hands the text after [']']
    to [parse_non_call_expr] without skipping white space, so on [[x] x]
    and on [[x] [y] x] the body is not found and the run ends in the
    fatal "Unused bytes after program source"; no AST is returned. *)
Theorem lambda_body_after_space :
  parse "prog" "[x] x" = Die UnusedBytes
  ∧ parse "prog" "[x] [y] x" = Die UnusedBytes.
Proof. split; vm_compute; reflexivity. Qed.

(** ** C6: printing a self-referential type *)



(** ** Strings and letters *)

Lemma string_app_cons (c : ascii) (a b : string) :
  String c a +:+ b = String c (a +:+ b).
Proof. reflexivity. Qed.

Lemma string_app_assoc (a b c : string) : (a +:+ b) +:+ c = a +:+ (b +:+ c).
Proof.
  induction a as [|x a IH]; [done|].
  by rewrite !string_app_cons, IH.
Qed.

Lemma string_app_nil_r (a : string) : a +:+ EmptyString = a.
Proof.
  induction a as [|x a IH]; [done|]. by rewrite string_app_cons, IH.
Qed.

Lemma string_length_app (a b : string) :
  String.length (a +:+ b) = (String.length a + String.length b)%nat.
Proof.
  induction a as [|x a IH]; [done|].
  rewrite string_app_cons. simpl. by rewrite IH.
Qed.

(** What the parser needs to know about the letter of a token. *)
Lemma letter_facts (t : Z) :
  0 ≤ t < 26 →
  idx_from_letter (letter t) = t
  ∧ is_white (letter t) = false
  ∧ letter t ≠ NUL.
Proof.
  intros Ht.
  assert (Hcases : t ∈ (Z.of_nat <$> seq 0 26)).
  { apply list_elem_of_fmap. exists (Z.to_nat t). split; [lia|].
    apply elem_of_seq. lia. }
  cbv [seq fmap list_fmap] in Hcases.
  repeat (apply elem_of_cons in Hcases as [->|Hcases];
          [by vm_compute|]).
  by apply elem_of_nil in Hcases.
Qed.

(** ** C5: parsing and re-printing application-only programs *)

Lemma fputc_char (c : ascii) (out : string) :
  fputc (code c) out = out +:+ String c EmptyString.
Proof.
  unfold fputc, code. do 2 f_equal.
  rewrite Z.mod_small.
  - by rewrite N2Z.id, ascii_N_embedding.
  - pose proof (N_ascii_bounded c). lia.
Qed.

(** Re-printing the slots of a flattened application tree writes its
    fully parenthesised text. *)
Lemma unparse_flatten (e : expr) (l pre post : list AstNode) (fuel : nat)
    (out : string) :
  l = pre ++ flatten e ++ post →
  app_only e = true →
  (length (flatten e) ≤ fuel)%nat →
  Z.of_nat (length pre + length (flatten e)) ≤ INT32_MAX →
  unparse fuel l (Z.of_nat (length pre + length (flatten e)) - 1) out
  = Ok (out +:+ canon e).
Proof.
  revert pre post fuel out.
  induction e as [t|d|b IHb t|f IHf a IHa];
    intros pre post fuel out Hl Happ Hfuel Hmax; try done.
  - destruct fuel as [|fuel]; [simpl in Hfuel; lia|].
    cbn [unparse flatten length].
    rewrite (ast_unpack_Var _ _ t); [done|lia|].
    rewrite Hl. replace (Z.to_nat _) with (length pre) by lia.
    by apply list_lookup_middle.
  - cbn [app_only] in Happ. apply andb_prop in Happ as [Hf Ha].
    cbn [flatten] in *. rewrite !length_app in *. cbn [length] in *.
    pose proof (flatten_nonempty f). pose proof (flatten_nonempty a).
    destruct fuel as [|fuel]; [lia|].
    cbn [unparse].
    rewrite (ast_unpack_Call _ _ (Z.of_nat (length (flatten a)))); [|lia|].
    2:{ rewrite Hl.
        replace (pre ++ (flatten f ++ flatten a
                         ++ [Call (Z.of_nat (length (flatten a)))]) ++ post)
          with ((pre ++ flatten f ++ flatten a)
                ++ Call (Z.of_nat (length (flatten a))) :: post)
          by (by rewrite <- !(assoc_L (++))).
        apply list_lookup_middle. rewrite !length_app. lia. }
    cbn [obind]. unfold INT32_MAX in Hmax.
    rewrite u32_small by lia.
    replace (Z.of_nat (length pre + (length (flatten f) + (length (flatten a) + 1))) - 1
             - Z.of_nat (length (flatten a)) - 1)
      with (Z.of_nat (length pre + length (flatten f)) - 1) by lia.
    rewrite (IHf pre ((flatten a ++ [Call (Z.of_nat (length (flatten a)))])
                      ++ post)); [|by rewrite Hl, <- !(assoc_L (++))|done|lia|unfold INT32_MAX; lia].
    cbn [obind]. unfold ast_arg_idx. rewrite i32_small by (unfold INT32_MAX; lia).
    replace (Z.of_nat (length pre + (length (flatten f) + (length (flatten a) + 1))) - 1 - 1)
      with (Z.of_nat (length (pre ++ flatten f) + length (flatten a)) - 1)
      by (rewrite length_app; lia).
    rewrite (IHa (pre ++ flatten f)
                 ([Call (Z.of_nat (length (flatten a)))] ++ post));
      [|by rewrite Hl, <- !(assoc_L (++))|done|lia
       |rewrite length_app; unfold INT32_MAX; lia].
    cbn [obind]. rewrite !fputc_char. cbn [canon].
    by rewrite !string_app_assoc.
Qed.

Lemma act_unparse_flatten (e : expr) (ast : Ast) (out : string) :
  nodes ast = flatten e → app_only e = true →
  Z.of_nat (length (nodes ast)) ≤ INT32_MAX →
  act_unparse out ast = Ok (out +:+ canon e).
Proof.
  intros Hn Happ Hmax. unfold act_unparse, ast_postfix, nnodes.
  pose proof (flatten_nonempty e) as Hne. rewrite Hn in *.
  destruct (Z.eqb_spec (Z.of_nat (length (flatten e))) 0); [lia|].
  cbn [obind].
  apply (unparse_flatten e _ [] []); [by rewrite app_nil_r|done|lia|done].
Qed.

Lemma push_var_free (token : Z) (ast : Ast) :
  0 ≤ token ≤ 25 →
  binding_depths ast !! Z.to_nat token = Some 0 →
  nnodes ast < nnodes_alloced ast →
  push_var token ast = Ok (tt, set_nodes ast (nodes ast ++ [Var token])).
Proof.
  intros Ht Hb Hcap. unfold push_var, bind.
  destruct (Z.ltb_spec (code "z") (token + code "a")) as [H|_].
  { change (code "z") with 122 in H. change (code "a") with 97 in H. lia. }
  rewrite DIE_IF_false. unfold read_binding.
  destruct (Z.ltb_spec token 0); [lia|]. rewrite Hb. cbn [get].
  change (0 =? 0) with true. cbv iota.
  rewrite push_varname_ok by lia. by rewrite u32_small by lia.
Qed.

(** Forward steps of the loops of [parse_expr]. *)
Section parse_expr_steps.
Variable pnce : string → Parser (option string).

Lemma parse_expr_while_hit (n : nat) (z0 z1 z : string) (ast ast1 : Ast) :
  pnce z1 ast = Ok (Some z, ast1) →
  parse_expr_while pnce (S n) z0 z1 ast = Ok (Some z, ast1).
Proof. intros H. cbn [parse_expr_while]. unfold bind. by rewrite H. Qed.

Lemma parse_expr_for_stop (n : nat) (z : string) (ast : Ast) :
  0 < nnodes ast →
  pnce (eat_white z) ast = Ok (None, ast) →
  parse_expr_for pnce (S n) z ast = Ok (Some (eat_white z), ast).
Proof.
  intros Hpos H. cbn [parse_expr_for]. unfold bind, ast_root.
  destruct (Z.eqb_spec (nnodes ast) 0); [lia|]. rewrite H.
  destruct (Z.eqb_spec (nnodes ast) 0); [lia|]. done.
Qed.

Lemma parse_expr_for_step (n : nat) (z z1 : string) (ast ast1 : Ast) :
  0 < nnodes ast →
  pnce (eat_white z) ast = Ok (Some z1, ast1) →
  0 ≤ nnodes ast1 - nnodes ast ≤ INT32_MAX →
  0 < nnodes ast1 < nnodes_alloced ast1 →
  parse_expr_for pnce (S n) z ast
  = parse_expr_for pnce n z1
      (set_nodes ast1 (nodes ast1 ++ [Call (nnodes ast1 - nnodes ast)])).
Proof.
  intros Hpos H Hsz Hcap. cbn [parse_expr_for]. unfold bind at 1.
  unfold ast_root at 1.
  destruct (Z.eqb_spec (nnodes ast) 0); [lia|].
  unfold bind at 1. rewrite H. unfold bind at 1, ast_root at 1.
  destruct (Z.eqb_spec (nnodes ast1) 0); [lia|].
  replace (nnodes ast1 - 1 - (nnodes ast - 1)) with (nnodes ast1 - nnodes ast)
    by lia.
  unfold INT32_MAX in *. rewrite Z.mod_small by lia.
  unfold bind at 1.
  destruct (Z.ltb_spec (2 ^ 31 - 1) (nnodes ast1 - nnodes ast)); [lia|].
  rewrite DIE_IF_false. unfold bind at 1.
  rewrite ast_node_alloc_ok by lia. by rewrite u32_small by lia.
Qed.
End parse_expr_steps.

Lemma parse_non_call_expr_none (fuel : nat) (z : string) (ast : Ast) :
  26 ≤ idx_from_letter (deref z) → 10 ≤ idx_from_digit (deref z) →
  deref z ≠ "("%char → deref z ≠ "["%char →
  parse_non_call_expr (S fuel) z ast = Ok (None, ast).
Proof.
  intros Hl Hd Hp Hb. cbn [parse_non_call_expr]. unfold bind at 1.
  rewrite lex_varname_miss by done. change (0 <=? -1) with false. cbv iota.
  unfold bind at 1. rewrite lex_int_miss by done.
  change (0 <=? -1) with false. cbv iota.
  apply Ascii.eqb_neq in Hp, Hb. by rewrite Hp, Hb.
Qed.

Lemma parse_non_call_expr_paren (fuel : nat) (s : string) (ast : Ast) :
  parse_non_call_expr (S fuel) (String "(" s) ast
  = (let* zE := parse_expr_ (parse_non_call_expr fuel) fuel s in
     match zE with
     | Some zE' =>
       if Ascii.eqb (deref zE') ")" then ret (Some (next zE'))
       else
         let* _ := add_syntax_error (String "(" s) "Unmatched '('" in
         ret zE
     | None =>
       let* _ := add_syntax_error (String "(" s) "Unmatched '('" in
       ret None
     end) ast.
Proof. reflexivity. Qed.

Lemma canon_head (e : expr) :
  app_only e = true →
  ∃ c s, canon e = String c s ∧ is_white c = false.
Proof.
  destruct e as [t|d|b t|f a]; try done; intros H.
  - apply andb_prop in H as [H1%Z.leb_le H2%Z.ltb_lt].
    exists (letter t), EmptyString. split; [done|].
    by apply letter_facts.
  - by exists "("%char, (canon f +:+ " " +:+ canon a +:+ ")").
Qed.

Lemma eat_white_canon (e : expr) (rest : string) :
  app_only e = true → eat_white (canon e +:+ rest) = canon e +:+ rest.
Proof.
  intros (c & s & -> & Hc)%canon_head. rewrite string_app_cons.
  cbn [eat_white]. by rewrite Hc.
Qed.

Lemma canon_length_flatten (e : expr) :
  app_only e = true → (length (flatten e) ≤ String.length (canon e))%nat.
Proof.
  induction e as [t|d|b IHb t|f IHf a IHa]; try done; intros H.
  cbn [app_only] in H. apply andb_prop in H as [Hf Ha].
  specialize (IHf Hf). specialize (IHa Ha). cbn [flatten canon].
  rewrite !length_app. cbn [length].
  rewrite string_app_cons. cbn [String.length].
  rewrite !string_length_app. cbn [String.length]. lia.
Qed.

(** On its own fully parenthesised text, the parser stores exactly the
    flattened tree and records no error. *)
Lemma parse_non_call_expr_canon (e : expr) (fuel : nat) (rest : string)
    (ast : Ast) :
  app_only e = true →
  (String.length (canon e) ≤ fuel)%nat →
  26 ≤ idx_from_letter (deref rest) →
  free_alphabet ast →
  nnodes ast + Z.of_nat (length (flatten e)) ≤ nnodes_alloced ast →
  nnodes_alloced ast ≤ INT32_MAX →
  parse_non_call_expr fuel (canon e +:+ rest) ast
  = Ok (Some rest, set_nodes ast (nodes ast ++ flatten e)).
Proof.
  revert fuel rest ast.
  induction e as [t|d|b IHb t|f IHf a IHa];
    intros fuel rest ast Happ Hfuel Hrest Hfree Hcap Hmax; try done.
  - (* a letter *)
    cbn [app_only] in Happ.
    apply andb_prop in Happ as [H1%Z.leb_le H2%Z.ltb_lt].
    destruct (letter_facts t) as (Hidx & _); [lia|].
    destruct fuel as [|fuel]; [simpl in Hfuel; lia|].
    cbn [canon flatten length] in *. rewrite string_app_cons.
    change (EmptyString +:+ rest) with rest.
    cbn [parse_non_call_expr]. unfold bind at 1.
    rewrite lex_varname_single; cbn [deref next]; [|lia|done].
    rewrite Hidx. destruct (Z.leb_spec 0 t); [|lia].
    unfold bind. rewrite push_var_free; [done|lia|by apply Hfree|lia].
  - (* a call *)
    cbn [app_only] in Happ. apply andb_prop in Happ as [Hf Ha].
    pose proof (canon_length_flatten f Hf) as Hlf.
    pose proof (canon_length_flatten a Ha) as Hla.
    pose proof (flatten_nonempty f) as Hnf.
    pose proof (flatten_nonempty a) as Hna.
    assert (Hn0 : 0 ≤ nnodes ast) by (unfold nnodes; lia).
    cbn [canon flatten] in *. rewrite !length_app in Hcap.
    cbn [length] in Hcap.
    rewrite string_app_cons in Hfuel. cbn [String.length] in Hfuel.
    rewrite !string_length_app in Hfuel. cbn [String.length] in Hfuel.
    destruct fuel as [|fuel]; [lia|].
    rewrite !string_app_cons. change (EmptyString +:+ ?x) with x.
    rewrite parse_non_call_expr_paren.
    rewrite !string_app_assoc, !string_app_cons.
    change (EmptyString +:+ ?x) with x. rewrite !string_app_assoc.
    rewrite !string_app_cons. change (EmptyString +:+ ?x) with x.
    set (rest2 := String ")" rest).
    set (rest1 := String " " (canon a +:+ rest2)).
    (* the callee *)
    unfold bind at 1. unfold parse_expr_. rewrite (eat_white_canon f) by done.
    destruct fuel as [|n1]; [lia|].
    unfold bind at 1.
    rewrite (parse_expr_while_hit _ _ _ _ rest1 _
               (set_nodes ast (nodes ast ++ flatten f))).
    2:{ apply IHf; [done|lia|by vm_compute|exact Hfree|lia|exact Hmax]. }
    (* the argument *)
    set (ast1 := set_nodes ast (nodes ast ++ flatten f)).
    assert (Hn1 : nnodes ast1 = nnodes ast + Z.of_nat (length (flatten f))).
    { unfold nnodes, ast1. cbn [set_nodes nodes]. rewrite length_app. lia. }
    set (ast2 := set_nodes ast1 (nodes ast1 ++ flatten a)).
    assert (Hn2 : nnodes ast2 = nnodes ast1 + Z.of_nat (length (flatten a))).
    { unfold nnodes, ast2. cbn [set_nodes nodes]. rewrite length_app. lia. }
    assert (Hpnce : parse_non_call_expr (S n1) (eat_white rest1) ast1
                    = Ok (Some rest2, ast2)).
    { unfold rest1. cbn [eat_white]. change (is_white " ") with true.
      cbv iota. rewrite (eat_white_canon a) by done.
      apply IHa; [done|lia|by vm_compute|exact Hfree| |exact Hmax].
      change (nnodes_alloced ast1) with (nnodes_alloced ast). lia. }
    rewrite (parse_expr_for_step _ _ _ rest2 _ ast2); [|lia|exact Hpnce|lia|].
    2:{ change (nnodes_alloced ast2) with (nnodes_alloced ast). lia. }
    (* the closing parenthesis ends the loop *)
    destruct n1 as [|n2]; [lia|].
    rewrite parse_expr_for_stop.
    2:{ unfold nnodes. cbn [set_nodes nodes]. rewrite length_app. simpl. lia. }
    2:{ by apply parse_non_call_expr_none. }
    cbn [eat_white rest2]. change (is_white ")") with false. cbv iota.
    change (Ascii.eqb (deref (String ")" rest)) ")") with true. cbv iota.
    unfold ret. cbn [next]. do 2 f_equal.
    unfold ast2, ast1, set_nodes. cbn. f_equal.
    rewrite <- !(assoc_L (++)). do 3 f_equal.
    unfold nnodes. cbn [nodes]. rewrite !length_app. do 2 f_equal. lia.
Qed.

Lemma strlen_app (a b : string) :
  strlen a = String.length a →
  strlen (a +:+ b) = (String.length a + strlen b)%nat.
Proof.
  induction a as [|c a IH]; [done|].
  rewrite string_app_cons. cbn [strlen String.length].
  destruct (Ascii.eqb c NUL); [done|].
  intros [= H]. by rewrite IH.
Qed.

Lemma strlen_le (a : string) : (strlen a ≤ String.length a)%nat.
Proof.
  induction a as [|c a IH]; [done|]. cbn [strlen String.length].
  destruct (Ascii.eqb c NUL); lia.
Qed.

Lemma canon_call (f a : expr) :
  canon (ECall f a) = String "(" (canon f +:+ String " " (canon a +:+ ")")).
Proof. reflexivity. Qed.

Lemma strlen_canon (e : expr) :
  app_only e = true → strlen (canon e) = String.length (canon e).
Proof.
  induction e as [t|d|b IHb t|f IHf a IHa]; try done; intros H.
  - cbn [app_only] in H. apply andb_prop in H as [H1%Z.leb_le H2%Z.ltb_lt].
    destruct (letter_facts t) as (_ & _ & Hnul); [lia|].
    cbn [canon strlen String.length].
    by apply Ascii.eqb_neq in Hnul as ->.
  - cbn [app_only] in H. apply andb_prop in H as [Hf Ha].
    specialize (IHf Hf). specialize (IHa Ha). rewrite canon_call.
    cbn [strlen String.length].
    change (Ascii.eqb "(" NUL) with false. cbv iota.
    rewrite (strlen_app _ _ IHf), string_length_app.
    cbn [strlen String.length].
    change (Ascii.eqb " " NUL) with false. cbv iota.
    rewrite (strlen_app _ _ IHa), string_length_app. done.
Qed.

Lemma parse_canon (name : string) (e : expr) :
  app_only e = true →
  Z.of_nat (String.length (canon e)) + 8 ≤ INT32_MAX →
  parse name (canon e)
  = Ok (set_nodes (new_ast name (canon e)) (flatten e)).
Proof.
  intros Happ Hmax. unfold parse, parse_expr, parse_expr_.
  pose proof (canon_length_flatten e Happ) as Hlen.
  pose proof (flatten_nonempty e) as Hne.
  assert (Hcapv : nnodes_alloced (new_ast name (canon e))
                  = Z.of_nat (String.length (canon e)) + 8).
  { cbn [new_ast nnodes_alloced]. rewrite (strlen_canon e Happ).
    apply u32_small. unfold INT32_MAX in Hmax. lia. }
  assert (Hstep : parse_non_call_expr (S (String.length (canon e))) (canon e)
                    (new_ast name (canon e))
                  = Ok (Some EmptyString, set_nodes (new_ast name (canon e))
                                           (flatten e))).
  { rewrite <- (string_app_nil_r (canon e)) at 2.
    rewrite (parse_non_call_expr_canon e); [done|done|lia|by vm_compute| | |].
    - intros t Ht. cbn [new_ast binding_depths].
      apply lookup_replicate. split; [done|lia].
    - rewrite Hcapv. change (nnodes (new_ast name (canon e))) with 0. lia.
    - rewrite Hcapv. lia. }
  assert (Hew : eat_white (canon e) = canon e).
  { rewrite <- (string_app_nil_r (canon e)). by apply eat_white_canon. }
  rewrite Hew. unfold bind. rewrite (parse_expr_while_hit _ _ _ _ _ _ _ Hstep).
  rewrite parse_expr_for_stop; [done| |done].
  unfold nnodes. cbn [set_nodes nodes]. lia.
Qed.

(** ** Master chains *)

Lemma reach_det (ts : list Type_) (i r r' h h' : nat) :
  reach ts i r h → reach ts i r' h' → r = r' ∧ h = h'.
Proof.
  intros H. revert r' h'.
  induction H as [i t Ht Hm|i t r h Ht Hm Hr IH]; intros r' h' H'.
  - inversion H' as [i' t' Ht' Hm'|i' t' r'' h'' Ht' Hm' Hr']; subst; [done|].
    rewrite Ht in Ht'. injection Ht' as <-. done.
  - inversion H' as [i' t' Ht' Hm'|i' t' r'' h'' Ht' Hm' Hr']; subst.
    + rewrite Ht in Ht'. injection Ht' as <-. done.
    + rewrite Ht in Ht'. injection Ht' as <-.
      destruct (IH _ _ Hr') as [-> ->]. done.
Qed.

Lemma reach_is_root (ts : list Type_) (i r h : nat) :
  reach ts i r h → ∃ t, ts !! r = Some t ∧ master_t t = r.
Proof. induction 1; eauto. Qed.

Lemma reach_root_zero (ts : list Type_) (i r h : nat) :
  reach ts i r h → reach ts r r 0.
Proof.
  intros (t & Ht & Hm)%reach_is_root. by apply (reach_root _ _ t).
Qed.

Lemma reach_lookup (ts : list Type_) (i r h : nat) :
  reach ts i r h → is_Some (ts !! i).
Proof. destruct 1; eauto. Qed.

Lemma reach_self (ts : list Type_) (i h : nat) : reach ts i i h → h = O.
Proof.
  intros H. pose proof (reach_root_zero _ _ _ _ H) as H0.
  by destruct (reach_det _ _ _ _ _ _ H H0).
Qed.

(** A chain that starts below [K] stays below [K]. *)
Lemma reach_below (K : nat) (ts : list Type_) (i r h : nat) :
  masters_ok K ts → reach ts i r h → (i < K)%nat → (r < K)%nat.
Proof.
  intros (_ & Hm & _). induction 1 as [|i t r h Ht Hne Hr IH]; [done|].
  intros Hi. apply IH. by apply (Hm i).
Qed.

(** *** Counting representatives *)

Lemma count_roots_le (base : nat) (ts : list Type_) :
  (count_roots base ts ≤ length ts)%nat.
Proof.
  revert base. induction ts as [|t ts IH]; intros base; simpl; [lia|].
  specialize (IH (S base)). destruct (master_t t =? base)%nat; lia.
Qed.

Lemma roots_le (ts : list Type_) : (roots ts ≤ length ts)%nat.
Proof. apply count_roots_le. Qed.

Lemma count_roots_insert (base i : nat) (ts : list Type_) (t t' : Type_) :
  ts !! i = Some t →
  (count_roots base (<[i := t']> ts)
   + (if (master_t t =? base + i)%nat then 1 else 0)
   = count_roots base ts
     + (if (master_t t' =? base + i)%nat then 1 else 0))%nat.
Proof.
  revert base i. induction ts as [|x ts IH]; intros base i Hi; [done|].
  destruct i as [|i]; simpl in *.
  - injection Hi as ->. rewrite Nat.add_0_r. lia.
  - specialize (IH (S base) i Hi).
    replace (base + S i)%nat with (S base + i)%nat by lia. lia.
Qed.

Lemma roots_insert (i : nat) (ts : list Type_) (t t' : Type_) :
  ts !! i = Some t →
  (roots (<[i := t']> ts) + (if (master_t t =? i)%nat then 1 else 0)
   = roots ts + (if (master_t t' =? i)%nat then 1 else 0))%nat.
Proof. intros H. by apply (count_roots_insert 0). Qed.

Lemma roots_pos (ts : list Type_) (i : nat) (t : Type_) :
  ts !! i = Some t → master_t t = i → (1 ≤ roots ts)%nat.
Proof.
  intros Ht Hm.
  pose proof (roots_insert i ts t (mkType (S i) None None) Ht) as H.
  cbn [master_t] in H. rewrite Hm, Nat.eqb_refl in H.
  destruct (Nat.eqb_spec (S i) i); lia.
Qed.

(** *** Stores that keep the master *)

Lemma reach_insert_same (ts : list Type_) (i : nat) (t t' : Type_)
    (j r h : nat) :
  ts !! i = Some t → master_t t' = master_t t →
  reach ts j r h → reach (<[i := t']> ts) j r h.
Proof.
  intros Ht Hm. induction 1 as [j x Hx Hr|j x r h Hx Hne Hr IH].
  - destruct (decide (j = i)) as [->|Hji].
    + apply (reach_root _ _ t').
      * apply list_lookup_insert_eq. by apply lookup_lt_Some in Ht.
      * rewrite Hx in Ht. injection Ht as <-. congruence.
    + apply (reach_root _ _ x); [by rewrite list_lookup_insert_ne|done].
  - destruct (decide (j = i)) as [->|Hji].
    + rewrite Hx in Ht. injection Ht as <-.
      apply (reach_step _ _ t').
      * apply list_lookup_insert_eq. by apply lookup_lt_Some in Hx.
      * congruence.
      * by rewrite Hm.
    + apply (reach_step _ _ x); [by rewrite list_lookup_insert_ne|done..].
Qed.

Lemma roots_insert_same (ts : list Type_) (i : nat) (t t' : Type_) :
  ts !! i = Some t → master_t t' = master_t t →
  roots (<[i := t']> ts) = roots ts.
Proof.
  intros Ht Hm. pose proof (roots_insert i ts t t' Ht) as H.
  rewrite Hm in H. lia.
Qed.

(** *** One step of path compression *)

Lemma compress_one (ts : list Type_) (i r h : nat) (t : Type_) :
  reach ts i r h → i ≠ r → ts !! i = Some t →
  compresses ts (<[i := mkType r (arg_t t) (ret_t t)]> ts).
Proof.
  intros Hr Hne Ht.
  assert (Hnr : master_t t ≠ i).
  { inversion Hr; subst; [done|]. congruence. }
  assert (Hlt : (i < length ts)%nat) by (by apply lookup_lt_Some in Ht).
  split; [by rewrite length_insert|]. split.
  { pose proof (roots_insert i ts t (mkType r (arg_t t) (ret_t t)) Ht) as H.
    cbn [master_t] in H.
    destruct (Nat.eqb_spec (master_t t) i); [done|].
    destruct (Nat.eqb_spec r i); [congruence|]. lia. }
  split.
  { intros j x Hx. destruct (decide (j = i)) as [->|Hji].
    - rewrite Hx in Ht. injection Ht as <-. eexists.
      split; [by apply list_lookup_insert_eq|done].
    - exists x. by rewrite list_lookup_insert_ne. }
  split.
  { intros j x Hx Hm. rewrite list_lookup_insert_ne; [done|].
    intros ->. congruence. }
  intros j r' h' Hj.
  induction Hj as [j x Hx Hm|j x r' h' Hx Hm Hj IH].
  - exists O. split; [done|]. apply (reach_root _ _ x); [|done].
    rewrite list_lookup_insert_ne; [done|]. intros ->. congruence.
  - destruct IH as (h'' & Hle & IH).
    destruct (decide (j = i)) as [->|Hji].
    + rewrite Hx in Ht. injection Ht as <-.
      destruct (reach_det _ _ _ _ _ _ Hr (reach_step _ _ _ _ _ Hx Hm Hj))
        as [<- _].
      exists 1%nat. split; [lia|].
      apply (reach_step _ _ (mkType r (arg_t x) (ret_t x)));
        [by apply list_lookup_insert_eq|cbn; congruence|].
      cbn [master_t]. destruct (reach_is_root _ _ _ _ Hr) as (tr & Htr & Hmr).
      apply (reach_root _ _ tr); [|done].
      by rewrite list_lookup_insert_ne.
    + exists (S h''). split; [lia|].
      apply (reach_step _ _ x); [by rewrite list_lookup_insert_ne|done..].
Qed.

Lemma compresses_refl (ts : list Type_) : compresses ts ts.
Proof. repeat split; eauto. Qed.

Lemma compresses_trans (ts1 ts2 ts3 : list Type_) :
  compresses ts1 ts2 → compresses ts2 ts3 → compresses ts1 ts3.
Proof.
  intros (Hl1 & Hr1 & Hf1 & Hs1 & Hc1) (Hl2 & Hr2 & Hf2 & Hs2 & Hc2).
  split; [congruence|]. split; [congruence|]. split.
  { intros j t Ht. destruct (Hf1 j t Ht) as (t1 & Ht1 & Ha1 & Hb1).
    destruct (Hf2 j t1 Ht1) as (t2 & Ht2 & Ha2 & Hb2).
    exists t2. split; [done|]. split; congruence. }
  split; [intros j t Ht Hm; apply Hs2; [by apply Hs1|done]|].
  intros j r h Hj. destruct (Hc1 j r h Hj) as (h1 & Hle1 & Hj1).
  destruct (Hc2 j r h1 Hj1) as (h2 & Hle2 & Hj2). exists h2. split; [lia|done].
Qed.

Lemma compresses_wf (ts ts' : list Type_) :
  compresses ts ts' → wf_masters ts → wf_masters ts'.
Proof.
  intros (Hl & Hr & _ & _ & Hc) Hwf i Hi. rewrite Hl in Hi.
  destruct (Hwf i Hi) as (r & h & Hreach & Hb).
  destruct (Hc i r h Hreach) as (h' & Hle & Hreach').
  exists r, h'. split; [done|]. rewrite Hl, Hr. lia.
Qed.

Lemma compresses_fields (K : nat) (ts ts' : list Type_) :
  compresses ts ts' → fields_ok K ts → fields_ok K ts'.
Proof.
  intros (Hl & _ & Hf & _ & _) Hok j t' Ht' Hj.
  assert (is_Some (ts !! j)) as [t Ht].
  { apply lookup_lt_is_Some. rewrite <- Hl. by apply lookup_lt_Some in Ht'. }
  destruct (Hf j t Ht) as (t'' & Ht'' & Ha & Hb).
  rewrite Ht' in Ht''. injection Ht'' as <-.
  specialize (Hok j t Ht Hj). unfold slot_ok in *. by rewrite Ha, Hb.
Qed.

(** *** Linking a representative under another class *)

Lemma link_reach (ts : list Type_) (k m r hm : nat) (tk t' : Type_) :
  ts !! k = Some tk → master_t tk = k → master_t t' = m → m ≠ k →
  reach ts m r hm → r ≠ k →
  (∀ j r0 h0, reach ts j r0 h0 → r0 ≠ k → reach (<[k := t']> ts) j r0 h0)
  ∧ (∀ j h0, reach ts j k h0 → reach (<[k := t']> ts) j r (h0 + S hm))
  ∧ roots ts = S (roots (<[k := t']> ts)).
Proof.
  intros Hk Hmk Hm' Hne Hm Hr.
  assert (Hlt : (k < length ts)%nat) by (by apply lookup_lt_Some in Hk).
  assert (Ha : ∀ j r0 h0, reach ts j r0 h0 → r0 ≠ k →
                reach (<[k := t']> ts) j r0 h0).
  { intros j r0 h0 Hj Hr0.
    induction Hj as [j x Hx Hmx|j x r0 h0 Hx Hmx Hj IH].
    - apply (reach_root _ _ x); [by rewrite list_lookup_insert_ne|done].
    - assert (j ≠ k).
      { intros ->. rewrite Hx in Hk. injection Hk as <-. done. }
      apply (reach_step _ _ x); [by rewrite list_lookup_insert_ne|done|auto]. }
  split; [done|]. split.
  - assert (Hb : ∀ j r0 h0, reach ts j r0 h0 → r0 = k →
                  reach (<[k := t']> ts) j r (h0 + S hm)).
    { intros j r0 h0 Hj.
      induction Hj as [j x Hx Hmx|j x r0 h0 Hx Hmx Hj IH]; intros Hjk.
      - rewrite Hjk.
        apply (reach_step _ _ t');
          [by apply list_lookup_insert_eq|congruence|].
        rewrite Hm'. by apply Ha.
      - assert (j ≠ k).
        { intros Hjk'. rewrite Hjk' in Hx. rewrite Hx in Hk.
          injection Hk as Hk. rewrite Hk in Hmx. congruence. }
        apply (reach_step _ _ x);
          [by rewrite list_lookup_insert_ne|done|auto]. }
    intros j h0 Hj. by apply (Hb j k).
  - pose proof (roots_insert k ts tk t' Hk) as H.
    rewrite Hmk, Hm', Nat.eqb_refl in H.
    destruct (Nat.eqb_spec m k); [done|]. lia.
Qed.

(** Putting a representative under another representative keeps the
    chains within the budget. *)
Lemma link_wf (ts : list Type_) (k m : nat) (tk tm t' : Type_) :
  wf_masters ts →
  ts !! k = Some tk → master_t tk = k →
  ts !! m = Some tm → master_t tm = m → m ≠ k → master_t t' = m →
  wf_masters (<[k := t']> ts) ∧ roots ts = S (roots (<[k := t']> ts)).
Proof.
  intros Hwf Hk Hmk Hm Hmm Hne Hm'.
  destruct (link_reach ts k m m 0 tk t' Hk Hmk Hm' Hne
              (reach_root _ _ _ Hm Hmm) Hne) as (Ha & Hb & Hc).
  split; [|done]. intros i Hi. rewrite length_insert in *.
  destruct (Hwf i Hi) as (r & h & Hr & Hbd).
  destruct (decide (r = k)) as [->|Hrk].
  - exists m, (h + 1)%nat. split; [by apply Hb|]. lia.
  - exists r, h. split; [by apply Ha|]. lia.
Qed.

Lemma masters_ok_insert (K : nat) (ts : list Type_) (i : nat) (t' : Type_) :
  masters_ok K ts → (i < K)%nat → (master_t t' < K)%nat →
  masters_ok K (<[i := t']> ts).
Proof.
  intros (Hl & Hm & Ht) Hi Hm'. split; [by rewrite length_insert|]. split.
  - intros j x Hx Hj. destruct (decide (j = i)) as [->|Hne].
    + rewrite list_lookup_insert_eq in Hx by lia. by injection Hx as <-.
    + rewrite list_lookup_insert_ne in Hx by done. by apply (Hm j).
  - intros j Hj Hjl. rewrite length_insert in Hjl.
    rewrite list_lookup_insert_ne by lia. by apply Ht.
Qed.

Lemma fields_ok_insert (K : nat) (ts : list Type_) (i : nat) (t' : Type_) :
  fields_ok K ts → slot_ok K t' → fields_ok K (<[i := t']> ts).
Proof.
  intros Hf Hok j x Hx Hj. destruct (decide (j = i)) as [->|Hne].
  - apply lookup_lt_Some in Hx as Hlt. rewrite length_insert in Hlt.
    rewrite list_lookup_insert_eq in Hx by done. by injection Hx as <-.
  - rewrite list_lookup_insert_ne in Hx by done. by apply (Hf j).
Qed.

(** *** [pmasterise] and [masterise] *)

Lemma read_slot_ok (ts : list Type_) (i : nat) (t : Type_) :
  ts !! i = Some t → read_slot i ts = Ok (t, ts).
Proof. unfold read_slot. by intros ->. Qed.

Lemma write_slot_ok (ts : list Type_) (i : nat) (t : Type_) :
  (i < length ts)%nat → write_slot i t ts = Ok (tt, <[i := t]> ts).
Proof.
  intros H. unfold write_slot.
  by destruct (Nat.ltb_spec i (length ts)); [|lia].
Qed.

Lemma pmasterise_spec (K fuel : nat) (ts : list Type_) (i r h : nat) :
  masters_ok K ts → reach ts i r h → (i < K)%nat → (h < fuel)%nat →
  ∃ ts', pmasterise fuel i ts = Ok (r, ts')
    ∧ compresses ts ts' ∧ masters_ok K ts'.
Proof.
  revert ts i r h. induction fuel as [|fuel IH];
    intros ts i r h Hok Hr Hi Hf; [lia|].
  cbn [pmasterise]. unfold bind at 1.
  inversion Hr as [i' t Ht Hm|i' t r' h' Ht Hm Hr']; subst.
  - rewrite (read_slot_ok _ _ _ Ht), Nat.eqb_refl.
    exists ts. split; [done|]. split; [apply compresses_refl|done].
  - rewrite (read_slot_ok _ _ _ Ht).
    destruct (Nat.eqb_spec (master_t t) i); [done|].
    assert (Hmk : (master_t t < K)%nat) by (by apply (proj1 (proj2 Hok) i)).
    destruct (IH ts (master_t t) r h' Hok Hr' Hmk ltac:(lia))
      as (ts1 & Hp & Hc & Hok1).
    unfold bind at 1. rewrite Hp. unfold bind at 1, write_master.
    destruct Hc as (Hl & Hroots & Hfld & Hst & Hreach).
    destruct (Hfld i t Ht) as (t1 & Ht1 & Ha1 & Hb1).
    unfold bind at 1. rewrite (read_slot_ok _ _ _ Ht1).
    assert (Hlt : (i < length ts1)%nat) by (by apply lookup_lt_Some in Ht1).
    rewrite (write_slot_ok _ _ _ Hlt).
    destruct (Hreach i r (S h') Hr) as (h1 & Hle & Hr1).
    assert (Hir : i ≠ r).
    { intros ->. apply reach_self in Hr. lia. }
    eexists. split; [reflexivity|]. split.
    + apply (compresses_trans _ ts1); [by repeat split|].
      by apply (compress_one _ _ _ h1).
    + apply masters_ok_insert; [done..|]. cbn [master_t].
      by apply (reach_below K ts i r (S h')).
Qed.

Lemma masterise_spec (K : nat) (ts : list Type_) (i : nat) :
  masters_ok K ts → wf_masters ts → (i < K)%nat →
  ∃ r ts' tr, masterise i ts = Ok (r, ts')
    ∧ compresses ts ts' ∧ masters_ok K ts' ∧ wf_masters ts'
    ∧ (r < K)%nat
    ∧ ts !! r = Some tr ∧ ts' !! r = Some tr ∧ master_t tr = r
    ∧ ∃ h, reach ts i r h.
Proof.
  intros Hok Hwf Hi.
  assert (Hil : (i < length ts)%nat) by (destruct Hok; lia).
  destruct (Hwf i Hil) as (r & h & Hr & Hbd).
  destruct (pmasterise_spec K (S (length ts)) ts i r h Hok Hr Hi ltac:(lia))
    as (ts' & Hp & Hc & Hok').
  destruct (reach_is_root _ _ _ _ Hr) as (tr & Htr & Hmr).
  exists r, ts', tr. split; [done|]. split; [done|]. split; [done|].
  split; [by apply (compresses_wf ts)|].
  split; [by apply (reach_below K ts i r h)|].
  split; [done|]. split; [by apply Hc|]. split; [done|]. by exists h.
Qed.

(** *** [unify] *)

Lemma unify_same (fuel i : nat) (ts : list Type_) :
  unify (S fuel) i i ts = Ok (tt, ts).
Proof. cbn [unify]. by rewrite Nat.eqb_refl. Qed.

Lemma type_eta (t : Type_) : mkType (master_t t) (arg_t t) (ret_t t) = t.
Proof. by destruct t. Qed.

Lemma slot_ok_Some (K : nat) (t : Type_) :
  slot_ok K t → is_Some (arg_t t) →
  ∃ a r, arg_t t = Some a ∧ ret_t t = Some r ∧ (a < K)%nat ∧ (r < K)%nat.
Proof.
  unfold slot_ok. intros H [a Ha]. rewrite Ha in H.
  destruct (ret_t t) as [r|]; [|done]. by exists a, r.
Qed.

Lemma slots_inv_compresses (K : nat) (ts ts' : list Type_) :
  slots_inv K ts → compresses ts ts' → masters_ok K ts' → slots_inv K ts'.
Proof.
  intros (_ & Hf & Hwf) Hc Hok. split; [done|].
  split; [by apply (compresses_fields K ts)|by apply (compresses_wf ts)].
Qed.

(** [unify] returns: each call that goes on to recurse has merged two
    classes, so a budget above the number of representatives is never
    used up. *)
Lemma unify_spec (K fuel : nat) (ts : list Type_) (ia ib : nat) :
  slots_inv K ts → (ia < K)%nat → (ib < K)%nat → (roots ts < fuel)%nat →
  ∃ ts', unify fuel ia ib ts = Ok (tt, ts')
    ∧ slots_inv K ts' ∧ length ts' = length ts
    ∧ (roots ts' ≤ roots ts)%nat.
Proof.
  revert ts ia ib. induction fuel as [|fuel IH];
    intros ts ia ib Hinv Hia Hib Hfuel; [lia|].
  cbn [unify]. destruct (Nat.eqb_spec ia ib) as [->|Hne].
  { exists ts. split; [done|]. split; [done|]. split; [done|lia]. }
  destruct Hinv as (Hok & Hfld & Hwf).
  (* both sides are resolved to their representatives *)
  destruct (masterise_spec K ts ia Hok Hwf Hia)
    as (ma & ts1 & ta & Hm1 & Hc1 & Hok1 & Hwf1 & Hma & _ & Hta1 & Hmta & _).
  unfold bind at 1. rewrite Hm1.
  destruct (masterise_spec K ts1 ib Hok1 Hwf1 Hib)
    as (mb & ts2 & tb & Hm2 & Hc2 & Hok2 & Hwf2 & Hmb & _ & Htb2 & Hmtb & _).
  unfold bind at 1. rewrite Hm2.
  assert (Hta2 : ts2 !! ma = Some ta) by (by apply Hc2).
  unfold bind at 1. rewrite (read_slot_ok _ _ _ Hta2).
  unfold bind at 1. rewrite (read_slot_ok _ _ _ Htb2).
  assert (Hfld2 : fields_ok K ts2).
  { apply (compresses_fields K ts1); [done|].
    by apply (compresses_fields K ts). }
  assert (Hl2 : length ts2 = length ts).
  { destruct Hc1 as [? _]. destruct Hc2 as [? _]. congruence. }
  assert (Hr2 : roots ts2 = roots ts).
  { destruct Hc1 as (_ & ? & _). destruct Hc2 as (_ & ? & _). congruence. }
  assert (Hmal : (ma < length ts2)%nat) by (by apply lookup_lt_Some in Hta2).
  assert (Hmbl : (mb < length ts2)%nat) by (by apply lookup_lt_Some in Htb2).
  pose proof (Hfld2 ma ta Hta2 Hma) as Hoka.
  pose proof (Hfld2 mb tb Htb2 Hmb) as Hokb.
  destruct (negb (bool_decide (is_Some (arg_t ta)))
            && bool_decide (is_Some (arg_t tb))) eqn:Hcase.
  - (* the unbound side takes over the function structure *)
    apply andb_prop in Hcase as [Hna Hsb].
    apply negb_true_iff, bool_decide_eq_false in Hna.
    apply bool_decide_eq_true in Hsb.
    assert (Hab : ma ≠ mb).
    { intros ->. rewrite Hta2 in Htb2. injection Htb2 as ->. done. }
    set (ts3 := <[ma := mkType ma (arg_t tb) (ret_t tb)]> ts2).
    unfold bind at 1. rewrite (write_slot_ok _ _ _ Hmal). fold ts3.
    assert (Hl3 : length ts3 = length ts2) by apply length_insert.
    unfold bind at 1. rewrite (write_slot_ok ts3) by lia.
    set (ts4 := <[mb := mkType ma None None]> ts3).
    assert (Hta3 : ts3 !! ma = Some (mkType ma (arg_t tb) (ret_t tb)))
      by (by apply list_lookup_insert_eq).
    assert (Htb3 : ts3 !! mb = Some tb)
      by (unfold ts3; by rewrite list_lookup_insert_ne).
    assert (Hwf3 : wf_masters ts3).
    { intros i Hi. rewrite Hl3 in Hi.
      destruct (Hwf2 i Hi) as (r & h & Hr & Hbd). exists r, h. split.
      - by apply (reach_insert_same _ _ ta).
      - unfold ts3. rewrite length_insert.
        by rewrite (roots_insert_same _ _ ta). }
    assert (Hr3 : roots ts3 = roots ts2)
      by (by apply (roots_insert_same _ _ ta)).
    destruct (link_wf ts3 mb ma tb _ (mkType ma None None) Hwf3 Htb3 Hmtb
                Hta3 eq_refl Hab eq_refl) as [Hwf4 Hr4]. fold ts4 in Hwf4, Hr4.
    assert (Hok4 : masters_ok K ts4).
    { apply masters_ok_insert; [|done..].
      by apply masters_ok_insert. }
    assert (Hfld4 : fields_ok K ts4).
    { apply fields_ok_insert; [|done]. by apply fields_ok_insert. }
    destruct (masterise_spec K ts4 mb Hok4 Hwf4 Hmb)
      as (m5 & ts5 & t5 & Hm5 & Hc5 & Hok5 & Hwf5 & _).
    unfold bind at 1. rewrite Hm5. exists ts5. split; [done|].
    split; [by apply (slots_inv_compresses K ts4)|].
    destruct Hc5 as (Hl5 & Hr5 & _).
    split; [unfold ts4, ts3 in Hl5; by rewrite Hl5, !length_insert|].
    lia.
  - (* the class of [b] is redirected to [a] *)
    set (ts3 := <[mb := mkType ma (arg_t tb) (ret_t tb)]> ts2).
    unfold bind at 1, write_master. unfold bind at 1.
    rewrite (read_slot_ok _ _ _ Htb2), (write_slot_ok _ _ _ Hmbl). fold ts3.
    assert (Hstep : slots_inv K ts3 ∧ length ts3 = length ts2
                    ∧ (ma = mb → ts3 = ts2)
                    ∧ (ma ≠ mb → S (roots ts3) = roots ts2)).
    { destruct (decide (ma = mb)) as [->|Hab].
      - assert (ts3 = ts2) as Heq.
        { unfold ts3. rewrite <- Hmtb at 2. rewrite type_eta.
          by apply list_insert_id. }
        rewrite Heq. split; [done|]. split; [done|]. split; [done|].
        by intros ?.
      - destruct (link_wf ts2 mb ma tb ta
                    (mkType ma (arg_t tb) (ret_t tb)) Hwf2 Htb2 Hmtb
                    Hta2 Hmta Hab eq_refl) as [Hwf3 Hr3].
        split; [|split; [apply length_insert|split; [done|by intros _]]].
        split; [by apply masters_ok_insert|].
        split; [|done]. by apply fields_ok_insert. }
    destruct Hstep as ((Hok3 & Hfld3 & Hwf3) & Hl3 & Hsame & Hless).
    destruct (masterise_spec K ts3 mb Hok3 Hwf3 Hmb)
      as (m4 & ts4 & t4 & Hm4 & Hc4 & Hok4 & Hwf4 & _).
    unfold bind at 1. rewrite Hm4.
    assert (Hinv4 : slots_inv K ts4)
      by (by apply (slots_inv_compresses K ts3)).
    assert (Hl4 : length ts4 = length ts) by (destruct Hc4; congruence).
    assert (Hr4 : roots ts4 = roots ts3) by (by destruct Hc4 as (_ & ? & _)).
    assert (Hr43 : (roots ts4 ≤ roots ts)%nat).
    { destruct (decide (ma = mb)) as [Hab|Hab].
      - rewrite Hr4, (Hsame Hab). lia.
      - specialize (Hless Hab). lia. }
    destruct (bool_decide (is_Some (arg_t tb))) eqn:Hsb; cbn [negb].
    2:{ exists ts4. split; [done|]. split; [done|]. split; [done|lia]. }
    apply bool_decide_eq_true in Hsb.
    rewrite andb_true_r in Hcase. apply negb_false_iff in Hcase.
    apply bool_decide_eq_true in Hcase.
    destruct (slot_ok_Some K ta Hoka Hcase)
      as (aA & aR & HaA & HaR & HaAK & HaRK).
    destruct (slot_ok_Some K tb Hokb Hsb)
      as (bA & bR & HbA & HbR & HbAK & HbRK).
    rewrite HaA, HbA, HaR, HbR. cbn [slot_of].
    unfold bind at 1. cbn [ret]. unfold bind at 1. cbn [ret].
    destruct (decide (ma = mb)) as [Hab|Hab].
    + (* the same representative: both component pairs coincide *)
      assert (tb = ta) as ->.
      { rewrite Hab, Htb2 in Hta2. by injection Hta2. }
      rewrite HaA in HbA. injection HbA as <-.
      rewrite HaR in HbR. injection HbR as <-.
      assert (1 ≤ roots ts)%nat.
      { rewrite <- Hr2. by apply (roots_pos ts2 ma ta). }
      destruct fuel as [|fuel]; [lia|].
      unfold bind at 1. rewrite unify_same.
      unfold bind at 1. cbn [ret]. unfold bind at 1. cbn [ret].
      rewrite unify_same. exists ts4.
      split; [done|]. split; [done|]. split; [done|lia].
    + specialize (Hless Hab).
      destruct (IH ts4 aA bA Hinv4 HaAK HbAK ltac:(lia))
        as (ts5 & Hu5 & Hinv5 & Hl5 & Hr5).
      unfold bind at 1. rewrite Hu5.
      unfold bind at 1. cbn [ret]. unfold bind at 1. cbn [ret].
      destruct (IH ts5 aR bR Hinv5 HaRK HbRK ltac:(lia))
        as (ts6 & Hu6 & Hinv6 & Hl6 & Hr6).
      rewrite Hu6. exists ts6. split; [done|]. split; [done|].
      split; [congruence|lia].
Qed.

(** *** [coerce_to_fun_type] *)

Lemma u32_i32 (x : Z) : u32 (i32 x) = u32 x.
Proof.
  unfold i32. destruct (Z.leb_spec (2 ^ 31) (u32 x)).
  - unfold u32.
    rewrite <- (Z.mod_add (x mod 2 ^ 32 - 2 ^ 32) 1 (2 ^ 32)) by lia.
    replace (x mod 2 ^ 32 - 2 ^ 32 + 1 * 2 ^ 32) with (x mod 2 ^ 32) by lia.
    apply Z.mod_mod. lia.
  - unfold u32. apply Z.mod_mod. lia.
Qed.

Lemma compresses_fields_back (ts ts' : list Type_) (j : nat) (t' : Type_) :
  compresses ts ts' → ts' !! j = Some t' →
  ∃ t, ts !! j = Some t ∧ arg_t t' = arg_t t ∧ ret_t t' = ret_t t.
Proof.
  intros (Hl & _ & Hf & _) Ht'.
  assert (is_Some (ts !! j)) as [t Ht].
  { apply lookup_lt_is_Some. rewrite <- Hl. by apply lookup_lt_Some in Ht'. }
  destruct (Hf j t Ht) as (t'' & Ht'' & Ha & Hb).
  rewrite Ht' in Ht''. injection Ht'' as <-. by exists t.
Qed.

Lemma wf_masters_insert_same (ts : list Type_) (i : nat) (t t' : Type_) :
  wf_masters ts → ts !! i = Some t → master_t t' = master_t t →
  wf_masters (<[i := t']> ts).
Proof.
  intros Hwf Ht Hm j Hj. rewrite length_insert in *.
  destruct (Hwf j Hj) as (r & h & Hr & Hbd). exists r, h.
  split; [by apply (reach_insert_same _ _ t)|].
  by rewrite (roots_insert_same _ _ t).
Qed.

Lemma coerce_to_fun_type_spec (K : nat) (exprs : list AstNode)
    (ts : list Type_) (ifun icall : Z) :
  slots_inv K ts → 0 ≤ ifun < icall → icall < 2 ^ 32 →
  (Z.to_nat icall < K)%nat →
  ∃ ts', coerce_to_fun_type exprs ifun icall ts = Ok (tt, ts')
    ∧ slots_inv K ts' ∧ length ts' = length ts.
Proof.
  intros (Hok & Hfld & Hwf) Hifun Hmax Hcall. unfold coerce_to_fun_type.
  destruct (Z.ltb_spec ifun icall); [|lia]. cbn [negb].
  unfold bind at 1. rewrite DIE_IF_false.
  unfold ast_arg_idx. rewrite u32_i32, u32_small by lia.
  destruct (masterise_spec K ts (Z.to_nat ifun) Hok Hwf ltac:(lia))
    as (mf & ts1 & tf & Hm1 & Hc1 & Hok1 & Hwf1 & Hmf & _ & Htf1 & Hmtf & _).
  unfold bind at 1. rewrite Hm1.
  unfold bind at 1. rewrite (read_slot_ok _ _ _ Htf1).
  assert (Hfld1 : fields_ok K ts1) by (by apply (compresses_fields K ts)).
  assert (Hl1 : length ts1 = length ts) by (by destruct Hc1).
  pose proof (Hfld1 mf tf Htf1 Hmf) as Hokf.
  destruct (bool_decide (is_Some (arg_t tf))) eqn:Hfun.
  - (* already a function type: unify the components *)
    apply bool_decide_eq_true in Hfun.
    destruct (slot_ok_Some K tf Hokf Hfun) as (fa & fr & Hfa & Hfr & HfaK & HfrK).
    rewrite Hfa, Hfr. cbn [slot_of].
    unfold bind at 1. cbn [ret]. unfold unify_top.
    destruct (unify_spec K (S (length ts1)) ts1 fa (Z.to_nat (icall - 1)))
      as (ts2 & Hu2 & Hinv2 & Hl2 & _);
      [done|done|lia|pose proof (roots_le ts1); lia|].
    unfold bind at 1. rewrite Hu2. unfold bind at 1. cbn [ret].
    destruct (unify_spec K (S (length ts2)) ts2 fr (Z.to_nat icall))
      as (ts3 & Hu3 & Hinv3 & Hl3 & _);
      [done|done|lia|pose proof (roots_le ts2); lia|].
    rewrite Hu3. exists ts3. split; [done|]. split; [done|]. congruence.
  - (* unbound: shape it into a function type *)
    apply bool_decide_eq_false in Hfun.
    assert (Hnone : arg_t tf = None ∧ ret_t tf = None).
    { unfold slot_ok in Hokf. destruct (arg_t tf); [by destruct Hfun|].
      by destruct (ret_t tf). }
    destruct Hnone as [HfA HfR].
    destruct (masterise_spec K ts1 (Z.to_nat (icall - 1)) Hok1 Hwf1 ltac:(lia))
      as (marg & ts2 & tm2 & Hm2 & Hc2 & Hok2 & Hwf2 & Hmarg & _).
    unfold bind at 1. rewrite Hm2.
    assert (Htf2 : ts2 !! mf = Some tf) by (by apply Hc2).
    unfold bind at 1. rewrite (read_slot_ok _ _ _ Htf2).
    assert (Hmfl : (mf < length ts2)%nat) by (by apply lookup_lt_Some in Htf2).
    unfold bind at 1. rewrite (write_slot_ok _ _ _ Hmfl).
    set (t3 := mkType (master_t tf) (Some marg) (ret_t tf)).
    set (ts3 := <[mf := t3]> ts2).
    assert (Hok3 : masters_ok K ts3).
    { apply masters_ok_insert; [done..|]. cbn [t3 master_t]. lia. }
    assert (Hwf3 : wf_masters ts3)
      by (by apply (wf_masters_insert_same _ _ tf)).
    assert (Ht3 : ts3 !! mf = Some t3) by (by apply list_lookup_insert_eq).
    destruct (masterise_spec K ts3 (Z.to_nat icall) Hok3 Hwf3 ltac:(lia))
      as (mret & ts4 & tm4 & Hm4 & Hc4 & Hok4 & Hwf4 & Hmret & _).
    unfold bind at 1. rewrite Hm4.
    assert (Ht4 : ts4 !! mf = Some t3).
    { apply Hc4; [done|]. cbn [t3 master_t]. done. }
    unfold bind at 1. rewrite (read_slot_ok _ _ _ Ht4).
    assert (Hmfl4 : (mf < length ts4)%nat) by (by apply lookup_lt_Some in Ht4).
    rewrite (write_slot_ok _ _ _ Hmfl4).
    eexists. split; [reflexivity|]. split.
    + split; [|split].
      * apply masters_ok_insert; [done..|]. cbn [t3 master_t]. lia.
      * intros j x Hx Hj. destruct (decide (j = mf)) as [->|Hne].
        -- rewrite list_lookup_insert_eq in Hx by done. injection Hx as <-.
           unfold slot_ok. cbn [t3 arg_t ret_t]. done.
        -- rewrite list_lookup_insert_ne in Hx by done.
           destruct (compresses_fields_back _ _ _ _ Hc4 Hx)
             as (x3 & Hx3 & Ha & Hb).
           unfold ts3 in Hx3. rewrite list_lookup_insert_ne in Hx3 by done.
           assert (Hfld2 : fields_ok K ts2)
             by (by apply (compresses_fields K ts1)).
           specialize (Hfld2 j x3 Hx3 Hj). unfold slot_ok in *.
           by rewrite Ha, Hb.
      * by apply (wf_masters_insert_same _ _ t3).
    + rewrite length_insert. destruct Hc4 as [-> _]. unfold ts3.
      rewrite length_insert. destruct Hc2 as [-> _]. done.
Qed.

(** *** One step of [solve_types] *)

Lemma slot_ok_mono (K K' : nat) (t : Type_) :
  (K ≤ K')%nat → slot_ok K t → slot_ok K' t.
Proof.
  unfold slot_ok. intros HK.
  destruct (arg_t t), (ret_t t); try done. lia.
Qed.

Lemma slots_inv_next (k : nat) (ts : list Type_) :
  slots_inv k ts → (k < length ts)%nat → slots_inv (S k) ts.
Proof.
  intros ((Hl & Hm & Ht) & Hfld & Hwf) Hk. split; [|split; [|done]].
  - split; [lia|]. split.
    + intros i t Hi Hik. destruct (decide (i = k)) as [->|Hne].
      * rewrite Ht in Hi by lia. injection Hi as <-. simpl. lia.
      * specialize (Hm i t Hi). lia.
    + intros j Hj Hjl. apply Ht; lia.
  - intros i t Hi Hik. destruct (decide (i = k)) as [->|Hne].
    + rewrite Ht in Hi by lia. by injection Hi as <-.
    + apply (slot_ok_mono k); [lia|]. apply (Hfld i); [done|lia].
Qed.

Lemma reach_master (ts : list Type_) (i r h : nat) (t : Type_) :
  reach ts i r h → ts !! i = Some t →
  ∃ hm, reach ts (master_t t) r hm ∧ (hm ≤ h)%nat.
Proof.
  intros Hr Ht.
  destruct Hr as [i t' Ht' Hm|i t' r h Ht' Hm Hr];
    rewrite Ht in Ht'; injection Ht' as <-.
  - exists O. rewrite Hm. split; [by apply (reach_root _ _ t)|lia].
  - exists h. split; [done|lia].
Qed.

(** Copying the slot of a first occurrence into the fresh slot [k]. *)
Lemma snapshot_inv (k f : nat) (ts : list Type_) (tf : Type_) :
  slots_inv k ts → (k < length ts)%nat → (f < k)%nat → ts !! f = Some tf →
  slots_inv (S k) (<[k := tf]> ts).
Proof.
  intros Hinv Hk Hf Htf. pose proof Hinv as ((Hl & Hm & Ht) & Hfld & Hwf).
  pose proof (Ht k ltac:(lia) Hk) as Hkk.
  assert (Hmf : (master_t tf < k)%nat) by (by apply (Hm f)).
  destruct (slots_inv_next k ts Hinv Hk) as (Hok' & Hfld' & _).
  split; [|split].
  - apply masters_ok_insert; [done|lia|lia].
  - apply fields_ok_insert; [done|].
    apply (slot_ok_mono k); [lia|]. by apply (Hfld f).
  - (* the fresh slot joins the class of the first occurrence *)
    destruct (Hwf f ltac:(lia)) as (r & hf & Hrf & Hbf).
    destruct (reach_master ts f r hf tf Hrf Htf) as (hm & Hrm & Hle).
    assert (Hrk : (r < k)%nat)
      by (by apply (reach_below k ts f r hf)).
    destruct (link_reach ts k (master_t tf) r hm _ tf Hkk eq_refl eq_refl
                ltac:(lia) Hrm ltac:(lia)) as (Ha & Hb & Hc).
    intros i Hi. rewrite length_insert in *.
    destruct (Hwf i Hi) as (r0 & h0 & Hr0 & Hb0).
    destruct (decide (r0 = k)) as [->|Hne].
    + assert (i = k) as ->.
      { destruct (decide (i < k)%nat) as [Hlt|Hge].
        - pose proof (reach_below k ts i k h0 (conj Hl (conj Hm Ht)) Hr0 Hlt).
          lia.
        - destruct (decide (i = k)) as [|Hik]; [done|].
          pose proof (Ht i ltac:(lia) Hi) as Hii.
          destruct (reach_det _ _ _ _ _ _ Hr0
                      (reach_root ts i _ Hii eq_refl)) as [? _]. lia. }
      apply reach_self in Hr0 as Hz. subst h0.
      exists r, (0 + S hm)%nat. split; [by apply Hb|]. lia.
    + exists r0, h0. split; [by apply Ha|]. lia.
Qed.

Lemma flatten_tokens (e : expr) :
  wf_expr e → Forall token_ok (flatten e).
Proof.
  induction e as [t|d|b IHb t|f IHf a IHa]; cbn [flatten wf_expr].
  - intros H. apply Forall_singleton. by left.
  - intros _. by apply Forall_singleton.
  - intros [Hb Ht]. apply Forall_app. split; [auto|].
    apply Forall_cons. split; [done|]. by apply Forall_singleton.
  - intros (Hf & Ha & _). rewrite !Forall_app.
    split; [auto|]. split; [auto|]. by apply Forall_singleton.
Qed.

Lemma on_types_Ok {A} (m : Slots A) (ttree : TypeTree) (a : A)
    (ts : list Type_) :
  m (types ttree) = Ok (a, ts) →
  on_types m ttree
  = Ok (a, mkTypeTree (postfix ttree) (size ttree) (bindings ttree) ts).
Proof. unfold on_types. by intros ->. Qed.

(** A step of the pass either stops the run at a node [ast_unpack] or
    the token check rejects, or it returns with the invariant for the
    next node. *)
Lemma solve_types_step_spec (e : expr) (k : nat) (ttree : TypeTree) :
  wf_expr e → postfix ttree = flatten e →
  Z.of_nat (length (flatten e)) < 2 ^ 32 →
  tree_inv k ttree → (k < length (flatten e))%nat →
  (∃ n, flatten e !! k = Some n ∧ unpackable n = true
        ∧ ∃ ttree', solve_types_step (Z.of_nat k) ttree = Ok (tt, ttree')
                    ∧ tree_inv (S k) ttree'
                    ∧ postfix ttree' = postfix ttree
                    ∧ size ttree' = size ttree)
  ∨ (solve_types_step (Z.of_nat k) ttree = Die BadTypeId
     ∨ solve_types_step (Z.of_nat k) ttree = Die OverbigToken).
Proof.
  intros Hwf Hpost Hmax (Hinv & Hlen & Hbl & Hbind) Hk.
  destruct (lookup_lt_is_Some_2 (flatten e) k Hk) as [n Hn].
  pose proof (proj1 (Forall_lookup _ _) (flatten_tokens e Hwf) k n Hn) as Htok.
  unfold solve_types_step, bind, get. rewrite Hpost.
  assert (Hkl : (k < length (types ttree))%nat) by (rewrite Hlen, Hpost; lia).
  destruct n as [t|s|d|].
  - (* Var *)
    rewrite (ast_unpack_Var _ _ t) by (rewrite ?Nat2Z.id; first [lia|done]).
    cbn [token_ok] in Htok. destruct Htok as [Ht| ->].
    2:{ right. right. reflexivity. }
    left. exists (Var t). split; [done|]. split; [done|].
    unfold MAX_TOKS. destruct (Z.ltb_spec 26 t); [lia|].
    rewrite DIE_IF_false. unfold read_type_binding.
    destruct (lookup_lt_is_Some_2 (bindings ttree) (Z.to_nat t)) as [b Hb];
      [lia|].
    rewrite Hb. destruct b as [first|].
    + pose proof (Hbind _ _ Hb) as Hfirst.
      destruct (lookup_lt_is_Some_2 (types ttree) first) as [tf Htf]; [lia|].
      rewrite (on_types_Ok _ _ tf (types ttree)) by (by apply read_slot_ok).
      rewrite Nat2Z.id.
      erewrite on_types_Ok by (cbn [types]; by apply write_slot_ok).
      eexists. split; [reflexivity|]. cbn [postfix size]. split; [|done].
      split; [cbn [types]; by apply (snapshot_inv k first)|].
      cbn [types bindings postfix].
      split; [by rewrite length_insert|]. split; [done|].
      intros v f Hv. specialize (Hbind v f Hv). lia.
    + unfold write_type_binding. rewrite Hbl.
      destruct (Z.ltb_spec t (Z.of_nat 26)); [|lia].
      eexists. split; [reflexivity|]. cbn [postfix size]. split; [|done].
      split; [by apply slots_inv_next|]. cbn [types bindings postfix].
      split; [done|]. split; [by rewrite length_insert|].
      intros v f Hv. rewrite Nat2Z.id in Hv.
      destruct (decide (v = Z.to_nat t)) as [->|Hne].
      * rewrite list_lookup_insert_eq in Hv by lia. injection Hv as <-. lia.
      * rewrite list_lookup_insert_ne in Hv by done.
        specialize (Hbind v f Hv). lia.
  - (* Call *)
    rewrite (ast_unpack_Call _ _ s) by (rewrite ?Nat2Z.id; first [lia|done]).
    destruct (flatten_layout e) as (_ & Hcall & _).
    destruct (Hcall (Z.of_nat k) s) as (Hs & _);
      [lia|by rewrite Nat2Z.id|].
    rewrite u32_small by lia.
    left. exists (Call s). split; [done|]. split; [done|].
    destruct (coerce_to_fun_type_spec (S k) (flatten e) (types ttree)
                (Z.of_nat k - s - 1) (Z.of_nat k))
      as (ts' & Hc & Hinv' & Hl');
      [by apply slots_inv_next|lia|lia|lia|].
    rewrite (on_types_Ok _ _ tt ts') by done.
    eexists. split; [reflexivity|]. cbn [postfix size]. split; [|done].
    split; [done|]. cbn [types bindings postfix].
    split; [congruence|]. split; [done|].
    intros v f Hv. specialize (Hbind v f Hv). lia.
  - (* Bound *)
    right. left. unfold ast_unpack.
    destruct (Z.ltb_spec (Z.of_nat k) 0); [lia|]. by rewrite Nat2Z.id, Hn.
  - (* Lambda *)
    right. left. unfold ast_unpack.
    destruct (Z.ltb_spec (Z.of_nat k) 0); [lia|]. by rewrite Nat2Z.id, Hn.
Qed.

(** *** The whole pass *)

Lemma solve_types_from_spec (e : expr) (n k : nat) (ttree : TypeTree) :
  wf_expr e → postfix ttree = flatten e →
  Z.of_nat (length (flatten e)) < 2 ^ 32 →
  tree_inv k ttree → (k + n = length (flatten e))%nat →
  (∃ ttree', solve_types_from n (Z.of_nat k) ttree = Ok (tt, ttree')
     ∧ tree_inv (k + n) ttree' ∧ postfix ttree' = flatten e
     ∧ size ttree' = size ttree
     ∧ ∀ j x, (k ≤ j)%nat → flatten e !! j = Some x → unpackable x = true)
  ∨ (solve_types_from n (Z.of_nat k) ttree = Die BadTypeId
     ∨ solve_types_from n (Z.of_nat k) ttree = Die OverbigToken).
Proof.
  intros Hwf Hpost Hmax. revert k ttree Hpost.
  induction n as [|n IH]; intros k ttree Hpost Hinv Hkn.
  - left. exists ttree. cbn [solve_types_from]. rewrite Nat.add_0_r.
    split; [done|]. split; [done|]. split; [done|]. split; [done|].
    intros j x Hj Hx. apply lookup_lt_Some in Hx. lia.
  - cbn [solve_types_from]. unfold bind.
    destruct (solve_types_step_spec e k ttree Hwf Hpost Hmax Hinv ltac:(lia))
      as [(x & Hx & Hux & ttree' & Hstep & Hinv' & Hpost' & Hsz)|[Hd|Hd]].
    2:{ right. left. by rewrite Hd. }
    2:{ right. right. by rewrite Hd. }
    rewrite Hstep.
    replace (Z.of_nat k + 1) with (Z.of_nat (S k)) by lia.
    destruct (IH (S k) ttree' ltac:(congruence) Hinv' ltac:(lia))
      as [(ttree'' & Hrun & Hinv'' & Hpost'' & Hsz'' & Hall)|Hd].
    + left. exists ttree''. split; [done|].
      replace (k + S n)%nat with (S k + n)%nat by lia.
      split; [done|]. split; [done|]. split; [congruence|].
      intros j y Hj Hy. destruct (decide (j = k)) as [->|Hne].
      * rewrite Hx in Hy. by injection Hy as <-.
      * apply (Hall j); [lia|done].
    + by right.
Qed.

Lemma initial_tree_inv (nodes : list AstNode) (sz : Z) :
  tree_inv 0 (mkTypeTree nodes sz (replicate (Z.to_nat MAX_TOKS) None)
                         (imap (λ k _, mkType k None None) nodes)).
Proof.
  set (ts := imap (λ k _, mkType k None None) nodes).
  assert (Hlen : length ts = length nodes) by apply length_imap.
  assert (Hlook : ∀ j, (j < length ts)%nat →
                    ts !! j = Some (mkType j None None)).
  { intros j Hj. unfold ts. rewrite list_lookup_imap.
    destruct (lookup_lt_is_Some_2 nodes j) as [x ->]; [lia|done]. }
  split; [|split; [done|split]].
  - split; [|split].
    + split; [lia|]. split; [intros; lia|]. intros j _ Hj. by apply Hlook.
    + intros i t _ Hi. lia.
    + intros i Hi. cbn [types] in *. exists i, O. split.
      * by apply (reach_root _ _ (mkType i None None)); [apply Hlook|].
      * pose proof (roots_le ts). lia.
  - cbn [bindings]. by rewrite length_replicate.
  - cbn [bindings]. intros v f Hv. apply lookup_replicate in Hv as [? _].
    done.
Qed.

(** [build_type_tree] on a parsed program: the pass visits every node
    unless it is stopped by a node it cannot unpack or by the token
    check. *)
Lemma build_type_tree_spec (e : expr) (ast : Ast) :
  wf_expr e → nodes ast = flatten e →
  Z.of_nat (length (flatten e)) < 2 ^ 32 →
  (∃ ttree, build_type_tree ast = Ok ttree
     ∧ tree_inv (length (flatten e)) ttree ∧ postfix ttree = flatten e
     ∧ size ttree = Z.of_nat (length (flatten e))
     ∧ Forall (λ x, unpackable x = true) (flatten e))
  ∨ (build_type_tree ast = Die BadTypeId
     ∨ build_type_tree ast = Die OverbigToken).
Proof.
  intros Hwf Hn Hmax. unfold build_type_tree, ast_postfix, nnodes.
  pose proof (flatten_nonempty e) as Hne. rewrite Hn.
  destruct (Z.eqb_spec (Z.of_nat (length (flatten e))) 0); [lia|].
  cbn [obind]. unfold solve_types, bind, get. cbn [size].
  rewrite Nat2Z.id.
  destruct (solve_types_from_spec e (length (flatten e)) 0
              (mkTypeTree (flatten e) (Z.of_nat (length (flatten e)))
                 (replicate (Z.to_nat MAX_TOKS) None)
                 (imap (λ k _, mkType k None None) (flatten e)))
              Hwf eq_refl Hmax (initial_tree_inv _ _) eq_refl)
    as [(ttree' & Hrun & Hinv & Hpost & Hsz & Hall)|[Hd|Hd]].
  - left. exists ttree'. change (Z.of_nat 0) with 0 in Hrun. rewrite Hrun.
    split; [done|]. split; [done|]. split; [done|]. split; [done|].
    apply Forall_lookup. intros j x Hx. apply (Hall j); [lia|done].
  - right. left. change (Z.of_nat 0) with 0 in Hd. by rewrite Hd.
  - right. right. change (Z.of_nat 0) with 0 in Hd. by rewrite Hd.
Qed.

(** ** C8: type inference and the nodes [ast_unpack] has no case for *)

Lemma ast_unpack_cases (l : list AstNode) (idx : Z) (n : AstNode) :
  0 ≤ idx → l !! Z.to_nat idx = Some n →
  if unpackable n then ∃ v, ast_unpack l idx = Ok (node_type n, v)
  else ast_unpack l idx = Die BadTypeId.
Proof.
  intros Hidx Hn. unfold ast_unpack.
  destruct (Z.ltb_spec idx 0); [lia|]. rewrite Hn.
  destruct n; cbn; eauto.
Qed.

(** A successful [parse_lambda] ends the node sequence with the name slot
    and the [Lambda] marker. *)
Lemma parse_lambda_suffix (pnce : string → Parser (option string))
    (z0 zE : string) (ast ast' : Ast) :
  parse_lambda_ pnce z0 ast = Ok (Some zE, ast') →
  ∃ l v, nodes ast' = l ++ [Var v; Lambda].
Proof.
  unfold parse_lambda_. intros H.
  bind_inv H as ? ? E. clear E.
  bind_inv H as [token zE1] s1 E. clear E.
  bind_inv H as zE2 s2 E. clear E.
  bind_inv H as ? ? E. clear E.
  bind_inv H as prev s3 E. clear E.
  bind_inv H as ? s4 E. clear E.
  bind_inv H as ? s5 E. clear E.
  bind_inv H as r' s6 E. clear E.
  destruct r' as [zE'|].
  - bind_inv H as ? ? E. clear E.
    bind_inv H as ? s7 E. clear E.
    bind_inv H as ? s8 E. clear E.
    bind_inv H as ? s9 E. apply push_varname_inv in E as (_ & -> & _).
    bind_inv H as ? s10 E. apply ast_node_alloc_inv in E as (-> & -> & _).
    bind_inv H as ? ? E. apply DIE_IF_Ok in E as [_ ->].
    injection H as <- <-. cbn [set_nodes nodes].
    eexists _, _. by rewrite <- (assoc_L (++)).
  - bind_inv H as ? ? E. done.
Qed.

Lemma act_type_unpackable (name src : string) (ast : Ast) (out : string) :
  parse name src = Ok ast →
  (∃ n, n ∈ nodes ast ∧ unpackable n = false) →
  act_type out ast = Die BadTypeId ∨ act_type out ast = Die OverbigToken.
Proof.
  intros Hp (n & Hin & Hun).
  destruct (parse_flatten _ _ _ Hp) as [[Hnil|(e & Hwf & He)] Hmax].
  { rewrite Hnil in Hin. by apply elem_of_nil in Hin. }
  rewrite He in Hmax, Hin. unfold act_type.
  destruct (build_type_tree_spec e ast Hwf He Hmax)
    as [(ttree & _ & _ & _ & _ & Hall)|[Hd|Hd]].
  - rewrite Forall_forall in Hall. specialize (Hall n Hin). congruence.
  - left. by rewrite Hd.
  - right. by rewrite Hd.
Qed.

(** C8: [ast_unpack] decodes [Var] and [Call] nodes and takes its fatal
    exit on any other node; [push_bound] and [parse_lambda] store such
    other nodes; so on every parsed program that holds a [Bound] or a
    [Lambda] node [act_type] ends in a fatal exit, and when [act_type]
    returns, every node of the program is a [Var] or a [Call]. *)
Theorem type_inference_needs_var_and_call :
  (∀ l idx n, 0 ≤ idx → l !! Z.to_nat idx = Some n →
     if unpackable n then ∃ v, ast_unpack l idx = Ok (node_type n, v)
     else ast_unpack l idx = Die BadTypeId)
  ∧ (∀ d ast, 0 ≤ d → nnodes ast < nnodes_alloced ast →
       push_bound d ast
       = Ok (tt, set_nodes ast (nodes ast ++ [Bound (u32 d)])))
  ∧ (∀ pnce z0 zE ast ast',
       parse_lambda_ pnce z0 ast = Ok (Some zE, ast') →
       ∃ l v, nodes ast' = l ++ [Var v; Lambda])
  ∧ (∀ name src ast out,
       parse name src = Ok ast →
       (∃ n, n ∈ nodes ast ∧ unpackable n = false) →
       act_type out ast = Die BadTypeId ∨ act_type out ast = Die OverbigToken)
  ∧ (∀ name src ast out res,
       parse name src = Ok ast → act_type out ast = Ok res →
       Forall (λ n, node_type n = ANT_VAR ∨ node_type n = ANT_CALL)
              (nodes ast))
  ∧ obind (parse "prog" "[x]x") (act_type EmptyString) = Die BadTypeId
  ∧ obind (parse "prog" "x 1") (act_type EmptyString) = Die BadTypeId
  ∧ obind (parse "prog" "x y") (act_type EmptyString)
    = Ok ("X=(Y Xr)" +:+ newline +:+ "Y" +:+ newline +:+ "Xr" +:+ newline).
Proof.
  split; [apply ast_unpack_cases|].
  split; [intros; by apply push_bound_ok|].
  split; [apply parse_lambda_suffix|].
  split; [apply act_type_unpackable|].
  split; [|repeat split; vm_compute; reflexivity].
  intros name src ast out res Hp Hres. apply Forall_forall. intros n Hin.
  destruct (unpackable n) eqn:Hun.
  - unfold unpackable in Hun. destruct (node_type n); auto; done.
  - destruct (act_type_unpackable name src ast out Hp) as [Hd|Hd];
      [by exists n|congruence..].
Qed.

Lemma type_inference_needs_var_and_call_witness :
  act_type EmptyString (set_nodes (new_ast "prog" "[x]x") [Bound 0; Var 23; Lambda])
  = Die BadTypeId
  ∨ act_type EmptyString (set_nodes (new_ast "prog" "[x]x") [Bound 0; Var 23; Lambda])
    = Die OverbigToken.
Proof.
  destruct type_inference_needs_var_and_call as (_ & _ & _ & H & _).
  apply (H "prog" "[x]x").
  - vm_compute. reflexivity.
  - exists Lambda. split; [|reflexivity].
    cbn [set_nodes nodes]. apply list_elem_of_lookup. by exists 2%nat.
Defined.

(** ** The printer returns *)

Lemma stack_scan_total (stack : list (option nat)) (k type : nat) :
  (k ≤ length stack)%nat → ∃ b, stack_scan stack k type = Some b.
Proof.
  induction k as [|k IH]; intros Hk; [by exists false|].
  cbn [stack_scan].
  destruct (lookup_lt_is_Some_2 stack k) as [p ->]; [lia|].
  destruct (bool_decide (p = Some type)); [by exists true|]. apply IH. lia.
Qed.

(** Unwrapping calls towards the callee ends at a variable. *)
Lemma print_typename_unwrap_total (e : expr) (fuel idx k : nat) :
  Forall (λ x, unpackable x = true) (flatten e) →
  Z.of_nat (length (flatten e)) < 2 ^ 32 →
  (idx < length (flatten e))%nat → (idx < fuel)%nat →
  ∃ val k', print_typename_unwrap (flatten e) fuel (Z.of_nat idx) k
            = Ok (val, k').
Proof.
  intros Hall Hmax. revert idx k.
  induction fuel as [|fuel IH]; intros idx k Hidx Hfuel; [lia|].
  cbn [print_typename_unwrap].
  destruct (lookup_lt_is_Some_2 (flatten e) idx Hidx) as [n Hn].
  pose proof (proj1 (Forall_lookup _ _) Hall idx n Hn) as Hun.
  destruct n as [t|s|d|]; try done.
  - rewrite (ast_unpack_Var _ _ t) by (rewrite ?Nat2Z.id; first [lia|done]).
    cbn [obind]. eauto.
  - rewrite (ast_unpack_Call _ _ s) by (rewrite ?Nat2Z.id; first [lia|done]).
    cbn [obind].
    destruct (flatten_layout e) as (_ & Hcall & _).
    destruct (Hcall (Z.of_nat idx) s) as (Hs & _);
      [lia|by rewrite Nat2Z.id|].
    rewrite u32_small by lia.
    replace (Z.of_nat idx - s - 1) with (Z.of_nat (Z.to_nat (Z.of_nat idx - s - 1)))
      by lia.
    apply IH; lia.
Qed.

Lemma print_typename_total (e : expr) (out : string) (idx : nat) :
  Forall (λ x, unpackable x = true) (flatten e) →
  Z.of_nat (length (flatten e)) < 2 ^ 32 →
  (idx < length (flatten e))%nat →
  ∃ res, print_typename out (flatten e) (Z.of_nat idx) = Ok res.
Proof.
  intros Hall Hmax Hidx. unfold print_typename. rewrite u32_small by lia.
  destruct (print_typename_unwrap_total e (S (length (flatten e))) idx 0
              Hall Hmax Hidx ltac:(lia)) as (val & k' & ->).
  cbn [obind]. eauto.
Qed.

Lemma on_unp_types_Ok {A} (m : Slots A) (unp : Unparser) (a : A)
    (ts : list Type_) :
  m (unp_types unp) = Ok (a, ts) →
  on_unp_types m unp
  = Ok (a, mkUnparser (oot unp) (exprs unp) ts (depth unp) (stack unp)).
Proof. unfold on_unp_types. by intros ->. Qed.

Lemma unp_inv_mk (e : expr) (o : string) (ts : list Type_) (d : Z)
    (st : list (option nat)) :
  slots_inv (length (flatten e)) ts → length ts = length (flatten e) →
  0 ≤ d ≤ MAX_DEPTH → length st = Z.to_nat MAX_DEPTH →
  unp_inv e (mkUnparser o (flatten e) ts d st).
Proof. intros ? ? ? ?. unfold unp_inv. cbn. tauto. Qed.

(** Printing one slot returns, unless the expansion stack overflows: the
    nesting of [unparse_type_] is the depth of that stack. *)
Lemma unparse_type__total (e : expr) (fuel : nat) (unp : Unparser) (t : nat) :
  Forall (λ x, unpackable x = true) (flatten e) →
  Z.of_nat (length (flatten e)) < 2 ^ 32 →
  unp_inv e unp → (t < length (flatten e))%nat →
  Z.of_nat fuel + depth unp > MAX_DEPTH →
  (∃ unp', unparse_type_ fuel t unp = Ok (tt, unp')
     ∧ unp_inv e unp' ∧ depth unp' = depth unp)
  ∨ unparse_type_ fuel t unp = Undefined StackIndex.
Proof.
  intros Hall Hmax. revert unp t.
  induction fuel as [|fuel IH]; intros unp t Hinv Ht Hfuel.
  { destruct Hinv as (_ & _ & _ & Hd & _). unfold MAX_DEPTH in *. lia. }
  destruct Hinv as ((Hok & Hfld & Hwf) & Hlen & Hex & Hd & Hst).
  remember (unparse_type_ (S fuel) t unp) as res eqn:Hres.
  cbn [unparse_type_] in Hres.
  destruct (masterise_spec _ _ t Hok Hwf Ht)
    as (idx & ts1 & ty & Hm & Hc & Hok1 & Hwf1 & Hidx & _ & Hty & Hmty & _).
  unfold bind at 1 in Hres. rewrite (on_unp_types_Ok _ _ _ _ Hm) in Hres.
  unfold bind at 1 in Hres. cbn [get oot exprs] in Hres. rewrite Hex in Hres.
  destruct (print_typename_total e (oot unp) idx Hall Hmax Hidx) as (name & Hn).
  rewrite Hn in Hres.
  assert (Hfld1 : fields_ok (length (flatten e)) ts1)
    by (by apply (compresses_fields _ (unp_types unp))).
  assert (Hl1 : length ts1 = length (flatten e))
    by (destruct Hc; congruence).
  assert (Hinv1 : slots_inv (length (flatten e)) ts1)
    by (unfold slots_inv; tauto).
  unfold bind at 1 in Hres.
  cbn [emit oot exprs unp_types depth stack] in Hres.
  unfold bind at 1 in Hres.
  erewrite on_unp_types_Ok in Hres
    by (cbn [unp_types]; by apply read_slot_ok).
  cbn [oot exprs unp_types depth stack] in Hres.
  unfold bind at 1 in Hres. rewrite Hmty in Hres.
  erewrite on_unp_types_Ok in Hres
    by (cbn [unp_types]; by apply read_slot_ok).
  cbn [oot exprs unp_types depth stack] in Hres.
  destruct (bool_decide (is_Some (arg_t ty))) eqn:Hfun; cbn [negb] in Hres.
  2:{ left. eexists. split; [exact Hres|]. split; [|done].
      by apply unp_inv_mk. }
  apply bool_decide_eq_true in Hfun.
  destruct (slot_ok_Some _ ty (Hfld1 idx ty Hty Hidx) Hfun)
    as (a & r & Ha & Hr & HaK & HrK).
  (* the push *)
  unfold bind at 1 in Hres. unfold unparse_push in Hres.
  unfold bind at 1 in Hres.
  erewrite on_unp_types_Ok in Hres
    by (cbn [unp_types]; by apply read_slot_ok).
  cbn [oot exprs unp_types depth stack] in Hres.
  unfold bind at 1 in Hres.
  rewrite Hmty, Nat.eqb_refl in Hres. cbn [negb] in Hres.
  rewrite DIE_IF_false in Hres. unfold bind at 1 in Hres.
  cbn [get oot exprs unp_types depth stack] in Hres.
  unfold MAX_DEPTH in Hd, Hst, Hfuel.
  destruct (stack_scan_total (stack unp) (Z.to_nat (depth unp)) idx)
    as [b Hscan]; [lia|].
  rewrite Hscan in Hres. destruct b.
  { cbn [ret negb] in Hres. left. eexists. split; [exact Hres|].
    split; [|done]. by apply unp_inv_mk. }
  rewrite Hst in Hres.
  destruct (Z.ltb_spec (depth unp) (Z.of_nat (Z.to_nat 16))) as [Hlt|Hge].
  2:{ by right. }
  unfold bind at 1 in Hres. cbn [put ret negb] in Hres.
  rewrite u32_small in Hres by lia.
  unfold bind at 1 in Hres.
  cbn [emit oot exprs unp_types depth stack] in Hres.
  rewrite Ha, Hr in Hres.
  unfold bind at 1 in Hres.
  erewrite on_unp_types_Ok in Hres by (cbn [unp_types slot_of]; reflexivity).
  cbn [oot exprs unp_types depth stack] in Hres.
  (* the argument type *)
  unfold bind at 1 in Hres.
  match type of Hres with
  | context [unparse_type_ fuel a ?u] =>
    destruct (IH u a) as [(unp4 & Hrun4 & Hinv4 & Hd4)|Hu];
      [apply unp_inv_mk; [done|done|unfold MAX_DEPTH; lia|
                          by rewrite length_insert]
      |done|cbn [depth]; unfold MAX_DEPTH; lia| |]
  end.
  2:{ right. by rewrite Hu in Hres. }
  rewrite Hrun4 in Hres. cbn [depth] in Hd4.
  destruct Hinv4 as (Hs4 & Hl4 & Hex4 & Hdd4 & Hst4).
  unfold bind at 1 in Hres.
  cbn [emit oot exprs unp_types depth stack] in Hres.
  unfold bind at 1 in Hres.
  erewrite on_unp_types_Ok in Hres by (cbn [unp_types slot_of]; reflexivity).
  cbn [oot exprs unp_types depth stack] in Hres.
  (* the return type *)
  unfold bind at 1 in Hres. rewrite Hex4 in Hres.
  match type of Hres with
  | context [unparse_type_ fuel r ?u] =>
    destruct (IH u r) as [(unp6 & Hrun6 & Hinv6 & Hd6)|Hu];
      [by apply unp_inv_mk
      |done|cbn [depth]; unfold MAX_DEPTH; lia| |]
  end.
  2:{ right. by rewrite Hu in Hres. }
  rewrite Hrun6 in Hres. cbn [depth] in Hd6.
  destruct Hinv6 as (Hs6 & Hl6 & Hex6 & Hdd6 & Hst6).
  unfold bind at 1 in Hres.
  cbn [emit oot exprs unp_types depth stack] in Hres.
  (* the pop *)
  unfold unparse_pop in Hres. unfold bind at 1 in Hres.
  cbn [get oot exprs unp_types depth stack] in Hres.
  rewrite Hd6, Hd4 in Hres.
  rewrite i32_small in Hres by (unfold INT32_MAX; lia).
  replace (depth unp + 1 - 1) with (depth unp) in Hres by lia.
  destruct (Z.leb_spec 0 (depth unp)); [|lia]. cbn [negb] in Hres.
  unfold bind at 1 in Hres. rewrite DIE_IF_false in Hres.
  cbn [set_depth oot exprs unp_types depth stack] in Hres.
  rewrite u32_small in Hres by lia. rewrite Hex6 in Hres.
  left. eexists. split; [exact Hres|]. split; [|done].
  apply unp_inv_mk; [done|done|unfold MAX_DEPTH; lia|done].
Qed.

(** The printing loop of [act_type] returns or overflows the stack. *)
Lemma act_type_from_total (e : expr) (n k : nat) (out : string)
    (ttree : TypeTree) :
  Forall (λ x, unpackable x = true) (flatten e) →
  Z.of_nat (length (flatten e)) < 2 ^ 32 →
  slots_inv (length (flatten e)) (types ttree) →
  length (types ttree) = length (flatten e) →
  postfix ttree = flatten e →
  (k + n ≤ length (flatten e))%nat →
  (∃ s, act_type_from n k out ttree = Ok s)
  ∨ act_type_from n k out ttree = Undefined StackIndex.
Proof.
  intros Hall Hmax. revert k out ttree.
  induction n as [|n IH]; intros k out ttree Hinv Hlen Hpost Hk.
  { left. by eexists. }
  cbn [act_type_from]. unfold unparse_type. rewrite Hpost.
  destruct (unparse_type__total e (S (Z.to_nat MAX_DEPTH)) 
              (mkUnparser out (flatten e) (types ttree) 0
                 (replicate (Z.to_nat MAX_DEPTH) None)) k Hall Hmax)
    as [(unp' & Hrun & Hinv' & _)|Hu].
  - apply unp_inv_mk; [done|done|unfold MAX_DEPTH; lia|].
    by rewrite length_replicate.
  - lia.
  - cbn [depth]. unfold MAX_DEPTH. lia.
  - rewrite Hrun. cbn [obind].
    destruct Hinv' as (Hs & Hl & _).
    apply IH; cbn [types postfix]; [done|done|done|lia].
  - right. by rewrite Hu.
Qed.




(** * Further properties of the parser *)

(** ** Runs within the program *)

Lemma wp_bind {S A B} (F : Fatal → Prop) (m : St S A) (k : A → St S B)
    (s : S) (R : A → S → Prop) (Q : B → S → Prop) :
  wp F (m s) R → (∀ a s', R a s' → wp F (k a s') Q) → wp F (bind m k s) Q.
Proof.
  unfold bind. destruct (m s) as [[a s']| | |]; cbn; auto; done.
Qed.

Lemma wp_mono {S A} (F : Fatal → Prop) (m : outcome (A * S))
    (R Q : A → S → Prop) :
  wp F m R → (∀ a s, R a s → Q a s) → wp F m Q.
Proof. destruct m as [[a s]| | |]; cbn; auto. Qed.

(** A [DIE_IF] whose condition is false goes on. *)
Lemma wp_DIE_IF {S} (F : Fatal → Prop) (c : bool) (f : Fatal) (s : S) :
  (c = true → F f) → wp F (DIE_IF c f s) (λ _ s', s' = s ∧ c = false).
Proof. destruct c; cbn; auto. Qed.

Lemma parser_keeps_refl (ast : Ast) : env_ok ast → parser_keeps ast ast.
Proof.
  intros H. split; [done|]. do 4 (split; [done|]).
  split; [by exists []|]. exists []. by rewrite app_nil_r.
Qed.

Lemma parser_keeps_trans (ast1 ast2 ast3 : Ast) :
  parser_keeps ast1 ast2 → parser_keeps ast2 ast3 → parser_keeps ast1 ast3.
Proof.
  intros (_ & Hn1 & Hs1 & Hl1 & Ha1 & [new1 He1] & [more1 Hm1])
         (Henv & Hn2 & Hs2 & Hl2 & Ha2 & [new2 He2] & [more2 Hm2]).
  split; [done|]. do 4 (split; [congruence|]).
  split; [exists (new2 ++ new1); by rewrite He2, He1, (assoc_L (++))|].
  exists (more1 ++ more2). by rewrite Hm2, Hm1, (assoc_L (++)).
Qed.

(** Errors are only added: when none was added over two steps, none was
    added in either. *)
Lemma parser_keeps_error (ast1 ast2 ast3 : Ast) :
  parser_keeps ast1 ast2 → parser_keeps ast2 ast3 →
  error ast3 = error ast1 →
  error ast2 = error ast1 ∧ error ast3 = error ast2.
Proof.
  intros (_ & _ & _ & _ & _ & [new1 He1] & _)
         (_ & _ & _ & _ & _ & [new2 He2] & _) He.
  rewrite He2, He1 in He.
  assert (new1 = [] ∧ new2 = []) as [-> ->].
  { apply (f_equal length) in He. rewrite !length_app in He.
    destruct new1, new2; cbn in He; (done || lia). }
  by rewrite He2, He1.
Qed.

Lemma parser_step_refl (ast : Ast) : env_ok ast → parser_step ast ast.
Proof. intros H. split; [by apply parser_keeps_refl|done]. Qed.

Lemma parser_step_trans (ast1 ast2 ast3 : Ast) :
  parser_step ast1 ast2 → parser_step ast2 ast3 → parser_step ast1 ast3.
Proof.
  intros [Hk1 Hb1] [Hk2 Hb2].
  split; [by eapply parser_keeps_trans|].
  intros He. destruct (parser_keeps_error _ _ _ Hk1 Hk2 He) as [He1 He2].
  destruct (Hb1 He1), (Hb2 He2). split; congruence.
Qed.

(** A store to a fresh node or a new syntax error is a step. *)
Lemma parser_step_nodes (ast : Ast) (node : AstNode) :
  env_ok ast → nnodes ast < nnodes_alloced ast →
  parser_step ast (set_nodes ast (nodes ast ++ [node])).
Proof.
  intros (? & ? & ? & ?) Hcap. split; [|done].
  split.
  { do 3 (split; [done|]). unfold nnodes in *. cbn.
    rewrite length_app. cbn. lia. }
  do 4 (split; [done|]). split; [by exists []|by exists [node]].
Qed.

Lemma parser_step_error (ast : Ast) (e : SyntaxError) :
  env_ok ast → parser_step ast (set_error ast (e :: error ast)).
Proof.
  intros H. split.
  - split; [done|]. do 4 (split; [done|]).
    split; [by exists [e]|exists []; by rewrite app_nil_r].
  - cbn. intros He. apply (f_equal length) in He. cbn in He. lia.
Qed.

Lemma add_syntax_error_step (zloc m : string) (ast : Ast) :
  env_ok ast →
  wp parser_exit (add_syntax_error zloc m ast)
     (λ _ ast', parser_step ast ast' ∧ error ast' ≠ []
                ∧ error ast' ≠ error ast).
Proof.
  intros H. unfold add_syntax_error, src_offset.
  destruct (Z.ltb_spec (zsrc_len ast)
              (Z.of_nat (String.length (zsrc ast))
               - Z.of_nat (String.length zloc))) as [Hlt|_]; cbn.
  { destruct H as (_ & _ & ? & _). lia. }
  split; [by apply parser_step_error|].
  split; [done|]. intros He. apply (f_equal length) in He. cbn in He. lia.
Qed.

Lemma ast_node_alloc_step (node : AstNode) (ast : Ast) :
  env_ok ast →
  wp parser_exit (ast_node_alloc node ast)
     (λ u ast', parser_step ast ast' ∧ u = nnodes ast
                ∧ nodes ast' = nodes ast ++ [node]).
Proof.
  intros H. unfold ast_node_alloc.
  destruct (Z.ltb_spec (nnodes_alloced ast) (nnodes ast + 1)); cbn;
    [by left|].
  split; [apply parser_step_nodes; [done|lia]|done].
Qed.

(** The tokens the lexer hands out pass the guard of [push_varname]. *)
Lemma token_guard (token : Z) :
  token = -1 ∨ 0 ≤ token < 26 → (code "z" <? token + code "a") = false.
Proof.
  intros H. apply Z.ltb_ge.
  change (code "z") with 122. change (code "a") with 97. lia.
Qed.

Lemma push_varname_step (token : Z) (ast : Ast) :
  env_ok ast → token = -1 ∨ 0 ≤ token < 26 →
  wp parser_exit (push_varname token ast)
     (λ _ ast', parser_step ast ast'
                ∧ nodes ast' = nodes ast ++ [Var (u32 token)]).
Proof.
  intros H Ht. unfold push_varname.
  eapply wp_bind; [apply wp_DIE_IF; by rewrite token_guard|].
  intros _ ? [-> _].
  eapply wp_bind; [by apply ast_node_alloc_step|]. by intros ? ? (? & _ & ?).
Qed.

Lemma push_bound_step (d : Z) (ast : Ast) :
  env_ok ast →
  wp parser_exit (push_bound d ast)
     (λ _ ast', parser_step ast ast'
                ∧ nodes ast' = nodes ast ++ [Bound (u32 d)]).
Proof.
  intros H. unfold push_bound.
  eapply wp_bind; [apply wp_DIE_IF; by right|]. intros _ ? [-> _].
  eapply wp_bind; [by apply ast_node_alloc_step|]. by intros ? ? (? & _ & ?).
Qed.

Lemma read_binding_step (token : Z) (ast : Ast) :
  env_ok ast → 0 ≤ token < 26 →
  wp parser_exit (read_binding token ast)
     (λ d ast', ast' = ast ∧ binding_depths ast !! Z.to_nat token = Some d).
Proof.
  intros [Hlen _] Ht. unfold read_binding.
  destruct (Z.ltb_spec token 0); [lia|].
  destruct (lookup_lt_is_Some_2 (binding_depths ast) (Z.to_nat token))
    as [d Hd]; [lia|].
  by rewrite Hd.
Qed.

Lemma push_var_step (token : Z) (ast : Ast) :
  env_ok ast → 0 ≤ token < 26 →
  wp parser_exit (push_var token ast)
     (λ _ ast', parser_step ast ast' ∧ nodes ast' ≠ []).
Proof.
  intros H Ht. unfold push_var.
  eapply wp_bind; [apply wp_DIE_IF; rewrite token_guard; auto; done|].
  intros _ ? [-> _].
  eapply wp_bind; [by apply read_binding_step|]. intros d ? [-> _].
  unfold bind, get.
  destruct (d =? 0).
  - eapply wp_mono; [apply push_varname_step; auto|].
    intros _ ? [? ->]. split; [done|]. by destruct (nodes ast).
  - eapply wp_mono; [by apply push_bound_step|].
    intros _ ? [? ->]. split; [done|]. by destruct (nodes ast).
Qed.

(** ** The lexers *)

Lemma deref_length (z : string) :
  deref z ≠ NUL → (String.length (next z) < String.length z)%nat.
Proof. destruct z; cbn; [done|lia]. Qed.

Lemma eat_white_length (z : string) :
  (String.length (eat_white z) ≤ String.length z)%nat.
Proof.
  induction z as [|c z IH]; cbn; [lia|]. destruct (is_white c); cbn; lia.
Qed.

Lemma skip_letters_length (z : string) :
  (String.length (skip_letters z) ≤ String.length z)%nat.
Proof.
  induction z as [|c z IH]; cbn; [lia|].
  destruct (_ <? _); cbn; lia.
Qed.

Lemma skip_digits_length (z : string) :
  (String.length (skip_digits z) ≤ String.length z)%nat.
Proof.
  induction z as [|c z IH]; cbn; [lia|].
  destruct (_ <? _); cbn; lia.
Qed.

Lemma letter_not_NUL (z : string) :
  idx_from_letter (deref z) < 26 → deref z ≠ NUL.
Proof. intros H E. rewrite E in H. vm_compute in H. done. Qed.

Lemma digit_not_NUL (z : string) :
  idx_from_digit (deref z) < 10 → deref z ≠ NUL.
Proof. intros H E. rewrite E in H. vm_compute in H. done. Qed.

Lemma idx_from_letter_nonneg (c : ascii) : 0 ≤ idx_from_letter c.
Proof. unfold idx_from_letter. apply Z.mod_pos_bound. lia. Qed.

Lemma idx_from_digit_nonneg (c : ascii) : 0 ≤ idx_from_digit c.
Proof. unfold idx_from_digit. apply Z.mod_pos_bound. lia. Qed.

Lemma lex_varname_step (z0 : string) (ast : Ast) :
  env_ok ast →
  wp parser_exit (lex_varname z0 ast)
     (λ '(token, z) ast',
        parser_step ast ast'
        ∧ (token = -1 ∧ z = z0 ∧ ast' = ast
           ∨ 0 ≤ token < 26
             ∧ (String.length z < String.length z0)%nat)).
Proof.
  intros H. unfold lex_varname.
  pose proof (idx_from_letter_nonneg (deref z0)).
  destruct (Z.leb_spec 26 (idx_from_letter (deref z0))) as [|Hlt].
  { cbn. split; [by apply parser_step_refl|by left]. }
  pose proof (deref_length z0 (letter_not_NUL z0 Hlt)).
  destruct (Z.leb_spec 26 (idx_from_letter (deref (next z0)))).
  { cbn. split; [by apply parser_step_refl|right; lia]. }
  eapply wp_bind; [by apply add_syntax_error_step|].
  intros _ ast' [Hs _]. cbn. split; [done|]. right.
  pose proof (skip_letters_length (next z0)). lia.
Qed.

Lemma lex_int_step (z0 : string) (ast : Ast) :
  env_ok ast →
  wp parser_exit (lex_int z0 ast)
     (λ '(token, z) ast',
        parser_step ast ast'
        ∧ (token = -1 ∧ z = z0 ∧ ast' = ast
           ∨ 0 ≤ token < 10
             ∧ (String.length z < String.length z0)%nat)).
Proof.
  intros H. unfold lex_int.
  pose proof (idx_from_digit_nonneg (deref z0)).
  destruct (Z.leb_spec 10 (idx_from_digit (deref z0))) as [|Hlt].
  { cbn. split; [by apply parser_step_refl|by left]. }
  pose proof (deref_length z0 (digit_not_NUL z0 Hlt)).
  destruct (Z.leb_spec 10 (idx_from_digit (deref (next z0)))).
  { cbn. split; [by apply parser_step_refl|right; lia]. }
  eapply wp_bind; [by apply add_syntax_error_step|].
  intros _ ast' [Hs _]. cbn. split; [done|]. right.
  pose proof (skip_digits_length (next z0)). lia.
Qed.

(** ** The parsing functions stay within the program *)

Section parser_safe.
Variable pnce : string → Parser (option string).
Variable L : nat.
Hypothesis pnce_safe : ∀ z ast,
  (String.length z < L)%nat → env_ok ast →
  wp parser_exit (pnce z ast)
     (λ r ast', parser_step ast ast' ∧ advances z ast' r).

Lemma parse_expr_while_safe (n : nat) (z0 z1 : string) (ast : Ast) :
  (String.length z1 < n)%nat → (String.length z1 < L)%nat → env_ok ast →
  wp parser_exit (parse_expr_while pnce n z0 z1 ast)
     (λ r ast', parser_step ast ast' ∧ advances z1 ast' r
                ∧ (r = None → error ast' ≠ [])).
Proof.
  revert z1 ast. induction n as [|n IH]; intros z1 ast Hn HL Henv; [lia|].
  cbn [parse_expr_while].
  eapply wp_bind; [by apply pnce_safe|]. intros r ast1 [Hs1 Hadv].
  destruct r as [z|]; [done|].
  assert (Henv1 : env_ok ast1) by apply Hs1.
  unfold bind at 1, get.
  eapply wp_bind with
    (R := λ _ ast2, parser_step ast1 ast2 ∧ error ast2 ≠ []).
  { destruct (error ast1) eqn:He.
    - eapply wp_mono; [by apply add_syntax_error_step|].
      by intros _ ? (? & ? & _).
    - cbn. split; [by apply parser_step_refl|by rewrite He]. }
  intros _ ast2 [Hs2 Hne].
  assert (Hs : parser_step ast ast2) by (by eapply parser_step_trans).
  destruct (Ascii.eqb_spec (deref z1) NUL) as [|Hnz].
  { cbn. split; [done|]. split; [done|done]. }
  pose proof (deref_length z1 Hnz).
  pose proof (eat_white_length (next z1)).
  eapply wp_mono; [apply IH; [lia|lia|apply Hs2]|].
  intros r ast3 (Hs3 & Hadv3 & Hnone).
  split; [by eapply parser_step_trans|]. split; [|done].
  intros zE ->. destruct (Hadv3 zE eq_refl). split; [lia|done].
Qed.

Lemma ast_root_step (ast : Ast) :
  nodes ast ≠ [] →
  wp parser_exit (ast_root ast) (λ i ast', ast' = ast ∧ i = nnodes ast - 1).
Proof.
  intros Hne. unfold ast_root, nnodes.
  destruct (Z.eqb_spec (Z.of_nat (length (nodes ast))) 0); [|done].
  destruct (nodes ast); [done|]. cbn in *. lia.
Qed.

Lemma nodes_app_nonempty (ast ast' : Ast) :
  parser_step ast ast' → nodes ast ≠ [] → nodes ast' ≠ [].
Proof.
  intros [(_ & _ & _ & _ & _ & _ & [more ->]) _] Hne.
  by destruct (nodes ast).
Qed.

Lemma parse_expr_for_safe (n : nat) (z : string) (ast : Ast) :
  (String.length z < n)%nat → (String.length z < L)%nat → env_ok ast →
  nodes ast ≠ [] →
  wp parser_exit (parse_expr_for pnce n z ast)
     (λ r ast', parser_step ast ast'
                ∧ ∃ zE, r = Some zE
                        ∧ (String.length zE ≤ String.length z)%nat
                        ∧ nodes ast' ≠ []).
Proof.
  revert z ast. induction n as [|n IH]; intros z ast Hn HL Henv Hne; [lia|].
  cbn [parse_expr_for].
  eapply wp_bind; [by apply ast_root_step|]. intros func ? [-> ->].
  pose proof (eat_white_length z).
  eapply wp_bind; [apply pnce_safe; [lia|done]|]. intros r ast1 [Hs1 Hadv].
  pose proof (nodes_app_nonempty _ _ Hs1 Hne) as Hne1.
  eapply wp_bind; [by apply ast_root_step|]. intros root ? [-> ->].
  destruct r as [z1|].
  2:{ cbn. split; [done|]. by exists (eat_white z). }
  destruct (Hadv z1 eq_refl) as [Hlt _].
  eapply wp_bind.
  { apply wp_DIE_IF. intros Hc. exfalso. apply Z.ltb_lt in Hc.
    destruct Hs1 as [(Henv1 & _ & _ & _ & _ & _ & [more Hm]) _].
    destruct Henv1 as (_ & _ & _ & Hcap). unfold nnodes in *.
    rewrite Hm, length_app in *.
    rewrite Z.mod_small in Hc; unfold INT32_MAX in *; lia. }
  intros _ ? [-> _].
  eapply wp_bind; [apply ast_node_alloc_step; apply Hs1|].
  intros u ast2 (Hs2 & _ & Hn2).
  eapply wp_mono; [apply IH; [lia|lia|apply Hs2|]|].
  { rewrite Hn2. by destruct (nodes ast1). }
  intros r ast3 (Hs3 & zE & -> & Hle & Hne3).
  split; [eapply parser_step_trans; [|done]; by eapply parser_step_trans|].
  exists zE. split; [done|]. split; [lia|done].
Qed.

Lemma parse_expr_safe (n : nat) (z0 : string) (ast : Ast) :
  (String.length z0 < n)%nat → (String.length z0 < L)%nat → env_ok ast →
  wp parser_exit (parse_expr_ pnce n z0 ast)
     (λ r ast', parser_step ast ast' ∧ advances z0 ast' r
                ∧ (r = None → error ast' ≠ [])).
Proof.
  intros Hn HL Henv. unfold parse_expr_.
  pose proof (eat_white_length z0).
  eapply wp_bind; [apply parse_expr_while_safe; [lia|lia|done]|].
  intros r ast1 (Hs1 & Hadv & Hnone).
  destruct r as [z|]; [|done].
  destruct (Hadv z eq_refl) as [Hlt Hne].
  eapply wp_mono; [apply parse_expr_for_safe; [lia|lia|apply Hs1|done]|].
  intros r ast2 (Hs2 & zE & -> & Hle & Hne2).
  split; [by eapply parser_step_trans|]. split; [|done].
  intros ? [= <-]. split; [lia|done].
Qed.

Lemma u32_pred_succ (d : Z) : 0 ≤ d < 2 ^ 32 → u32 (u32 (d + 1) - 1) = d.
Proof.
  intros H. unfold u32.
  destruct (Z.eq_dec d (2 ^ 32 - 1)) as [->|]; [reflexivity|].
  rewrite (Z.mod_small (d + 1)) by lia. rewrite Z.mod_small; lia.
Qed.

(** Entering a lambda: the store to the binding of the name, or to the
    local [sink] when there is no name. *)
Lemma write_binding_step (token v : Z) (ast : Ast) :
  env_ok ast → token = -1 ∨ 0 ≤ token < 26 →
  wp parser_exit (write_binding token v ast)
     (λ _ ast',
        ast' = set_binding_depths ast
                 (if token <? 0 then binding_depths ast
                  else <[Z.to_nat token := v]> (binding_depths ast))).
Proof.
  intros [Hlen _] Ht. unfold write_binding.
  destruct (Z.ltb_spec token 0); [by destruct ast|].
  destruct (Z.ltb_spec token (Z.of_nat (length (binding_depths ast))));
    [done|lia].
Qed.

(** The stores of [parse_lambda] to the environment keep the rest. *)
Lemma parser_keeps_env (ast : Ast) (d : Z) (b : list Z) :
  env_ok ast → 0 ≤ d < 2 ^ 32 → length b = 26%nat →
  parser_keeps ast (set_binding_depths (set_current_depth_ ast d) b)
  ∧ parser_keeps ast (set_current_depth_ (set_binding_depths ast b) d).
Proof.
  intros (? & ? & ? & ?) Hd Hb.
  split; (split; [done|]; do 4 (split; [done|]);
          split; [by exists []|exists []; by rewrite app_nil_r]).
Qed.

Lemma parse_lambda_safe (z0 : string) (ast : Ast) :
  (String.length z0 ≤ L)%nat → env_ok ast → deref z0 = "["%char →
  wp parser_exit (parse_lambda_ pnce z0 ast)
     (λ r ast', parser_step ast ast' ∧ advances z0 ast' r).
Proof.
  intros HL Henv Hopen. unfold parse_lambda_.
  eapply wp_bind; [apply wp_DIE_IF; by rewrite Hopen|]. intros _ ? [-> _].
  assert (Hz0 : (String.length (next z0) < String.length z0)%nat).
  { apply deref_length. by rewrite Hopen. }
  pose proof (eat_white_length (next z0)) as Hw1.
  eapply wp_bind; [by apply lex_varname_step|].
  intros [token zE2] ast1 [Hs1 Htok].
  assert (HzE2 : (String.length zE2 ≤ String.length (next z0))%nat)
    by (destruct Htok as [(_ & -> & _)|[_ ?]]; lia).
  assert (Htok' : token = -1 ∨ 0 ≤ token < 26)
    by (destruct Htok as [(-> & _)|[? _]]; auto).
  pose proof (eat_white_length zE2) as Hw2.
  eapply wp_bind with
    (R := λ zE ast2, parser_step ast1 ast2
                     ∧ (String.length zE ≤ String.length (next z0))%nat).
  { destruct (Ascii.eqb_spec (deref (eat_white zE2)) "]") as [Hc|_].
    - cbn. split; [apply parser_step_refl, Hs1|].
      destruct (eat_white zE2); cbn in *; lia.
    - eapply wp_bind; [apply add_syntax_error_step, Hs1|].
      intros _ ast2 [Hs2 _]. cbn. split; [done|lia]. }
  intros zE ast2 [Hs2 HzE].
  assert (Hs02 : parser_step ast ast2) by (by eapply parser_step_trans).
  assert (Henv2 : env_ok ast2) by apply Hs2.
  unfold bind at 1, get.
  eapply wp_bind with
    (R := λ prev ast', ast' = ast2
            ∧ (0 ≤ token →
               binding_depths ast2 !! Z.to_nat token = Some prev)).
  { destruct (Z.leb_spec 0 token).
    - eapply wp_mono; [apply read_binding_step; [done|lia]|].
      by intros ? ? [-> ?].
    - cbn. split; [done|lia]. }
  intros prev ? [-> Hprev].
  unfold bind at 1, set_current_depth.
  set (inner := u32 (current_depth ast2 + 1)).
  assert (Hinner : 0 ≤ inner < 2 ^ 32)
    by (subst inner; unfold u32; apply Z.mod_pos_bound; lia).
  set (ast3 := set_current_depth_ ast2 inner).
  assert (Henv3 : env_ok ast3).
  { destruct Henv2 as (? & ? & ? & ?). by split; [|split; [|split]]. }
  eapply wp_bind; [by apply write_binding_step|]. intros _ ? ->.
  set (ast4 := set_binding_depths ast3 _).
  assert (Hk24 : parser_keeps ast2 ast4).
  { apply parser_keeps_env; [done|done|]. cbn.
    destruct (token <? 0); [apply Henv2|].
    rewrite length_insert. apply Henv2. }
  eapply wp_bind; [apply pnce_safe; [lia|apply Hk24]|].
  intros r ast5 [Hs5 Hadv].
  assert (Hk05 : parser_keeps ast ast5).
  { eapply parser_keeps_trans; [apply Hs02|].
    eapply parser_keeps_trans; [done|apply Hs5]. }
  destruct r as [zE'|].
  2:{ eapply wp_bind; [apply add_syntax_error_step, Hs5|].
      intros _ ast6 (Hs6 & _ & Hne). cbn. split; [|done].
      split; [eapply parser_keeps_trans; [done|apply Hs6]|].
      intros He.
      by destruct (parser_keeps_error _ _ _ Hk05 (proj1 Hs6) He). }
  destruct (Hadv zE' eq_refl) as [Hlt Hne5].
  eapply wp_bind; [by apply ast_root_step|]. intros body ? [-> ->].
  eapply wp_bind; [apply write_binding_step; [apply Hs5|done]|].
  intros _ ? ->.
  unfold bind at 1, set_current_depth.
  set (ast6 := set_current_depth_ (set_binding_depths ast5 _) _).
  assert (Hk56 : parser_keeps ast5 ast6).
  { apply parser_keeps_env; [apply Hs5| |].
    - unfold u32. apply Z.mod_pos_bound. lia.
    - destruct (token <? 0); [apply Hs5|].
      rewrite length_insert. apply Hs5. }
  eapply wp_bind; [apply push_varname_step; [apply Hk56|done]|].
  intros ? ast7 [Hs7 Hn7].
  eapply wp_bind; [apply ast_node_alloc_step, Hs7|].
  intros pn ast8 (Hs8 & -> & Hn8).
  eapply wp_bind.
  { apply wp_DIE_IF. intros Hc. exfalso.
    apply negb_true_iff, Z.eqb_neq in Hc. apply Hc.
    unfold nnodes. rewrite Hn7, length_app. cbn. lia. }
  intros _ ? [-> _]. cbn.
  split; [|intros ? [= <-]; split; [lia|]; rewrite Hn8;
           by destruct (nodes ast7)].
  assert (Hs68 : parser_step ast6 ast8) by (by eapply parser_step_trans).
  assert (Hk06 : parser_keeps ast ast6)
    by (by eapply parser_keeps_trans).
  split; [eapply parser_keeps_trans; [done|apply Hs68]|].
  intros He.
  destruct (parser_keeps_error _ _ _ Hk06 (proj1 Hs68) He) as [He6 He8].
  destruct (proj2 Hs68 He8) as [Hb8 Hd8].
  change (error ast6) with (error ast5) in He6.
  destruct (parser_keeps_error _ _ _
              (parser_keeps_trans _ _ _ (proj1 Hs02) Hk24) (proj1 Hs5) He6)
    as [He4 He5].
  change (error ast4) with (error ast2) in He4.
  destruct (proj2 Hs5 He5) as [Hb5 Hd5].
  destruct (proj2 Hs02 He4) as [Hb2 Hd2].
  rewrite Hb8, Hd8. subst ast6. cbn [binding_depths current_depth
    set_current_depth_ set_binding_depths].
  rewrite Hb5. subst ast4 ast3. cbn [binding_depths current_depth
    set_current_depth_ set_binding_depths]. subst inner.
  rewrite u32_pred_succ by apply Henv2. split; [|done].
  rewrite <- Hb2. destruct (Z.ltb_spec token 0); [done|].
  rewrite list_insert_insert_eq. apply list_insert_id. by apply Hprev.
Qed.

End parser_safe.

Lemma next_length (z : string) :
  (String.length (next z) ≤ String.length z)%nat.
Proof. destruct z; cbn; lia. Qed.

Lemma parse_non_call_expr_safe (fuel : nat) (z0 : string) (ast : Ast) :
  (String.length z0 < fuel)%nat → env_ok ast →
  wp parser_exit (parse_non_call_expr fuel z0 ast)
     (λ r ast', parser_step ast ast' ∧ advances z0 ast' r).
Proof.
  revert z0 ast. induction fuel as [|fuel IH]; intros z0 ast Hf Henv; [lia|].
  cbn [parse_non_call_expr].
  eapply wp_bind; [by apply lex_varname_step|].
  intros [token zE] ast1 [Hs1 Htok].
  destruct (Z.leb_spec 0 token) as [Hpos|Hneg].
  { destruct Htok as [(-> & _)|[Ht Hlen]]; [lia|].
    eapply wp_bind; [apply push_var_step; [apply Hs1|done]|].
    intros ? ast2 [Hs2 Hne]. cbn.
    split; [by eapply parser_step_trans|]. by intros ? [= <-]. }
  destruct Htok as [(_ & _ & ->)|[? _]]; [|lia].
  eapply wp_bind; [by apply lex_int_step|].
  intros [tok zI] ast1 [Hs2 Htok].
  destruct (Z.leb_spec 0 tok) as [Hpos|Hneg'].
  { destruct Htok as [(-> & _)|[Ht Hlen]]; [lia|].
    eapply wp_bind with (R := λ _ ast', parser_step ast1 ast').
    { destruct (tok =? 0).
      - eapply wp_bind; [apply add_syntax_error_step, Hs2|].
        by intros ? ? [? _].
      - cbn. apply parser_step_refl, Hs2. }
    intros tok' ast2 Hs3.
    eapply wp_bind; [apply push_bound_step, Hs3|].
    intros ? ast3 [Hs4 Hn4]. cbn.
    split; [|intros ? [= <-]; split; [done|]; rewrite Hn4;
             by destruct (nodes ast2)].
    eapply parser_step_trans; [done|]. by eapply parser_step_trans. }
  destruct Htok as [(_ & _ & ->)|[? _]]; [|lia].
  destruct (Ascii.eqb_spec (deref z0) "(") as [Hopen|_].
  { assert (Hz0 : (String.length (next z0) < String.length z0)%nat).
    { apply deref_length. by rewrite Hopen. }
    eapply wp_bind;
      [apply (parse_expr_safe _ fuel); [by apply IH|lia|lia|done]|].
    intros r ast2 (Hs3 & Hadv & _).
    destruct r as [zE'|].
    - destruct (Hadv zE' eq_refl) as [Hlt Hne].
      destruct (Ascii.eqb (deref zE') ")").
      + cbn. split; [done|]. intros ? [= <-].
        pose proof (next_length zE'). split; [lia|done].
      + eapply wp_bind; [apply add_syntax_error_step, Hs3|].
        intros ? ast3 [Hs4 _]. cbn.
        split; [by eapply parser_step_trans|]. intros ? [= <-].
        split; [lia|]. by eapply nodes_app_nonempty.
    - eapply wp_bind; [apply add_syntax_error_step, Hs3|].
      intros ? ast3 [Hs4 _]. cbn.
      split; [by eapply parser_step_trans|done]. }
  destruct (Ascii.eqb_spec (deref z0) "[").
  { apply (parse_lambda_safe _ fuel); [by apply IH|lia|done|done]. }
  cbn. split; [by apply parser_step_refl|done].
Qed.

(** ** Runs of [parse] *)

(** The AST [parse] starts from, for a source that is a C string (no NUL
    inside) of less than [INT32_MAX - 8] bytes. *)
Lemma new_ast_env_ok (name src : string) :
  strlen src = String.length src →
  Z.of_nat (String.length src) + 8 ≤ INT32_MAX →
  env_ok (new_ast name src)
  ∧ nnodes_alloced (new_ast name src) = Z.of_nat (String.length src) + 8.
Proof.
  intros Hc Hmax. unfold env_ok, new_ast, nnodes.
  cbn [binding_depths current_depth zsrc zsrc_len nodes nnodes_alloced
       length].
  rewrite Hc, u32_small by (unfold INT32_MAX in Hmax; lia).
  rewrite length_replicate. unfold INT32_MAX in *. lia.
Qed.

Lemma parse_expr_run (name src : string) :
  strlen src = String.length src →
  Z.of_nat (String.length src) + 8 ≤ INT32_MAX →
  wp parser_exit (parse_expr (S (String.length src)) src (new_ast name src))
     (λ r ast, parser_step (new_ast name src) ast ∧ advances src ast r
               ∧ (r = None → error ast ≠ [])).
Proof.
  intros Hc Hmax. destruct (new_ast_env_ok name src Hc Hmax) as [Henv _].
  apply (parse_expr_safe _ (S (String.length src))); [|lia|lia|done].
  intros z ast Hz He. by apply parse_non_call_expr_safe.
Qed.

(** X1: on a C string of less than [INT32_MAX - 8] bytes [parse] returns
    an AST or takes one of three fatal exits: the node capacity, "Bad
    depth" or "Unused bytes after program source".  It never indexes
    outside [binding_depths], its recursion ends, and the other
    [DIE_IF]s and the [assert] of the parser never fire.  Each of the
    three exits is taken on some source. *)
Theorem parse_exits (name src : string) :
  strlen src = String.length src →
  Z.of_nat (String.length src) + 8 ≤ INT32_MAX →
  ((∃ ast, parse name src = Ok ast)
   ∨ parse name src = Die NodeCapacity
   ∨ parse name src = Die BadDepth
   ∨ parse name src = Die UnusedBytes)
  ∧ parse name "a1a1a1a1a1" = Die NodeCapacity
  ∧ parse name "[x]([y )y" = Die BadDepth
  ∧ parse name "x)" = Die UnusedBytes.
Proof.
  intros Hc Hmax. split; [|by vm_compute].
  pose proof (parse_expr_run name src Hc Hmax) as Hrun. unfold parse.
  destruct (parse_expr _ _ _) as [[r ast]|f| |]; cbn in Hrun; [| |done..].
  - destruct r as [zE|]; [|by left; eexists].
    destruct (Ascii.eqb (deref zE) NUL); [by left; eexists|by right; right; right].
  - destruct Hrun as [->| ->]; auto.
Qed.

Lemma parse_exits_witness :
  ((∃ ast, parse "prog" "x y" = Ok ast)
   ∨ parse "prog" "x y" = Die NodeCapacity
   ∨ parse "prog" "x y" = Die BadDepth
   ∨ parse "prog" "x y" = Die UnusedBytes)
  ∧ parse "prog" "a1a1a1a1a1" = Die NodeCapacity
  ∧ parse "prog" "[x]([y )y" = Die BadDepth
  ∧ parse "prog" "x)" = Die UnusedBytes.
Proof.
  apply (parse_exits "prog" "x y"); [reflexivity|vm_compute; discriminate].
Defined.

(** X2: the AST [parse] returns keeps the name and the source it was
    given, its capacity is the length of the source plus 8, and it holds
    at most that many nodes. *)
Theorem parse_within_capacity (name src : string) (ast : Ast) :
  strlen src = String.length src →
  Z.of_nat (String.length src) + 8 ≤ INT32_MAX →
  parse name src = Ok ast →
  zname ast = name ∧ zsrc ast = src
  ∧ zsrc_len ast = Z.of_nat (String.length src) + 8
  ∧ nnodes_alloced ast = Z.of_nat (String.length src) + 8
  ∧ nnodes ast ≤ Z.of_nat (String.length src) + 8
  ∧ length (binding_depths ast) = 26%nat.
Proof.
  intros Hc Hmax Hp.
  destruct (new_ast_env_ok name src Hc Hmax) as [_ Hcap].
  pose proof (parse_expr_run name src Hc Hmax) as Hrun. unfold parse in Hp.
  destruct (parse_expr _ _ _) as [[r ast0]|f| |]; cbn in Hrun; [|done..].
  assert (ast0 = ast) as ->.
  { destruct r as [zE|]; [|congruence].
    destruct (Ascii.eqb (deref zE) NUL); congruence. }
  destruct Hrun as ([(Henv & Hn & Hs & Hl & Ha & _) _] & _).
  destruct Henv as (Hb & _ & _ & Hnodes).
  rewrite Hn, Hs, Hl, Ha. rewrite Ha in Hnodes.
  change (zsrc_len (new_ast name src))
    with (nnodes_alloced (new_ast name src)).
  rewrite Hcap in *. cbn [new_ast zname zsrc].
  repeat split; (done || lia).
Qed.

Lemma parse_within_capacity_witness :
  ∃ ast, parse "prog" "x (y z)" = Ok ast
    ∧ zname ast = "prog" ∧ zsrc ast = "x (y z)"
    ∧ zsrc_len ast = 15 ∧ nnodes_alloced ast = 15 ∧ nnodes ast ≤ 15
    ∧ length (binding_depths ast) = 26%nat.
Proof.
  eexists. split; [vm_compute; reflexivity|].
  apply (parse_within_capacity "prog" "x (y z)");
    [reflexivity|vm_compute; discriminate|vm_compute; reflexivity].
Defined.

(** The AST and the result of [parse_expr] behind a returned [parse]. *)
Lemma parse_Ok_inv (name src : string) (ast : Ast) :
  parse name src = Ok ast →
  ∃ r, parse_expr (S (String.length src)) src (new_ast name src)
       = Ok (r, ast).
Proof.
  unfold parse. destruct (parse_expr _ _ _) as [[r ast0]|f| |]; [|done..].
  intros H. exists r. destruct r as [zE|]; [|congruence].
  destruct (Ascii.eqb (deref zE) NUL); congruence.
Qed.

(** X3: an AST that [parse] returns without a recorded syntax error is
    never empty: its nodes are the postfix layout of one expression, so
    [ast_root] and [ast_postfix] do not take their fatal exits on it. *)
Theorem clean_parse_has_root (name src : string) (ast : Ast) :
  strlen src = String.length src →
  Z.of_nat (String.length src) + 8 ≤ INT32_MAX →
  parse name src = Ok ast → report_syntax_errors ast = 0 →
  (∃ e, wf_expr e ∧ nodes ast = flatten e)
  ∧ ast_root ast = Ok (nnodes ast - 1, ast)
  ∧ ast_postfix ast = Ok (nodes ast, nnodes ast).
Proof.
  intros Hc Hmax Hp Herr.
  assert (He : error ast = []).
  { unfold report_syntax_errors in Herr. destruct (error ast); [done|].
    cbn in Herr. lia. }
  pose proof (parse_expr_run name src Hc Hmax) as Hrun.
  destruct (parse_Ok_inv _ _ _ Hp) as [r Hr]. rewrite Hr in Hrun.
  destruct Hrun as (_ & Hadv & Hnone).
  destruct r as [zE|]; [|by destruct Hnone].
  destruct (Hadv zE eq_refl) as [_ Hne].
  destruct (parse_flatten _ _ _ Hp) as [[Hnil|Htree] _]; [done|].
  split; [done|]. unfold ast_root, ast_postfix, nnodes.
  destruct (Z.eqb_spec (Z.of_nat (length (nodes ast))) 0) as [H0|]; [|done].
  destruct (nodes ast); [done|]. cbn in H0. lia.
Qed.

Lemma clean_parse_has_root_witness :
  ∃ ast, parse "prog" "f (g x)" = Ok ast
    ∧ (∃ e, wf_expr e ∧ nodes ast = flatten e)
    ∧ ast_root ast = Ok (nnodes ast - 1, ast)
    ∧ ast_postfix ast = Ok (nodes ast, nnodes ast).
Proof.
  eexists. split; [vm_compute; reflexivity|].
  apply (clean_parse_has_root "prog" "f (g x)");
    [reflexivity|vm_compute; discriminate|vm_compute; reflexivity
    |reflexivity].
Defined.

(** X4: scopes are balanced: when [parse] returns without a recorded
    syntax error every name is unbound again and [current_depth] is back
    at 0.  After a syntax error this need not hold: a lambda without a
    body leaves its name bound. *)
Theorem clean_parse_restores_bindings (name src : string) (ast : Ast) :
  strlen src = String.length src →
  Z.of_nat (String.length src) + 8 ≤ INT32_MAX →
  parse name src = Ok ast → error ast = [] →
  (binding_depths ast = replicate 26 0 ∧ current_depth ast = 0)
  ∧ ∃ ast', parse name "([x )" = Ok ast'
      ∧ binding_depths ast' !! 23%nat = Some 1 ∧ current_depth ast' = 1.
Proof.
  intros Hc Hmax Hp He. split; [|eexists; by vm_compute].
  pose proof (parse_expr_run name src Hc Hmax) as Hrun.
  destruct (parse_Ok_inv _ _ _ Hp) as [r Hr]. rewrite Hr in Hrun.
  destruct Hrun as ([_ Henv] & _). by apply Henv.
Qed.

Lemma clean_parse_restores_bindings_witness :
  ∃ ast, parse "prog" "[x][y](x y)" = Ok ast
    ∧ (binding_depths ast = replicate 26 0 ∧ current_depth ast = 0)
    ∧ ∃ ast', parse "prog" "([x )" = Ok ast'
        ∧ binding_depths ast' !! 23%nat = Some 1 ∧ current_depth ast' = 1.
Proof.
  eexists. split; [vm_compute; reflexivity|].
  apply (clean_parse_restores_bindings "prog" "[x][y](x y)");
    [reflexivity|vm_compute; discriminate|vm_compute; reflexivity
    |reflexivity].
Defined.

(** X5: what a call of [parse_non_call_expr] does to the AST: on success
    it returns a position strictly after the one it was given and has
    appended the postfix layout of exactly one expression; on failure it
    has appended no node; either way the syntax errors recorded before
    are still there, below the new ones, and the binding environment is
    changed only if an error was added. *)
Theorem parse_non_call_expr_contract (fuel : nat) (z : string)
    (ast ast' : Ast) (r : option string) :
  env_ok ast → (String.length z < fuel)%nat →
  parse_non_call_expr fuel z ast = Ok (r, ast') →
  match r with
  | Some zE => (String.length zE < String.length z)%nat
               ∧ ∃ e, wf_expr e ∧ nodes ast' = nodes ast ++ flatten e
  | None => nodes ast' = nodes ast
  end
  ∧ (∃ new, error ast' = new ++ error ast)
  ∧ (error ast' = error ast →
     binding_depths ast' = binding_depths ast
     ∧ current_depth ast' = current_depth ast).
Proof.
  intros Henv Hf Hrun.
  pose proof (parse_non_call_expr_safe fuel z ast Hf Henv) as Hwp.
  rewrite Hrun in Hwp. destruct Hwp as [[Hk Hb] Hadv].
  assert (Hcap : nnodes_alloced ast < 2 ^ 32).
  { destruct Henv as (_ & _ & _ & ?). unfold INT32_MAX in *. lia. }
  destruct (parse_non_call_expr_grows fuel z ast r ast' Hcap Hrun)
    as [_ Hg].
  split; [|split; [apply Hk|done]].
  destruct r as [zE|]; [|done].
  split; [by apply Hadv|apply Hg].
Qed.

Lemma parse_non_call_expr_contract_witness :
  ∃ ast', parse_non_call_expr 8 "(f x) y" (new_ast "prog" "(f x) y")
          = Ok (Some " y", ast')
    ∧ (String.length " y" < String.length "(f x) y")%nat
    ∧ ∃ e, wf_expr e ∧ nodes ast' = [] ++ flatten e.
Proof.
  eexists. split; [vm_compute; reflexivity|].
  pose proof (parse_non_call_expr_contract 8 "(f x) y"
                (new_ast "prog" "(f x) y")) as H.
  edestruct H as [Hr _]; [|simpl; lia|vm_compute; reflexivity|exact Hr].
  apply new_ast_env_ok; [reflexivity|vm_compute; discriminate].
Defined.

(** ** The lexers take maximal runs *)

Lemma substring_app_length (run z : string) :
  substring 0 (String.length run) (run +:+ z) = run.
Proof.
  induction run as [|c run IH]; [by destruct z|].
  cbn [String.length]. rewrite string_app_cons. cbn [substring].
  by rewrite IH.
Qed.

Lemma span_app (run z : string) : span (run +:+ z) z = run.
Proof.
  unfold span. rewrite string_length_app.
  replace (String.length run + String.length z - String.length z)%nat
    with (String.length run) by lia.
  apply substring_app_length.
Qed.

Lemma skip_letters_run (z : string) :
  ∃ run, z = run +:+ skip_letters z
    ∧ (∀ c, c ∈ list_ascii_of_string run → idx_from_letter c < 26)
    ∧ 26 ≤ idx_from_letter (deref (skip_letters z)).
Proof.
  induction z as [|c z (run & Hrun & Hall & Hstop)].
  { exists EmptyString. split; [done|]. split; [|by vm_compute].
    intros c H. by apply elem_of_nil in H. }
  cbn [skip_letters]. destruct (Z.ltb_spec (idx_from_letter c) 26).
  - exists (String c run).
    split; [rewrite string_app_cons; by f_equal|]. split; [|done].
    intros c' [->|H']%elem_of_cons; [done|by apply Hall].
  - exists EmptyString. split; [done|]. split; [|done].
    intros c' H'. by apply elem_of_nil in H'.
Qed.

Lemma skip_digits_run (z : string) :
  ∃ run, z = run +:+ skip_digits z
    ∧ (∀ c, c ∈ list_ascii_of_string run → idx_from_digit c < 10)
    ∧ 10 ≤ idx_from_digit (deref (skip_digits z)).
Proof.
  induction z as [|c z (run & Hrun & Hall & Hstop)].
  { exists EmptyString. split; [done|]. split; [|by vm_compute].
    intros c H. by apply elem_of_nil in H. }
  cbn [skip_digits]. destruct (Z.ltb_spec (idx_from_digit c) 10).
  - exists (String c run).
    split; [rewrite string_app_cons; by f_equal|]. split; [|done].
    intros c' [->|H']%elem_of_cons; [done|by apply Hall].
  - exists EmptyString. split; [done|]. split; [|done].
    intros c' H'. by apply elem_of_nil in H'.
Qed.

(** X6: [lex_varname] consumes the maximal run of lowercase letters at
    its start and [lex_int] the maximal run of digits.  An empty run
    gives the token -1 and changes nothing; otherwise the token is the
    value of the first byte of the run, and a run of two or more bytes
    adds one syntax error, located at the start of the run and quoting
    it, while lexing still succeeds.  No node is stored. *)
Theorem lexers_take_maximal_runs (z0 : string) (ast : Ast) :
  env_ok ast →
  (∃ run z ast',
     lex_varname z0 ast
     = Ok ((if bool_decide (run = EmptyString) then -1
            else idx_from_letter (deref z0), z), ast')
     ∧ z0 = run +:+ z
     ∧ (∀ c, c ∈ list_ascii_of_string run → idx_from_letter c < 26)
     ∧ 26 ≤ idx_from_letter (deref z)
     ∧ ast' = (if (2 <=? String.length run)%nat
               then set_error ast
                      (mkSyntaxError (src_offset ast z0)
                         ("Multi-byte varnames aren't allowed.  '"
                          +:+ run +:+ "'") :: error ast)
               else ast))
  ∧ (∃ run z ast',
       lex_int z0 ast
       = Ok ((if bool_decide (run = EmptyString) then -1
              else idx_from_digit (deref z0), z), ast')
       ∧ z0 = run +:+ z
       ∧ (∀ c, c ∈ list_ascii_of_string run → idx_from_digit c < 10)
       ∧ 10 ≤ idx_from_digit (deref z)
       ∧ ast' = (if (2 <=? String.length run)%nat
                 then set_error ast
                        (mkSyntaxError (src_offset ast z0)
                           ("Multi-digit nums aren't allowed.  '"
                            +:+ run +:+ "'") :: error ast)
                 else ast)).
Proof.
  intros Henv.
  assert (Hoff : src_offset ast z0 ≤ zsrc_len ast).
  { destruct Henv as (_ & _ & ? & _). unfold src_offset. lia. }
  split.
  - unfold lex_varname.
    destruct (Z.leb_spec 26 (idx_from_letter (deref z0))) as [Hno|Hyes].
    { exists EmptyString, z0, ast. cbn. repeat split; [|done].
      intros c H. by apply elem_of_nil in H. }
    destruct z0 as [|c0 z1]; [by vm_compute in Hyes|]. cbn [deref next] in *.
    destruct (skip_letters_run z1) as (run & Hrun & Hall & Hstop).
    assert (Hall' : ∀ c, c ∈ list_ascii_of_string (String c0 run) →
                         idx_from_letter c < 26).
    { intros c [->|H']%elem_of_cons; [done|by apply Hall]. }
    destruct (Z.leb_spec 26 (idx_from_letter (deref z1))) as [Hone|Hmore].
    + assert (run = EmptyString) as ->.
      { destruct run as [|c run]; [done|]. rewrite Hrun in Hone.
        rewrite string_app_cons in Hone. cbn [deref] in Hone.
        assert (Hc : c ∈ list_ascii_of_string (String c run))
          by (cbn; constructor).
        specialize (Hall c Hc). exfalso. lia. }
      exists (String c0 EmptyString), z1, ast. cbn.
      split; [done|]. split; [done|]. split; [done|]. by split.
    + destruct z1 as [|c1 z2]; [by vm_compute in Hmore|].
      destruct run as [|c1' run].
      { exfalso. change (EmptyString +:+ ?x) with x in Hrun.
        rewrite <- Hrun in Hstop. lia. }
      unfold bind. rewrite add_syntax_error_ok by done.
      unfold ret.
      assert (Hspan : span (String c0 (String c1 z2))
                           (skip_letters (String c1 z2))
                      = String c0 (String c1' run)).
      { replace (String c0 (String c1 z2))
          with (String c0 (String c1' run) +:+ skip_letters (String c1 z2))
          by (rewrite string_app_cons; f_equal; by rewrite <- Hrun).
        apply span_app. }
      rewrite Hspan.
      exists (String c0 (String c1' run)), (skip_letters (String c1 z2)).
      eexists. split; [reflexivity|].
      split; [rewrite string_app_cons; f_equal; exact Hrun|].
      split; [done|]. by split.
  - unfold lex_int.
    destruct (Z.leb_spec 10 (idx_from_digit (deref z0))) as [Hno|Hyes].
    { exists EmptyString, z0, ast. cbn. repeat split; [|done].
      intros c H. by apply elem_of_nil in H. }
    destruct z0 as [|c0 z1]; [by vm_compute in Hyes|]. cbn [deref next] in *.
    destruct (skip_digits_run z1) as (run & Hrun & Hall & Hstop).
    assert (Hall' : ∀ c, c ∈ list_ascii_of_string (String c0 run) →
                         idx_from_digit c < 10).
    { intros c [->|H']%elem_of_cons; [done|by apply Hall]. }
    destruct (Z.leb_spec 10 (idx_from_digit (deref z1))) as [Hone|Hmore].
    + assert (run = EmptyString) as ->.
      { destruct run as [|c run]; [done|]. rewrite Hrun in Hone.
        rewrite string_app_cons in Hone. cbn [deref] in Hone.
        assert (Hc : c ∈ list_ascii_of_string (String c run))
          by (cbn; constructor).
        specialize (Hall c Hc). exfalso. lia. }
      exists (String c0 EmptyString), z1, ast. cbn.
      split; [done|]. split; [done|]. split; [done|]. by split.
    + destruct z1 as [|c1 z2]; [by vm_compute in Hmore|].
      destruct run as [|c1' run].
      { exfalso. change (EmptyString +:+ ?x) with x in Hrun.
        rewrite <- Hrun in Hstop. lia. }
      unfold bind. rewrite add_syntax_error_ok by done.
      unfold ret.
      assert (Hspan : span (String c0 (String c1 z2))
                           (skip_digits (String c1 z2))
                      = String c0 (String c1' run)).
      { replace (String c0 (String c1 z2))
          with (String c0 (String c1' run) +:+ skip_digits (String c1 z2))
          by (rewrite string_app_cons; f_equal; by rewrite <- Hrun).
        apply span_app. }
      rewrite Hspan.
      exists (String c0 (String c1' run)), (skip_digits (String c1 z2)).
      eexists. split; [reflexivity|].
      split; [rewrite string_app_cons; f_equal; exact Hrun|].
      split; [done|]. by split.
Qed.

Lemma lexers_take_maximal_runs_witness :
  ∃ run z ast',
    lex_varname "ab c" (new_ast "prog" "ab c")
    = Ok ((if bool_decide (run = EmptyString) then -1
           else idx_from_letter (deref "ab c"), z), ast')
    ∧ "ab c" = run +:+ z
    ∧ (∀ c, c ∈ list_ascii_of_string run → idx_from_letter c < 26)
    ∧ 26 ≤ idx_from_letter (deref z)
    ∧ ast' = (if (2 <=? String.length run)%nat
              then set_error (new_ast "prog" "ab c")
                     (mkSyntaxError (src_offset (new_ast "prog" "ab c") "ab c")
                        ("Multi-byte varnames aren't allowed.  '"
                         +:+ run +:+ "'") :: error (new_ast "prog" "ab c"))
              else new_ast "prog" "ab c").
Proof.
  destruct (lexers_take_maximal_runs "ab c" (new_ast "prog" "ab c"))
    as [H _]; [|exact H].
  apply new_ast_env_ok; [reflexivity|vm_compute; discriminate].
Defined.

(** ** White space *)

Lemma is_white_bytes (c : ascii) :
  is_white c = true
  ↔ c = " "%char ∨ c = "009"%char ∨ c = "010"%char.
Proof.
  unfold is_white. rewrite !orb_true_iff, !Ascii.eqb_eq. tauto.
Qed.

(** X7: [eat_white] strips exactly the leading spaces, tabs and newlines:
    the text it is given is a run of the bytes 32, 9 and 10 followed by
    what it returns, and what it returns starts with none of these three.
    Any other first byte stops it where it stands: the terminating NUL,
    and also a carriage return or a form feed, which are not skipped.
    Applying it twice changes nothing further. *)
Theorem eat_white_strips (z : string) :
  (∃ ws, z = ws +:+ eat_white z
     ∧ Forall (λ c, c = " "%char ∨ c = "009"%char ∨ c = "010"%char)
              (list_ascii_of_string ws))
  ∧ deref (eat_white z) ≠ " "%char
  ∧ deref (eat_white z) ≠ "009"%char
  ∧ deref (eat_white z) ≠ "010"%char
  ∧ eat_white (eat_white z) = eat_white z
  ∧ (deref z ≠ " "%char ∧ deref z ≠ "009"%char ∧ deref z ≠ "010"%char
     ↔ eat_white z = z)
  ∧ eat_white (String " " (String "009" (String "010" z))) = eat_white z
  ∧ eat_white (String "013" z) = String "013" z
  ∧ eat_white (String "012" z) = String "012" z
  ∧ eat_white (String NUL z) = String NUL z.
Proof.
  assert (Hhead : is_white (deref (eat_white z)) = false).
  { induction z as [|c z IH]; [done|].
    cbn [eat_white]. by destruct (is_white c) eqn:Hc. }
  assert (Hnot : ∀ c, is_white c = false
                      ↔ c ≠ " "%char ∧ c ≠ "009"%char ∧ c ≠ "010"%char).
  { intros c. rewrite <- not_true_iff_false, is_white_bytes. tauto. }
  split; [|split; [|split; [|split; [|split; [|split]]]]].
  - clear Hhead. induction z as [|c z (ws & Hws & Hall)].
    { exists EmptyString. split; [done|]. constructor. }
    cbn [eat_white]. destruct (is_white c) eqn:Hc.
    + exists (String c ws). rewrite string_app_cons.
      split; [by f_equal|]. cbn. constructor; [|done].
      by apply is_white_bytes.
    + exists EmptyString. split; [done|]. constructor.
  - by apply Hnot in Hhead as (? & _).
  - by apply Hnot in Hhead as (_ & ? & _).
  - by apply Hnot in Hhead as (_ & _ & ?).
  - destruct z as [|c z]; [done|]. cbn [eat_white].
    destruct (is_white c) eqn:Hc.
    + clear Hhead. induction z as [|c' z IH]; [done|].
      cbn [eat_white]. destruct (is_white c') eqn:Hc'; [done|].
      cbn [eat_white]. by rewrite Hc'.
    + cbn [eat_white]. by rewrite Hc.
  - rewrite <- Hnot. destruct z as [|c z]; [done|]. cbn [deref eat_white].
    destruct (is_white c) eqn:Hc; [|done]. split; [done|].
    intros Heq. exfalso.
    assert (Hlen : ∀ y, (String.length (eat_white y) ≤ String.length y)%nat).
    { clear. induction y as [|c' y IH]; [done|]. cbn [eat_white].
      destruct (is_white c'); cbn [String.length] in *; lia. }
    specialize (Hlen z). rewrite Heq in Hlen. cbn [String.length] in Hlen. lia.
  - done.
Qed.

(** * Further properties of the unifier *)

(** ** Application-only programs are typed *)

(** In a parsed tree whose nodes [ast_unpack] all decodes, every variable
    is a letter. *)
Lemma unpackable_tokens (e : expr) :
  wf_expr e → Forall (λ n, unpackable n = true) (flatten e) →
  Forall (λ n, ∀ t, n = Var t → 0 ≤ t < 26) (flatten e).
Proof.
  induction e as [t|d|b IHb t|f IHf a IHa]; cbn [flatten wf_expr].
  - intros Ht _. constructor; [|done]. by intros ? [= <-].
  - intros _ H. by apply Forall_cons in H as [? _].
  - intros _ H. apply Forall_app in H as [_ H].
    apply Forall_cons in H as [_ H]. by apply Forall_cons in H as [? _].
  - intros (Hf & Ha & _) H.
    apply Forall_app in H as [H1 H]. apply Forall_app in H as [H2 _].
    apply Forall_app. split; [by apply IHf|].
    apply Forall_app. split; [by apply IHa|].
    constructor; [|done]. by intros ? [=].
Qed.

Lemma solve_types_step_no_die (e : expr) (k : nat) (ttree : TypeTree)
    (n : AstNode) (f : Fatal) :
  wf_expr e → postfix ttree = flatten e →
  Z.of_nat (length (flatten e)) < 2 ^ 32 →
  tree_inv k ttree → (k < length (flatten e))%nat →
  flatten e !! k = Some n → unpackable n = true →
  (∀ t, n = Var t → 0 ≤ t < 26) →
  solve_types_step (Z.of_nat k) ttree ≠ Die f.
Proof.
  intros Hwf Hpost Hmax (Hinv & Hlen & Hbl & Hbind) Hk Hn Hun Htok.
  unfold solve_types_step, bind, get. rewrite Hpost.
  destruct n as [t|s|d|]; [| |done..].
  - rewrite (ast_unpack_Var _ _ t) by (rewrite ?Nat2Z.id; first [lia|done]).
    specialize (Htok t eq_refl).
    unfold MAX_TOKS. destruct (Z.ltb_spec 26 t); [lia|].
    rewrite DIE_IF_false. unfold read_type_binding.
    destruct (bindings ttree !! Z.to_nat t) as [[first|]|]; [| |done].
    + unfold on_types, read_slot. destruct (types ttree !! first); [|done].
      unfold write_slot. cbn [types]. by destruct (_ <? _)%nat.
    + unfold write_type_binding. by destruct (_ <? _).
  - rewrite (ast_unpack_Call _ _ s) by (rewrite ?Nat2Z.id; first [lia|done]).
    destruct (flatten_layout e) as (_ & Hcall & _).
    destruct (Hcall (Z.of_nat k) s) as (Hs & _);
      [lia|by rewrite Nat2Z.id|].
    rewrite u32_small by lia.
    destruct (coerce_to_fun_type_spec (S k) (flatten e) (types ttree)
                (Z.of_nat k - s - 1) (Z.of_nat k))
      as (ts' & Hc & _);
      [by apply slots_inv_next; [|rewrite Hlen, Hpost]|lia|lia|lia|].
    by rewrite (on_types_Ok _ _ tt ts').
Qed.

Lemma solve_types_from_typed (e : expr) (n k : nat) (ttree : TypeTree) :
  wf_expr e → postfix ttree = flatten e →
  Z.of_nat (length (flatten e)) < 2 ^ 32 →
  Forall (λ n, unpackable n = true) (flatten e) →
  tree_inv k ttree → (k + n = length (flatten e))%nat →
  ∃ ttree', solve_types_from n (Z.of_nat k) ttree = Ok (tt, ttree')
    ∧ tree_inv (k + n) ttree' ∧ postfix ttree' = flatten e
    ∧ size ttree' = size ttree.
Proof.
  intros Hwf Hpost Hmax Hall Hinv Hkn.
  destruct (solve_types_from_spec e n k ttree Hwf Hpost Hmax Hinv Hkn)
    as [(ttree' & Hrun & Hinv' & Hpost' & Hsz & _)|Hdie]; [by eauto|].
  exfalso. pose proof (unpackable_tokens e Hwf Hall) as Htok.
  clear Hkn. revert k ttree Hpost Hinv Hdie.
  induction n as [|n IH]; intros k ttree Hpost Hinv Hdie.
  { by destruct Hdie. }
  cbn [solve_types_from] in Hdie. unfold bind in Hdie.
  destruct (decide (k < length (flatten e))%nat) as [Hk|Hk].
  2:{ (* past the last node *)
      unfold solve_types_step, bind, get in Hdie. rewrite Hpost in Hdie.
      unfold ast_unpack in Hdie.
      destruct (Z.ltb_spec (Z.of_nat k) 0); [lia|].
      rewrite Nat2Z.id, lookup_ge_None_2 in Hdie by lia.
      by destruct Hdie. }
  destruct (lookup_lt_is_Some_2 (flatten e) k Hk) as [x Hx].
  pose proof (proj1 (Forall_lookup _ _) Hall k x Hx) as Hux.
  pose proof (proj1 (Forall_lookup _ _) Htok k x Hx) as Htx.
  destruct (solve_types_step_spec e k ttree Hwf Hpost Hmax Hinv Hk)
    as [(_ & _ & _ & ttree' & Hstep & Hinv' & Hpost' & _)|[Hd|Hd]].
  - rewrite Hstep in Hdie.
    replace (Z.of_nat k + 1) with (Z.of_nat (S k)) in Hdie by lia.
    apply (IH (S k) ttree'); [congruence|done|done].
  - by eapply solve_types_step_no_die.
  - by eapply solve_types_step_no_die.
Qed.

Lemma build_type_tree_typed (e : expr) (ast : Ast) :
  wf_expr e → nodes ast = flatten e →
  Z.of_nat (length (flatten e)) < 2 ^ 32 →
  Forall (λ n, unpackable n = true) (flatten e) →
  ∃ ttree, build_type_tree ast = Ok ttree
    ∧ tree_inv (length (flatten e)) ttree
    ∧ postfix ttree = flatten e
    ∧ size ttree = Z.of_nat (length (flatten e)).
Proof.
  intros Hwf He Hmax Hall.
  unfold build_type_tree, ast_postfix, nnodes.
  pose proof (flatten_nonempty e) as Hpos. rewrite He.
  destruct (Z.eqb_spec (Z.of_nat (length (flatten e))) 0); [lia|].
  cbn [obind]. unfold solve_types, bind, get. cbn [size].
  rewrite Nat2Z.id.
  destruct (solve_types_from_typed e (length (flatten e)) 0
              (mkTypeTree (flatten e) (Z.of_nat (length (flatten e)))
                 (replicate (Z.to_nat MAX_TOKS) None)
                 (imap (λ k _, mkType k None None) (flatten e)))
              Hwf eq_refl Hmax Hall (initial_tree_inv _ _) eq_refl)
    as (ttree' & Hrun & Hinv & Hpost & Hsz).
  change (Z.of_nat 0) with 0 in Hrun. rewrite Hrun. by exists ttree'.
Qed.

(** X8: type inference accepts every application-only program: on a
    parsed program that is not empty and whose nodes are all variables
    and calls, [build_type_tree] returns, with one type slot per node,
    and [act_type] takes no fatal exit: it prints, unless the printer's
    stack overflows.  There is no occurs check: self-application is
    typed too. *)
Theorem application_programs_are_typed (name src out : string) (ast : Ast) :
  parse name src = Ok ast → nodes ast ≠ [] →
  Forall (λ n, unpackable n = true) (nodes ast) →
  (∃ ttree, build_type_tree ast = Ok ttree
     ∧ postfix ttree = nodes ast ∧ size ttree = nnodes ast
     ∧ length (types ttree) = length (nodes ast))
  ∧ ((∃ s, act_type out ast = Ok s)
     ∨ act_type out ast = Undefined StackIndex).
Proof.
  intros Hp Hne Hall.
  destruct (parse_flatten _ _ _ Hp) as [[Hnil|(e & Hwf & He)] Hmax]; [done|].
  rewrite He in Hall, Hmax.
  destruct (build_type_tree_typed e ast Hwf He Hmax Hall)
    as (ttree & Hb & (Hinv & Hlen & _) & Hpost & Hsz).
  split.
  - exists ttree. unfold nnodes. rewrite He. repeat split; congruence.
  - unfold act_type. rewrite Hb. cbn [obind]. rewrite Hsz, Nat2Z.id.
    apply (act_type_from_total e); [done|done|done|congruence|done|lia].
Qed.

Lemma application_programs_are_typed_witness :
  ∃ ast, parse "prog" "x x" = Ok ast
    ∧ (∃ ttree, build_type_tree ast = Ok ttree
         ∧ postfix ttree = nodes ast ∧ size ttree = nnodes ast
         ∧ length (types ttree) = length (nodes ast))
    ∧ ((∃ s, act_type EmptyString ast = Ok s)
       ∨ act_type EmptyString ast = Undefined StackIndex).
Proof.
  eexists. split; [vm_compute; reflexivity|].
  apply (application_programs_are_typed "prog" "x x");
    [vm_compute; reflexivity|discriminate|repeat constructor].
Defined.

(** ** [masterise]: find with path compression *)

Lemma pmasterise_direct (fuel : nat) (ts ts' : list Type_) (i r : nat) :
  pmasterise fuel i ts = Ok (r, ts') →
  ∃ t', ts' !! i = Some t' ∧ master_t t' = r.
Proof.
  destruct fuel as [|fuel]; [done|]. cbn [pmasterise]. intros H.
  bind_inv H as t ts0 Hread.
  unfold read_slot in Hread. destruct (ts !! i) as [t0|] eqn:Ht; [|done].
  injection Hread as <- <-.
  destruct (Nat.eqb_spec (master_t t0) i) as [Hm|Hm].
  { injection H as <- <-. by exists t0. }
  bind_inv H as r' ts1 Hrec. bind_inv H as u ts2 Hw.
  injection H as <- <-. unfold write_master in Hw.
  bind_inv Hw as t1 ts1' Hread1.
  unfold read_slot in Hread1. destruct (ts1 !! i) as [t1'|] eqn:Ht1; [|done].
  injection Hread1 as <- <-. unfold write_slot in Hw.
  destruct (Nat.ltb_spec i (length ts1)); [|done]. injection Hw as _ <-.
  eexists. split; [by apply list_lookup_insert_eq|done].
Qed.

(** X9: [masterise] returns the representative of the slot it is given.
    Its path compression keeps every slot in its class, with a chain
    that is no longer than before, keeps the function structure of every
    slot, and leaves the slot it was given pointing directly at the
    representative; a second call returns the same representative and
    changes nothing. *)
Theorem masterise_compresses (K : nat) (ts : list Type_) (i : nat) :
  masters_ok K ts → wf_masters ts → (i < K)%nat →
  ∃ r ts', masterise i ts = Ok (r, ts')
    ∧ (∃ h, reach ts i r h)
    ∧ length ts' = length ts
    ∧ (∀ j m h, reach ts j m h → ∃ h', (h' ≤ h)%nat ∧ reach ts' j m h')
    ∧ (∀ j t, ts !! j = Some t →
         ∃ t', ts' !! j = Some t'
               ∧ arg_t t' = arg_t t ∧ ret_t t' = ret_t t)
    ∧ (∃ t', ts' !! i = Some t' ∧ master_t t' = r)
    ∧ masterise i ts' = Ok (r, ts').
Proof.
  intros Hok Hwf Hi.
  destruct (masterise_spec K ts i Hok Hwf Hi)
    as (r & ts' & tr & Hm & Hc & Hok' & Hwf' & Hr & Htr & Htr' & Hmr & Hreach).
  exists r, ts'. split; [done|]. split; [done|].
  destruct Hc as (Hlen & _ & Hfld & _ & Hkeep).
  split; [done|]. split; [done|]. split; [done|].
  destruct (pmasterise_direct _ _ _ _ _ Hm) as (t' & Ht' & Hmt').
  split; [by exists t'|].
  unfold masterise. cbn [pmasterise]. unfold bind at 1.
  rewrite (read_slot_ok _ _ _ Ht'), Hmt'.
  destruct (Nat.eqb_spec r i) as [->|Hne]; [done|].
  assert (Hpos : (0 < length ts')%nat) by (apply lookup_lt_Some in Ht'; lia).
  destruct (length ts') as [|n] eqn:Hn; [lia|].
  cbn [pmasterise]. unfold bind at 1. unfold bind at 1.
  rewrite (read_slot_ok _ _ _ Htr'), Hmr, Nat.eqb_refl. cbn [ret].
  unfold bind at 1, write_master. unfold bind at 1.
  rewrite (read_slot_ok _ _ _ Ht').
  rewrite write_slot_ok by (by apply lookup_lt_Some in Ht').
  cbn [ret]. rewrite <- Hmt', type_eta. by rewrite list_insert_id.
Qed.

Lemma masterise_compresses_witness :
  let ts := [mkType 0 None None; mkType 0 None None; mkType 1 None None] in
  ∃ r ts', masterise 2 ts = Ok (r, ts')
    ∧ (∃ h, reach ts 2 r h)
    ∧ length ts' = length ts
    ∧ (∀ j m h, reach ts j m h → ∃ h', (h' ≤ h)%nat ∧ reach ts' j m h')
    ∧ (∀ j t, ts !! j = Some t →
         ∃ t', ts' !! j = Some t'
               ∧ arg_t t' = arg_t t ∧ ret_t t' = ret_t t)
    ∧ (∃ t', ts' !! 2%nat = Some t' ∧ master_t t' = r)
    ∧ masterise 2 ts' = Ok (r, ts').
Proof.
  apply (masterise_compresses 3).
  - split; [simpl; lia|]. split.
    + intros [|[|[|i]]] t Ht Hi; simpl in Ht; try lia;
        injection Ht as <-; simpl; lia.
    + intros j Hj Hl. simpl in Hl. lia.
  - intros [|[|[|i]]] Hi; simpl in Hi; try lia.
    + exists 0%nat, 0%nat. split; [by eapply reach_root|vm_compute; lia].
    + exists 0%nat, 1%nat. split; [|vm_compute; lia].
      eapply reach_step; [reflexivity|done|]. by eapply reach_root.
    + exists 0%nat, 2%nat. split; [|vm_compute; lia].
      eapply reach_step; [reflexivity|done|].
      eapply reach_step; [reflexivity|done|]. by eapply reach_root.
  - lia.
Defined.

(** ** Classes and function types *)

Lemma same_class_sym (ts : list Type_) (i j : nat) :
  same_class ts i j → same_class ts j i.
Proof. intros (r & h & h' & ? & ?). by exists r, h', h. Qed.

Lemma same_class_trans (ts : list Type_) (i j k : nat) :
  same_class ts i j → same_class ts j k → same_class ts i k.
Proof.
  intros (r & h & h' & Hi & Hj) (r' & h1 & h2 & Hj' & Hk).
  destruct (reach_det _ _ _ _ _ _ Hj Hj') as [-> _]. by exists r', h, h2.
Qed.

Lemma same_class_reach (ts : list Type_) (i r h : nat) :
  reach ts i r h → same_class ts i r ∧ same_class ts i i.
Proof.
  intros H. split; [|by exists r, h, h].
  exists r, h, O. split; [done|]. by eapply reach_root_zero.
Qed.

Lemma same_class_wf (ts : list Type_) (i : nat) :
  wf_masters ts → (i < length ts)%nat → same_class ts i i.
Proof.
  intros Hwf Hi. destruct (Hwf i Hi) as (r & h & Hr & _).
  by eapply same_class_reach.
Qed.

Lemma fun_type_proper (ts : list Type_) (i i' a a' r r' : nat) :
  same_class ts i i' → same_class ts a a' → same_class ts r r' →
  fun_type ts i a r → fun_type ts i' a' r'.
Proof.
  intros (m & h & h' & Hi & Hi') Ha Hr
         (m0 & h0 & t & A & R & Hi0 & Ht & HA & HR & HAa & HRr).
  destruct (reach_det _ _ _ _ _ _ Hi Hi0) as [-> _].
  exists m0, h', t, A, R. split; [done|]. do 3 (split; [done|]).
  split; by eapply same_class_trans.
Qed.

Lemma refines_refl (ts : list Type_) : refines ts ts.
Proof. by split. Qed.

Lemma refines_trans (ts1 ts2 ts3 : list Type_) :
  refines ts1 ts2 → refines ts2 ts3 → refines ts1 ts3.
Proof. intros [H1 F1] [H2 F2]. split; eauto. Qed.

(** The step from a state to a later one, for function types: when the
    representative of a class and its structure survive and classes
    only merge, so do the function types of the class. *)
Lemma fun_type_step (ts ts' : list Type_) (i a r : nat) :
  (∀ x y, same_class ts x y → same_class ts' x y) →
  (∀ m h t, reach ts i m h → ts !! m = Some t →
     ∃ h', reach ts' i m h' ∧ ts' !! m = Some t) →
  fun_type ts i a r → fun_type ts' i a r.
Proof.
  intros Hm Hkeep (m & h & t & A & R & Hi & Ht & HA & HR & HAa & HRr).
  destruct (Hkeep m h t Hi Ht) as (h' & Hi' & Ht').
  exists m, h', t, A, R. split; [done|]. do 3 (split; [done|]).
  split; by apply Hm.
Qed.

Lemma compresses_refines (ts ts' : list Type_) :
  compresses ts ts' → refines ts ts'.
Proof.
  intros (_ & _ & _ & Hroot & Hreach).
  assert (Hm : ∀ x y, same_class ts x y → same_class ts' x y).
  { intros x y (r & h & h' & Hx & Hy).
    destruct (Hreach _ _ _ Hx) as (h1 & _ & Hx').
    destruct (Hreach _ _ _ Hy) as (h2 & _ & Hy'). by exists r, h1, h2. }
  split; [done|]. intros i a r. apply fun_type_step; [done|].
  intros m h t Hi Ht. destruct (Hreach _ _ _ Hi) as (h' & _ & Hi').
  exists h'. split; [done|]. apply Hroot; [done|].
  destruct (reach_is_root _ _ _ _ Hi) as (t0 & Ht0 & Hm0). congruence.
Qed.

(** A store that keeps the master of the slot, and its structure if it
    had one. *)
Lemma insert_refines (ts : list Type_) (k : nat) (t t' : Type_) :
  ts !! k = Some t → master_t t' = master_t t →
  (∀ A R, arg_t t = Some A → ret_t t = Some R →
          arg_t t' = Some A ∧ ret_t t' = Some R) →
  refines ts (<[k := t']> ts).
Proof.
  intros Ht Hmaster Hstruct.
  assert (Hm : ∀ x y, same_class ts x y → same_class (<[k := t']> ts) x y).
  { intros x y (r & h & h' & Hx & Hy).
    exists r, h, h'. split; by apply (reach_insert_same _ _ t). }
  split; [done|].
  intros i a r (m & h & t0 & A & R & Hi & Ht0 & HA & HR & HAa & HRr).
  destruct (decide (m = k)) as [->|Hne].
  - rewrite Ht in Ht0. injection Ht0 as <-.
    destruct (Hstruct A R HA HR) as [HA' HR'].
    exists k, h, t', A, R. split; [by apply (reach_insert_same _ _ t)|].
    split; [apply list_lookup_insert_eq; by apply lookup_lt_Some in Ht|].
    do 2 (split; [done|]). split; by apply Hm.
  - exists m, h, t0, A, R. split; [by apply (reach_insert_same _ _ t)|].
    split; [by rewrite list_lookup_insert_ne|].
    do 2 (split; [done|]). split; by apply Hm.
Qed.

(** Redirecting the representative [k] to a slot of another class:
    classes merge, [k] joins the class of [m], and the function types of
    the other classes stay. *)
Lemma link_classes (ts : list Type_) (k m r hm : nat) (tk t' : Type_) :
  ts !! k = Some tk → master_t tk = k → master_t t' = m → m ≠ k →
  reach ts m r hm → r ≠ k →
  (∀ x y, same_class ts x y → same_class (<[k := t']> ts) x y)
  ∧ same_class (<[k := t']> ts) k m
  ∧ (∀ i a b m0 h, reach ts i m0 h → m0 ≠ k →
       fun_type ts i a b → fun_type (<[k := t']> ts) i a b).
Proof.
  intros Hk Hroot Hm Hmk Hr Hrk.
  destruct (link_reach ts k m r hm tk t' Hk Hroot Hm Hmk Hr Hrk)
    as (Hother & Hjoin & _).
  assert (Hmerge : ∀ x y, same_class ts x y →
                          same_class (<[k := t']> ts) x y).
  { intros x y (r0 & h & h' & Hx & Hy).
    destruct (decide (r0 = k)) as [->|Hne].
    - exists r, (h + S hm)%nat, (h' + S hm)%nat. split; by apply Hjoin.
    - exists r0, h, h'. split; by apply Hother. }
  split; [done|]. split.
  - exists r, (0 + S hm)%nat, hm. split.
    + apply Hjoin. by apply (reach_root _ _ tk).
    + by apply Hother.
  - intros i a b m0 h Hi Hne. apply fun_type_step; [done|].
    intros m1 h1 t1 Hi1 Ht1.
    destruct (reach_det _ _ _ _ _ _ Hi Hi1) as [<- <-].
    exists h. split; [by apply Hother|]. by rewrite list_lookup_insert_ne.
Qed.

(** Redirecting a representative, then refining: the redirected class
    keeps its function type when the class it joined ends up with it. *)
Lemma link_then_refines (ts2 ts3 tsF : list Type_) (mb ma : nat)
    (tb : Type_) :
  (∀ x y, same_class ts2 x y → same_class ts3 x y) →
  (∀ i a b m0 h, reach ts2 i m0 h → m0 ≠ mb →
     fun_type ts2 i a b → fun_type ts3 i a b) →
  refines ts3 tsF →
  ts2 !! mb = Some tb → same_class ts3 mb ma →
  (∀ A R, arg_t tb = Some A → ret_t tb = Some R → fun_type tsF ma A R) →
  refines ts2 tsF.
Proof.
  intros Hm Hother [HmF HfF] Htb Hjoin Hfun.
  split; [by eauto|].
  intros i a r Hf.
  destruct Hf as (m0 & h & t & A & R & Hi & Ht & HA & HR & HAa & HRr).
  destruct (decide (m0 = mb)) as [->|Hne].
  - rewrite Htb in Ht. injection Ht as <-.
    apply (fun_type_proper tsF ma i A a R r).
    + apply same_class_sym, HmF.
      apply (same_class_trans _ _ mb); [|done].
      apply Hm. by apply (same_class_reach ts2 i mb h).
    + by apply HmF, Hm.
    + by apply HmF, Hm.
    + by apply Hfun.
  - apply HfF, (Hother i a r m0 h); [done|done|].
    by exists m0, h, t, A, R.
Qed.

(** A representative with both fields set is a function type. *)
Lemma fun_type_root (K : nat) (ts : list Type_) (m A R : nat) (t : Type_) :
  wf_masters ts → (K ≤ length ts)%nat →
  ts !! m = Some t → master_t t = m →
  arg_t t = Some A → ret_t t = Some R → (A < K)%nat → (R < K)%nat →
  fun_type ts m A R.
Proof.
  intros Hwf HK Ht Hm HA HR HAK HRK.
  exists m, O, t, A, R. split; [by apply (reach_root _ _ t)|].
  do 3 (split; [done|]). split; apply same_class_wf; (done || lia).
Qed.

(** ** [unify] merges classes and keeps function types *)

Lemma unify_refines (K fuel : nat) (ts : list Type_) (ia ib : nat) :
  slots_inv K ts → (ia < K)%nat → (ib < K)%nat → (roots ts < fuel)%nat →
  ∃ ts', unify fuel ia ib ts = Ok (tt, ts')
    ∧ slots_inv K ts' ∧ length ts' = length ts
    ∧ (roots ts' ≤ roots ts)%nat
    ∧ refines ts ts' ∧ same_class ts' ia ib.
Proof.
  revert ts ia ib. induction fuel as [|fuel IH];
    intros ts ia ib Hinv Hia Hib Hfuel; [lia|].
  cbn [unify]. destruct (Nat.eqb_spec ia ib) as [->|Hne].
  { exists ts. split; [done|]. split; [done|]. split; [done|].
    split; [lia|]. split; [apply refines_refl|].
    destruct Hinv as ((HK & _) & _ & Hwf). apply same_class_wf; [done|lia]. }
  destruct Hinv as (Hok & Hfld & Hwf).
  assert (HK : (K ≤ length ts)%nat) by apply Hok.
  destruct (masterise_spec K ts ia Hok Hwf Hia)
    as (ma & ts1 & ta & Hm1 & Hc1 & Hok1 & Hwf1 & Hma & _ & Hta1 & Hmta
        & ha & Hria).
  unfold bind at 1. rewrite Hm1.
  destruct (masterise_spec K ts1 ib Hok1 Hwf1 Hib)
    as (mb & ts2 & tb & Hm2 & Hc2 & Hok2 & Hwf2 & Hmb & _ & Htb2 & Hmtb
        & hb & Hrib).
  unfold bind at 1. rewrite Hm2.
  assert (Hta2 : ts2 !! ma = Some ta) by (by apply Hc2).
  unfold bind at 1. rewrite (read_slot_ok _ _ _ Hta2).
  unfold bind at 1. rewrite (read_slot_ok _ _ _ Htb2).
  assert (Hfld2 : fields_ok K ts2).
  { apply (compresses_fields K ts1); [done|].
    by apply (compresses_fields K ts). }
  assert (Hl2 : length ts2 = length ts).
  { destruct Hc1 as [? _]. destruct Hc2 as [? _]. congruence. }
  assert (Hr2 : roots ts2 = roots ts).
  { destruct Hc1 as (_ & ? & _). destruct Hc2 as (_ & ? & _). congruence. }
  assert (Hmal : (ma < length ts2)%nat) by (by apply lookup_lt_Some in Hta2).
  assert (Hmbl : (mb < length ts2)%nat) by (by apply lookup_lt_Some in Htb2).
  pose proof (Hfld2 ma ta Hta2 Hma) as Hoka.
  pose proof (Hfld2 mb tb Htb2 Hmb) as Hokb.
  (* the classes so far *)
  pose proof (compresses_refines _ _ Hc1) as R01.
  pose proof (compresses_refines _ _ Hc2) as R12.
  assert (R02 : refines ts ts2) by (by eapply refines_trans).
  assert (Hca : same_class ts2 ia ma).
  { apply R02. by apply (same_class_reach ts ia ma ha). }
  assert (Hcb : same_class ts2 ib mb).
  { apply R12. by apply (same_class_reach ts1 ib mb hb). }
  assert (Hroot_a : reach ts2 ma ma 0) by (by apply (reach_root _ _ ta)).
  destruct (negb (bool_decide (is_Some (arg_t ta)))
            && bool_decide (is_Some (arg_t tb))) eqn:Hcase.
  - (* the unbound side takes over the function structure *)
    apply andb_prop in Hcase as [Hna Hsb].
    apply negb_true_iff, bool_decide_eq_false in Hna.
    apply bool_decide_eq_true in Hsb.
    assert (Hab : ma ≠ mb).
    { intros ->. rewrite Hta2 in Htb2. injection Htb2 as ->. done. }
    set (ts3 := <[ma := mkType ma (arg_t tb) (ret_t tb)]> ts2).
    unfold bind at 1. rewrite (write_slot_ok _ _ _ Hmal). fold ts3.
    assert (Hl3 : length ts3 = length ts2) by apply length_insert.
    unfold bind at 1. rewrite (write_slot_ok ts3) by lia.
    set (ts4 := <[mb := mkType ma None None]> ts3).
    assert (Hta3 : ts3 !! ma = Some (mkType ma (arg_t tb) (ret_t tb)))
      by (by apply list_lookup_insert_eq).
    assert (Htb3 : ts3 !! mb = Some tb)
      by (unfold ts3; by rewrite list_lookup_insert_ne).
    assert (Hwf3 : wf_masters ts3).
    { intros i Hi. rewrite Hl3 in Hi.
      destruct (Hwf2 i Hi) as (r & h & Hr & Hbd). exists r, h. split.
      - by apply (reach_insert_same _ _ ta).
      - unfold ts3. rewrite length_insert.
        by rewrite (roots_insert_same _ _ ta). }
    assert (Hr3 : roots ts3 = roots ts2)
      by (by apply (roots_insert_same _ _ ta)).
    destruct (link_wf ts3 mb ma tb _ (mkType ma None None) Hwf3 Htb3 Hmtb
                Hta3 eq_refl Hab eq_refl) as [Hwf4 Hr4]. fold ts4 in Hwf4, Hr4.
    assert (Hok4 : masters_ok K ts4).
    { apply masters_ok_insert; [|done..].
      by apply masters_ok_insert. }
    assert (Hfld4 : fields_ok K ts4).
    { apply fields_ok_insert; [|done]. by apply fields_ok_insert. }
    destruct (masterise_spec K ts4 mb Hok4 Hwf4 Hmb)
      as (m5 & ts5 & t5 & Hm5 & Hc5 & Hok5 & Hwf5 & _).
    unfold bind at 1. rewrite Hm5. exists ts5. split; [done|].
    split; [by apply (slots_inv_compresses K ts4)|].
    pose proof (compresses_refines _ _ Hc5) as R45.
    destruct Hc5 as (Hl5 & Hr5 & _).
    split; [unfold ts4, ts3 in Hl5; by rewrite Hl5, !length_insert|].
    split; [lia|].
    (* classes *)
    assert (R23 : refines ts2 ts3).
    { apply (insert_refines ts2 ma ta); [done|done|].
      intros A R HA. destruct Hna. by rewrite HA. }
    destruct (link_classes ts3 mb ma ma 0 tb (mkType ma None None))
      as (Hm34 & Hjoin & Hother);
      [done|done|done|done|by apply (reach_root _ _ _ Hta3)|done|].
    fold ts4 in Hm34, Hjoin, Hother.
    assert (R35 : refines ts3 ts5).
    { apply (link_then_refines ts3 ts4 ts5 mb ma tb);
        [done|done|done|done|done|].
      intros A R HA HR. apply R45.
      destruct (slot_ok_Some K tb Hokb Hsb)
        as (bA & bR & HbA & HbR & HbAK & HbRK).
      assert (A = bA) as -> by congruence.
      assert (R = bR) as -> by congruence.
      apply (fun_type_root K _ _ _ _ (mkType ma (Some bA) (Some bR)));
        [done|unfold ts4, ts3; rewrite !length_insert; lia| |done..].
      unfold ts4. rewrite list_lookup_insert_ne by done.
      by rewrite Hta3, HbA, HbR. }
    assert (R05 : refines ts ts5).
    { eapply refines_trans; [apply R02|].
      eapply refines_trans; [apply R23|done]. }
    split; [done|].
    apply (same_class_trans _ _ ma); [by apply R35, R23|].
    apply (same_class_trans _ _ mb); [|by apply same_class_sym, R35, R23].
    by apply same_class_sym, R45.
  - (* the class of [b] is redirected to [a] *)
    set (ts3 := <[mb := mkType ma (arg_t tb) (ret_t tb)]> ts2).
    unfold bind at 1, write_master. unfold bind at 1.
    rewrite (read_slot_ok _ _ _ Htb2), (write_slot_ok _ _ _ Hmbl). fold ts3.
    assert (Hstep : slots_inv K ts3 ∧ length ts3 = length ts2
                    ∧ (ma = mb → ts3 = ts2)
                    ∧ (ma ≠ mb → S (roots ts3) = roots ts2)).
    { destruct (decide (ma = mb)) as [->|Hab].
      - assert (ts3 = ts2) as Heq.
        { unfold ts3. rewrite <- Hmtb at 2. rewrite type_eta.
          by apply list_insert_id. }
        rewrite Heq. split; [done|]. split; [done|]. split; [done|].
        by intros ?.
      - destruct (link_wf ts2 mb ma tb ta
                    (mkType ma (arg_t tb) (ret_t tb)) Hwf2 Htb2 Hmtb
                    Hta2 Hmta Hab eq_refl) as [Hwf3 Hr3].
        split; [|split; [apply length_insert|split; [done|by intros _]]].
        split; [by apply masters_ok_insert|].
        split; [|done]. by apply fields_ok_insert. }
    destruct Hstep as ((Hok3 & Hfld3 & Hwf3) & Hl3 & Hsame & Hless).
    (* the classes after the redirection *)
    assert (Hlink : (∀ x y, same_class ts2 x y → same_class ts3 x y)
                    ∧ same_class ts3 mb ma
                    ∧ (∀ i a b m0 h, reach ts2 i m0 h → m0 ≠ mb →
                         fun_type ts2 i a b → fun_type ts3 i a b)).
    { destruct (decide (ma = mb)) as [Hab|Hab].
      - rewrite (Hsame Hab). split; [done|]. split; [|done].
        rewrite Hab. by apply (same_class_reach ts2 mb mb 0), (reach_root _ _ tb).
      - by apply (link_classes ts2 mb ma ma 0 tb). }
    destruct Hlink as (Hm23 & Hjoin & Hother).
    destruct (masterise_spec K ts3 mb Hok3 Hwf3 Hmb)
      as (m4 & ts4 & t4 & Hm4 & Hc4 & Hok4 & Hwf4 & _).
    unfold bind at 1. rewrite Hm4.
    pose proof (compresses_refines _ _ Hc4) as R34.
    assert (Hinv4 : slots_inv K ts4)
      by (by apply (slots_inv_compresses K ts3)).
    assert (Hl4 : length ts4 = length ts) by (destruct Hc4; congruence).
    assert (Hr4 : roots ts4 = roots ts3) by (by destruct Hc4 as (_ & ? & _)).
    assert (Hr43 : (roots ts4 ≤ roots ts)%nat).
    { destruct (decide (ma = mb)) as [Hab|Hab].
      - rewrite Hr4, (Hsame Hab). lia.
      - specialize (Hless Hab). lia. }
    assert (Hcab : ∀ tsF, refines ts3 tsF → same_class tsF ia ib).
    { intros tsF [HmF _].
      apply (same_class_trans _ _ ma); [by apply HmF, Hm23|].
      apply (same_class_trans _ _ mb); [by apply same_class_sym, HmF|].
      by apply same_class_sym, HmF, Hm23. }
    destruct (bool_decide (is_Some (arg_t tb))) eqn:Hsb; cbn [negb].
    2:{ exists ts4. split; [done|]. split; [done|]. split; [done|].
        split; [lia|]. split; [|by apply Hcab].
        eapply refines_trans; [apply R02|].
        apply (link_then_refines ts2 ts3 ts4 mb ma tb);
          [done|done|done|done|done|].
        intros A R HA. apply bool_decide_eq_false in Hsb.
        destruct Hsb. by rewrite HA. }
    apply bool_decide_eq_true in Hsb.
    rewrite andb_true_r in Hcase. apply negb_false_iff in Hcase.
    apply bool_decide_eq_true in Hcase.
    destruct (slot_ok_Some K ta Hoka Hcase)
      as (aA & aR & HaA & HaR & HaAK & HaRK).
    destruct (slot_ok_Some K tb Hokb Hsb)
      as (bA & bR & HbA & HbR & HbAK & HbRK).
    rewrite HaA, HbA, HaR, HbR. cbn [slot_of].
    unfold bind at 1. cbn [ret]. unfold bind at 1. cbn [ret].
    destruct (decide (ma = mb)) as [Hab|Hab].
    + (* the same representative: both component pairs coincide *)
      assert (tb = ta) as ->.
      { rewrite Hab, Htb2 in Hta2. by injection Hta2. }
      rewrite HaA in HbA. injection HbA as <-.
      rewrite HaR in HbR. injection HbR as <-.
      assert (1 ≤ roots ts)%nat.
      { rewrite <- Hr2. by apply (roots_pos ts2 ma ta). }
      destruct fuel as [|fuel]; [lia|].
      unfold bind at 1. rewrite unify_same.
      unfold bind at 1. cbn [ret]. unfold bind at 1. cbn [ret].
      rewrite unify_same. exists ts4.
      split; [done|]. split; [done|]. split; [done|]. split; [lia|].
      split; [|by apply Hcab].
      eapply refines_trans; [apply R02|]. by rewrite <- (Hsame Hab).
    + specialize (Hless Hab).
      destruct (IH ts4 aA bA Hinv4 HaAK HbAK ltac:(lia))
        as (ts5 & Hu5 & Hinv5 & Hl5 & Hr5 & R45 & Hc5).
      unfold bind at 1. rewrite Hu5.
      unfold bind at 1. cbn [ret]. unfold bind at 1. cbn [ret].
      destruct (IH ts5 aR bR Hinv5 HaRK HbRK ltac:(lia))
        as (ts6 & Hu6 & Hinv6 & Hl6 & Hr6 & R56 & Hc6).
      rewrite Hu6. exists ts6. split; [done|]. split; [done|].
      split; [congruence|]. split; [lia|].
      assert (R36 : refines ts3 ts6).
      { eapply refines_trans; [apply R34|]. by eapply refines_trans. }
      split; [|by apply Hcab].
      eapply refines_trans; [apply R02|].
      apply (link_then_refines ts2 ts3 ts6 mb ma tb);
        [done|done|done|done|done|].
      intros A R HA HR.
      assert (A = bA) as -> by congruence.
      assert (R = bR) as -> by congruence.
      apply (fun_type_proper ts6 ma ma aA bA aR bR).
      * apply R36, (same_class_wf ts3); [done|lia].
      * by apply R56.
      * done.
      * apply R36.
        apply (fun_type_root K _ _ _ _ ta); [done|lia| |done..].
        unfold ts3. by rewrite list_lookup_insert_ne.
Qed.

(** X10: [unify] returns, and afterwards the two slots it was given
    stand for one type: they have the same representative.  Classes that
    were one stay one, a class that was a function type from [a] to [r]
    still is one, and the invariants of the slot array are kept. *)
Theorem unify_merges (K : nat) (ts : list Type_) (ia ib : nat) :
  slots_inv K ts → (ia < K)%nat → (ib < K)%nat →
  ∃ ts', unify_top ia ib ts = Ok (tt, ts')
    ∧ same_class ts' ia ib
    ∧ (∀ i j, same_class ts i j → same_class ts' i j)
    ∧ (∀ i a r, fun_type ts i a r → fun_type ts' i a r)
    ∧ length ts' = length ts ∧ slots_inv K ts'.
Proof.
  intros Hinv Hia Hib. unfold unify_top.
  destruct (unify_refines K (S (length ts)) ts ia ib Hinv Hia Hib)
    as (ts' & Hu & Hinv' & Hl & _ & [Hm Hf] & Hsame).
  { pose proof (roots_le ts). lia. }
  exists ts'. do 5 (split; [done|]). done.
Qed.

Lemma unify_merges_witness :
  let ts := imap (λ k _, mkType k None None) [Var 0; Var 1; Var 2] in
  ∃ ts', unify_top 0 2 ts = Ok (tt, ts')
    ∧ same_class ts' 0 2
    ∧ (∀ i j, same_class ts i j → same_class ts' i j)
    ∧ (∀ i a r, fun_type ts i a r → fun_type ts' i a r)
    ∧ length ts' = length ts ∧ slots_inv 3 ts'.
Proof.
  apply (unify_merges 3); [|lia|lia].
  destruct (initial_tree_inv [Var 0; Var 1; Var 2] 3) as [H _].
  do 3 (apply slots_inv_next; [|simpl; lia]). exact H.
Defined.

(** ** [coerce_to_fun_type] establishes the constraint of a call *)

Lemma same_class_root_reach (ts : list Type_) (i m : nat) (t : Type_) :
  same_class ts i m → ts !! m = Some t → master_t t = m →
  ∃ h, reach ts i m h.
Proof.
  intros (r & h & h' & Hi & Hm) Ht Hroot.
  destruct (reach_det _ _ _ _ _ _ Hm (reach_root ts m t Ht Hroot)) as [-> _].
  by exists h.
Qed.

Lemma coerce_to_fun_type_refines (K : nat) (exprs : list AstNode)
    (ts : list Type_) (ifun icall : Z) :
  slots_inv K ts → 0 ≤ ifun < icall → icall < 2 ^ 32 →
  (Z.to_nat icall < K)%nat →
  ∃ ts', coerce_to_fun_type exprs ifun icall ts = Ok (tt, ts')
    ∧ slots_inv K ts' ∧ length ts' = length ts
    ∧ refines ts ts'
    ∧ fun_type ts' (Z.to_nat ifun) (Z.to_nat (icall - 1)) (Z.to_nat icall).
Proof.
  intros (Hok & Hfld & Hwf) Hifun Hmax Hcall. unfold coerce_to_fun_type.
  assert (HK : (K ≤ length ts)%nat) by apply Hok.
  destruct (Z.ltb_spec ifun icall); [|lia]. cbn [negb].
  unfold bind at 1. rewrite DIE_IF_false.
  unfold ast_arg_idx. rewrite u32_i32, u32_small by lia.
  destruct (masterise_spec K ts (Z.to_nat ifun) Hok Hwf ltac:(lia))
    as (mf & ts1 & tf & Hm1 & Hc1 & Hok1 & Hwf1 & Hmf & _ & Htf1 & Hmtf
        & hf & Hrf).
  unfold bind at 1. rewrite Hm1.
  unfold bind at 1. rewrite (read_slot_ok _ _ _ Htf1).
  assert (Hfld1 : fields_ok K ts1) by (by apply (compresses_fields K ts)).
  assert (Hl1 : length ts1 = length ts) by (by destruct Hc1).
  pose proof (Hfld1 mf tf Htf1 Hmf) as Hokf.
  pose proof (compresses_refines _ _ Hc1) as R01.
  assert (Hcf : same_class ts1 (Z.to_nat ifun) mf).
  { apply R01. by apply (same_class_reach ts _ mf hf). }
  destruct (bool_decide (is_Some (arg_t tf))) eqn:Hfun.
  - (* already a function type: unify the components *)
    apply bool_decide_eq_true in Hfun.
    destruct (slot_ok_Some K tf Hokf Hfun)
      as (fa & fr & Hfa & Hfr & HfaK & HfrK).
    rewrite Hfa, Hfr. cbn [slot_of].
    unfold bind at 1. cbn [ret]. unfold unify_top.
    destruct (unify_refines K (S (length ts1)) ts1 fa
                (Z.to_nat (icall - 1)))
      as (ts2 & Hu2 & Hinv2 & Hl2 & _ & R12 & Hs2);
      [done|done|lia|pose proof (roots_le ts1); lia|].
    unfold bind at 1. rewrite Hu2. unfold bind at 1. cbn [ret].
    destruct (unify_refines K (S (length ts2)) ts2 fr (Z.to_nat icall))
      as (ts3 & Hu3 & Hinv3 & Hl3 & _ & R23 & Hs3);
      [done|done|lia|pose proof (roots_le ts2); lia|].
    rewrite Hu3. exists ts3. split; [done|]. split; [done|].
    split; [congruence|].
    assert (R13 : refines ts1 ts3) by (by eapply refines_trans).
    split; [by eapply refines_trans|].
    apply (fun_type_proper ts3 mf _ fa _ fr).
    + by apply same_class_sym, R13.
    + by apply R23.
    + done.
    + apply R13. apply (fun_type_root K _ _ _ _ tf); (done || lia).
  - (* unbound: shape it into a function type *)
    apply bool_decide_eq_false in Hfun.
    assert (Hnone : arg_t tf = None ∧ ret_t tf = None).
    { unfold slot_ok in Hokf. destruct (arg_t tf); [by destruct Hfun|].
      by destruct (ret_t tf). }
    destruct Hnone as [HfA HfR].
    destruct (masterise_spec K ts1 (Z.to_nat (icall - 1)) Hok1 Hwf1 ltac:(lia))
      as (marg & ts2 & tm2 & Hm2 & Hc2 & Hok2 & Hwf2 & Hmarg & _ & _ & _
          & harg & Hrarg).
    unfold bind at 1. rewrite Hm2.
    assert (Htf2 : ts2 !! mf = Some tf) by (by apply Hc2).
    unfold bind at 1. rewrite (read_slot_ok _ _ _ Htf2).
    assert (Hmfl : (mf < length ts2)%nat) by (by apply lookup_lt_Some in Htf2).
    unfold bind at 1. rewrite (write_slot_ok _ _ _ Hmfl).
    set (t3 := mkType (master_t tf) (Some marg) (ret_t tf)).
    set (ts3 := <[mf := t3]> ts2).
    assert (Hok3 : masters_ok K ts3).
    { apply masters_ok_insert; [done..|]. cbn [t3 master_t]. lia. }
    assert (Hwf3 : wf_masters ts3)
      by (by apply (wf_masters_insert_same _ _ tf)).
    assert (Ht3 : ts3 !! mf = Some t3) by (by apply list_lookup_insert_eq).
    destruct (masterise_spec K ts3 (Z.to_nat icall) Hok3 Hwf3 ltac:(lia))
      as (mret & ts4 & tm4 & Hm4 & Hc4 & Hok4 & Hwf4 & Hmret & _ & _ & _
          & hret & Hrret).
    unfold bind at 1. rewrite Hm4.
    assert (Ht4 : ts4 !! mf = Some t3).
    { apply Hc4; [done|]. cbn [t3 master_t]. done. }
    unfold bind at 1. rewrite (read_slot_ok _ _ _ Ht4).
    assert (Hmfl4 : (mf < length ts4)%nat) by (by apply lookup_lt_Some in Ht4).
    rewrite (write_slot_ok _ _ _ Hmfl4).
    set (t5 := mkType (master_t t3) (arg_t t3) (Some mret)).
    set (ts5 := <[mf := t5]> ts4).
    (* the classes *)
    pose proof (compresses_refines _ _ Hc2) as R12.
    assert (R23 : refines ts2 ts3).
    { apply (insert_refines ts2 mf tf); [done|done|]. intros A R HA.
      by rewrite HfA in HA. }
    pose proof (compresses_refines _ _ Hc4) as R34.
    assert (R45 : refines ts4 ts5).
    { apply (insert_refines ts4 mf t3); [done|done|]. intros A R _ HR.
      cbn [t3 ret_t] in HR. by rewrite HfR in HR. }
    assert (R35 : refines ts3 ts5) by (by eapply refines_trans).
    assert (R15 : refines ts1 ts5).
    { eapply refines_trans; [apply R12|]. by eapply refines_trans. }
    assert (Ht5 : ts5 !! mf = Some t5) by (by apply list_lookup_insert_eq).
    exists ts5. split; [done|]. split; [|split; [|split]].
    + split; [|split].
      * apply masters_ok_insert; [done..|]. cbn [t5 t3 master_t]. lia.
      * intros j x Hx Hj. destruct (decide (j = mf)) as [->|Hne].
        -- unfold ts5 in Hx.
           rewrite list_lookup_insert_eq in Hx by done. injection Hx as <-.
           unfold slot_ok. cbn [t5 t3 arg_t ret_t]. done.
        -- unfold ts5 in Hx. rewrite list_lookup_insert_ne in Hx by done.
           destruct (compresses_fields_back _ _ _ _ Hc4 Hx)
             as (x3 & Hx3 & Ha & Hb).
           unfold ts3 in Hx3. rewrite list_lookup_insert_ne in Hx3 by done.
           assert (Hfld2 : fields_ok K ts2)
             by (by apply (compresses_fields K ts1)).
           specialize (Hfld2 j x3 Hx3 Hj). unfold slot_ok in *.
           by rewrite Ha, Hb.
      * by apply (wf_masters_insert_same _ _ t3).
    + unfold ts5. rewrite length_insert. destruct Hc4 as [-> _]. unfold ts3.
      rewrite length_insert. destruct Hc2 as [-> _]. done.
    + by eapply refines_trans.
    + destruct (same_class_root_reach ts5 (Z.to_nat ifun) mf t5)
        as [h5 Hr5]; [by apply R15|done|done|].
      exists mf, h5, t5, marg, mret. split; [done|]. split; [done|].
      split; [done|]. split; [done|]. split.
      * apply same_class_sym, R15.
        by apply (same_class_reach ts1 _ marg harg).
      * apply same_class_sym, R35.
        by apply (same_class_reach ts3 _ mret hret).
Qed.

(** ** The pass establishes the typing constraints *)

(** The snapshot copy puts the fresh slot [k] into the class of the first
    occurrence. *)
Lemma snapshot_refines (k f : nat) (ts : list Type_) (tf : Type_) :
  slots_inv k ts → (k < length ts)%nat → (f < k)%nat → ts !! f = Some tf →
  refines ts (<[k := tf]> ts) ∧ same_class (<[k := tf]> ts) k f.
Proof.
  intros Hinv Hk Hf Htf. pose proof Hinv as ((Hl & Hm & Ht) & Hfld & Hwf).
  pose proof (Ht k ltac:(lia) Hk) as Hkk.
  assert (Hmf : (master_t tf < k)%nat) by (by apply (Hm f)).
  destruct (Hwf f ltac:(lia)) as (r & hf & Hrf & _).
  destruct (reach_master ts f r hf tf Hrf Htf) as (hm & Hrm & _).
  assert (Hrk : (r < k)%nat) by (by apply (reach_below k ts f r hf)).
  destruct (link_classes ts k (master_t tf) r hm _ tf Hkk eq_refl eq_refl
              ltac:(lia) Hrm ltac:(lia)) as (Hmerge & Hjoin & Hother).
  split; [split; [done|]|].
  - intros i a b Hfun. pose proof Hfun as Hfun'.
    destruct Hfun as (m0 & h & t & A & R & Hi & Ht0 & HA & _).
    destruct (decide (m0 = k)) as [->|Hne].
    + rewrite Hkk in Ht0. by injection Ht0 as <-.
    + by apply (Hother i a b m0 h).
  - apply (same_class_trans _ _ (master_t tf)); [done|].
    apply Hmerge. by exists r, hm, hf.
Qed.

Lemma solve_types_step_typed (e : expr) (k : nat) (ttree : TypeTree) :
  wf_expr e → postfix ttree = flatten e →
  Z.of_nat (length (flatten e)) < 2 ^ 32 →
  Forall (λ n, unpackable n = true) (flatten e) →
  tree_inv k ttree → typed_upto (flatten e) k ttree →
  (k < length (flatten e))%nat →
  ∃ ttree', solve_types_step (Z.of_nat k) ttree = Ok (tt, ttree')
    ∧ tree_inv (S k) ttree' ∧ postfix ttree' = postfix ttree
    ∧ size ttree' = size ttree
    ∧ typed_upto (flatten e) (S k) ttree'.
Proof.
  intros Hwf Hpost Hmax Hall (Hinv & Hlen & Hbl & Hbind) [HtC HtV] Hk.
  destruct (lookup_lt_is_Some_2 (flatten e) k Hk) as [n Hn].
  pose proof (unpackable_tokens e Hwf Hall) as Htoks.
  pose proof (proj1 (Forall_lookup _ _) Htoks) as Htok.
  pose proof (proj1 (Forall_lookup _ _) Hall k n Hn) as Hun.
  unfold solve_types_step, bind, get. rewrite Hpost.
  assert (Hkl : (k < length (types ttree))%nat) by (rewrite Hlen, Hpost; lia).
  destruct n as [t|s|d|]; [| |done..].
  - (* Var *)
    rewrite (ast_unpack_Var _ _ t) by (rewrite ?Nat2Z.id; first [lia|done]).
    pose proof (Htok k _ Hn t eq_refl) as Ht.
    unfold MAX_TOKS. destruct (Z.ltb_spec 26 t); [lia|].
    rewrite DIE_IF_false. unfold read_type_binding.
    destruct (lookup_lt_is_Some_2 (bindings ttree) (Z.to_nat t)) as [b Hb];
      [lia|].
    rewrite Hb. destruct b as [first|].
    + pose proof (Hbind _ _ Hb) as Hfirst.
      destruct (lookup_lt_is_Some_2 (types ttree) first) as [tf Htf]; [lia|].
      rewrite (on_types_Ok _ _ tf (types ttree)) by (by apply read_slot_ok).
      rewrite Nat2Z.id.
      erewrite on_types_Ok by (cbn [types]; by apply write_slot_ok).
      destruct (snapshot_refines k first (types ttree) tf Hinv Hkl Hfirst Htf)
        as [[Hm Hf] Hjoin].
      eexists. split; [reflexivity|]. cbn [postfix size].
      split; [|split; [done|split; [done|]]].
      * split; [cbn [types]; by apply (snapshot_inv k first)|].
        cbn [types bindings postfix].
        split; [by rewrite length_insert|]. split; [done|].
        intros v f Hv. specialize (Hbind v f Hv). lia.
      * split; cbn [types bindings].
        -- intros i s Hi Hc. destruct (decide (i = k)) as [->|Hne];
             [congruence|]. apply Hf, HtC; [lia|done].
        -- intros i t' Hi Hv. destruct (decide (i = k)) as [->|Hne].
           ++ assert (t' = t) as -> by congruence. by exists first.
           ++ destruct (HtV i t' ltac:(lia) Hv) as (f & Hbf & Hcf).
              exists f. split; [done|]. by apply Hm.
    + unfold write_type_binding. rewrite Hbl.
      destruct (Z.ltb_spec t (Z.of_nat 26)); [|lia].
      eexists. split; [reflexivity|]. cbn [postfix size].
      split; [|split; [done|split; [done|]]].
      * split; [by apply slots_inv_next|]. cbn [types bindings postfix].
        split; [done|]. split; [by rewrite length_insert|].
        intros v f Hv. rewrite Nat2Z.id in Hv.
        destruct (decide (v = Z.to_nat t)) as [->|Hne].
        -- rewrite list_lookup_insert_eq in Hv by lia. injection Hv as <-.
           lia.
        -- rewrite list_lookup_insert_ne in Hv by done.
           specialize (Hbind v f Hv). lia.
      * split; cbn [types bindings]; rewrite ?Nat2Z.id.
        -- intros i s Hi Hc. destruct (decide (i = k)) as [->|Hne];
             [congruence|]. apply HtC; [lia|done].
        -- intros i t' Hi Hv. destruct (decide (i = k)) as [->|Hne].
           ++ assert (t' = t) as -> by congruence. exists k.
              split; [apply list_lookup_insert_eq; lia|].
              destruct Hinv as (_ & _ & Hwfm). by apply same_class_wf.
           ++ destruct (HtV i t' ltac:(lia) Hv) as (f & Hbf & Hcf).
              exists f. split; [|done].
              rewrite list_lookup_insert_ne; [done|].
              intros Heq. rewrite Heq in Hb. congruence.
  - (* Call *)
    rewrite (ast_unpack_Call _ _ s) by (rewrite ?Nat2Z.id; first [lia|done]).
    destruct (flatten_layout e) as (_ & Hcall & _).
    destruct (Hcall (Z.of_nat k) s) as (Hs & _);
      [lia|by rewrite Nat2Z.id|].
    rewrite u32_small by lia.
    destruct (coerce_to_fun_type_refines (S k) (flatten e) (types ttree)
                (Z.of_nat k - s - 1) (Z.of_nat k))
      as (ts' & Hc & Hinv' & Hl' & [Hm Hf] & Hfun);
      [by apply slots_inv_next|lia|lia|lia|].
    rewrite (on_types_Ok _ _ tt ts') by done.
    eexists. split; [reflexivity|]. cbn [postfix size].
    split; [|split; [done|split; [done|]]].
    + split; [done|]. cbn [types bindings postfix].
      split; [congruence|]. split; [done|].
      intros v f Hv. specialize (Hbind v f Hv). lia.
    + split; cbn [types bindings].
      * intros i s' Hi Hc'. destruct (decide (i = k)) as [->|Hne].
        -- assert (s' = s) as -> by congruence.
           replace (k - 1)%nat with (Z.to_nat (Z.of_nat k - 1)) by lia.
           by rewrite Nat2Z.id in Hfun.
        -- apply Hf, HtC; [lia|done].
      * intros i t' Hi Hv. destruct (decide (i = k)) as [->|Hne];
          [congruence|].
        destruct (HtV i t' ltac:(lia) Hv) as (f & Hbf & Hcf).
        exists f. split; [done|]. by apply Hm.
Qed.

Lemma solve_types_from_constraints (e : expr) (n k : nat)
    (ttree : TypeTree) :
  wf_expr e → postfix ttree = flatten e →
  Z.of_nat (length (flatten e)) < 2 ^ 32 →
  Forall (λ n, unpackable n = true) (flatten e) →
  tree_inv k ttree → typed_upto (flatten e) k ttree →
  (k + n = length (flatten e))%nat →
  ∃ ttree', solve_types_from n (Z.of_nat k) ttree = Ok (tt, ttree')
    ∧ tree_inv (k + n) ttree' ∧ postfix ttree' = flatten e
    ∧ typed_upto (flatten e) (k + n) ttree'.
Proof.
  intros Hwf Hpost Hmax Hall. revert k ttree Hpost.
  induction n as [|n IH]; intros k ttree Hpost Hinv Hty Hkn.
  - exists ttree. cbn [solve_types_from]. rewrite Nat.add_0_r.
    split; [done|]. split; [done|]. by split.
  - cbn [solve_types_from]. unfold bind.
    destruct (solve_types_step_typed e k ttree Hwf Hpost Hmax Hall Hinv Hty
                ltac:(lia))
      as (ttree' & Hstep & Hinv' & Hpost' & _ & Hty').
    rewrite Hstep.
    replace (Z.of_nat k + 1) with (Z.of_nat (S k)) by lia.
    destruct (IH (S k) ttree' ltac:(congruence) Hinv' Hty' ltac:(lia))
      as (ttree'' & Hrun & Hinv'' & Hpost'' & Hty'').
    exists ttree''. replace (k + S n)%nat with (S k + n)%nat by lia.
    split; [done|]. split; [done|]. by split.
Qed.

(** X11: the types [build_type_tree] infers for an application-only
    program satisfy the typing rule of application at every call: the
    type of the callee is the function type from the type of the argument
    to the type of the call.  All occurrences of one variable have one
    type. *)
Theorem inferred_types_satisfy_calls (name src : string) (ast : Ast) :
  parse name src = Ok ast → nodes ast ≠ [] →
  Forall (λ n, unpackable n = true) (nodes ast) →
  ∃ ttree, build_type_tree ast = Ok ttree
    ∧ (∀ i s, nodes ast !! i = Some (Call s) →
         fun_type (types ttree) (Z.to_nat (Z.of_nat i - s - 1)) (i - 1) i)
    ∧ (∀ i j t, nodes ast !! i = Some (Var t) →
         nodes ast !! j = Some (Var t) → same_class (types ttree) i j).
Proof.
  intros Hp Hne Hall.
  destruct (parse_flatten _ _ _ Hp) as [[Hnil|(e & Hwf & He)] Hmax]; [done|].
  rewrite He in Hall, Hmax. rewrite He.
  unfold build_type_tree, ast_postfix, nnodes.
  pose proof (flatten_nonempty e) as Hpos. rewrite He.
  destruct (Z.eqb_spec (Z.of_nat (length (flatten e))) 0); [lia|].
  cbn [obind]. unfold solve_types, bind, get. cbn [size].
  rewrite Nat2Z.id.
  destruct (solve_types_from_constraints e (length (flatten e)) 0
              (mkTypeTree (flatten e) (Z.of_nat (length (flatten e)))
                 (replicate (Z.to_nat MAX_TOKS) None)
                 (imap (λ k _, mkType k None None) (flatten e)))
              Hwf eq_refl Hmax Hall (initial_tree_inv _ _))
    as (ttree & Hrun & _ & _ & [HtC HtV]); [|done|].
  { split; intros; lia. }
  change (Z.of_nat 0) with 0 in Hrun. rewrite Hrun. exists ttree.
  split; [done|]. cbn [Nat.add] in HtC, HtV. split.
  - intros i s Hi. apply HtC; [|done]. by apply lookup_lt_Some in Hi.
  - intros i j t Hi Hj.
    destruct (HtV i t) as (f & Hf & Hci); [by apply lookup_lt_Some in Hi|done|].
    destruct (HtV j t) as (f' & Hf' & Hcj);
      [by apply lookup_lt_Some in Hj|done|].
    assert (f' = f) as -> by congruence.
    apply (same_class_trans _ _ f); [done|by apply same_class_sym].
Qed.

Lemma inferred_types_satisfy_calls_witness :
  ∃ ast ttree, parse "prog" "f x (g x)" = Ok ast
    ∧ build_type_tree ast = Ok ttree
    ∧ (∀ i s, nodes ast !! i = Some (Call s) →
         fun_type (types ttree) (Z.to_nat (Z.of_nat i - s - 1)) (i - 1) i)
    ∧ (∀ i j t, nodes ast !! i = Some (Var t) →
         nodes ast !! j = Some (Var t) → same_class (types ttree) i j).
Proof.
  eexists.
  edestruct (inferred_types_satisfy_calls "prog" "f x (g x)")
    as (ttree & Hb & HC & HV);
    [vm_compute; reflexivity|discriminate|repeat constructor|].
  exists ttree. split; [reflexivity|]. split; [exact Hb|]. by split.
Defined.

(** * Further properties of the printer *)

(** ** The names of types *)

Lemma spine_length (e : expr) : (spine e < length (flatten e))%nat.
Proof.
  induction e as [t|d|b IHb t|f IHf a IHa]; cbn [spine flatten length];
    rewrite ?length_app; cbn [length]; lia.
Qed.

Lemma print_typename_unwrap_spine (e : expr) (pre post : list AstNode)
    (n k : nat) :
  app_only e = true →
  Z.of_nat (length (pre ++ flatten e ++ post)) < 2 ^ 32 →
  (spine e < n)%nat →
  print_typename_unwrap (pre ++ flatten e ++ post) n
    (Z.of_nat (length pre + length (flatten e) - 1)) k
  = Ok (head_token e, (k + spine e)%nat).
Proof.
  revert pre post n k.
  induction e as [t|d|b IHb t|f IHf a IHa]; intros pre post n k Happ Hmax Hn;
    [|done|done|].
  - destruct n as [|n]; [lia|]. cbn [print_typename_unwrap flatten length].
    rewrite (ast_unpack_Var _ _ t); [|lia|].
    + cbn [obind spine head_token]. by rewrite Nat.add_0_r.
    + replace (Z.to_nat (Z.of_nat (length pre + 1 - 1))) with (length pre)
        by lia.
      by apply (list_lookup_middle pre post (Var t)).
  - cbn [app_only] in Happ. apply andb_prop in Happ as [Hf Ha].
    destruct n as [|n]; [cbn [spine] in Hn; lia|].
    cbn [print_typename_unwrap flatten spine head_token] in *.
    pose proof (flatten_nonempty f) as Hfpos.
    set (s := Z.of_nat (length (flatten a))).
    assert (Hlook : (pre ++ (flatten f ++ flatten a ++ [Call s]) ++ post)
                    !! (length pre + length (flatten f ++ flatten a ++ [Call s])
                        - 1)%nat = Some (Call s)).
    { replace (pre ++ (flatten f ++ flatten a ++ [Call s]) ++ post)
        with ((pre ++ flatten f ++ flatten a) ++ Call s :: post)
        by (by rewrite <- !(assoc_L (++))).
      rewrite !length_app. cbn [length].
      replace (length pre + (length (flatten f) + (length (flatten a) + 1))
               - 1)%nat
        with (length (pre ++ flatten f ++ flatten a))
        by (rewrite !length_app; lia).
      by apply list_lookup_middle. }
    rewrite (ast_unpack_Call _ _ s); [|lia|by rewrite Nat2Z.id].
    cbn [obind].
    rewrite !length_app in *. cbn [length] in *.
    rewrite u32_small by (subst s; lia).
    replace (Z.of_nat (length pre + (length (flatten f)
               + (length (flatten a) + 1)) - 1) - s - 1)
      with (Z.of_nat (length pre + length (flatten f) - 1))
      by (subst s; lia).
    replace (pre ++ (flatten f ++ flatten a ++ [Call s]) ++ post)
      with (pre ++ flatten f ++ (flatten a ++ [Call s] ++ post))
      by (by rewrite <- !(assoc_L (++))).
    rewrite IHf; [f_equal; f_equal; lia|done| |lia].
    rewrite !length_app. cbn [length]. lia.
Qed.

(** X12: the name [print_typename] writes for the slot of an application
    is the capital letter of the variable at the head of the application
    followed by one [r] for each application above it: the slot of [x]
    is named [X], that of [x y] is [Xr], that of [x y z] is [Xrr]. *)
Theorem print_typename_of_application (e : expr) (pre post : list AstNode)
    (out : string) :
  app_only e = true →
  Z.of_nat (length (pre ++ flatten e ++ post)) < 2 ^ 32 →
  print_typename out (pre ++ flatten e ++ post)
    (Z.of_nat (length pre + length (flatten e) - 1))
  = Ok (fputc_times (spine e) (code "r")
          (fputc (head_token e + code "A") out)).
Proof.
  intros Happ Hmax. unfold print_typename.
  pose proof (flatten_nonempty e). pose proof (spine_length e).
  rewrite u32_small by (rewrite !length_app in Hmax; lia).
  rewrite (print_typename_unwrap_spine e pre post _ 0 Happ Hmax).
  - reflexivity.
  - rewrite !length_app. lia.
Qed.

Lemma print_typename_of_application_witness :
  print_typename EmptyString [Var 23; Var 24; Call 1; Var 25; Call 1] 4
  = Ok "Xrr".
Proof.
  apply (print_typename_of_application
           (ECall (ECall (EVar 23) (EVar 24)) (EVar 25)) [] [] EmptyString);
    [reflexivity|vm_compute; reflexivity].
Defined.

(** * Names and de Bruijn indices *)

Lemma digit_facts (n : Z) :
  1 ≤ n ≤ 9 →
  idx_from_digit (digit n) = n ∧ 26 ≤ idx_from_letter (digit n).
Proof.
  intros Hn.
  assert (Hcases : n ∈ (Z.of_nat <$> seq 1 9)).
  { apply list_elem_of_fmap. exists (Z.to_nat n). split; [lia|].
    apply elem_of_seq. lia. }
  cbv [seq fmap list_fmap] in Hcases.
  repeat (apply elem_of_cons in Hcases as [->|Hcases];
          [by vm_compute|]).
  by apply elem_of_nil in Hcases.
Qed.

(** X13: a name and its de Bruijn index are stored alike: where the name
    of token [t] is bound by the [n]-th enclosing lambda, counted from
    the innermost as 1, [parse_non_call_expr] stores the same [Bound]
    node, with the distance [n - 1], for the name and for the digit
    [n], and returns the same position. *)
Theorem bound_name_is_index (fuel : nat) (t d n : Z) (rest : string)
    (ast : Ast) :
  0 ≤ t < 26 → binding_depths ast !! Z.to_nat t = Some d →
  0 < d ≤ current_depth ast → current_depth ast ≤ INT32_MAX →
  n = current_depth ast - d + 1 → n ≤ 9 →
  26 ≤ idx_from_letter (deref rest) → 10 ≤ idx_from_digit (deref rest) →
  nnodes ast < nnodes_alloced ast →
  parse_non_call_expr (S fuel) (String (letter t) rest) ast
  = Ok (Some rest, set_nodes ast (nodes ast ++ [Bound (n - 1)]))
  ∧ parse_non_call_expr (S fuel) (String (digit n) rest) ast
    = Ok (Some rest, set_nodes ast (nodes ast ++ [Bound (n - 1)])).
Proof.
  intros Ht Hb Hd Hmax Hn Hn9 Hrl Hrd Hcap.
  destruct (letter_facts t Ht) as (Hidx & _ & _).
  destruct (digit_facts n ltac:(lia)) as [Hdig Hnol].
  split.
  - cbn [parse_non_call_expr]. unfold bind at 1.
    rewrite lex_varname_single; cbn [deref next]; [|lia|done].
    rewrite Hidx. destruct (Z.leb_spec 0 t); [|lia].
    unfold bind at 1. rewrite (push_var_resolves t d) by (done || lia).
    destruct (Z.eqb_spec d 0); [lia|]. cbn [ret].
    by replace (current_depth ast - d) with (n - 1) by lia.
  - cbn [parse_non_call_expr]. unfold bind at 1.
    rewrite lex_varname_miss by done.
    change (0 <=? -1) with false. cbv iota. unfold bind at 1.
    rewrite lex_int_single; cbn [deref next]; [|lia|done].
    rewrite Hdig. destruct (Z.leb_spec 0 n); [|lia].
    destruct (Z.eqb_spec n 0); [lia|].
    unfold bind, ret. rewrite push_bound_ok by lia.
    rewrite u32_small; [done|]. unfold INT32_MAX in *. lia.
Qed.

Lemma bound_name_is_index_witness :
  let ast := mkAst "prog" "[x][y]x" [] 15 15 2
               (<[23%nat := 1]> (<[24%nat := 2]> (replicate 26 0))) [] in
  parse_non_call_expr 1 "x" ast = Ok (Some EmptyString, set_nodes ast [Bound 1])
  ∧ parse_non_call_expr 1 "2" ast
    = Ok (Some EmptyString, set_nodes ast [Bound 1]).
Proof.
  apply (bound_name_is_index 0 23 1 2 EmptyString
           (mkAst "prog" "[x][y]x" [] 15 15 2
              (<[23%nat := 1]> (<[24%nat := 2]> (replicate 26 0))) []));
    first [reflexivity | vm_compute; intuition discriminate | lia].
Defined.

(** ** The printer is balanced and only appends *)

Lemma list_ascii_app (a b : string) :
  list_ascii_of_string (a +:+ b)
  = list_ascii_of_string a ++ list_ascii_of_string b.
Proof.
  induction a as [|c a IH]; [done|].
  rewrite string_app_cons. cbn. by rewrite IH.
Qed.

Lemma no_newline_app (a b : string) :
  no_newline a = true → no_newline b = true → no_newline (a +:+ b) = true.
Proof.
  unfold no_newline. rewrite list_ascii_app, forallb_app.
  by intros -> ->.
Qed.

Lemma extends_refl (out : string) : extends out out.
Proof. exists EmptyString. by rewrite string_app_nil_r. Qed.

Lemma extends_trans (a b c : string) : extends a b → extends b c → extends a c.
Proof.
  intros (s & -> & Hs) (s' & -> & Hs'). exists (s +:+ s').
  split; [by rewrite string_app_assoc|by apply no_newline_app].
Qed.

Lemma extends_fputc (c : Z) (out : string) :
  c mod 256 ≠ 10 → extends out (fputc c out).
Proof.
  intros Hc. eexists. split; [reflexivity|].
  unfold no_newline. cbn. rewrite andb_true_r. apply negb_true_iff.
  apply Ascii.eqb_neq. intros Heq. apply Hc.
  apply (f_equal N_of_ascii) in Heq.
  rewrite N_ascii_embedding in Heq.
  - apply (f_equal Z.of_N) in Heq. rewrite Z2N.id in Heq; [done|].
    apply Z.mod_pos_bound. lia.
  - pose proof (Z.mod_pos_bound c 256 ltac:(lia)). lia.
Qed.

Lemma extends_fputs (s out : string) :
  no_newline s = true → extends out (fputs s out).
Proof. by exists s. Qed.

Lemma extends_fputc_times (k : nat) (c : Z) (out : string) :
  c mod 256 ≠ 10 → extends out (fputc_times k c out).
Proof.
  intros Hc. revert out.
  induction k as [|k IH]; intros out; [apply extends_refl|].
  cbn [fputc_times]. eapply extends_trans; [by apply extends_fputc|apply IH].
Qed.

(** The value the first loop of [print_typename] ends with is the token
    of a variable. *)
Lemma print_typename_unwrap_token (l : list AstNode) (n : nat) (v : Z)
    (k k' : nat) (val : Z) :
  print_typename_unwrap l n v k = Ok (val, k') →
  ∃ i, l !! i = Some (Var val).
Proof.
  revert v k. induction n as [|n IH]; intros v k; [done|].
  cbn [print_typename_unwrap]. unfold ast_unpack.
  destruct (v <? 0); [done|].
  destruct (l !! Z.to_nat v) as [[t|s|d|]|] eqn:Hl; cbn [obind]; [| |done..].
  - intros [= <- <-]. by exists (Z.to_nat v).
  - apply IH.
Qed.

Lemma print_typename_extends (out res : string) (l : list AstNode) (idx : Z) :
  Forall (λ n, ∀ t, n = Var t → 0 ≤ t < 26) l →
  print_typename out l idx = Ok res → extends out res.
Proof.
  intros Htok. unfold print_typename.
  destruct (print_typename_unwrap _ _ _ _) as [[val k]| | |] eqn:Hu;
    [|done..].
  cbn [obind]. intros [= <-].
  destruct (print_typename_unwrap_token _ _ _ _ _ _ Hu) as [i Hi].
  pose proof (proj1 (Forall_lookup _ _) Htok i _ Hi val eq_refl) as Hv.
  eapply extends_trans; [apply extends_fputc|by apply extends_fputc_times].
  change (code "A") with 65. rewrite Z.mod_small; lia.
Qed.

Lemma same_classes_refl (ts : list Type_) : same_classes ts ts.
Proof. intros j m h H. by exists h. Qed.

Lemma same_classes_trans (ts1 ts2 ts3 : list Type_) :
  same_classes ts1 ts2 → same_classes ts2 ts3 → same_classes ts1 ts3.
Proof. intros H1 H2 j m h H. destruct (H1 j m h H) as [h' H']. eauto. Qed.

Lemma compresses_same_classes (ts ts' : list Type_) :
  compresses ts ts' → same_classes ts ts'.
Proof.
  intros (_ & _ & _ & _ & Hr) j m h H.
  destruct (Hr j m h H) as (h' & _ & H'). by exists h'.
Qed.

(** Printing a type returns with the printer as it was, but for what was
    appended to the stream and the path compression of the slots. *)
Lemma unparse_type__keeps (e : expr) (fuel : nat) (unp : Unparser)
    (t : nat) :
  wf_expr e →
  Forall (λ x, unpackable x = true) (flatten e) →
  Z.of_nat (length (flatten e)) < 2 ^ 32 →
  unp_inv e unp → (t < length (flatten e))%nat →
  Z.of_nat fuel + depth unp > MAX_DEPTH →
  (∃ unp', unparse_type_ fuel t unp = Ok (tt, unp')
     ∧ unp_inv e unp' ∧ printer_keeps unp unp')
  ∨ unparse_type_ fuel t unp = Undefined StackIndex.
Proof.
  intros Hwfe Hall Hmax.
  pose proof (unpackable_tokens e Hwfe Hall) as Htoks. revert unp t.
  induction fuel as [|fuel IH]; intros unp t Hinv Ht Hfuel.
  { destruct Hinv as (_ & _ & _ & Hd & _). unfold MAX_DEPTH in *. lia. }
  destruct Hinv as ((Hok & Hfld & Hwf) & Hlen & Hex & Hd & Hst).
  remember (unparse_type_ (S fuel) t unp) as res eqn:Hres.
  cbn [unparse_type_] in Hres.
  destruct (masterise_spec _ _ t Hok Hwf Ht)
    as (idx & ts1 & ty & Hm & Hc & Hok1 & Hwf1 & Hidx & _ & Hty & Hmty & _).
  unfold bind at 1 in Hres. rewrite (on_unp_types_Ok _ _ _ _ Hm) in Hres.
  unfold bind at 1 in Hres. cbn [get oot exprs] in Hres. rewrite Hex in Hres.
  destruct (print_typename_total e (oot unp) idx Hall Hmax Hidx) as (name & Hn).
  rewrite Hn in Hres.
  pose proof (print_typename_extends _ _ _ _ Htoks Hn) as Hext.
  pose proof (compresses_same_classes _ _ Hc) as Hcl.
  assert (Hfld1 : fields_ok (length (flatten e)) ts1)
    by (by apply (compresses_fields _ (unp_types unp))).
  assert (Hl1 : length ts1 = length (flatten e))
    by (destruct Hc; congruence).
  assert (Hinv1 : slots_inv (length (flatten e)) ts1)
    by (unfold slots_inv; tauto).
  unfold bind at 1 in Hres.
  cbn [emit oot exprs unp_types depth stack] in Hres.
  unfold bind at 1 in Hres.
  erewrite on_unp_types_Ok in Hres
    by (cbn [unp_types]; by apply read_slot_ok).
  cbn [oot exprs unp_types depth stack] in Hres.
  unfold bind at 1 in Hres. rewrite Hmty in Hres.
  erewrite on_unp_types_Ok in Hres
    by (cbn [unp_types]; by apply read_slot_ok).
  cbn [oot exprs unp_types depth stack] in Hres.
  assert (Hsimple : unp_inv e (mkUnparser name (flatten e) ts1 (depth unp)
                                 (stack unp))
                    ∧ printer_keeps unp (mkUnparser name (flatten e) ts1
                                           (depth unp) (stack unp))).
  { split; [by apply unp_inv_mk|]. by repeat split. }
  destruct (bool_decide (is_Some (arg_t ty))) eqn:Hfun; cbn [negb] in Hres.
  2:{ left. eexists. split; [exact Hres|]. exact Hsimple. }
  apply bool_decide_eq_true in Hfun.
  destruct (slot_ok_Some _ ty (Hfld1 idx ty Hty Hidx) Hfun)
    as (a & r & Ha & Hr & HaK & HrK).
  (* the push *)
  unfold bind at 1 in Hres. unfold unparse_push in Hres.
  unfold bind at 1 in Hres.
  erewrite on_unp_types_Ok in Hres
    by (cbn [unp_types]; by apply read_slot_ok).
  cbn [oot exprs unp_types depth stack] in Hres.
  unfold bind at 1 in Hres.
  rewrite Hmty, Nat.eqb_refl in Hres. cbn [negb] in Hres.
  rewrite DIE_IF_false in Hres. unfold bind at 1 in Hres.
  cbn [get oot exprs unp_types depth stack] in Hres.
  unfold MAX_DEPTH in Hd, Hst, Hfuel.
  destruct (stack_scan_total (stack unp) (Z.to_nat (depth unp)) idx)
    as [b Hscan]; [lia|].
  rewrite Hscan in Hres. destruct b.
  { cbn [ret negb] in Hres. left. eexists. split; [exact Hres|].
    exact Hsimple. }
  rewrite Hst in Hres.
  destruct (Z.ltb_spec (depth unp) (Z.of_nat (Z.to_nat 16))) as [Hlt|Hge].
  2:{ by right. }
  unfold bind at 1 in Hres. cbn [put ret negb] in Hres.
  rewrite u32_small in Hres by lia.
  unfold bind at 1 in Hres.
  cbn [emit oot exprs unp_types depth stack] in Hres.
  rewrite Ha, Hr in Hres.
  unfold bind at 1 in Hres.
  erewrite on_unp_types_Ok in Hres by (cbn [unp_types slot_of]; reflexivity).
  cbn [oot exprs unp_types depth stack] in Hres.
  (* the argument type *)
  unfold bind at 1 in Hres.
  match type of Hres with
  | context [unparse_type_ fuel a ?u] =>
    destruct (IH u a) as [(unp4 & Hrun4 & Hinv4 & Hk4)|Hu];
      [apply unp_inv_mk; [done|done|unfold MAX_DEPTH; lia|
                          by rewrite length_insert]
      |done|cbn [depth]; unfold MAX_DEPTH; lia| |]
  end.
  2:{ right. by rewrite Hu in Hres. }
  rewrite Hrun4 in Hres.
  destruct Hk4 as (Hd4 & _ & Hs4k & Hx4 & Hc4).
  cbn [depth stack oot unp_types] in Hd4, Hs4k, Hx4, Hc4.
  destruct Hinv4 as (Hs4 & Hl4 & Hex4 & Hdd4 & Hst4).
  unfold bind at 1 in Hres.
  cbn [emit oot exprs unp_types depth stack] in Hres.
  unfold bind at 1 in Hres.
  erewrite on_unp_types_Ok in Hres by (cbn [unp_types slot_of]; reflexivity).
  cbn [oot exprs unp_types depth stack] in Hres.
  (* the return type *)
  unfold bind at 1 in Hres. rewrite Hex4 in Hres.
  match type of Hres with
  | context [unparse_type_ fuel r ?u] =>
    destruct (IH u r) as [(unp6 & Hrun6 & Hinv6 & Hk6)|Hu];
      [by apply unp_inv_mk
      |done|cbn [depth]; unfold MAX_DEPTH; lia| |]
  end.
  2:{ right. by rewrite Hu in Hres. }
  rewrite Hrun6 in Hres.
  destruct Hk6 as (Hd6 & _ & Hs6k & Hx6 & Hc6).
  cbn [depth stack oot unp_types] in Hd6, Hs6k, Hx6, Hc6.
  destruct Hinv6 as (Hs6 & Hl6 & Hex6 & Hdd6 & Hst6).
  unfold bind at 1 in Hres.
  cbn [emit oot exprs unp_types depth stack] in Hres.
  (* the pop *)
  unfold unparse_pop in Hres. unfold bind at 1 in Hres.
  cbn [get oot exprs unp_types depth stack] in Hres.
  rewrite Hd6, Hd4 in Hres.
  rewrite i32_small in Hres by (unfold INT32_MAX; lia).
  replace (depth unp + 1 - 1) with (depth unp) in Hres by lia.
  destruct (Z.leb_spec 0 (depth unp)); [|lia]. cbn [negb] in Hres.
  unfold bind at 1 in Hres. rewrite DIE_IF_false in Hres.
  cbn [set_depth oot exprs unp_types depth stack] in Hres.
  rewrite u32_small in Hres by lia. rewrite Hex6 in Hres.
  left. eexists. split; [exact Hres|]. split.
  { apply unp_inv_mk; [done|done|unfold MAX_DEPTH; lia|done]. }
  split; [done|]. split; [done|]. cbn [stack oot unp_types].
  split; [|split].
  - intros j Hj. rewrite Hs6k by lia. rewrite Hs4k by lia.
    apply list_lookup_insert_ne. lia.
  - eapply extends_trans; [apply Hext|].
    eapply extends_trans; [by apply (extends_fputs "=(")|].
    eapply extends_trans; [apply Hx4|].
    eapply extends_trans; [by apply (extends_fputc (code " "))|].
    eapply extends_trans; [apply Hx6|]. by apply extends_fputc.
  - eapply same_classes_trans; [apply Hcl|].
    by eapply same_classes_trans.
Qed.

(** X14: printing a type is balanced and read-only: when
    [unparse_type_] returns, the depth of the expansion stack is what it
    was on entry and the entries below it are untouched, so the path of
    the caller is intact; the stream was only appended to; and every
    type slot still has the representative it had, the path compression
    of [masterise] being the only change to the slots.  Otherwise the
    run ends in the unchecked store past the end of the stack. *)
Theorem unparse_type_is_balanced (e : expr) (fuel : nat) (unp : Unparser)
    (t : nat) :
  wf_expr e →
  Forall (λ x, unpackable x = true) (flatten e) →
  Z.of_nat (length (flatten e)) < 2 ^ 32 →
  unp_inv e unp → (t < length (flatten e))%nat →
  Z.of_nat fuel + depth unp > MAX_DEPTH →
  (∃ unp', unparse_type_ fuel t unp = Ok (tt, unp')
     ∧ depth unp' = depth unp
     ∧ (∀ j, Z.of_nat j < depth unp → stack unp' !! j = stack unp !! j)
     ∧ (∃ s, oot unp' = oot unp +:+ s ∧ no_newline s = true)
     ∧ (∀ j m h, reach (unp_types unp) j m h →
          ∃ h', reach (unp_types unp') j m h')
     ∧ unp_inv e unp')
  ∨ unparse_type_ fuel t unp = Undefined StackIndex.
Proof.
  intros Hwf Hall Hmax Hinv Ht Hfuel.
  destruct (unparse_type__keeps e fuel unp t Hwf Hall Hmax Hinv Ht Hfuel)
    as [(unp' & Hrun & Hinv' & Hd & _ & Hst & Hext & Hcl)|Hu]; [|by right].
  left. exists unp'. split; [done|]. split; [done|]. split; [done|].
  split; [done|]. by split.
Qed.

Lemma unparse_type_is_balanced_witness :
  let e := ECall (ECall (EVar 5) (EVar 23)) (ECall (EVar 6) (EVar 23)) in
  let ts := [mkType 0 (Some 1%nat) (Some 2%nat); mkType 1 None None;
             mkType 2 (Some 5%nat) (Some 6%nat);
             mkType 3 (Some 1%nat) (Some 5%nat); mkType 1 None None;
             mkType 5 None None; mkType 6 None None] in
  let st := <[0%nat := Some 3%nat]> (replicate 16 None) in
  let unp := mkUnparser "t: " (flatten e) ts 1 st in
  unparse_type_ 16 0 unp
  = Ok (tt, mkUnparser "t: F=(X Fr=(Gr Frr))" (flatten e) ts 1
              (<[2%nat := Some 2%nat]> (<[1%nat := Some 0%nat]> st)))
  ∧ ((∃ unp', unparse_type_ 16 0 unp = Ok (tt, unp')
        ∧ depth unp' = depth unp
        ∧ (∀ j, Z.of_nat j < depth unp → stack unp' !! j = stack unp !! j)
        ∧ (∃ s, oot unp' = oot unp +:+ s ∧ no_newline s = true)
        ∧ (∀ j m h, reach (unp_types unp) j m h →
             ∃ h', reach (unp_types unp') j m h')
        ∧ unp_inv e unp')
     ∨ unparse_type_ 16 0 unp = Undefined StackIndex).
Proof.
  intros e ts st unp. split; [vm_compute; reflexivity|].
  apply (unparse_type_is_balanced e 16).
  - vm_compute. intuition discriminate.
  - repeat constructor.
  - vm_compute. reflexivity.
  - apply unp_inv_mk; [|reflexivity|vm_compute; intuition discriminate
                       |reflexivity].
    destruct (build_type_tree_typed e
                (set_nodes (new_ast "prog" "f x (g x)") (flatten e)))
      as (ttree & Hb & (Hinv & _) & _);
      [vm_compute; intuition discriminate|reflexivity
      |vm_compute; reflexivity|repeat constructor|].
    vm_compute in Hb. injection Hb as <-. exact Hinv.
  - simpl. lia.
  - vm_compute. reflexivity.
Defined.

(** * Application associates to the left *)

Lemma juxtapose_head (args : list expr) :
  26 ≤ idx_from_letter (deref (juxtapose args)).
Proof. destruct args; by vm_compute. Qed.

Lemma strlen_juxtapose (args : list expr) :
  Forall (λ a, app_only a = true) args →
  strlen (juxtapose args) = String.length (juxtapose args).
Proof.
  induction 1 as [|a rest Ha _ IH]; [done|].
  cbn [juxtapose strlen String.length].
  change (Ascii.eqb " " NUL) with false. cbv iota.
  rewrite (strlen_app _ _ (strlen_canon a Ha)), string_length_app.
  by rewrite IH.
Qed.

Lemma parse_expr_for_juxtapose (args : list expr) (fuel n : nat) (f : expr)
    (pre : list AstNode) (ast : Ast) :
  Forall (λ a, app_only a = true) args →
  nodes ast = pre ++ flatten f →
  (length args < n)%nat →
  (String.length (juxtapose args) ≤ fuel)%nat →
  free_alphabet ast →
  nnodes ast + Z.of_nat (String.length (juxtapose args))
  < nnodes_alloced ast →
  nnodes_alloced ast ≤ INT32_MAX →
  parse_expr_for (parse_non_call_expr (S fuel)) n (juxtapose args) ast
  = Ok (Some EmptyString,
        set_nodes ast (pre ++ flatten (left_nest f args))).
Proof.
  intros Hall. revert n f ast.
  induction Hall as [|a rest Ha _ IH];
    intros n f ast Hnodes Hn Hfuel Hfree Hcap Hmax.
  - destruct n as [|n]; [simpl in Hn; lia|].
    cbn [juxtapose left_nest fold_left].
    rewrite parse_expr_for_stop; cbn [eat_white].
    + do 2 f_equal. rewrite <- Hnodes. by destruct ast.
    + unfold nnodes. rewrite Hnodes, length_app.
      pose proof (flatten_nonempty f). lia.
    + apply parse_non_call_expr_nul.
  - destruct n as [|n]; [simpl in Hn; lia|].
    cbn [juxtapose length] in *. cbn [String.length] in Hfuel, Hcap.
    rewrite string_length_app in Hfuel, Hcap.
    pose proof (canon_length_flatten a Ha) as Hla.
    pose proof (flatten_nonempty a) as Hna.
    pose proof (flatten_nonempty f) as Hnf.
    assert (Hn0 : 0 < nnodes ast).
    { unfold nnodes. rewrite Hnodes, length_app. lia. }
    set (ast1 := set_nodes ast (nodes ast ++ flatten a)).
    assert (Hn1 : nnodes ast1 = nnodes ast + Z.of_nat (length (flatten a))).
    { unfold nnodes, ast1. cbn [set_nodes nodes]. rewrite length_app. lia. }
    assert (Hpnce : parse_non_call_expr (S fuel)
                      (eat_white (String " " (canon a +:+ juxtapose rest)))
                      ast
                    = Ok (Some (juxtapose rest), ast1)).
    { cbn [eat_white]. change (is_white " ") with true. cbv iota.
      rewrite (eat_white_canon a) by done.
      apply parse_non_call_expr_canon;
        [done|lia|apply juxtapose_head|done|lia|done]. }
    rewrite (parse_expr_for_step _ _ _ (juxtapose rest) _ ast1);
      [|done|exact Hpnce|lia|].
    2:{ change (nnodes_alloced ast1) with (nnodes_alloced ast). lia. }
    rewrite (IH n (ECall f a)).
    + reflexivity.
    + replace (nnodes ast1 - nnodes ast)
        with (Z.of_nat (length (flatten a))) by lia.
      unfold ast1. cbn [set_nodes nodes flatten]. rewrite Hnodes.
      by rewrite <- !(assoc_L (++)).
    + lia.
    + lia.
    + done.
    + change (nnodes_alloced (set_nodes ast1 ?l)) with (nnodes_alloced ast).
      unfold nnodes at 1. cbn [set_nodes nodes].
      rewrite length_app. cbn [length]. unfold nnodes in Hn1, Hcap. lia.
    + done.
Qed.

(** X16: application associates to the left: a callee followed by
    arguments, each written after one space, the callee and the
    arguments being letters or fully parenthesised applications, is
    parsed without syntax error to the tree that applies the callee to
    the first argument, the result to the second, and so on. *)
Theorem application_associates_left (name : string) (f : expr)
    (args : list expr) :
  app_only f = true → Forall (λ a, app_only a = true) args →
  Z.of_nat (String.length (canon f +:+ juxtapose args)) + 8 ≤ INT32_MAX →
  ∃ ast, parse name (canon f +:+ juxtapose args) = Ok ast
    ∧ nodes ast = flatten (left_nest f args) ∧ error ast = [].
Proof.
  intros Hf Hargs Hmax.
  set (src := canon f +:+ juxtapose args) in *.
  assert (Hlen : String.length src
                 = (String.length (canon f)
                    + String.length (juxtapose args))%nat)
    by apply string_length_app.
  assert (Hcapv : nnodes_alloced (new_ast name src)
                  = Z.of_nat (String.length src) + 8).
  { cbn [new_ast nnodes_alloced]. unfold src.
    rewrite (strlen_app _ _ (strlen_canon f Hf)), strlen_juxtapose by done.
    rewrite <- string_length_app. fold src. apply u32_small.
    unfold INT32_MAX in Hmax. lia. }
  pose proof (canon_length_flatten f Hf) as Hlf.
  assert (Hfree : free_alphabet (new_ast name src)).
  { intros t Ht. cbn [new_ast binding_depths].
    apply lookup_replicate. split; [done|lia]. }
  set (ast1 := set_nodes (new_ast name src) (flatten f)).
  assert (Hstep : parse_non_call_expr (S (String.length src)) src
                    (new_ast name src)
                  = Ok (Some (juxtapose args), ast1)).
  { unfold src at 2.
    rewrite (parse_non_call_expr_canon f);
      [done|done|lia|apply juxtapose_head|done| |].
    - rewrite Hcapv. change (nnodes (new_ast name src)) with 0. lia.
    - rewrite Hcapv. lia. }
  exists (set_nodes ast1 (flatten (left_nest f args))).
  split; [|done].
  unfold parse, parse_expr, parse_expr_.
  replace (eat_white src) with src
    by (symmetry; by apply eat_white_canon).
  unfold bind. rewrite (parse_expr_while_hit _ _ _ _ _ _ _ Hstep).
  rewrite (parse_expr_for_juxtapose args _ _ f [] ast1); [done|done|done| | | | |].
  - unfold src. rewrite string_length_app.
    assert (length args ≤ String.length (juxtapose args))%nat; [|lia].
    clear. induction args as [|a rest IH]; [done|].
    cbn [juxtapose length String.length]. rewrite string_length_app. lia.
  - lia.
  - done.
  - change (nnodes_alloced ast1) with (nnodes_alloced (new_ast name src)).
    rewrite Hcapv. unfold nnodes, ast1. cbn [set_nodes nodes]. lia.
  - change (nnodes_alloced ast1) with (nnodes_alloced (new_ast name src)).
    rewrite Hcapv. lia.
Qed.

Lemma application_associates_left_witness :
  ∃ ast, parse "prog" "f x (g y)" = Ok ast
    ∧ nodes ast = [Var 5; Var 23; Call 1; Var 6; Var 24; Call 1; Call 3]
    ∧ error ast = [].
Proof.
  apply (application_associates_left "prog" (EVar 5)
           [EVar 23; ECall (EVar 6) (EVar 24)]);
    [reflexivity|repeat constructor|vm_compute; discriminate].
Defined.

(** * The round trip of application-only programs *)

Lemma all_white_cons (c : ascii) (w : string) :
  all_white (String c w) = true → is_white c = true ∧ all_white w = true.
Proof. unfold all_white. cbn. by intros ?%andb_prop. Qed.

Lemma eat_white_skip (w s : string) :
  all_white w = true → eat_white (w +:+ s) = eat_white s.
Proof.
  induction w as [|c w IH]; [done|].
  intros [Hc Hw]%all_white_cons. rewrite string_app_cons.
  cbn [eat_white]. rewrite Hc. by apply IH.
Qed.

Lemma white_not_letter (c : ascii) :
  is_white c = true → 26 ≤ idx_from_letter c.
Proof.
  intros [->|[->| ->]]%is_white_bytes; by vm_compute.
Qed.

Lemma white_not_NUL (c : ascii) : is_white c = true → Ascii.eqb c NUL = false.
Proof. intros [->|[->| ->]]%is_white_bytes; reflexivity. Qed.

Lemma strlen_white (w : string) :
  all_white w = true → strlen w = String.length w.
Proof.
  induction w as [|c w IH]; [done|].
  intros [Hc Hw]%all_white_cons. cbn [strlen String.length].
  rewrite (white_not_NUL c Hc). by rewrite IH.
Qed.

Lemma stops_eat_white (rest : string) : stops rest → eat_white rest = rest.
Proof.
  intros (_ & _ & _ & _ & Hw). destruct rest as [|c rest]; [done|].
  cbn [eat_white]. cbn [deref] in Hw. by rewrite Hw.
Qed.

(** An operand starts with its letter or with ['(']. *)
Lemma text_head (a : atom) :
  valid a = true →
  ∃ c s, text a = String c s ∧ is_white c = false
    ∧ (is_name a = false → c = "("%char).
Proof.
  destruct a as [t|w1 h args w2]; cbn [valid text is_name]; intros H.
  - apply andb_prop in H as [H1%Z.leb_le H2%Z.ltb_lt].
    destruct (letter_facts t) as (_ & Hw & _); [lia|].
    by exists (letter t), EmptyString.
  - by eexists _, _.
Qed.

Lemma eat_white_text (a : atom) (rest : string) :
  valid a = true → eat_white (text a +:+ rest) = text a +:+ rest.
Proof.
  intros (c & s & -> & Hc & _)%text_head. rewrite string_app_cons.
  cbn [eat_white]. by rewrite Hc.
Qed.

(** After a letter comes white space, a parenthesis or the end. *)
Lemma text_args_head (l : tail) (w2 rest : string) :
  valid_args true l = true → all_white w2 = true → stops rest →
  26 ≤ idx_from_letter (deref (text_args l +:+ w2 +:+ rest)).
Proof.
  intros Hl Hw2 Hrest. destruct l as [|w a l]; cbn [text_args valid_args] in *.
  - destruct w2 as [|c w2]; [apply Hrest|].
    apply all_white_cons in Hw2 as [Hc _]. by apply white_not_letter.
  - apply andb_prop in Hl as [Hl _]. apply andb_prop in Hl as [Hl Ha].
    apply andb_prop in Hl as [Hw Hsep].
    destruct w as [|c w].
    + destruct (text_head a Ha) as (c & s & Hs & _ & Hp).
      destruct (is_name a); [done|]. rewrite Hs, (Hp eq_refl). by vm_compute.
    + apply all_white_cons in Hw as [Hc _]. by apply white_not_letter.
Qed.

Lemma tree_args_grows (l : tail) (f : expr) :
  (length (flatten f) ≤ length (flatten (tree_args f l)))%nat.
Proof.
  revert f. induction l as [|w a l IH]; intros f; cbn [tree_args]; [done|].
  specialize (IH (ECall f (tree a))). cbn [flatten] in IH.
  rewrite !length_app in IH. lia.
Qed.

(** The text is at least as long as the node array it is parsed to. *)
Lemma text_length_flatten :
  (∀ a, valid a = true →
     (length (flatten (tree a)) + (if is_name a then 0 else 2)
      ≤ String.length (text a))%nat)
  ∧ (∀ l b f, valid_args b l = true →
       (length (flatten (tree_args f l))
        ≤ length (flatten f) + (if b then 0 else 1)
          + String.length (text_args l))%nat).
Proof.
  apply atom_tail_ind.
  - intros t _. cbn. lia.
  - intros w1 h IHh args IHargs w2 H. cbn [valid] in H.
    apply andb_prop in H as [H _]. apply andb_prop in H as [H Hargs].
    apply andb_prop in H as [_ Hh].
    specialize (IHh Hh). specialize (IHargs _ (tree h) Hargs).
    cbn [tree text is_name String.length].
    rewrite !string_length_app. cbn [String.length].
    destruct (is_name h); lia.
  - intros b f _. cbn. lia.
  - intros w a IHa l IHl b f H. cbn [valid_args] in H.
    apply andb_prop in H as [H Hl]. apply andb_prop in H as [H Ha].
    apply andb_prop in H as [_ Hsep].
    specialize (IHa Ha). specialize (IHl _ (ECall f (tree a)) Hl).
    cbn [tree_args text_args flatten] in *.
    rewrite !length_app in IHl. cbn [length] in IHl.
    rewrite !string_length_app.
    destruct b, (is_name a) eqn:Hn, w as [|c w];
      cbn [andb negb is_empty String.length] in *; try done; try lia.
Qed.

Lemma strlen_text :
  (∀ a, valid a = true → strlen (text a) = String.length (text a))
  ∧ (∀ l b, valid_args b l = true →
       strlen (text_args l) = String.length (text_args l)).
Proof.
  apply atom_tail_ind.
  - intros t H. cbn [valid] in H.
    apply andb_prop in H as [H1%Z.leb_le H2%Z.ltb_lt].
    destruct (letter_facts t) as (_ & _ & Hnul); [lia|].
    cbn [text strlen String.length]. by apply Ascii.eqb_neq in Hnul as ->.
  - intros w1 h IHh args IHargs w2 H. cbn [valid] in H.
    apply andb_prop in H as [H Hw2]. apply andb_prop in H as [H Hargs].
    apply andb_prop in H as [Hw1 Hh].
    cbn [text strlen String.length].
    change (Ascii.eqb "(" NUL) with false. cbv iota.
    rewrite (strlen_app _ _ (strlen_white _ Hw1)).
    rewrite (strlen_app _ _ (IHh Hh)).
    rewrite (strlen_app _ _ (IHargs _ Hargs)).
    rewrite (strlen_app _ _ (strlen_white _ Hw2)).
    rewrite !string_length_app. done.
  - done.
  - intros w a IHa l IHl b H. cbn [valid_args] in H.
    apply andb_prop in H as [H Hl]. apply andb_prop in H as [H Ha].
    apply andb_prop in H as [Hw _]. cbn [text_args].
    rewrite (strlen_app _ _ (strlen_white _ Hw)).
    rewrite (strlen_app _ _ (IHa Ha)).
    rewrite (IHl _ Hl), !string_length_app. done.
Qed.

Lemma tree_app_only :
  (∀ a, valid a = true → app_only (tree a) = true)
  ∧ (∀ l b f, valid_args b l = true → app_only f = true →
       app_only (tree_args f l) = true).
Proof.
  apply atom_tail_ind.
  - done.
  - intros w1 h IHh args IHargs w2 H. cbn [valid] in H.
    apply andb_prop in H as [H _]. apply andb_prop in H as [H Hargs].
    apply andb_prop in H as [_ Hh]. cbn [tree].
    by apply (IHargs (is_name h)); [|apply IHh].
  - done.
  - intros w a IHa l IHl b f H Hf. cbn [valid_args] in H.
    apply andb_prop in H as [H Hl]. apply andb_prop in H as [_ Ha].
    cbn [tree_args]. apply (IHl _ _ Hl). cbn [app_only].
    by rewrite Hf, IHa.
Qed.

(** The parser on application-only text: [parse_non_call_expr] on an
    operand, and the [for] loop of [parse_expr] on the operands after the
    first. *)
Lemma parse_text :
  (∀ a, valid a = true →
     ∀ fuel rest ast,
       (String.length (text a) ≤ fuel)%nat →
       (is_name a = true → 26 ≤ idx_from_letter (deref rest)) →
       free_alphabet ast →
       nnodes ast + Z.of_nat (length (flatten (tree a))) ≤ nnodes_alloced ast →
       nnodes_alloced ast ≤ INT32_MAX →
       parse_non_call_expr fuel (text a +:+ rest) ast
       = Ok (Some rest, set_nodes ast (nodes ast ++ flatten (tree a))))
  ∧ (∀ l b, valid_args b l = true →
       ∀ f fuel n pre ast w2 rest,
         all_white w2 = true → stops rest →
         nodes ast = pre ++ flatten f →
         (String.length (text_args l) < n)%nat →
         (String.length (text_args l) ≤ fuel)%nat →
         free_alphabet ast →
         Z.of_nat (length pre + length (flatten (tree_args f l)))
         ≤ nnodes_alloced ast →
         nnodes_alloced ast ≤ INT32_MAX →
         parse_expr_for (parse_non_call_expr (S fuel)) n
           (text_args l +:+ w2 +:+ rest) ast
         = Ok (Some rest, set_nodes ast (pre ++ flatten (tree_args f l)))).
Proof.
  apply atom_tail_ind.
  - (* a letter *)
    intros t H fuel rest ast Hfuel Hrest Hfree Hcap Hmax. cbn [valid] in H.
    apply andb_prop in H as [H1%Z.leb_le H2%Z.ltb_lt].
    destruct (letter_facts t) as (Hidx & _); [lia|].
    destruct fuel as [|fuel]; [simpl in Hfuel; lia|].
    cbn [text tree flatten length] in *. rewrite string_app_cons.
    change (EmptyString +:+ rest) with rest.
    cbn [parse_non_call_expr]. unfold bind at 1.
    rewrite lex_varname_single; cbn [deref next]; [|lia|by apply Hrest].
    rewrite Hidx. destruct (Z.leb_spec 0 t); [|lia].
    unfold bind. rewrite push_var_free; [done|lia|by apply Hfree|lia].
  - (* a parenthesised application *)
    intros w1 h IHh args IHargs w2 H fuel rest ast Hfuel _ Hfree Hcap Hmax.
    cbn [valid] in H.
    apply andb_prop in H as [H Hw2]. apply andb_prop in H as [H Hargs].
    apply andb_prop in H as [Hw1 Hh].
    specialize (IHh Hh). specialize (IHargs _ Hargs).
    cbn [text tree] in *. cbn [String.length] in Hfuel.
    rewrite !string_length_app in Hfuel. cbn [String.length] in Hfuel.
    pose proof (tree_args_grows args (tree h)) as Hgrow.
    pose proof (flatten_nonempty (tree h)) as Hne.
    destruct fuel as [|fuel]; [lia|].
    rewrite string_app_cons, !string_app_assoc.
    rewrite parse_non_call_expr_paren.
    set (rest2 := ")" +:+ rest).
    unfold bind at 1. unfold parse_expr_.
    rewrite (eat_white_skip _ _ Hw1), (eat_white_text h) by done.
    destruct fuel as [|n1]; [lia|].
    unfold bind at 1.
    set (ast1 := set_nodes ast (nodes ast ++ flatten (tree h))).
    rewrite (parse_expr_while_hit _ _ _ _
               (text_args args +:+ w2 +:+ rest2) _ ast1).
    2:{ apply IHh; [lia| |done|lia|done].
        intros Hn. rewrite Hn in Hargs.
        apply text_args_head; [done|done|by vm_compute]. }
    rewrite (IHargs (tree h) n1 (S n1) (nodes ast) ast1 w2 rest2);
      [|done|by vm_compute|done|lia|lia|done| |done].
    2:{ change (nnodes_alloced ast1) with (nnodes_alloced ast).
        unfold nnodes in Hcap. lia. }
    unfold rest2. rewrite string_app_cons. cbn [deref next].
    change (Ascii.eqb ")" ")") with true. cbv iota.
    unfold ret. by change (EmptyString +:+ rest) with rest.
  - (* no further operand *)
    intros b _ f fuel n pre ast w2 rest Hw2 Hrest Hnodes Hn _ _ _ _.
    destruct n as [|n]; [simpl in Hn; lia|].
    cbn [text_args tree_args]. change (EmptyString +:+ ?x) with x.
    assert (Hew : eat_white (w2 +:+ rest) = rest)
      by (by rewrite (eat_white_skip _ _ Hw2), (stops_eat_white _ Hrest)).
    rewrite parse_expr_for_stop; rewrite ?Hew.
    + do 2 f_equal. rewrite <- Hnodes. by destruct ast.
    + unfold nnodes. rewrite Hnodes, length_app.
      pose proof (flatten_nonempty f). lia.
    + destruct Hrest as (? & ? & ? & ? & _).
      by apply parse_non_call_expr_none.
  - (* one more operand *)
    intros w a IHa l IHl b H f fuel n pre ast w2 rest Hw2 Hrest Hnodes Hn
      Hfuel Hfree Hcap Hmax.
    cbn [valid_args] in H.
    apply andb_prop in H as [H Hl]. apply andb_prop in H as [H Ha].
    apply andb_prop in H as [Hw _].
    specialize (IHa Ha). specialize (IHl _ Hl).
    destruct (text_head a Ha) as (c & s & Hs & _).
    cbn [text_args tree_args] in *.
    rewrite !string_length_app in Hn, Hfuel.
    assert (Hla : (0 < String.length (text a))%nat)
      by (rewrite Hs; simpl; lia).
    destruct n as [|n]; [lia|].
    pose proof (tree_args_grows l (ECall f (tree a))) as Hgrow.
    cbn [flatten] in Hgrow. rewrite !length_app in Hgrow.
    cbn [length] in Hgrow.
    pose proof (flatten_nonempty f) as Hnf.
    pose proof (flatten_nonempty (tree a)) as Hna.
    assert (Hn0 : nnodes ast = Z.of_nat (length pre + length (flatten f)))
      by (unfold nnodes; by rewrite Hnodes, length_app).
    set (ast1 := set_nodes ast (nodes ast ++ flatten (tree a))).
    assert (Hn1 : nnodes ast1
                  = nnodes ast + Z.of_nat (length (flatten (tree a)))).
    { unfold nnodes, ast1. cbn [set_nodes nodes]. rewrite length_app. lia. }
    rewrite !string_app_assoc.
    assert (Hpnce : parse_non_call_expr (S fuel)
                      (eat_white (w +:+ text a +:+ text_args l +:+ w2 +:+ rest))
                      ast
                    = Ok (Some (text_args l +:+ w2 +:+ rest), ast1)).
    { rewrite (eat_white_skip _ _ Hw), (eat_white_text a) by done.
      apply IHa; [lia| |done|lia|done].
      intros Hname. rewrite Hname in Hl. by apply text_args_head. }
    rewrite (parse_expr_for_step _ _ _ (text_args l +:+ w2 +:+ rest) ast ast1);
      [|lia|exact Hpnce|lia|].
    2:{ change (nnodes_alloced ast1) with (nnodes_alloced ast). lia. }
    replace (nnodes ast1 - nnodes ast)
      with (Z.of_nat (length (flatten (tree a)))) by lia.
    rewrite (IHl (ECall f (tree a)) fuel n pre _ w2 rest);
      [reflexivity|done|done| |lia|lia|done| |done].
    + unfold ast1. cbn [set_nodes nodes flatten]. rewrite Hnodes.
      by rewrite <- !(assoc_L (++)).
    + change (nnodes_alloced (set_nodes ast1 ?x)) with (nnodes_alloced ast).
      done.
Qed.

(** A whole program of the grammar is parsed, without syntax error, to
    the postfix layout of its tree. *)
Lemma parse_program_text (name w1 : string) (h : atom) (args : tail)
    (w2 : string) :
  valid (AGroup w1 h args w2) = true →
  Z.of_nat (String.length (program_text w1 h args w2)) + 8 ≤ INT32_MAX →
  parse name (program_text w1 h args w2)
  = Ok (set_nodes (new_ast name (program_text w1 h args w2))
                  (flatten (tree (AGroup w1 h args w2)))).
Proof.
  intros H Hmax. pose proof H as Hv. cbn [valid] in H.
  apply andb_prop in H as [H Hw2]. apply andb_prop in H as [H Hargs].
  apply andb_prop in H as [Hw1 Hh].
  destruct parse_text as [Hatom Htail].
  destruct text_length_flatten as [Hsize _]. specialize (Hsize _ Hv).
  cbn [tree is_name text String.length] in Hsize.
  set (src := program_text w1 h args w2) in *.
  assert (Hlen : String.length src
                 = (String.length w1 + (String.length (text h)
                    + (String.length (text_args args) + String.length w2)))%nat).
  { unfold src, program_text. by rewrite !string_length_app. }
  rewrite !string_length_app in Hsize. cbn [String.length] in Hsize.
  assert (Hcapv : nnodes_alloced (new_ast name src)
                  = Z.of_nat (String.length src) + 8).
  { cbn [new_ast nnodes_alloced].
    replace (strlen src) with (String.length src).
    - apply u32_small. unfold INT32_MAX in Hmax. lia.
    - unfold src, program_text. destruct strlen_text as [Hsa Hst].
      rewrite (strlen_app _ _ (strlen_white _ Hw1)).
      rewrite (strlen_app _ _ (Hsa _ Hh)).
      rewrite (strlen_app _ _ (Hst _ _ Hargs)).
      rewrite (strlen_white _ Hw2), !string_length_app. done. }
  assert (Hfree : free_alphabet (new_ast name src)).
  { intros t Ht. cbn [new_ast binding_depths].
    apply lookup_replicate. split; [done|lia]. }
  pose proof (tree_args_grows args (tree h)) as Hgrow.
  set (ast1 := set_nodes (new_ast name src) (flatten (tree h))).
  assert (Hstep : parse_non_call_expr (S (String.length src))
                    (text h +:+ text_args args +:+ w2 +:+ EmptyString)
                    (new_ast name src)
                  = Ok (Some (text_args args +:+ w2 +:+ EmptyString), ast1)).
  { apply (Hatom h Hh); [lia| |done| |].
    - intros Hn. rewrite Hn in Hargs.
      apply text_args_head; [done|done|by vm_compute].
    - rewrite Hcapv. change (nnodes (new_ast name src)) with 0. lia.
    - rewrite Hcapv. lia. }
  unfold parse, parse_expr, parse_expr_.
  replace (eat_white src)
    with (text h +:+ text_args args +:+ w2 +:+ EmptyString).
  2:{ unfold src, program_text.
      rewrite (eat_white_skip _ _ Hw1), (eat_white_text h) by done.
      by rewrite string_app_nil_r. }
  unfold bind. rewrite (parse_expr_while_hit _ _ _ _ _ _ _ Hstep).
  rewrite (Htail args _ Hargs (tree h) (String.length src)
             (S (String.length src)) [] ast1 w2 EmptyString);
    [done|done|by vm_compute|done|lia|lia|done| |].
  - change (nnodes_alloced ast1) with (nnodes_alloced (new_ast name src)).
    rewrite Hcapv. cbn [length]. lia.
  - change (nnodes_alloced ast1) with (nnodes_alloced (new_ast name src)).
    rewrite Hcapv. lia.
Qed.

(** A tree whose nodes are all variables and calls is an application of
    letters. *)
Lemma app_only_unpackable (e : expr) :
  wf_expr e → Forall (λ n, unpackable n = true) (flatten e) →
  app_only e = true.
Proof.
  induction e as [t|d|b IHb t|f IHf a IHa]; cbn [flatten wf_expr app_only].
  - intros Ht _. apply andb_true_intro. split; [apply Z.leb_le|apply Z.ltb_lt]; lia.
  - intros _ H. by apply Forall_cons in H as [? _].
  - intros _ H. apply Forall_app in H as [_ H].
    apply Forall_cons in H as [_ H]. by apply Forall_cons in H as [? _].
  - intros (Hf & Ha & _) H.
    apply Forall_app in H as [H1 H]. apply Forall_app in H as [H2 _].
    by rewrite IHf, IHa.
Qed.

Lemma canon_length_le (e : expr) :
  app_only e = true →
  (String.length (canon e) + 3 ≤ 4 * length (flatten e))%nat.
Proof.
  induction e as [t|d|b IHb t|f IHf a IHa]; try done; intros H.
  cbn [app_only] in H. apply andb_prop in H as [Hf Ha].
  specialize (IHf Hf). specialize (IHa Ha).
  rewrite canon_call. cbn [String.length flatten].
  rewrite !string_length_app, !length_app. cbn [String.length length].
  rewrite !string_length_app. cbn [String.length]. lia.
Qed.

(** C5, counterexample: the text re-printed for [x (y z)] is not
    [((x y) z)].  The parser alone shows why: [x (y z)] and [((x y) z)]
    are stored as different node arrays, so no printer that writes a text
    of the stored tree can turn the first into the second. *)
Lemma reprint_keeps_parentheses :
  obind (parse "prog" "x (y z)") (act_unparse EmptyString) ≠ Ok "((x y) z)"
  ∧ (∃ a b, parse "prog" "x (y z)" = Ok a ∧ parse "prog" "((x y) z)" = Ok b
       ∧ nodes a = [Var 23; Var 24; Var 25; Call 1; Call 3]
       ∧ nodes b = [Var 23; Var 24; Call 1; Var 25; Call 1]).
Proof.
  split; [vm_compute; discriminate|].
  eexists _, _. split; [vm_compute; reflexivity|].
  split; [vm_compute; reflexivity|]. split; reflexivity.
Qed.

(** C5, as amended: parsing an application-only program and re-printing
    it writes the fully parenthesised text of the program's tree, in
    which juxtaposition associates to the left and parentheses group.
    First, for every text of the grammar (letters, parentheses about an
    application, white space between operands and inside parentheses and
    around the program), [parse] returns without syntax error the postfix
    layout of the tree of the text, and [act_unparse] writes the
    canonical text of that tree.  Second, for every source that [parse]
    accepts without syntax error as variables and calls only, what
    [act_unparse] writes is the canonical text of a tree that is parsed
    back to the same nodes and re-printed unchanged.  So [x y z] is
    re-printed as [((x y) z)] and [x (y z)] as [(x (y z))]. *)
Theorem reprint_is_canonical :
  (∀ name w1 h args w2 out,
     valid (AGroup w1 h args w2) = true →
     Z.of_nat (String.length (program_text w1 h args w2)) + 8 ≤ INT32_MAX →
     ∃ ast, parse name (program_text w1 h args w2) = Ok ast
       ∧ error ast = []
       ∧ nodes ast = flatten (tree (AGroup w1 h args w2))
       ∧ act_unparse out ast
         = Ok (out +:+ canon (tree (AGroup w1 h args w2))))
  ∧ (∀ name src ast out,
       strlen src = String.length src →
       4 * (Z.of_nat (String.length src) + 8) + 8 ≤ INT32_MAX →
       parse name src = Ok ast → error ast = [] →
       Forall (λ n, unpackable n = true) (nodes ast) →
       ∃ e, app_only e = true ∧ nodes ast = flatten e
         ∧ act_unparse out ast = Ok (out +:+ canon e)
         ∧ ∃ ast', parse name (canon e) = Ok ast'
             ∧ nodes ast' = nodes ast ∧ error ast' = []
             ∧ act_unparse out ast' = Ok (out +:+ canon e))
  ∧ obind (parse "prog" "x y z") (act_unparse EmptyString) = Ok "((x y) z)"
  ∧ obind (parse "prog" "x (y z)") (act_unparse EmptyString) = Ok "(x (y z))".
Proof.
  split; [|split; [|split; vm_compute; reflexivity]].
  - intros name w1 h args w2 out Hv Hmax.
    eexists. split; [by apply parse_program_text|].
    cbn [set_nodes nodes error new_ast]. split; [done|]. split; [done|].
    destruct text_length_flatten as [Hsize _]. specialize (Hsize _ Hv).
    cbn [is_name text String.length] in Hsize.
    assert (Hle : (String.length (w1 +:+ text h +:+ text_args args
                                  +:+ w2 +:+ ")")
                   ≤ S (String.length (program_text w1 h args w2)))%nat).
    { unfold program_text. rewrite !string_length_app.
      cbn [String.length]. lia. }
    apply act_unparse_flatten; [done| |cbn [set_nodes nodes]; lia].
    destruct tree_app_only as [Happ _]. by apply Happ.
  - intros name src ast out Hc Hmax Hp Herr Hall.
    assert (Hmax' : Z.of_nat (String.length src) + 8 ≤ INT32_MAX) by lia.
    pose proof (parse_expr_run name src Hc Hmax') as Hrun.
    destruct (parse_Ok_inv _ _ _ Hp) as [r Hr]. rewrite Hr in Hrun.
    destruct Hrun as (Hstep & Hadv & Hnone).
    destruct r as [zE|]; [|by destruct Hnone].
    destruct (Hadv zE eq_refl) as [_ Hne].
    destruct (parse_flatten _ _ _ Hp) as [[Hnil|(e & Hwf & He)] _]; [done|].
    rewrite He in Hall.
    pose proof (app_only_unpackable e Hwf Hall) as Happ.
    pose proof (canon_length_le e Happ) as Hcl.
    destruct Hstep as [(Henv & _ & _ & _ & Ha & _) _].
    destruct Henv as (_ & _ & _ & Hn & _).
    assert (Hcapv : nnodes_alloced (new_ast name src)
                    = Z.of_nat (String.length src) + 8).
    { cbn [new_ast nnodes_alloced]. rewrite Hc. apply u32_small.
      unfold INT32_MAX in Hmax. lia. }
    rewrite Ha, Hcapv in Hn. unfold nnodes in Hn. rewrite He in Hn.
    assert (Hout : ∀ a, nodes a = flatten e →
                        act_unparse out a = Ok (out +:+ canon e)).
    { intros a Hna. apply act_unparse_flatten; [done|done|].
      rewrite Hna. lia. }
    exists e. split; [done|]. split; [done|]. split; [by apply Hout|].
    eexists. split; [apply parse_canon; [done|lia]|].
    cbn [set_nodes nodes error new_ast]. split; [done|]. split; [done|].
    by apply Hout.
Qed.

Lemma reprint_is_canonical_witness :
  (∃ ast, parse "prog" " f(g x) y " = Ok ast
     ∧ error ast = []
     ∧ nodes ast = [Var 5; Var 6; Var 23; Call 1; Call 3; Var 24; Call 1]
     ∧ act_unparse EmptyString ast = Ok "((f (g x)) y)")
  ∧ (∃ e, app_only e = true
       ∧ [Var 5; Var 6; Var 23; Call 1; Call 3; Var 24; Call 1] = flatten e
       ∧ ∃ ast', parse "prog" (canon e) = Ok ast'
           ∧ nodes ast' = [Var 5; Var 6; Var 23; Call 1; Call 3; Var 24; Call 1]
           ∧ error ast' = []
           ∧ act_unparse EmptyString ast' = Ok (EmptyString +:+ canon e)).
Proof.
  destruct reprint_is_canonical as (H1 & H2 & _). split.
  - apply (H1 "prog" " " (AVar 5)
              (TCons EmptyString
                 (AGroup EmptyString (AVar 6)
                    (TCons " " (AVar 23) TNil) EmptyString)
                 (TCons " " (AVar 24) TNil))
              " " EmptyString);
      [reflexivity|vm_compute; discriminate].
  - destruct (H2 "prog" " f(g x) y "
                (set_nodes (new_ast "prog" " f(g x) y ")
                   [Var 5; Var 6; Var 23; Call 1; Call 3; Var 24; Call 1])
                EmptyString)
      as (e & Happ & He & _ & Hback);
      [reflexivity|vm_compute; discriminate|vm_compute; reflexivity
      |reflexivity|repeat constructor|].
    exists e. split; [done|]. split; [done|]. exact Hback.
Defined.

(** * The lines of [act_type] *)

(** ** Slot arrays that print alike *)

Lemma same_types_refl (ts : list Type_) : same_types ts ts.
Proof.
  split; [done|]. split; [|split; apply same_classes_refl].
  intros j t t' H H'. rewrite H in H'. by injection H' as <-.
Qed.

Lemma same_types_sym (ts ts' : list Type_) :
  same_types ts ts' → same_types ts' ts.
Proof.
  intros (Hl & Hf & H1 & H2). split; [done|]. split; [|done].
  intros j t t' H H'. destruct (Hf j t' t H' H). done.
Qed.

Lemma same_types_trans (ts1 ts2 ts3 : list Type_) :
  same_types ts1 ts2 → same_types ts2 ts3 → same_types ts1 ts3.
Proof.
  intros (Hl1 & Hf1 & Ha1 & Hb1) (Hl2 & Hf2 & Ha2 & Hb2).
  split; [congruence|]. split.
  - intros j t t' H H'.
    destruct (lookup_lt_is_Some_2 ts2 j) as [t2 H2].
    { rewrite <- Hl1. by apply lookup_lt_Some in H. }
    destruct (Hf1 j t t2 H H2) as [-> ->]. by apply (Hf2 j).
  - split; by eapply same_classes_trans.
Qed.

Lemma compresses_same_types (ts ts' : list Type_) :
  wf_masters ts → compresses ts ts' → same_types ts ts'.
Proof.
  intros Hwf Hc. pose proof (compresses_same_classes _ _ Hc) as Hcl.
  destruct Hc as (Hl & _ & Hf & _ & _).
  split; [done|]. split; [|split; [done|]].
  - intros j t t' H H'. destruct (Hf j t H) as (t'' & H'' & Ha & Hr).
    rewrite H' in H''. injection H'' as <-. done.
  - intros j m h H.
    assert (Hj : (j < length ts)%nat).
    { rewrite <- Hl. destruct (reach_lookup _ _ _ _ H) as [t Ht].
      by apply lookup_lt_Some in Ht. }
    destruct (Hwf j Hj) as (r & h0 & Hr & _).
    destruct (Hcl j r h0 Hr) as [h' Hr'].
    destruct (reach_det _ _ _ _ _ _ H Hr') as [-> _]. by exists h0.
Qed.

(** ** The text of a type name *)

Lemma fputc_times_app (k : nat) (c : Z) (out s : string) :
  fputc_times k c (out +:+ s) = out +:+ fputc_times k c s.
Proof.
  revert s. induction k as [|k IH]; intros s; [done|].
  cbn [fputc_times]. unfold fputc. rewrite string_app_assoc. apply IH.
Qed.

(** What [print_typename] appends does not depend on the stream. *)
Lemma print_typename_text (out res : string) (l : list AstNode) (idx : Z) :
  Forall (λ n, ∀ t, n = Var t → 0 ≤ t < 26) l →
  print_typename out l idx = Ok res →
  ∃ name, no_newline name = true
    ∧ ∀ out', print_typename out' l idx = Ok (out' +:+ name).
Proof.
  intros Htok Hp.
  assert (Hany : ∀ out', ∃ res', print_typename out' l idx = Ok res').
  { intros out'. unfold print_typename in *.
    destruct (print_typename_unwrap _ _ _ _) as [[val k]| | |]; [|done..].
    by eexists. }
  destruct (Hany EmptyString) as [name Hname].
  destruct (print_typename_extends _ _ _ _ Htok Hname) as (s & Hs & Hnl).
  change (EmptyString +:+ s) with s in Hs. subst s.
  exists name. split; [done|]. intros out'.
  unfold print_typename in *.
  destruct (print_typename_unwrap _ _ _ _) as [[val k]| | |]; [|done..].
  cbn [obind] in *. injection Hname as <-. f_equal.
  unfold fputc at 1.
  rewrite fputc_times_app. by unfold fputc.
Qed.

(** ** One step of [unparse_type_] *)

(** Up to the type name: the representative is looked up, with path
    compression, and its name is written. *)
Lemma unparse_type__step (e : expr) (fuel : nat) (unp : Unparser) (t : nat) :
  wf_expr e →
  Forall (λ x, unpackable x = true) (flatten e) →
  Z.of_nat (length (flatten e)) < 2 ^ 32 →
  unp_inv e unp → (t < length (flatten e))%nat →
  ∃ idx ts1 ty name,
    (∃ h, reach (unp_types unp) t idx h)
    ∧ compresses (unp_types unp) ts1
    ∧ slots_inv (length (flatten e)) ts1
    ∧ length ts1 = length (flatten e)
    ∧ (idx < length (flatten e))%nat
    ∧ unp_types unp !! idx = Some ty ∧ ts1 !! idx = Some ty
    ∧ master_t ty = idx
    ∧ slot_ok (length (flatten e)) ty
    ∧ no_newline name = true
    ∧ (∀ out, print_typename out (flatten e) (Z.of_nat idx)
              = Ok (out +:+ name))
    ∧ unparse_type_ (S fuel) t unp
      = unparse_type_rest fuel idx ty
          (mkUnparser (oot unp +:+ name) (flatten e) ts1 (depth unp)
                      (stack unp)).
Proof.
  intros Hwfe Hall Hmax Hinv Ht.
  pose proof (unpackable_tokens e Hwfe Hall) as Htoks.
  destruct Hinv as ((Hok & Hfld & Hwf) & Hlen & Hex & Hd & Hst).
  destruct (masterise_spec _ _ t Hok Hwf Ht)
    as (idx & ts1 & ty & Hm & Hc & Hok1 & Hwf1 & Hidx & Hty0 & Hty & Hmty & Hr).
  destruct (print_typename_total e (oot unp) idx Hall Hmax Hidx) as (res & Hn).
  destruct (print_typename_text _ _ _ _ Htoks Hn) as (name & Hnl & Hname).
  assert (Hfld1 : fields_ok (length (flatten e)) ts1)
    by (by apply (compresses_fields _ (unp_types unp))).
  assert (Hl1 : length ts1 = length (flatten e))
    by (destruct Hc; congruence).
  exists idx, ts1, ty, name.
  split; [done|]. split; [done|]. split; [by unfold slots_inv|].
  split; [done|]. split; [done|]. split; [done|]. split; [done|].
  split; [done|]. split; [by apply (Hfld1 idx)|]. split; [done|].
  split; [done|].
  cbn [unparse_type_].
  unfold bind at 1. rewrite (on_unp_types_Ok _ _ _ _ Hm).
  unfold bind at 1. cbn [get oot exprs]. rewrite Hex, Hname.
  unfold bind at 1. cbn [emit oot exprs unp_types depth stack].
  unfold bind at 1.
  erewrite on_unp_types_Ok by (cbn [unp_types]; by apply read_slot_ok).
  cbn [oot exprs unp_types depth stack].
  unfold bind at 1. rewrite Hmty.
  erewrite on_unp_types_Ok by (cbn [unp_types]; by apply read_slot_ok).
  cbn [oot exprs unp_types depth stack]. reflexivity.
Qed.

(** The push of a representative: refused when it is on the stack,
    stored at [depth] otherwise, past the end of the stack when that is
    full. *)
Lemma unparse_push_run (unp : Unparser) (idx : nat) (ty : Type_) :
  unp_types unp !! idx = Some ty → master_t ty = idx →
  0 ≤ depth unp ≤ MAX_DEPTH → length (stack unp) = Z.to_nat MAX_DEPTH →
  unparse_push idx unp
  = match stack_scan (stack unp) (Z.to_nat (depth unp)) idx with
    | Some true => Ok (false, unp)
    | Some false =>
      if depth unp <? MAX_DEPTH then
        Ok (true, mkUnparser (oot unp) (exprs unp) (unp_types unp)
                    (depth unp + 1)
                    (<[Z.to_nat (depth unp) := Some idx]> (stack unp)))
      else Undefined StackIndex
    | None => Undefined StackIndex
    end.
Proof.
  intros Hty Hm Hd Hst. unfold unparse_push.
  unfold bind at 1.
  erewrite on_unp_types_Ok by (by apply read_slot_ok).
  unfold bind at 1. rewrite Hm, Nat.eqb_refl. cbn [negb].
  rewrite DIE_IF_false. unfold bind at 1.
  cbn [get oot exprs unp_types depth stack].
  destruct (stack_scan _ _ _) as [[|]|]; [by destruct unp| |done].
  rewrite Hst. unfold MAX_DEPTH in *.
  destruct (Z.ltb_spec (depth unp) (Z.of_nat (Z.to_nat 16))) as [Hlt|Hge];
    destruct (Z.ltb_spec (depth unp) 16); try lia; [|done].
  unfold bind, put, ret. by rewrite u32_small by lia.
Qed.

(** ** Printing does not depend on earlier printing *)

(** Two printers at the same point of an expansion, on slot arrays with
    the same classes and function structure, write the same text for a
    slot and stay in step; or both run into the unchecked store past the
    end of the stack. *)
Lemma unparse_type__agree (e : expr) (fuel : nat) (unp1 unp2 : Unparser)
    (t : nat) :
  wf_expr e →
  Forall (λ x, unpackable x = true) (flatten e) →
  Z.of_nat (length (flatten e)) < 2 ^ 32 →
  unp_inv e unp1 → unp_inv e unp2 → printers_agree unp1 unp2 →
  (t < length (flatten e))%nat →
  Z.of_nat fuel + depth unp1 > MAX_DEPTH →
  (∃ s unp1' unp2',
      unparse_type_ fuel t unp1 = Ok (tt, unp1')
      ∧ unparse_type_ fuel t unp2 = Ok (tt, unp2')
      ∧ oot unp1' = oot unp1 +:+ s ∧ oot unp2' = oot unp2 +:+ s
      ∧ no_newline s = true
      ∧ unp_inv e unp1' ∧ unp_inv e unp2'
      ∧ printers_agree unp1' unp2'
      ∧ depth unp1' = depth unp1
      ∧ same_types (unp_types unp1) (unp_types unp1')
      ∧ same_types (unp_types unp2) (unp_types unp2'))
  ∨ (unparse_type_ fuel t unp1 = Undefined StackIndex
     ∧ unparse_type_ fuel t unp2 = Undefined StackIndex).
Proof.
  intros Hwfe Hall Hmax. revert unp1 unp2 t.
  induction fuel as [|fuel IH]; intros unp1 unp2 t Hinv1 Hinv2 Hag Ht Hfuel.
  { destruct Hinv1 as (_ & _ & _ & Hd & _). unfold MAX_DEPTH in *. lia. }
  destruct (unparse_type__step e fuel unp1 t Hwfe Hall Hmax Hinv1 Ht)
    as (idx & ts1 & ty1 & name & [h1 Hr1] & Hc1 & Hs1 & Hl1 & Hidx & Hty01
        & Hty1 & Hm1 & Hok1 & Hnl & Hname & Hrun1).
  destruct (unparse_type__step e fuel unp2 t Hwfe Hall Hmax Hinv2 Ht)
    as (idx2 & ts2 & ty2 & name2 & [h2 Hr2] & Hc2 & Hs2 & Hl2 & _ & Hty02
        & Hty2 & Hm2 & _ & _ & Hname2 & Hrun2).
  destruct Hag as (Hd & Hst & Hty).
  destruct Hinv1 as ((_ & _ & Hwf1) & Hlen1 & Hex1 & Hdd1 & Hstl1).
  destruct Hinv2 as ((_ & _ & Hwf2) & Hlen2 & Hex2 & Hdd2 & Hstl2).
  (* the same representative, hence the same name and fields *)
  assert (idx2 = idx) as ->.
  { destruct Hty as (_ & _ & Hcl & _). destruct (Hcl t idx h1 Hr1) as [h' Hr'].
    by destruct (reach_det _ _ _ _ _ _ Hr2 Hr') as [-> _]. }
  assert (name2 = name) as ->.
  { specialize (Hname EmptyString). rewrite Hname2 in Hname.
    by injection Hname. }
  assert (Hf : arg_t ty2 = arg_t ty1 ∧ ret_t ty2 = ret_t ty1).
  { destruct Hty as (_ & Hf & _). by destruct (Hf idx ty1 ty2 Hty01 Hty02). }
  destruct Hf as [Ha Hr].
  pose proof (compresses_same_types _ _ Hwf1 Hc1) as HT1.
  pose proof (compresses_same_types _ _ Hwf2 Hc2) as HT2.
  assert (HT12 : same_types ts1 ts2).
  { eapply same_types_trans; [apply same_types_sym, HT1|].
    exact (same_types_trans _ _ _ Hty HT2). }
  remember (unparse_type_ (S fuel) t unp1) as res1 eqn:Hq1.
  remember (unparse_type_ (S fuel) t unp2) as res2 eqn:Hq2.
  clear Hq1 Hq2. rename Hrun1 into Hres1. rename Hrun2 into Hres2.
  unfold unparse_type_rest in Hres1, Hres2.
  rewrite Ha, Hr, <- Hd, <- Hst in Hres2.
  assert (Hsimple :
    ∃ s unp1' unp2',
      Ok (tt, mkUnparser (oot unp1 +:+ name) (flatten e) ts1 (depth unp1)
                (stack unp1)) = Ok (tt, unp1')
      ∧ Ok (tt, mkUnparser (oot unp2 +:+ name) (flatten e) ts2 (depth unp1)
                  (stack unp1)) = Ok (tt, unp2')
      ∧ oot unp1' = oot unp1 +:+ s ∧ oot unp2' = oot unp2 +:+ s
      ∧ no_newline s = true
      ∧ unp_inv e unp1' ∧ unp_inv e unp2'
      ∧ printers_agree unp1' unp2'
      ∧ depth unp1' = depth unp1
      ∧ same_types (unp_types unp1) (unp_types unp1')
      ∧ same_types (unp_types unp2) (unp_types unp2')).
  { eexists name, _, _. split; [reflexivity|]. split; [reflexivity|].
    cbn [oot depth stack unp_types].
    split; [done|]. split; [done|]. split; [done|].
    split; [by apply unp_inv_mk|].
    split; [apply unp_inv_mk; [done|done|lia|congruence]|].
    split; [by split|]. by split. }
  destruct (bool_decide (is_Some (arg_t ty1))) eqn:Hfun;
    cbn [negb] in Hres1, Hres2.
  2:{ left. subst res1 res2. exact Hsimple. }
  apply bool_decide_eq_true in Hfun.
  destruct (slot_ok_Some _ ty1 Hok1 Hfun) as (a & r & Hat & Hrt & HaK & HrK).
  (* the push *)
  unfold bind at 1 in Hres1. unfold bind at 1 in Hres2.
  match type of Hres1 with
  | context [unparse_push idx ?u] =>
    rewrite (unparse_push_run u idx ty1 Hty1 Hm1 Hdd1 Hstl1) in Hres1
  end.
  match type of Hres2 with
  | context [unparse_push idx ?u] =>
    rewrite (unparse_push_run u idx ty2 Hty2 Hm2 Hdd1 Hstl1) in Hres2
  end.
  cbn [oot exprs unp_types depth stack] in Hres1, Hres2.
  unfold MAX_DEPTH in Hdd1, Hdd2, Hstl1, Hstl2, Hfuel.
  destruct (stack_scan (stack unp1) (Z.to_nat (depth unp1)) idx)
    as [[|]|] eqn:Hscan.
  { cbn [negb ret] in Hres1, Hres2. left. subst res1 res2. exact Hsimple. }
  2:{ right. by subst. }
  clear Hsimple.
  destruct (Z.ltb_spec (depth unp1) MAX_DEPTH) as [Hlt|Hge].
  2:{ right. by subst. }
  unfold MAX_DEPTH in Hlt.
  cbn [negb] in Hres1, Hres2.
  (* the argument type *)
  unfold bind at 1 in Hres1. unfold bind at 1 in Hres2.
  cbn [emit oot exprs unp_types depth stack] in Hres1, Hres2.
  rewrite Hat, Hrt in Hres1, Hres2.
  unfold bind at 1 in Hres1. unfold bind at 1 in Hres2.
  erewrite on_unp_types_Ok in Hres1 by (cbn [unp_types slot_of]; reflexivity).
  erewrite on_unp_types_Ok in Hres2 by (cbn [unp_types slot_of]; reflexivity).
  cbn [oot exprs unp_types depth stack] in Hres1, Hres2.
  unfold bind at 1 in Hres1. unfold bind at 1 in Hres2.
  match type of Hres1 with
  | context [unparse_type_ fuel a ?u1] =>
    match type of Hres2 with
    | context [unparse_type_ fuel a ?u2] =>
      destruct (IH u1 u2 a)
        as [(s4 & unp4a & unp4b & Hrun4a & Hrun4b & Hx4a & Hx4b & Hnl4
             & Hinv4a & Hinv4b & Hag4 & Hd4 & HT4a & HT4b)|[Hu1 Hu2]];
        [apply unp_inv_mk; [done|done|unfold MAX_DEPTH; lia|
                            by rewrite length_insert]
        |apply unp_inv_mk; [done|done|unfold MAX_DEPTH; lia|
                            by rewrite length_insert]
        |by split
        |done|cbn [depth]; unfold MAX_DEPTH; lia| |]
    end
  end.
  2:{ right. rewrite Hu1 in Hres1. rewrite Hu2 in Hres2. by subst. }
  rewrite Hrun4a in Hres1. rewrite Hrun4b in Hres2.
  cbn [depth stack oot unp_types] in Hd4, Hx4a, Hx4b, HT4a, HT4b.
  destruct Hag4 as (Hd4ab & Hst4 & HT4).
  destruct Hinv4a as (Hs4a & Hl4a & Hex4a & Hdd4a & Hstl4a).
  destruct Hinv4b as (Hs4b & Hl4b & Hex4b & Hdd4b & Hstl4b).
  (* the return type *)
  unfold bind at 1 in Hres1. unfold bind at 1 in Hres2.
  cbn [emit oot exprs unp_types depth stack] in Hres1, Hres2.
  unfold bind at 1 in Hres1. unfold bind at 1 in Hres2.
  erewrite on_unp_types_Ok in Hres1 by (cbn [unp_types slot_of]; reflexivity).
  erewrite on_unp_types_Ok in Hres2 by (cbn [unp_types slot_of]; reflexivity).
  cbn [oot exprs unp_types depth stack] in Hres1, Hres2.
  unfold bind at 1 in Hres1. unfold bind at 1 in Hres2.
  rewrite Hex4a in Hres1. rewrite Hex4b in Hres2.
  match type of Hres1 with
  | context [unparse_type_ fuel r ?u1] =>
    match type of Hres2 with
    | context [unparse_type_ fuel r ?u2] =>
      destruct (IH u1 u2 r)
        as [(s6 & unp6a & unp6b & Hrun6a & Hrun6b & Hx6a & Hx6b & Hnl6
             & Hinv6a & Hinv6b & Hag6 & Hd6 & HT6a & HT6b)|[Hu1 Hu2]];
        [by apply unp_inv_mk|by apply unp_inv_mk|by split
        |done|cbn [depth]; unfold MAX_DEPTH; lia| |]
    end
  end.
  2:{ right. rewrite Hu1 in Hres1. rewrite Hu2 in Hres2. by subst. }
  rewrite Hrun6a in Hres1. rewrite Hrun6b in Hres2.
  cbn [depth stack oot unp_types] in Hd6, Hx6a, Hx6b, HT6a, HT6b.
  destruct Hag6 as (Hd6ab & Hst6 & HT6).
  destruct Hinv6a as (Hs6a & Hl6a & Hex6a & Hdd6a & Hstl6a).
  destruct Hinv6b as (Hs6b & Hl6b & Hex6b & Hdd6b & Hstl6b).
  (* the pop *)
  unfold bind at 1 in Hres1. unfold bind at 1 in Hres2.
  cbn [emit oot exprs unp_types depth stack] in Hres1, Hres2.
  unfold unparse_pop in Hres1, Hres2.
  unfold bind at 1 in Hres1. unfold bind at 1 in Hres2.
  cbn [get oot exprs unp_types depth stack] in Hres1, Hres2.
  rewrite <- Hd6ab, Hd6, Hd4 in Hres2. rewrite Hd6, Hd4 in Hres1.
  rewrite i32_small in Hres1, Hres2 by (unfold INT32_MAX; lia).
  replace (depth unp1 + 1 - 1) with (depth unp1) in Hres1, Hres2 by lia.
  destruct (Z.leb_spec 0 (depth unp1)); [|lia].
  cbn [negb] in Hres1, Hres2.
  unfold bind at 1 in Hres1. unfold bind at 1 in Hres2.
  rewrite DIE_IF_false in Hres1, Hres2.
  cbn [set_depth oot exprs unp_types depth stack] in Hres1, Hres2.
  rewrite u32_small in Hres1, Hres2 by lia.
  rewrite Hex6a in Hres1. rewrite Hex6b in Hres2.
  left. exists (name +:+ "=(" +:+ s4 +:+ " " +:+ s6 +:+ ")").
  eexists _, _. split; [exact Hres1|]. split; [exact Hres2|].
  cbn [oot depth stack unp_types].
  split; [|split; [|split; [|split; [|split; [|split; [|split; [|split]]]]]]].
  - rewrite Hx6a, Hx4a, !fputc_char. unfold fputs.
    by rewrite !string_app_assoc.
  - rewrite Hx6b, Hx4b, !fputc_char. unfold fputs.
    by rewrite !string_app_assoc.
  - repeat (apply no_newline_app; [done|]). done.
  - apply unp_inv_mk; [done|done|unfold MAX_DEPTH; lia|done].
  - apply unp_inv_mk; [done|done|unfold MAX_DEPTH; lia|done].
  - by split.
  - done.
  - eapply same_types_trans; [apply HT1|].
    exact (same_types_trans _ _ _ HT4a HT6a).
  - eapply same_types_trans; [apply HT2|].
    exact (same_types_trans _ _ _ HT4b HT6b).
Qed.

(** ** [act_type] prints one line per node *)

(** [unparse_type] on two solved trees with the same classes: the same
    line, whatever the stream holds and whatever was compressed before. *)
Lemma unparse_type_agree (e : expr) (tt1 tt2 : TypeTree)
    (out1 out2 : string) (k : nat) :
  wf_expr e → Forall (λ x, unpackable x = true) (flatten e) →
  Z.of_nat (length (flatten e)) < 2 ^ 32 →
  slots_inv (length (flatten e)) (types tt1) →
  length (types tt1) = length (flatten e) → postfix tt1 = flatten e →
  slots_inv (length (flatten e)) (types tt2) →
  length (types tt2) = length (flatten e) → postfix tt2 = flatten e →
  same_types (types tt1) (types tt2) → (k < length (flatten e))%nat →
  (∃ line tt1' tt2',
      unparse_type out1 tt1 k = Ok (out1 +:+ line, tt1')
      ∧ unparse_type out2 tt2 k = Ok (out2 +:+ line, tt2')
      ∧ no_newline line = true
      ∧ slots_inv (length (flatten e)) (types tt2')
      ∧ length (types tt2') = length (flatten e)
      ∧ postfix tt2' = flatten e
      ∧ same_types (types tt2) (types tt2'))
  ∨ (unparse_type out1 tt1 k = Undefined StackIndex
     ∧ unparse_type out2 tt2 k = Undefined StackIndex).
Proof.
  intros Hwf Hall Hmax Hs1 Hl1 Hp1 Hs2 Hl2 Hp2 HT Hk. unfold unparse_type.
  rewrite Hp1, Hp2.
  destruct (unparse_type__agree e (S (Z.to_nat MAX_DEPTH))
              (mkUnparser out1 (flatten e) (types tt1) 0
                 (replicate (Z.to_nat MAX_DEPTH) None))
              (mkUnparser out2 (flatten e) (types tt2) 0
                 (replicate (Z.to_nat MAX_DEPTH) None)) k Hwf Hall Hmax)
    as [(line & u1 & u2 & Hrun1 & Hrun2 & Hx1 & Hx2 & Hnl & _ & Hinv2 & _
         & _ & _ & HT2)|[Hu1 Hu2]].
  - apply unp_inv_mk; [done|done|unfold MAX_DEPTH; lia|].
    by rewrite length_replicate.
  - apply unp_inv_mk; [done|done|unfold MAX_DEPTH; lia|].
    by rewrite length_replicate.
  - by split.
  - done.
  - cbn [depth]. unfold MAX_DEPTH. lia.
  - left. rewrite Hrun1, Hrun2. cbn [obind oot] in *.
    destruct Hinv2 as (Hs2' & Hl2' & _).
    exists line. eexists _, _. rewrite Hx1, Hx2.
    split; [reflexivity|]. split; [reflexivity|].
    by cbn [types postfix].
  - right. by rewrite Hu1, Hu2.
Qed.

(** The loop of [act_type], after any number of lines: line [i] of what
    follows is the line of slot [k + i] of the tree as it was solved. *)
Lemma act_type_from_lines (e : expr) (tt0 : TypeTree) (n k : nat)
    (out : string) (ttree : TypeTree) :
  wf_expr e → Forall (λ x, unpackable x = true) (flatten e) →
  Z.of_nat (length (flatten e)) < 2 ^ 32 →
  slots_inv (length (flatten e)) (types tt0) →
  length (types tt0) = length (flatten e) → postfix tt0 = flatten e →
  slots_inv (length (flatten e)) (types ttree) →
  length (types ttree) = length (flatten e) → postfix ttree = flatten e →
  same_types (types tt0) (types ttree) →
  (k + n ≤ length (flatten e))%nat →
  (∃ lines, length lines = n ∧ Forall (λ l, no_newline l = true) lines
     ∧ act_type_from n k out ttree = Ok (out +:+ unlines lines)
     ∧ ∀ i line, lines !! i = Some line →
         ∃ tt', unparse_type EmptyString tt0 (k + i) = Ok (line, tt'))
  ∨ (act_type_from n k out ttree = Undefined StackIndex
     ∧ ∃ i, (k ≤ i < k + n)%nat
         ∧ unparse_type EmptyString tt0 i = Undefined StackIndex).
Proof.
  intros Hwf Hall Hmax Hs0 Hl0 Hp0. revert k out ttree.
  induction n as [|n IH]; intros k out ttree Hs Hl Hp HT Hk.
  { left. exists []. cbn. rewrite string_app_nil_r.
    split; [done|]. split; [done|]. split; [done|]. by intros i line. }
  cbn [act_type_from].
  destruct (unparse_type_agree e tt0 ttree EmptyString out k Hwf Hall Hmax
              Hs0 Hl0 Hp0 Hs Hl Hp HT ltac:(lia))
    as [(line & tt0' & ttree' & Hrun0 & Hrun & Hnl & Hs' & Hl' & Hp' & HT')
       |[Hu0 Hu]].
  2:{ right. rewrite Hu. split; [done|]. exists k. split; [lia|done]. }
  rewrite Hrun. cbn [obind].
  destruct (IH (S k) (fputc (code "010") (out +:+ line)) ttree' Hs' Hl' Hp'
              (same_types_trans _ _ _ HT HT') ltac:(lia))
    as [(lines & Hn & Hls & Hrest & Hline)|(Hu & i & Hi & Hui)].
  2:{ right. split; [done|]. exists i. split; [lia|done]. }
  left. exists (line :: lines). split; [cbn; lia|].
  split; [by constructor|]. split.
  - rewrite Hrest. f_equal.
    rewrite fputc_char. cbn [unlines]. unfold newline.
    by rewrite !string_app_assoc.
  - intros [|i] l Hi; cbn in Hi.
    + injection Hi as <-. rewrite Nat.add_0_r. by exists tt0'.
    + replace (k + S i)%nat with (S k + i)%nat by lia. by apply Hline.
Qed.

(** X15: on a parsed application-only program [act_type] writes exactly
    one line for each node, in the order of the nodes: what it appends to
    the stream is, for slot 0, 1, ... in turn, the text that
    [unparse_type] writes for that slot of the tree as [build_type_tree]
    solved it, followed by one line break.  The lines do not depend on
    what the stream already holds nor on the path compression that the
    lines before left in the slots, and no line contains a line break.
    The only other outcome is the unchecked store past the end of the
    printer's stack, which then also happens when one of the slots is
    printed on its own. *)
Theorem act_type_prints_a_line_per_node (name src out : string) (ast : Ast) :
  parse name src = Ok ast → nodes ast ≠ [] →
  Forall (λ n, unpackable n = true) (nodes ast) →
  ∃ ttree, build_type_tree ast = Ok ttree
    ∧ ((∃ lines, length lines = length (nodes ast)
          ∧ Forall (λ l, no_newline l = true) lines
          ∧ act_type out ast = Ok (out +:+ unlines lines)
          ∧ ∀ k line, lines !! k = Some line →
              ∃ ttree', unparse_type EmptyString ttree k = Ok (line, ttree'))
       ∨ (act_type out ast = Undefined StackIndex
          ∧ ∃ k, (k < length (nodes ast))%nat
              ∧ unparse_type EmptyString ttree k = Undefined StackIndex)).
Proof.
  intros Hp Hne Hall.
  destruct (parse_flatten _ _ _ Hp) as [[Hnil|(e & Hwf & He)] Hmax]; [done|].
  rewrite He in Hall, Hmax. rewrite He.
  destruct (build_type_tree_typed e ast Hwf He Hmax Hall)
    as (ttree & Hb & (Hinv & Hlen & _) & Hpost & Hsz).
  exists ttree. split; [done|].
  unfold act_type. rewrite Hb. cbn [obind]. rewrite Hsz, Nat2Z.id.
  destruct (act_type_from_lines e ttree (length (flatten e)) 0 out ttree)
    as [(lines & Hn & Hls & Hrun & Hline)|(Hu & i & Hi & Hui)];
    [done|done|done|done|congruence|done|done|congruence|done
    |apply same_types_refl|lia| |].
  - left. exists lines. by repeat split.
  - right. split; [done|]. exists i. split; [lia|done].
Qed.

Lemma act_type_prints_a_line_per_node_witness :
  ∃ ast ttree, parse "prog" "f x (g x)" = Ok ast
    ∧ build_type_tree ast = Ok ttree
    ∧ act_type "out:" ast
      = Ok ("out:" +:+ unlines ["F=(X Fr=(Gr Frr))"; "X"; "Fr=(Gr Frr)";
                                "G=(X Gr)"; "X"; "Gr"; "Frr"])
    ∧ ((∃ lines, length lines = length (nodes ast)
          ∧ Forall (λ l, no_newline l = true) lines
          ∧ act_type "out:" ast = Ok ("out:" +:+ unlines lines)
          ∧ ∀ k line, lines !! k = Some line →
              ∃ ttree', unparse_type EmptyString ttree k = Ok (line, ttree'))
       ∨ (act_type "out:" ast = Undefined StackIndex
          ∧ ∃ k, (k < length (nodes ast))%nat
              ∧ unparse_type EmptyString ttree k = Undefined StackIndex)).
Proof.
  destruct (act_type_prints_a_line_per_node "prog" "f x (g x)" "out:"
              (set_nodes (new_ast "prog" "f x (g x)")
                 [Var 5; Var 23; Call 1; Var 6; Var 23; Call 1; Call 3]))
    as (ttree & Hb & Hlines);
    [vm_compute; reflexivity|discriminate|repeat constructor|].
  eexists _, ttree. split; [vm_compute; reflexivity|].
  split; [exact Hb|]. split; [vm_compute; reflexivity|]. exact Hlines.
Defined.
